(* ===== verification/_CoqProject ===== *)
-Q . S2P
Prelude.v
Errors.v
ReplayWindow.v
Clock.v
Packet.v
Crypto.v
Session.v
Handshake.v
RateLimiter.v
Tunnel.v
TunnelRuns.v
TunnelTransport.v
TunnelStats.v
IndexLfsr.v
Quota.v
PaymentProtocol.v
RustText.v
Utf8.v
Json.v
NetText.v
Eip3009.v
Rlp.v
Settlement.v
AllowedIps.v
Serialization.v
Deposit.v
Ens.v
Contracts.v
Effects.v
Vpn.v
VpnRuns.v
App.v
Relay.v
Ffi.v
Jni.v
Unix.v
Device.v
DeviceHandlers.v
Api.v
Registration.v
DevLock.v
Epoll.v
Kqueue.v
Startup.v
RegistrationRuns.v
DeviceTotal.v
DeviceRuns.v
ApiRuns.v
RegistrationReport.v
RegistrationDevice.v
DevicePayments.v
DeviceRouting.v
