(* ===== verification/Prelude.v ===== *)
(** * Veil VPN: a verification of the tunnel, the payment layer and the node

    The program under [src/protocol/boringtun] is a WireGuard implementation (the
    [noise] layer), with bandwidth sold against signed token transfers (the [payment]
    layer), run as a network device (the [device] layer) whose peers a registration
    server adds and removes. The desktop client under [src/client/src-tauri] finds a
    node, registers with it and configures the machine. The development models these
    parts as functions on explicit state and proves what makes them correct.

    ** Conventions

    Source paths are relative to [src/protocol/boringtun/src], those of the client to
    [src/client/src-tauri/src]. A definition has the
    name of the function it translates where Rocq allows it. Bytes are [Byte.byte],
    strings are byte strings; machine integers are [Z], and an operation that can
    overflow is followed by [wrap w], as in a release build. A function that can
    return an error returns [result], one that can panic returns [outcome]: panics
    are out-of-range slices and indices, failed assertions, [unwrap] of nothing,
    negative durations, the end of the index register. State is passed explicitly and
    returned on every path, since the source mutates it before early returns. Peers
    and rate limiters, which the source shares with [Arc], are references into heaps.
    Buffers are represented by their length. The build is the one with the feature
    [payment].

    Clocks and randomness are the class [Env]: a [World] counts how often they have
    been read. [MonotoneClock] and [EpochClock] say that the monotonic clock does not
    go back and that the wall clock is after 1970. Third-party code is a class of
    operations with a class of the laws it documents: [Crypto] (Crypto),
    [Ethereum] (Eip3009), [Hex] (RustText), [Base64] (Serialization), [IpCrates]
    (AllowedIps), [Json] (Json), [Rpc], the exchange with a JSON-RPC server (Deposit),
    [Kernel] and [Sockets], the descriptors behind the event queue (Epoll), [Kqueue], its
    counterpart on the BSDs (Kqueue), [Pick], the order of a hash set, [Uapi], the far
    end of the control socket (Registration), and [WorldId], the verification service (App).
    The machine that the client configures (Vpn) and the network of the WebSocket relays
    (Relay) are a [Machine] (Effects), which answers operations, with a record of them.
    HTTP requests are function arguments. Every
    class has an executable instance ([toy_crypto], [toy_ip], ...) on which the
    witnesses are evaluated; no property depends on those.

    ** The noise layer

    - Errors: [noise/errors.rs]. Clock: [sleepyinstant], [std::time::Duration].
    - ReplayWindow: the counter validator of [noise/session.rs]. The bitmap refines
      the set of accepted counters, so that no counter is accepted twice below
      [2^64 - 1]; at that counter the position wraps, and the window forgets.
    - Packet: [parse_incoming_packet] of [noise/mod.rs], inverse of the wire layout.
    - Crypto, Handshake: [noise/handshake.rs]. Both sides derive the same keys,
      initiations are authenticated and not accepted twice.
    - Session: [noise/session.rs]. Over any network schedule a session delivers what
      was sent, at most once; nonces are not reused.
    - RateLimiter: [noise/rate_limiter.rs]. What is admitted under load, and the
      cookie exchange.
    - Tunnel: [Tunn] of [noise/mod.rs] and the timers of [noise/timers.rs].
      TunnelRuns: no sequence of operations panics; sessions and connections expire;
      truncation; the packet queue. TunnelStats: the loss estimate, in binary32, visits
      every session and is zero when nothing was lost. TunnelTransport: two fresh tunnels establish a
      session and deliver the packet that started it.

    ** The payment layer

    - Quota: [payment/quota.rs]. PaymentProtocol: the messages of
      [payment/protocol.rs]; parsing inverts building and never panics.
    - Eip3009: [payment/wallet.rs], [payment/eip3009.rs]. A signature verifies to the
      signer; the digest binds every field unless two hashes collide, which the
      statement exhibits. Rlp: [payment/tx.rs], against a reference decoder.
    - Settlement: [payment/settlement.rs] and the configuration of [payment/mod.rs].
    - Deposit: [payment/rpc.rs], [payment/deposit.rs], over a recorded exchange with the
      server: what is sent decodes to the deposit that the wallet authorised.

    ** The device layer

    - RustText, Utf8, NetText, Serialization: what the source uses of [str], [String] and
      [std::net] on text, with [serialization.rs] and the parser of [AllowedIP]. Json:
      the values of [serde_json].
    - IndexLfsr: the index register of [device/mod.rs], with its period.
    - AllowedIps: [device/allowed_ips.rs], longest prefix and last insertion.
    - Device, DeviceHandlers: [device/peer.rs] and [device/mod.rs]: peers and their
      maps, keys, the handlers of datagrams, interface packets and timers, and the
      payment handlers. A handler runs with the mutex of its peer held and is one
      step; the results of socket calls are part of the event.
    - DeviceTotal, DeviceRuns: [reachable] states satisfy [dev_inv], and every
      admissible event returns. DeviceRouting: cryptokey routing. DevicePayments:
      what is credited, the exchange of a payment, and the bound of the traffic by
      what was granted.
    - DevLock: [device/dev_lock.rs] as a transition system over threads: exclusion,
      completion of every call under every schedule, and the effect of a panic.
    - Epoll: [device/epoll.rs] with the event loop and the listening sockets of
      [device/mod.rs], down to descriptors and the raw pointers of the events: no freed
      event is used, and each is freed once. Kqueue: [device/kqueue.rs] the same way;
      notifications last until they are stopped, and a second event for a descriptor is
      lost.
    - Api: the control socket of [device/api.rs]. ApiRuns: requests end, and the text
      of a configuration has the effect of the calls it stands for.
    - Registration: the HTTP server and the reaper of [device/http_api.rs], with the
      token bucket in binary64 ([Floats.SpecFloat]). RegistrationRuns: the address
      pool. RegistrationReport, RegistrationDevice: server and device together, over
      the control socket: what is reported, granted and removed, and that the server
      does not make the device panic; the two races in which it misbehaves.
    - Unix: [device/tun_linux.rs], [device/tun_darwin.rs] and [device/drop_privileges.rs]
      over operations on descriptors and, for the last, the identities of the process (the
      class [Identity], with POSIX as its law): which descriptors stay open, packets with
      their address family, and that privileges do not come back.
    - Relay: [device/ws_bridge.rs] and [device/ws_proxy.rs], which carry datagrams over a
      WebSocket: what they receive and send after any number of rounds is what a
      transducer promises, and end to end the tunnel is a queue in each direction.
    - Startup: [boringtun-cli/src/main.rs] with the creation of the device in
      [device/mod.rs] and [device/api.rs], on the queue of Epoll, the interface of Unix and
      the calls of the process: a created device serves exactly its events, no freed event
      is used from the start to the end, the starting process is told the truth, and which
      sockets are left behind; a second worker on a given descriptor frees an event in use.

    ** Interfaces to other languages

    - Ffi: [ffi/mod.rs] over a memory of blocks, boxes and strings. A program in C that
      keeps to the interface neither faults nor panics, and finds the tunnel's packets in
      its buffers; keys are printed, read and freed without loss. Jni: [jni.rs], with the
      virtual machine as the class [Jvm]; what it does not give back.

    ** The desktop client

    - Ens: [ens.rs]. Against a resolver that reads calls by the ABI the lookup returns
      the records of the node; a hostile answer panics it.
    - Contracts: the registry and the resolver of the name service and the attestations, under
      [src/contracts/src]: who can change the owner of a name and its records, what the
      client finds therefore, and whose attestations are kept.
    - Vpn: [vpn.rs] on every platform, each command, file and request an operation
      [Op] of the machine. VpnRuns: with a record of the operations, a failed connection
      undoes the steps it completed and [disconnect] those of a successful one; what
      either leaves behind; the wallet shown is the one that pays.
    - App: the commands of [lib.rs] and the window of [App.tsx] as one transition system:
      with commands one at a time the window tells the truth about the connection, and
      with overlapping ones it need not.

    ** Bounds and fuel

    [IndexLfsr] panics after [2^24 - 2] indices, so that statements about devices
    bound the number of peers ever added by [PERIOD]. [flush_loop] runs on the
    length of the queue, which it shortens ([flush_enough]). [api_set] runs on one
    more than the bytes left, every line being at least one byte
    ([api_set_terminates]); [lines] of the registration server likewise. The decoder
    of Rlp runs on twice the input and one ([rlp_decode_encode]). [poll_interface] makes
    at most 52 rounds of 100 ms in the five seconds it is given ([wait_terminates]).
    [trim_end_text] runs on the length of the text ([trim_end_text_spec]). The LFSR period is
    computed on the columns of the linear map, not by enumeration.

    ** Not modelled

    System calls where Epoll, Kqueue, Vpn, Relay, Unix and Startup do not have them as operations:
    the handlers of Device take their results as arguments. Threads, other than in DevLock
    and App: a handler that holds the mutexes it needs is one step, and the reaper of
    Registration, which does not, is two. Logging. In the client, the tray and what the window draws. Of the C interface the
    logging function. Of the program, how the command line is taken apart, and the unwinding
    of [main] after a panic. Of the contracts, the name wrapper, the registrars, and the
    profiles of the resolver other than texts. *)

From Stdlib Require Import ZArith Lia.
From stdpp Require Import base numbers list option countable.
From Stdlib Require Export Strings.Byte.
From coqutil Require Export Byte.
From coqutil Require Import Word.LittleEndianList.

#[global] Open Scope Z_scope.

Declare Scope rust_scope.
Delimit Scope rust_scope with rust.
#[global] Open Scope rust_scope.

(** ** Results and panics

    A Rust function that can fail returns [result]; one that can panic (a slice
    index out of range, a failed [assert!], an [unwrap] of [None], a [Duration]
    subtraction below zero) returns [outcome]. *)

Inductive result (E A : Type) : Type :=
| Ok (a : A)
| Err (e : E).
Arguments Ok {E A} a.
Arguments Err {E A} e.

Inductive outcome (A : Type) : Type :=
| Ret (a : A)
| Panic.
Arguments Ret {A} a.
Arguments Panic {A}.

Definition outcome_bind {A B} (m : outcome A) (k : A -> outcome B) : outcome B :=
  match m with
  | Ret a => k a
  | Panic => Panic
  end.

(** The two early returns of the source: [let!] lets a panic through, [let?] is
    the [?] operator in a function that may also panic. *)
Notation "'let!' x ':=' m 'in' k" := (outcome_bind m (fun x => k))
  (at level 10, x pattern, m at level 100, k at level 200,
   format "'[v' 'let!'  x  ':='  m  'in' '/' k ']'") : rust_scope.

Definition fallible_bind {E A B} (m : outcome (result E A))
    (k : A -> outcome (result E B)) : outcome (result E B) :=
  match m with
  | Ret (Ok a) => k a
  | Ret (Err e) => Ret (Err e)
  | Panic => Panic
  end.

Notation "'let?' x ':=' m 'in' k" := (fallible_bind m (fun x => k))
  (at level 10, x pattern, m at level 100, k at level 200,
   format "'[v' 'let?'  x  ':='  m  'in' '/' k ']'") : rust_scope.

(** [assert!] and slice-bound checks. *)
Definition require (b : bool) : outcome unit := if b then Ret tt else Panic.

Definition is_ok {E A} (r : result E A) : bool :=
  match r with Ok _ => true | Err _ => false end.

#[global] Instance Ok_inj {E A} : Inj (=) (=) (@Ok E A).
Proof. by intros ? ? [=]. Qed.

#[global] Instance Ret_inj {A} : Inj (=) (=) (@Ret A).
Proof. by intros ? ? [=]. Qed.

Definition ok {E A} (r : result E A) : option A :=
  match r with Ok a => Some a | Err _ => None end.

(** [opt.unwrap()] / [opt.expect(..)]. *)
Definition unwrap {A} (o : option A) : outcome A :=
  match o with Some a => Ret a | None => Panic end.

(** Code that talks to the outside and stops at its first error: the state [S] is what
    is at the other end, [let*] is the [?] operator. *)
Definition action (S E A : Type) : Type := S -> result E A * S.

Definition act_ret {S E A} (a : A) : action S E A := fun s => (Ok a, s).
Definition act_fail {S E A} (e : E) : action S E A := fun s => (Err e, s).
Definition act_bind {S E A B} (m : action S E A) (k : A -> action S E B) : action S E B := fun s =>
  match m s with
  | (Ok a, s) => k a s
  | (Err e, s) => (Err e, s)
  end.

Notation "'let*' x ':=' m 'in' k" := (act_bind m (fun x => k))
  (at level 10, x pattern, m at level 100, k at level 200,
   format "'[v' 'let*'  x  ':='  m  'in' '/' k ']'") : rust_scope.

Lemma act_bind_inv {S E A B} (m : action S E A) (k : A -> action S E B) s b s' :
  act_bind m k s = (Ok b, s') -> exists a s1, m s = (Ok a, s1) /\ k a s1 = (Ok b, s').
Proof. unfold act_bind. destruct (m s) as [[a|e] s1]; [eauto|discriminate]. Qed.

Lemma bind_Ret_inv {A B} (m : outcome A) (k : A -> outcome B) b :
  outcome_bind m k = Ret b -> exists a, m = Ret a /\ k a = Ret b.
Proof. destruct m; simpl; [eauto | discriminate]. Qed.

(** ** Machine integers

    A [w]-bit unsigned integer is a [Z]; operators that overflow wrap modulo
    [2^w], the behaviour of the release profile, which the workspace
    [Cargo.toml] leaves at its default (no overflow checks). *)

Definition wrap (w : Z) (z : Z) : Z := z mod 2 ^ w.
Definition in_width (w : Z) (z : Z) : Prop := 0 <= z < 2 ^ w.

Abbreviation u8_range := (in_width 8).
Abbreviation u16_range := (in_width 16).
Abbreviation u32_range := (in_width 32).
Abbreviation u64_range := (in_width 64).

Definition add64 (a b : Z) : Z := wrap 64 (a + b).
Definition sub64 (a b : Z) : Z := wrap 64 (a - b).

Lemma wrap_small w z : in_width w z -> wrap w z = z.
Proof. apply Z.mod_small. Qed.

Lemma wrap_in_width w z : 0 <= w -> in_width w (wrap w z).
Proof. intros. apply Z.mod_pos_bound. lia. Qed.

Lemma add64_small a b : 0 <= a + b < 2 ^ 64 -> add64 a b = a + b.
Proof. apply Z.mod_small. Qed.

Lemma sub64_small a b : 0 <= a - b < 2 ^ 64 -> sub64 a b = a - b.
Proof. apply Z.mod_small. Qed.

(** Bits of numbers of known width. *)
Lemma testbit_above k r n : in_width k r -> 0 <= k <= n -> Z.testbit r n = false.
Proof. intros Hr Hn. rewrite <- (Z.mod_small r (2 ^ k)) by apply Hr. by apply Z.mod_pow2_bits_high. Qed.

(** A field of [k] bits below a shifted one. *)
Lemma shiftl_lor_add q r k : 0 <= k -> in_width k r -> Z.lor (Z.shiftl q k) r = q * 2 ^ k + r.
Proof.
  intros Hk Hr. rewrite <- Z.shiftl_mul_pow2 by lia. rewrite <- Z.add_lor_land.
  assert (Z.land (Z.shiftl q k) r = 0) as ->; [|lia].
  apply Z.bits_inj'. intros n Hn. rewrite Z.land_spec, Z.bits_0, Z.shiftl_spec by lia.
  destruct (Z.ltb_spec n k).
  - by rewrite Z.testbit_neg_r by lia.
  - by rewrite (testbit_above k r n), andb_false_r by (done || lia).
Qed.

(** Masking off the low [k] bits of a [w]-bit number. *)
Lemma land_high_mask w k x :
  0 <= k <= w -> in_width w x ->
  Z.land x (Z.lxor (Z.ones k) (Z.ones w)) = Z.shiftl (x / 2 ^ k) k.
Proof.
  intros Hk Hx. apply Z.bits_inj'. intros n Hn.
  rewrite Z.land_spec, Z.lxor_spec, Z.shiftl_spec, !Z.testbit_ones_nonneg by lia.
  destruct (Z.ltb_spec n k), (Z.ltb_spec n w); simpl; try lia.
  - by rewrite (Z.testbit_neg_r _ (n - k)), andb_false_r by lia.
  - rewrite andb_true_r, <- Z.shiftr_div_pow2, Z.shiftr_spec by lia. f_equal. lia.
  - rewrite <- Z.shiftr_div_pow2, Z.shiftr_spec, andb_false_r by lia.
    symmetry. apply (testbit_above w); [done|lia].
Qed.

(** ** Loops

    [while] is a source loop run for at most [fuel] iterations; [while_exits]
    shows a given fuel is enough by a measure, after which the loop condition is
    false and the result is the loop's. *)

Fixpoint while {S} (fuel : nat) (cond : S -> bool) (body : S -> S) (s : S) : S :=
  match fuel with
  | O => s
  | S f => if cond s then while f cond body (body s) else s
  end.

Section While.
Context {S : Type} (cond : S -> bool) (body : S -> S).
Context (m : S -> nat) (I : S -> Prop).
Hypothesis body_inv : forall s, I s -> cond s = true -> I (body s).
Hypothesis body_measure : forall s, I s -> cond s = true -> (m (body s) < m s)%nat.

Lemma while_exits fuel s :
  I s -> (m s <= fuel)%nat ->
  I (while fuel cond body s) /\ cond (while fuel cond body s) = false.
Proof.
  revert s. induction fuel as [|f IH]; intros s Hs Hm; simpl.
  - split; [done|]. destruct (cond s) eqn:E; [|done].
    pose proof (body_measure s Hs E). lia.
  - destruct (cond s) eqn:E; [|done].
    apply IH; [auto|]. pose proof (body_measure s Hs E). lia.
Qed.
End While.

(** ** Bytes and byte order *)

Abbreviation bytes := (list byte).

#[global] Instance byte_eq_decision : EqDecision byte := Byte.byte_eq_dec.

#[global] Program Instance byte_countable : Countable byte :=
  inj_countable Byte.to_N Byte.of_N Byte.of_to_N.

Abbreviation u8 := byte.unsigned.
Abbreviation of_u8 := byte.of_Z.

Lemma u8_of_u8 z : 0 <= z < 256 -> u8 (of_u8 z) = z.
Proof. intros. rewrite byte.unsigned_of_Z. unfold byte.wrap. by rewrite Z.mod_small. Qed.

(** [to_le_bytes] / [from_le_bytes] and the big-endian pair, at [n] bytes. *)
Definition to_le (n : nat) (z : Z) : bytes := le_split n z.
Definition from_le (l : bytes) : Z := le_combine l.
Definition to_be (n : nat) (z : Z) : bytes := rev (le_split n z).
Definition from_be (l : bytes) : Z := le_combine (rev l).

Definition zeros (n : nat) : bytes := replicate n Byte.x00.

Lemma length_to_le n z : length (to_le n z) = n.
Proof. apply length_le_split. Qed.

Lemma length_to_be n z : length (to_be n z) = n.
Proof. unfold to_be. rewrite length_rev. apply length_le_split. Qed.

Lemma length_zeros n : length (zeros n) = n.
Proof. apply length_replicate. Qed.

Lemma zeros_add n m : zeros (n + m) = zeros n ++ zeros m.
Proof. apply replicate_add. Qed.

Lemma from_to_le n z : in_width (Z.of_nat n * 8) z -> from_le (to_le n z) = z.
Proof. intros. unfold from_le, to_le. rewrite le_combine_split. by apply Z.mod_small. Qed.

Lemma from_to_be n z : in_width (Z.of_nat n * 8) z -> from_be (to_be n z) = z.
Proof.
  intros. unfold from_be, to_be. rewrite rev_involutive, le_combine_split.
  by apply Z.mod_small.
Qed.

Lemma from_to_le4 z : u32_range z -> from_le (to_le 4 z) = z.
Proof. exact (from_to_le 4 z). Qed.

Lemma from_to_le8 z : u64_range z -> from_le (to_le 8 z) = z.
Proof. exact (from_to_le 8 z). Qed.

Lemma to_from_le n l : length l = n -> to_le n (from_le l) = l.
Proof. apply split_le_combine'. Qed.

Lemma to_from_be n l : length l = n -> to_be n (from_be l) = l.
Proof.
  intros. unfold to_be, from_be.
  rewrite split_le_combine' by (rewrite length_rev; done).
  apply rev_involutive.
Qed.

Lemma from_le_range l : in_width (Z.of_nat (length l) * 8) (from_le l).
Proof.
  unfold in_width, from_le. rewrite Z.mul_comm. apply le_combine_bound.
Qed.

Lemma from_be_range l : in_width (Z.of_nat (length l) * 8) (from_be l).
Proof.
  unfold in_width, from_be. rewrite Z.mul_comm, <- length_rev. apply le_combine_bound.
Qed.

Lemma to_le_inj n a b :
  in_width (Z.of_nat n * 8) a -> in_width (Z.of_nat n * 8) b -> to_le n a = to_le n b -> a = b.
Proof.
  intros Ha Hb H. rewrite <- (from_to_le n a), <- (from_to_le n b) by done.
  by rewrite H.
Qed.

Lemma to_be_inj n a b :
  in_width (Z.of_nat n * 8) a -> in_width (Z.of_nat n * 8) b -> to_be n a = to_be n b -> a = b.
Proof.
  intros Ha Hb H. rewrite <- (from_to_be n a), <- (from_to_be n b) by done.
  by rewrite H.
Qed.

Lemma le_combine_cons b l : le_combine (b :: l) = le_combine l * 256 + byte.unsigned b.
Proof.
  change (le_combine (b :: l)) with (Z.lor (byte.unsigned b) (Z.shiftl (le_combine l) 8)).
  rewrite Z.lor_comm. apply (shiftl_lor_add _ _ 8); [lia|].
  apply byte.unsigned_range.
Qed.

Lemma le_combine_snoc l b :
  le_combine (l ++ [b]) = le_combine l + byte.unsigned b * 2 ^ (8 * Z.of_nat (length l)).
Proof.
  induction l as [|a l IH]; cbn [app length].
  - rewrite le_combine_1. change (le_combine []) with 0. rewrite Z.mul_0_r, Z.pow_0_r. lia.
  - rewrite !le_combine_cons, IH. rewrite Nat2Z.inj_succ, Z.mul_succ_r, Z.pow_add_r by lia. lia.
Qed.

Lemma from_be_cons b l :
  from_be (b :: l) = byte.unsigned b * 2 ^ (8 * Z.of_nat (length l)) + from_be l.
Proof.
  unfold from_be. cbn [rev]. rewrite le_combine_snoc, length_rev. lia.
Qed.

(** ** Slices

    [sub l i j] is the value of [l[i..j]]; [slice] is the expression, which
    panics unless [i <= j <= l.len()]. *)

Definition sub {A} (l : list A) (i j : nat) : list A := take (j - i) (drop i l).

Definition slice {A} (l : list A) (i j : nat) : outcome (list A) :=
  if bool_decide (i <= j)%nat && bool_decide (j <= length l)%nat then Ret (sub l i j) else Panic.

(** [l[i]] *)
Definition index {A} (l : list A) (i : nat) : outcome A := unwrap (l !! i).

Lemma slice_ok {A} (l : list A) i j :
  (i <= j)%nat -> (j <= length l)%nat -> slice l i j = Ret (sub l i j).
Proof. intros. unfold slice. by rewrite !bool_decide_eq_true_2. Qed.

Lemma slice_Ret_inv {A} (l : list A) i j r :
  slice l i j = Ret r -> (i <= j <= length l)%nat /\ r = sub l i j.
Proof.
  unfold slice. repeat case_bool_decide; simpl; intros; simplify_eq; auto.
Qed.

Lemma length_sub {A} (l : list A) i j :
  (i <= j)%nat -> (j <= length l)%nat -> length (sub l i j) = (j - i)%nat.
Proof. intros. unfold sub. rewrite length_take, length_drop. lia. Qed.

Lemma index_ok {A} (l : list A) i : (i < length l)%nat -> exists x, index l i = Ret x /\ l !! i = Some x.
Proof.
  intros [x Hx]%lookup_lt_is_Some. exists x. unfold index. by rewrite Hx.
Qed.

(** Reading a field out of a concatenation of fields. *)
Lemma sub_app_skip {A} (a r : list A) i j :
  (length a <= i)%nat -> sub (a ++ r) i j = sub r (i - length a) (j - length a).
Proof.
  intros. unfold sub. rewrite drop_app_ge by done. f_equal. lia.
Qed.

Lemma sub_app_shift {A} n (a r : list A) i j i' j' :
  length a = n -> i = (n + i')%nat -> j = (n + j')%nat -> sub (a ++ r) i j = sub r i' j'.
Proof. intros <- -> ->. rewrite sub_app_skip by lia. f_equal; lia. Qed.

Lemma sub_app_head {A} (a r : list A) j : j = length a -> sub (a ++ r) 0 j = a.
Proof. intros ->. unfold sub. rewrite drop_0, Nat.sub_0_r. apply take_app_length. Qed.

Lemma sub_all {A} (a : list A) j : j = length a -> sub a 0 j = a.
Proof. intros ->. unfold sub. rewrite drop_0, Nat.sub_0_r. apply firstn_all. Qed.

Lemma sub_full_drop {A} (l : list A) i : sub l i (length l) = drop i l.
Proof. unfold sub. apply take_ge. rewrite length_drop. lia. Qed.

Lemma from_be_zeros n l : from_be (zeros n ++ l) = from_be l.
Proof.
  induction n as [|n IH]; [done|]. unfold zeros in *. cbn [replicate app]. rewrite from_be_cons, IH.
  change (byte.unsigned Byte.x00) with 0. lia.
Qed.

#[global] Opaque to_le from_le to_be from_be zeros.
Arguments sub : simpl never.

(** ** Automation *)

Create HintDb veil.
#[export] Hint Resolve wrap_in_width from_le_range from_be_range : veil.
Create Rewrite HintDb len.
#[export] Hint Rewrite length_to_le length_to_be length_zeros @length_app @length_replicate
  @length_insert @length_nil : len.

(** Lengths of concatenations of fields, with the field lengths in context. *)
Ltac len :=
  autorewrite with len; cbn [length];
  repeat match goal with H : length ?l = _ |- context [length ?l] => rewrite H end;
  try lia.

(** Evaluate [sub] of a right-nested concatenation of fields of known length. *)
Ltac len_of a :=
  match a with
  | to_le ?n _ => n
  | to_be ?n _ => n
  | zeros ?n => n
  | [_] => constr:(1%nat)
  | _ => match goal with H : length a = ?n |- _ => n end
  end.

Ltac field :=
  repeat match goal with
  | |- context [sub (?a ++ ?r) ?i ?j] =>
      let n := len_of a in
      match i with
      | O => rewrite (sub_app_head a r j) by len
      | _ =>
          let i' := eval cbv in (i - n)%nat in
          let j' := eval cbv in (j - n)%nat in
          rewrite (sub_app_shift n a r i j i' j') by len
      end
  | |- context [sub ?a 0 ?j] => rewrite (sub_all a j) by len
  end.

(** Case analysis on the guards of a definition under evaluation. *)
Ltac split_if :=
  match goal with
  | |- context [ if ?b then _ else _ ] => destruct b eqn:?
  | H : context [ if ?b then _ else _ ] |- _ => destruct b eqn:?
  end.

(** Turn boolean comparisons in the context into propositions. *)
Ltac bprop :=
  repeat match goal with
  | H : (_ && _) = true |- _ => apply andb_true_iff in H; destruct H
  | H : (_ || _) = false |- _ => apply orb_false_iff in H; destruct H
  | H : negb _ = true |- _ => apply negb_true_iff in H
  | H : negb _ = false |- _ => apply negb_false_iff in H
  | H : (_ <? _) = true |- _ => apply Z.ltb_lt in H
  | H : (_ <? _) = false |- _ => apply Z.ltb_ge in H
  | H : (_ <=? _) = true |- _ => apply Z.leb_le in H
  | H : (_ <=? _) = false |- _ => apply Z.leb_gt in H
  | H : (_ =? _) = true |- _ => apply Z.eqb_eq in H
  | H : (_ =? _) = false |- _ => apply Z.eqb_neq in H
  | H : bool_decide _ = true |- _ => apply bool_decide_eq_true in H
  | H : bool_decide _ = false |- _ => apply bool_decide_eq_false in H
  end.

(** Take apart an equation between a chain of binds and a return. *)
Ltac invert_binds :=
  repeat match goal with
  | H : outcome_bind _ _ = Ret _ |- _ =>
      apply bind_Ret_inv in H; destruct H as [? [? H]]
  | H : context [let '(_, _) := ?x in _] |- _ => destruct x eqn:?
  | x : _ * _ |- _ => destruct x
  end.

(** Closed integer comparisons. *)
Ltac ground :=
  vm_compute; repeat split; first [reflexivity | discriminate | lia].

(** Closed [Forall] over a list written out, with closed comparisons. *)
Ltac ground_list := repeat apply List.Forall_cons; try apply List.Forall_nil; ground.
