(* ===== verification/Errors.v ===== *)
(** * The error enumeration of the noise layer ([noise/errors.rs]). *)

From S2P Require Import Prelude.
From stdpp Require Import base decidable tactics.

Inductive WireGuardError :=
| DestinationBufferTooSmall
| IncorrectPacketLength
| UnexpectedPacket
| WrongPacketType
| WrongIndex
| WrongKey
| InvalidTai64nTimestamp
| WrongTai64nTimestamp
| InvalidMac
| InvalidAeadTag
| InvalidCounter
| DuplicateCounter
| InvalidPacket
| NoCurrentSession
| LockFailed
| ConnectionExpired
| UnderLoad.

#[global] Instance WireGuardError_eq_dec : EqDecision WireGuardError.
Proof. solve_decision. Defined.
