(* ===== verification/ReplayWindow.v ===== *)
(** * The anti-replay window of a session ([noise/session.rs])

    [ReceivingKeyCounterValidator] with its bitmap operations, [will_accept] and
    [mark_did_receive]; the specification [Window] (the highest counter and the
    set of counters already accepted) and the refinement between the two. *)

From Stdlib Require Import ZArith Lia.
From stdpp Require Import base numbers list gmap.
From S2P Require Import Prelude Errors.

Definition WORD_SIZE : Z := 64.
Definition N_WORDS : Z := 16.
Definition N_BITS : Z := WORD_SIZE * N_WORDS.

Record ReceivingKeyCounterValidator := mkValidator {
  next : Z;
  receive_cnt : Z;
  bitmap : list Z;
}.

(** [Default::default()] *)
Definition validator_default : ReceivingKeyCounterValidator :=
  mkValidator 0 0 (replicate (Z.to_nat N_WORDS) 0).

(** [!x] on a [u64] *)
Definition not64 (x : Z) : Z := Z.lxor x (Z.ones 64).

(** ** Bitmap operations

    [bit_idx / WORD_SIZE] is below [N_WORDS], so the array accesses are in
    range; the functions below act on the [bitmap] field. *)

Definition word_of (idx : Z) : nat := Z.to_nat ((idx mod N_BITS) / WORD_SIZE).
Definition bit_of (idx : Z) : Z := (idx mod N_BITS) mod WORD_SIZE.

Definition set_bit (bm : list Z) (idx : Z) : list Z :=
  <[word_of idx := Z.lor (bm !!! word_of idx) (Z.shiftl 1 (bit_of idx))]> bm.

Definition clear_bit (bm : list Z) (idx : Z) : list Z :=
  <[word_of idx := Z.land (bm !!! word_of idx) (not64 (Z.shiftl 1 (bit_of idx)))]> bm.

Definition clear_word (bm : list Z) (idx : Z) : list Z :=
  <[word_of idx := 0]> bm.

Definition check_bit (bm : list Z) (idx : Z) : bool :=
  Z.land (Z.shiftr (bm !!! word_of idx) (bit_of idx)) 1 =? 1.

Definition will_accept (v : ReceivingKeyCounterValidator) (counter : Z)
    : result WireGuardError unit :=
  if (next v <=? counter) then Ok tt
  else if (add64 counter N_BITS <? next v) then Err InvalidCounter
  else if negb (check_bit (bitmap v) counter) then Ok tt
  else Err DuplicateCounter.

(** The three loops that clear the bits of the skipped counters
    [next .. counter]; each iteration advances [i], so [counter - i] iterations
    are enough ([skip_clears]). *)
Definition clear_until_aligned (counter : Z) (s : Z * list Z) : Z * list Z :=
  while (Z.to_nat (counter - fst s))
    (fun '(i, _) => negb (i mod WORD_SIZE =? 0) && (i <? counter))
    (fun '(i, bm) => (add64 i 1, clear_bit bm i)) s.

Definition clear_whole_words (counter : Z) (s : Z * list Z) : Z * list Z :=
  while (Z.to_nat (counter - fst s))
    (fun '(i, _) => add64 i WORD_SIZE <? counter)
    (fun '(i, bm) => (Z.land (add64 i WORD_SIZE) (sub64 0 WORD_SIZE), clear_word bm i)) s.

Definition clear_remaining (counter : Z) (s : Z * list Z) : Z * list Z :=
  while (Z.to_nat (counter - fst s))
    (fun '(i, _) => i <? counter)
    (fun '(i, bm) => (add64 i 1, clear_bit bm i)) s.

Definition clear_skipped (bm : list Z) (next counter : Z) : list Z :=
  if N_BITS <=? sub64 counter next then
    (fun _ => 0) <$> bm
  else
    snd (clear_remaining counter
          (clear_whole_words counter
            (clear_until_aligned counter (next, bm)))).

Definition mark_did_receive (v : ReceivingKeyCounterValidator) (counter : Z)
    : ReceivingKeyCounterValidator * result WireGuardError unit :=
  if (add64 counter N_BITS <? next v) then (v, Err InvalidCounter)
  else if counter =? next v then
    (mkValidator (add64 (next v) 1) (receive_cnt v) (set_bit (bitmap v) counter), Ok tt)
  else if counter <? next v then
    if check_bit (bitmap v) counter then (v, Err InvalidCounter)
    else (mkValidator (next v) (receive_cnt v) (set_bit (bitmap v) counter), Ok tt)
  else
    let bm := clear_skipped (bitmap v) (next v) counter in
    (mkValidator (add64 counter 1) (receive_cnt v) (set_bit bm counter), Ok tt).

(** ** The specification *)

Record Window := mkWindow {
  w_next : Z;            (* one past the highest counter accepted so far *)
  w_seen : gset Z;       (* every counter accepted so far *)
}.

Definition window_empty : Window := mkWindow 0 ∅.

Definition window_accepts (w : Window) (c : Z) : bool :=
  (w_next w <=? c + N_BITS) && bool_decide (c ∉ w_seen w).

Definition window_mark (w : Window) (c : Z) : Window * result WireGuardError unit :=
  if window_accepts w c
  then (mkWindow (Z.max (w_next w) (c + 1)) ({[c]} ∪ w_seen w), Ok tt)
  else (w, Err InvalidCounter).

(** Counters for which [counter + N_BITS] does not wrap. *)
Definition safe_counter (c : Z) : Prop := 0 <= c < 2 ^ 64 - N_BITS.

(** The bit the bitmap keeps for counter [c]. *)
Definition bit (bm : list Z) (c : Z) : bool := Z.testbit (bm !!! word_of c) (bit_of c).

(** The validator represents the window. *)
Record represents (v : ReceivingKeyCounterValidator) (w : Window) : Prop := {
  rep_len : length (bitmap v) = Z.to_nat N_WORDS;
  rep_next : next v = w_next w;
  rep_range : 0 <= w_next w <= 2 ^ 64 - N_BITS;
  rep_below : forall c, c ∈ w_seen w -> 0 <= c < w_next w;
  rep_bits : forall c, 0 <= c -> w_next w - N_BITS <= c < w_next w ->
             bit (bitmap v) c = bool_decide (c ∈ w_seen w);
}.

(** ** Bit-level lemmas *)

Lemma word_of_lt c : (word_of c < Z.to_nat N_WORDS)%nat.
Proof.
  unfold word_of. pose proof (Z.mod_pos_bound c N_BITS eq_refl).
  apply Z2Nat.inj_lt; [apply Z.div_pos; [lia|reflexivity] | done |].
  apply Z.div_lt_upper_bound; [reflexivity|]. apply H.
Qed.

Lemma bit_of_range c : 0 <= bit_of c < 64.
Proof. unfold bit_of, WORD_SIZE. apply Z.mod_pos_bound. lia. Qed.

Lemma same_slot c d :
  word_of c = word_of d -> bit_of c = bit_of d -> c mod N_BITS = d mod N_BITS.
Proof.
  unfold word_of, bit_of. intros Hw Hb.
  pose proof (Z.mod_pos_bound c N_BITS eq_refl).
  pose proof (Z.mod_pos_bound d N_BITS eq_refl).
  apply Z2Nat.inj in Hw; [|apply Z.div_pos; [lia|reflexivity]..].
  rewrite (Z.div_mod (c mod N_BITS) WORD_SIZE), (Z.div_mod (d mod N_BITS) WORD_SIZE) by done.
  congruence.
Qed.

Lemma slot_cong c d :
  c mod N_BITS = d mod N_BITS -> word_of c = word_of d /\ bit_of c = bit_of d.
Proof. unfold word_of, bit_of. by intros ->. Qed.

Lemma bit_cong bm c d : c mod N_BITS = d mod N_BITS -> bit bm c = bit bm d.
Proof. intros [Hw Hb]%slot_cong. unfold bit. by rewrite Hw, Hb. Qed.

Lemma check_bit_bit bm c : check_bit bm c = bit bm c.
Proof.
  unfold check_bit, bit.
  assert (forall z, Z.land z 1 = Z.b2z (Z.testbit z 0)) as E.
  { intros z. change 1 with (Z.ones 1). rewrite Z.land_ones by lia.
    rewrite <- Z.bit0_mod. done. }
  rewrite E, Z.shiftr_spec, Z.add_0_l by lia.
  by destruct (Z.testbit _ _).
Qed.

Lemma testbit_one_shifted b n : 0 <= b -> 0 <= n -> Z.testbit (Z.shiftl 1 b) n = (n =? b).
Proof.
  intros. rewrite Z.shiftl_1_l. destruct (Z.eqb_spec n b) as [->|].
  - by apply Z.pow2_bits_true.
  - apply Z.pow2_bits_false. congruence.
Qed.

Lemma length_set_bit bm c : length (set_bit bm c) = length bm.
Proof. apply length_insert. Qed.
Lemma length_clear_bit bm c : length (clear_bit bm c) = length bm.
Proof. apply length_insert. Qed.
Lemma length_clear_word bm c : length (clear_word bm c) = length bm.
Proof. apply length_insert. Qed.

Lemma lookup_insert_total (bm : list Z) i j x :
  (i < length bm)%nat -> <[i := x]> bm !!! j = if decide (i = j) then x else bm !!! j.
Proof.
  intros. destruct (decide (i = j)) as [->|].
  - by apply list_lookup_total_insert_eq.
  - by apply list_lookup_total_insert_ne.
Qed.

Section Bitmap.
Context (bm : list Z) (Hlen : length bm = Z.to_nat N_WORDS).

#[local] Lemma word_in c : (word_of c < length bm)%nat.
Proof. rewrite Hlen. apply word_of_lt. Qed.

Lemma bit_set_bit i c :
  bit (set_bit bm i) c = bool_decide (c mod N_BITS = i mod N_BITS) || bit bm c.
Proof.
  unfold bit, set_bit. rewrite lookup_insert_total by apply word_in.
  pose proof (bit_of_range c). pose proof (bit_of_range i).
  destruct (decide (word_of i = word_of c)) as [E|E].
  - rewrite Z.lor_spec, testbit_one_shifted, E by lia.
    destruct (Z.eqb_spec (bit_of c) (bit_of i)) as [E'|E'].
    + rewrite bool_decide_eq_true_2 by (apply same_slot; congruence). apply orb_true_r.
    + rewrite bool_decide_eq_false_2, orb_false_r; [done|].
      intros [_ ?]%slot_cong. congruence.
  - rewrite bool_decide_eq_false_2; [done|]. intros [? _]%slot_cong. congruence.
Qed.

Lemma bit_clear_bit i c :
  bit (clear_bit bm i) c = negb (bool_decide (c mod N_BITS = i mod N_BITS)) && bit bm c.
Proof.
  unfold bit, clear_bit. rewrite lookup_insert_total by apply word_in.
  pose proof (bit_of_range c). pose proof (bit_of_range i).
  destruct (decide (word_of i = word_of c)) as [E|E].
  - unfold not64.
    rewrite Z.land_spec, Z.lxor_spec, testbit_one_shifted, Z.ones_spec_low, E by lia.
    destruct (Z.eqb_spec (bit_of c) (bit_of i)) as [E'|E'].
    + rewrite bool_decide_eq_true_2 by (apply same_slot; congruence). apply andb_false_r.
    + rewrite bool_decide_eq_false_2, andb_true_r; [done|].
      intros [_ ?]%slot_cong. congruence.
  - rewrite bool_decide_eq_false_2; [done|]. intros [? _]%slot_cong. congruence.
Qed.

Lemma bit_clear_word i c :
  bit (clear_word bm i) c = negb (bool_decide (word_of c = word_of i)) && bit bm c.
Proof.
  unfold bit, clear_word. rewrite lookup_insert_total by apply word_in.
  destruct (decide (word_of i = word_of c)) as [E|E].
  - rewrite bool_decide_eq_true_2 by congruence. apply Z.testbit_0_l.
  - rewrite bool_decide_eq_false_2 by congruence. done.
Qed.
End Bitmap.

(** ** Clearing the skipped counters *)

(** Some counter of [lo .. hi) shares the bit of [c]. *)
Definition covered (lo hi c : Z) : Prop :=
  exists k, lo <= k < hi /\ k mod N_BITS = c mod N_BITS.

Lemma covered_snoc lo i c :
  lo <= i -> covered lo (i + 1) c <-> covered lo i c \/ c mod N_BITS = i mod N_BITS.
Proof.
  unfold covered. split.
  - intros (k & Hk & E). destruct (decide (k = i)) as [->|]; [by right|].
    left. exists k. split; [lia|done].
  - intros [(k & Hk & E)|E]; [exists k|exists i]; split; try lia; done.
Qed.

Lemma word_covered i c :
  i mod WORD_SIZE = 0 -> word_of c = word_of i <-> covered i (i + WORD_SIZE) c.
Proof.
  intros Ha. unfold covered, word_of. change WORD_SIZE with 64 in *. change N_BITS with 1024.
  assert (i mod 1024 = 64 * (i mod 1024 / 64)) as Hi.
  { assert ((i mod 1024) mod 64 = 0) by (rewrite Z.mod_mod_divide; [done|by exists 16]).
    rewrite (Z.div_mod (i mod 1024) 64) at 1 by lia. lia. }
  pose proof (Z.mod_pos_bound c 1024 ltac:(lia)) as Hc.
  pose proof (Z.mod_pos_bound i 1024 ltac:(lia)) as Hi'.
  pose proof (Z.div_mod (c mod 1024) 64 ltac:(lia)) as Hcd.
  pose proof (Z.mod_pos_bound (c mod 1024) 64 ltac:(lia)) as Hcm.
  pose proof (Z.div_mod i 1024 ltac:(lia)) as Hid.
  split.
  - intros E. apply Z2Nat.inj in E; [|apply Z.div_pos; lia..].
    exists (i + (c mod 1024) mod 64). split; [lia|].
    rewrite Hid. rewrite Hi, <- E.
    replace (1024 * (i / 1024) + 64 * (c mod 1024 / 64) + (c mod 1024) mod 64)
      with (c mod 1024 + (i / 1024) * 1024) by lia.
    rewrite Z.mod_add by lia. apply Z.mod_mod. lia.
  - intros (k & Hk & E). f_equal. rewrite <- E.
    replace (k mod 1024) with (i mod 1024 + (k - i)).
    { rewrite Hi. rewrite Z.mul_comm, Z.div_add_l, Z.div_mul by lia.
      rewrite (Z.div_small (k - i)) by lia. lia. }
    apply Z.mod_unique_pos with (i / 1024); lia.
Qed.

Lemma align_down i : 0 <= i < 2 ^ 64 -> i mod WORD_SIZE = 0 -> Z.land i (sub64 0 WORD_SIZE) = i.
Proof.
  intros Hr Ha. change (sub64 0 WORD_SIZE) with (Z.shiftl (Z.ones 58) 6).
  change WORD_SIZE with (2 ^ 6) in Ha.
  apply Z.bits_inj'. intros n Hn. rewrite Z.land_spec, Z.shiftl_spec by done.
  destruct (decide (n < 6)).
  - replace (Z.testbit i n) with false; [done|].
    rewrite <- (Z.mod_pow2_bits_low i 6) by done. by rewrite Ha, Z.testbit_0_l.
  - destruct (decide (n < 64)).
    + rewrite Z.ones_spec_low by lia. apply andb_true_r.
    + replace (Z.testbit i n) with false; [done|].
      rewrite <- (Z.mod_small i (2 ^ 64)) by done. symmetry. apply Z.mod_pow2_bits_high. lia.
Qed.

Section Skip.
Context (bm : list Z) (lo counter : Z).
Hypothesis Hlen : length bm = Z.to_nat N_WORDS.
Hypothesis Hlo : 0 <= lo.
Hypothesis Hcounter : counter < 2 ^ 64 - N_BITS.

(** Exactly the bits of [lo .. i) have been cleared. *)
Definition cleared_to (s : Z * list Z) : Prop :=
  length (snd s) = Z.to_nat N_WORDS /\ lo <= fst s <= counter /\
  forall c, bit (snd s) c = true <-> bit bm c = true /\ ~ covered lo (fst s) c.

Lemma cleared_start : lo <= counter -> cleared_to (lo, bm).
Proof.
  intros. split_and!; simpl; [done|lia|lia|]. intros c. split; [|tauto].
  intros. split; [done|]. intros (k & ? & _). lia.
Qed.

Lemma cleared_bit i b : cleared_to (i, b) -> i < counter -> cleared_to (i + 1, clear_bit b i).
Proof.
  intros (Hl & Hi & Hb) Hlt. simpl in *. split_and!; simpl;
    [by rewrite length_clear_bit|lia|lia|].
  intros c. rewrite bit_clear_bit by done. rewrite covered_snoc by lia.
  rewrite andb_true_iff, negb_true_iff, bool_decide_eq_false, Hb. tauto.
Qed.

Lemma cleared_word i b :
  cleared_to (i, b) -> i mod WORD_SIZE = 0 -> i + WORD_SIZE < counter ->
  cleared_to (i + WORD_SIZE, clear_word b i).
Proof.
  intros (Hl & Hi & Hb) Ha Hlt. simpl in *. assert (0 < WORD_SIZE) by done.
  split_and!; simpl; [by rewrite length_clear_word|lia|lia|].
  intros c. rewrite bit_clear_word by done.
  rewrite andb_true_iff, negb_true_iff, bool_decide_eq_false, Hb, word_covered by done.
  assert (covered lo (i + WORD_SIZE) c <-> covered lo i c \/ covered i (i + WORD_SIZE) c) as ->;
    [|tauto].
  unfold covered. split.
  - intros (k & Hk & E). destruct (decide (k < i)); [left|right]; exists k; split; done || lia.
  - intros [(k & Hk & E)|(k & Hk & E)]; exists k; split; done || lia.
Qed.

#[local] Ltac no_wrap := rewrite !add64_small in * by (unfold N_BITS, WORD_SIZE, N_WORDS in *; lia).

Lemma until_aligned_ok s :
  cleared_to s ->
  let s' := clear_until_aligned counter s in
  cleared_to s' /\ (fst s' mod WORD_SIZE = 0 \/ fst s' = counter).
Proof.
  intros Hs. unfold clear_until_aligned.
  match goal with |- context [while ?f ?c ?b s] =>
    destruct (while_exits c b (fun s => Z.to_nat (counter - fst s)) cleared_to)
      with (fuel := f) (s := s) as [HI Hc] end; [| |done..|].
  - intros [i b] (Hl & Hi & Hb) Hc. simpl in *. bprop. no_wrap. by apply cleared_bit.
  - intros [i b] (Hl & Hi & Hb) Hc. simpl in *. bprop. no_wrap. lia.
  - split; [done|]. destruct (while _ _ _ s) as [i b].
    destruct HI as (_ & Hi & _). simpl in *.
    apply andb_false_iff in Hc as [Hc|Hc]; bprop; [by left|right; lia].
Qed.

Lemma whole_words_ok s :
  cleared_to s -> fst s mod WORD_SIZE = 0 \/ fst s = counter ->
  cleared_to (clear_whole_words counter s).
Proof.
  intros Hs Ha. unfold clear_whole_words.
  set (J s := cleared_to s /\ (fst s mod WORD_SIZE = 0 \/ fst s = counter)).
  assert (forall i b, J (i, b) -> (add64 i WORD_SIZE <? counter) = true ->
            Z.land (add64 i WORD_SIZE) (sub64 0 WORD_SIZE) = i + WORD_SIZE
            /\ (i + WORD_SIZE) mod WORD_SIZE = 0 /\ J (i + WORD_SIZE, clear_word b i)) as Hstep.
  { intros i b [HI Ha'] Hc. pose proof HI as (_ & Hi & _). simpl in *.
    bprop. no_wrap. assert (i mod WORD_SIZE = 0) as Hm.
    { destruct Ha' as [|]; [done|]. unfold WORD_SIZE in *. lia. }
    assert ((i + WORD_SIZE) mod WORD_SIZE = 0) as Hm'.
    { rewrite <- Z.add_mod_idemp_l, Hm by done. done. }
    split_and!; [|done|].
    - apply align_down; [|done]. unfold N_BITS, WORD_SIZE, N_WORDS in *. lia.
    - split; [by apply cleared_word|by left]. }
  match goal with |- context [while ?f ?c ?b s] =>
    destruct (while_exits c b (fun s => Z.to_nat (counter - fst s)) J)
      with (fuel := f) (s := s) as [HI Hc] end; [| |done..|].
  - intros [i b] HJ Hc. destruct (Hstep i b HJ Hc) as (-> & _ & ?). done.
  - intros [i b] HJ Hc. destruct (Hstep i b HJ Hc) as (-> & _ & ((_ & Hi & _) & _)).
    destruct HJ as [(_ & Hi' & _) _]. simpl in *. unfold WORD_SIZE in *. lia.
  - apply HI.
Qed.

Lemma remaining_ok s :
  cleared_to s -> exists b, clear_remaining counter s = (counter, b) /\ cleared_to (counter, b).
Proof.
  intros Hs. unfold clear_remaining.
  match goal with |- context [while ?f ?c ?b s] =>
    destruct (while_exits c b (fun s => Z.to_nat (counter - fst s)) cleared_to)
      with (fuel := f) (s := s) as [HI Hc] end; [| |done..|].
  - intros [i b] (Hl & Hi & Hb) Hc. simpl in *. bprop. no_wrap. by apply cleared_bit.
  - intros [i b] (Hl & Hi & Hb) Hc. simpl in *. bprop. no_wrap. lia.
  - destruct (while _ _ _ s) as [i b]. exists b.
    pose proof HI as (_ & Hi & _). simpl in *. bprop.
    assert (i = counter) as -> by lia. done.
Qed.

Lemma length_clear_skipped :
  lo <= counter -> length (clear_skipped bm lo counter) = Z.to_nat N_WORDS.
Proof.
  intros. unfold clear_skipped. split_if; [by rewrite length_fmap|].
  destruct (until_aligned_ok (lo, bm)) as [H1 H1']; [by apply cleared_start|].
  destruct (remaining_ok (clear_whole_words counter (clear_until_aligned counter (lo, bm))))
    as (b & -> & Hb); [by apply whole_words_ok|]. apply Hb.
Qed.

(** After skipping from [lo] to [counter] the bit of [c] survives iff no
    skipped counter shares it. *)
Lemma skip_clears c :
  lo < counter ->
  bit (clear_skipped bm lo counter) c = true <-> bit bm c = true /\ ~ covered lo counter c.
Proof.
  intros Hlt. unfold clear_skipped. rewrite sub64_small by (unfold N_BITS, WORD_SIZE, N_WORDS in *; lia).
  split_if; bprop.
  - unfold bit. rewrite (list_lookup_total_fmap (fun _ : Z => 0)) by (rewrite Hlen; apply word_of_lt).
    rewrite Z.testbit_0_l. split; [done|]. intros [_ []].
    assert (0 < N_BITS) by done.
    exists (lo + (c - lo) mod N_BITS). pose proof (Z.mod_pos_bound (c - lo) N_BITS). split; [lia|].
    rewrite Z.add_mod_idemp_r by done. f_equal. lia.
  - destruct (until_aligned_ok (lo, bm)) as [H1 H1']; [apply cleared_start; lia|].
    destruct (remaining_ok (clear_whole_words counter (clear_until_aligned counter (lo, bm))))
      as (b & -> & Hb); [by apply whole_words_ok|]. apply Hb.
Qed.
End Skip.

(** ** Refinement *)

Lemma represents_default : represents validator_default window_empty.
Proof.
  split; simpl; [done|done|done|set_solver|]. intros c Hc Hr. unfold N_BITS, WORD_SIZE, N_WORDS in *. lia.
Qed.

(** Two counters of one window that share a bit are equal. *)
Lemma same_bit_close c d : c mod N_BITS = d mod N_BITS -> - N_BITS < c - d < N_BITS -> c = d.
Proof.
  intros E Hd. change N_BITS with 1024 in *.
  pose proof (Z.div_mod c 1024 ltac:(lia)). pose proof (Z.div_mod d 1024 ltac:(lia)). lia.
Qed.

Section Refines.
Context (v : ReceivingKeyCounterValidator) (w : Window).
Hypothesis Hrep : represents v w.

(** Setting the bit of [c] in a bitmap that is right for the other counters of
    the new window represents the window with [c] added. *)
Lemma represents_add bm c cnt n' :
  length bm = Z.to_nat N_WORDS -> safe_counter c ->
  n' = Z.max (w_next w) (c + 1) ->
  n' - N_BITS <= c ->
  (forall d, 0 <= d -> d <> c -> n' - N_BITS <= d < n' ->
     bit bm d = bool_decide (d ∈ w_seen w)) ->
  represents (mkValidator n' cnt (set_bit bm c)) (mkWindow n' ({[c]} ∪ w_seen w)).
Proof.
  intros Hl [Hc0 Hc1] Hn' Hlow Hbits. destruct Hrep as [_ _ Hr Hb _].
  assert (1 < N_BITS) by done.
  split; simpl; [by rewrite length_set_bit|done|lia| |].
  - intros d [->%elem_of_singleton|Hd]%elem_of_union; [lia|]. specialize (Hb d Hd). lia.
  - intros d Hd Hdr. rewrite bit_set_bit by done.
    destruct (decide (d = c)) as [->|Hne].
    + rewrite !bool_decide_eq_true_2 by set_solver. done.
    + rewrite Hbits by done. rewrite (bool_decide_eq_false_2 (d mod _ = _)); simpl.
      * apply bool_decide_ext. set_solver.
      * intros E. apply Hne.
        apply same_bit_close; [done|lia].
Qed.

Lemma seen_lt c : c ∈ w_seen w -> c < w_next w.
Proof. intros. by apply Hrep. Qed.

Lemma will_accept_refines c :
  safe_counter c ->
  will_accept v c =
    if w_next w <=? c + N_BITS
    then if bool_decide (c ∈ w_seen w) then Err DuplicateCounter else Ok tt
    else Err InvalidCounter.
Proof.
  intros [Hc0 Hc1]. unfold will_accept. assert (1 < N_BITS) by done.
  rewrite (rep_next _ _ Hrep), add64_small, check_bit_bit by lia.
  destruct (Z.leb_spec (w_next w) c).
  - destruct (Z.leb_spec (w_next w) (c + N_BITS)); [|lia].
    rewrite bool_decide_eq_false_2; [done|]. intros ?%seen_lt. lia.
  - destruct (Z.ltb_spec (c + N_BITS) (w_next w)), (Z.leb_spec (w_next w) (c + N_BITS)); try lia; [done|].
    rewrite (rep_bits _ _ Hrep) by lia. by case_bool_decide.
Qed.

Lemma mark_refines c :
  safe_counter c ->
  snd (mark_did_receive v c) = snd (window_mark w c) /\
  represents (fst (mark_did_receive v c)) (fst (window_mark w c)).
Proof.
  intros Hc. pose proof Hc as [Hc0 Hc1]. assert (1 < N_BITS) by done.
  pose proof (seen_lt c) as Hseen. pose proof Hrep as [Hl Hn Hr Hb Hbits].
  unfold mark_did_receive, window_mark, window_accepts.
  rewrite Hn, check_bit_bit, !add64_small by lia.
  destruct (Z.ltb_spec (c + N_BITS) (w_next w)), (Z.leb_spec (w_next w) (c + N_BITS)); try lia; [done|].
  simpl. destruct (Z.eqb_spec c (w_next w)) as [->|Hne].
  { rewrite bool_decide_eq_true_2 by (intros ?%Hseen; lia). simpl. split; [done|].
    replace (Z.max (w_next w) (w_next w + 1)) with (w_next w + 1) by lia.
    apply represents_add; [done|done|lia|lia|].
    intros d ? ? ?. apply Hbits; lia. }
  destruct (Z.ltb_spec c (w_next w)) as [Hlt|Hge].
  { rewrite Hbits by lia. case_bool_decide.
    - rewrite bool_decide_eq_false_2 by tauto. done.
    - rewrite bool_decide_eq_true_2 by done. simpl. split; [done|].
      replace (Z.max (w_next w) (c + 1)) with (w_next w) by lia.
      apply represents_add; [done|done|lia|lia|]. intros d ? ? ?. apply Hbits; lia. }
  rewrite bool_decide_eq_true_2 by (intros ?%Hseen; lia). simpl. split; [done|].
  replace (Z.max (w_next w) (c + 1)) with (c + 1) by lia.
  apply represents_add; [|done|lia|lia|].
  { apply length_clear_skipped; [done|lia|lia|lia]. }
  intros d Hd0 Hdc Hd. apply eq_bool_prop_intro. rewrite !Is_true_true.
  rewrite skip_clears, bool_decide_eq_true by (done || lia).
  destruct (decide (d < w_next w)) as [Hdl|Hdl].
  - rewrite Hbits, bool_decide_eq_true by lia. split; [tauto|]. intros ?. split; [done|].
    intros (k & Hk & E).
    apply same_bit_close in E; lia.
  - split.
    + intros [_ Hnc]. exfalso. apply Hnc. exists d. split; [lia|done].
    + intros ?%Hb. lia.
Qed.
End Refines.

(** ** Runs of the validator *)

(** The counters accepted by a run of [mark_did_receive], in order. *)
Fixpoint accepted (v : ReceivingKeyCounterValidator) (cs : list Z) : list Z :=
  match cs with
  | [] => []
  | c :: cs =>
      let '(v', r) := mark_did_receive v c in
      if is_ok r then c :: accepted v' cs else accepted v' cs
  end.

Lemma window_mark_seen w c :
  w_seen w ⊆ w_seen (fst (window_mark w c)) /\
  (is_ok (snd (window_mark w c)) = true -> c ∉ w_seen w /\ c ∈ w_seen (fst (window_mark w c))).
Proof.
  unfold window_mark, window_accepts. split_if; simpl; bprop; [|split; [set_solver|done]].
  split; set_solver.
Qed.

Lemma accepted_fresh v w cs :
  represents v w -> Forall safe_counter cs ->
  NoDup (accepted v cs) /\ (forall c, c ∈ accepted v cs -> c ∉ w_seen w).
Proof.
  intros Hrep Hcs. revert v w Hrep. induction Hcs as [|c cs Hc Hcs IH]; intros v w Hrep; simpl.
  { split; [constructor|]. intros c Hc. by apply not_elem_of_nil in Hc. }
  destruct (mark_refines v w Hrep c Hc) as [Hr Hrep'].
  destruct (mark_did_receive v c) as [v' r]. simpl in *. subst r.
  destruct (IH _ _ Hrep') as [Hnd Hfresh].
  destruct (window_mark_seen w c) as [Hsub Hok].
  destruct (is_ok (snd (window_mark w c))).
  - destruct Hok as [Hnew Hin]; [done|]. split.
    + constructor; [|done]. intros Hc'. by apply (Hfresh c Hc').
    + intros d [->|Hd]%elem_of_cons; [done|]. intros Hd'. apply (Hfresh d Hd). set_solver.
  - split; [done|]. intros d Hd Hd'. apply (Hfresh d Hd). set_solver.
Qed.

Lemma will_accept_verdict v w c :
  represents v w -> safe_counter c ->
  if window_accepts w c then will_accept v c = Ok tt else exists e, will_accept v c = Err e.
Proof.
  intros Hrep Hc. rewrite (will_accept_refines v w Hrep c Hc). unfold window_accepts.
  destruct (w_next w <=? c + N_BITS); simpl; [|by eauto]. repeat case_bool_decide; eauto; done.
Qed.

(** The verdicts of a run, for the validator and for the specification. *)
Fixpoint mark_verdicts (v : ReceivingKeyCounterValidator) (cs : list Z)
    : list (result WireGuardError unit) :=
  match cs with
  | [] => []
  | c :: cs => let '(v', r) := mark_did_receive v c in r :: mark_verdicts v' cs
  end.

Fixpoint window_verdicts (w : Window) (cs : list Z) : list (result WireGuardError unit) :=
  match cs with
  | [] => []
  | c :: cs => let '(w', r) := window_mark w c in r :: window_verdicts w' cs
  end.

Lemma verdicts_refine v w cs :
  represents v w -> Forall safe_counter cs -> mark_verdicts v cs = window_verdicts w cs.
Proof.
  intros Hrep Hcs. revert v w Hrep. induction Hcs as [|c cs Hc Hcs IH]; intros v w Hrep; simpl; [done|].
  destruct (mark_refines v w Hrep c Hc) as [Hr Hrep'].
  destruct (mark_did_receive v c) as [v' r], (window_mark w c) as [w' r']. simpl in *.
  f_equal; [done|]. by apply IH.
Qed.

(** ** Properties *)



(** The bitmap implements the window: on every sequence of counters the
    verdicts of [mark_did_receive] are those of the specification, which accepts
    a counter iff it is at most [N_BITS] behind the highest one and has not been
    accepted before. In particular the loops that clear skipped bits terminate
    and clear exactly the counters skipped. *)
Theorem mark_did_receive_refines_window (cs : list Z) :
  Forall safe_counter cs ->
  mark_verdicts validator_default cs = window_verdicts window_empty cs.
Proof. intros. by apply verdicts_refine; [apply represents_default|]. Qed.

Lemma mark_did_receive_refines_window_witness :
  mark_verdicts validator_default [0; 5; 1100; 5; 76; 1100; 77; 76; 75]
  = window_verdicts window_empty [0; 5; 1100; 5; 76; 1100; 77; 76; 75].
Proof.
  apply mark_did_receive_refines_window. repeat constructor; vm_compute; done || intros [=].
Defined.

(** The check made before decryption agrees with the one made after it: in
    every state a validator can reach, [will_accept] succeeds exactly when
    [mark_did_receive] would, so no packet is decrypted only to be dropped by an
    unchanged window and none is dropped early that would have been accepted. *)
Theorem quick_check_agrees (v : ReceivingKeyCounterValidator) (w : Window) (c : Z) :
  represents v w -> safe_counter c ->
  is_ok (will_accept v c) = is_ok (snd (mark_did_receive v c)).
Proof.
  intros Hrep Hc. pose proof (will_accept_verdict v w c Hrep Hc) as Hv.
  destruct (mark_refines v w Hrep c Hc) as [-> _].
  unfold window_mark. destruct (window_accepts w c); [by rewrite Hv|].
  by destruct Hv as [e ->].
Qed.

Lemma quick_check_agrees_witness :
  is_ok (will_accept validator_default 7) = is_ok (snd (mark_did_receive validator_default 7)).
Proof.
  apply (quick_check_agrees validator_default window_empty 7 represents_default).
  vm_compute; done || split; intros [=].
Defined.

(** At the end of the counter space the protection is lost: [counter + 1]
    wraps, so accepting counter [2^64 - 1] resets [next] to zero and a counter
    already accepted is accepted again. *)
Theorem replay_after_counter_wrap :
  accepted validator_default [5; 2 ^ 64 - 1; 5] = [5; 2 ^ 64 - 1; 5].
Proof. vm_compute. reflexivity. Qed.
