(* ===== verification/Clock.v ===== *)
(** * Time and randomness ([sleepyinstant/mod.rs], [sleepyinstant/unix.rs])

    The monotonic [Instant] of the source with its borrow-and-saturate
    subtraction, [std::time::Duration] arithmetic, and the environment a party
    runs in: the successive readings of its clocks and the bytes its random
    generator yields. *)

From Stdlib Require Import ZArith Lia.
From stdpp Require Import base numbers list.
From S2P Require Import Prelude.

(** ** Duration

    A [Duration] is its number of nanoseconds. Addition and subtraction panic
    outside of the representable range. *)

Abbreviation Duration := Z (only parsing).

Definition NANOS_PER_SEC : Z := 1000000000.
Definition from_secs (s : Z) : Duration := s * NANOS_PER_SEC.
Definition as_secs (d : Duration) : Z := d / NANOS_PER_SEC.
Definition subsec_nanos (d : Duration) : Z := d mod NANOS_PER_SEC.
Definition as_millis (d : Duration) : Z := d / 1000000.

Definition duration_range (d : Duration) : Prop := 0 <= d < 2 ^ 64 * NANOS_PER_SEC.

Definition duration_add (a b : Duration) : outcome Duration :=
  let! _ := require (a + b <? 2 ^ 64 * NANOS_PER_SEC) in Ret (a + b).

Definition duration_sub (a b : Duration) : outcome Duration :=
  let! _ := require (b <=? a) in Ret (a - b).

Lemma duration_sub_ok a b : b <= a -> duration_sub a b = Ret (a - b).
Proof. intros H%Z.leb_le. unfold duration_sub. by rewrite H. Qed.

Lemma duration_add_ok a b : a + b < 2 ^ 64 * NANOS_PER_SEC -> duration_add a b = Ret (a + b).
Proof. intros H%Z.ltb_lt. unfold duration_add. by rewrite H. Qed.

(** ** Instants *)

Record Instant := mkInstant { tv_sec : Z; tv_nsec : Z }.

Definition NANOSECOND : Z := 1000000000.

Definition checked_duration_since (self earlier : Instant) : option Duration :=
  let '(sec, nsec) :=
    if tv_nsec self <? tv_nsec earlier
    then (tv_sec self - tv_sec earlier - 1, tv_nsec self - tv_nsec earlier + NANOSECOND)
    else (tv_sec self - tv_sec earlier, tv_nsec self - tv_nsec earlier) in
  if sec <? 0 then None else Some (from_secs sec + nsec).

Definition duration_since (self earlier : Instant) : Duration :=
  match checked_duration_since self earlier with
  | Some d => d
  | None => 0
  end.

(** A timespec as [clock_gettime] fills it. *)
Definition instant_of_nanos (t : Z) : Instant := mkInstant (t / NANOSECOND) (t mod NANOSECOND).
Definition nanos (i : Instant) : Z := tv_sec i * NANOSECOND + tv_nsec i.
Definition normalised (i : Instant) : Prop := 0 <= tv_nsec i < NANOSECOND.

(** ** The environment of a party

    [clock_gettime], [SystemTime::now] and [OsRng] are outside of the program:
    [Env] gives their successive results, [World] says how many have been
    consumed. *)

Class Env := {
  clock : nat -> Z;        (* nanoseconds on the monotonic clock, reading by reading *)
  wall : nat -> Z;         (* nanoseconds since the Unix epoch, reading by reading *)
  rng : nat -> byte;       (* the byte stream of the generator *)
}.

Record World := mkWorld { ticks : nat; drawn : nat }.

Section Effects.
Context `{E : Env}.

(** [Instant::now()] *)
Definition instant_now (w : World) : Instant * World :=
  (instant_of_nanos (clock (ticks w)), mkWorld (S (ticks w)) (drawn w)).

(** [SystemTime::now()] *)
Definition system_time_now (w : World) : Z * World :=
  (wall (ticks w), mkWorld (S (ticks w)) (drawn w)).

(** [SystemTime::now().duration_since(UNIX_EPOCH).unwrap().as_secs()] *)
Definition unix_secs (w : World) : outcome (Z * World) :=
  let '(t, w) := system_time_now w in
  if t <? 0 then Panic else Ret (as_secs t, w).

(** [OsRng.fill_bytes] of [n] bytes *)
Definition fill_bytes (n : nat) (w : World) : bytes * World :=
  (rng <$> seq (drawn w) n, mkWorld (ticks w) (drawn w + n)).

(** [instant.elapsed()] *)
Definition elapsed (self : Instant) (w : World) : Duration * World :=
  let '(now, w) := instant_now w in (duration_since now self, w).

End Effects.

(** What the documentation of the clock promises: a reading is never below an
    earlier one, and durations between readings are representable. *)
Class MonotoneClock (E : Env) : Prop := {
  clock_mono : forall i j, (i <= j)%nat -> clock i <= clock j;
  clock_range : forall i, 0 <= clock i < 2 ^ 62 * NANOS_PER_SEC;
  wall_range : forall i, 0 <= wall i < 2 ^ 62 * NANOS_PER_SEC;
}.

(** ** Lemmas *)

Lemma instant_of_nanos_normalised t : normalised (instant_of_nanos t).
Proof. apply Z.mod_pos_bound. reflexivity. Qed.

Lemma nanos_instant t : nanos (instant_of_nanos t) = t.
Proof. unfold nanos, instant_of_nanos. simpl. pose proof (Z.div_mod t NANOSECOND ltac:(done)). lia. Qed.

Lemma duration_since_nanos a b :
  normalised a -> normalised b -> duration_since a b = Z.max 0 (nanos a - nanos b).
Proof.
  unfold normalised, duration_since, checked_duration_since, nanos, from_secs.
  change NANOS_PER_SEC with NANOSECOND.
  intros Ha Hb. assert (HN : NANOSECOND = 1000000000) by done.
  repeat split_if; bprop; rewrite HN in *; lia.
Qed.

Lemma duration_since_readings s t :
  duration_since (instant_of_nanos s) (instant_of_nanos t) = Z.max 0 (s - t).
Proof.
  by rewrite duration_since_nanos, !nanos_instant by apply instant_of_nanos_normalised.
Qed.

(** The wall clock is past the Unix epoch. *)
Class EpochClock (E : Env) : Prop := wall_nonneg : forall k, 0 <= wall k.

Lemma unix_secs_ok `{EC : EpochClock} w : exists now w', unix_secs w = Ret (now, w') /\ (ticks w <= ticks w')%nat.
Proof.
  unfold unix_secs. cbn [system_time_now].
  rewrite (proj2 (Z.ltb_ge (wall (ticks w)) 0)) by apply wall_nonneg.
  eexists _, _. split; [done|]. cbn. lia.
Qed.

Lemma length_fill_bytes `{Env} n w : length (fst (fill_bytes n w)) = n.
Proof. simpl. by rewrite length_fmap, length_seq. Qed.

(** An environment to evaluate examples in: a clock that advances by a second
    per reading. *)
Definition example_env : Env := {|
  clock := fun i => Z.min (Z.of_nat i * NANOS_PER_SEC) (2 ^ 61 * NANOS_PER_SEC);
  wall := fun _ => 1700000000 * NANOS_PER_SEC;
  rng := fun i => of_u8 (Z.of_nat i * 7 + 3);
|}.

Lemma example_env_epoch : EpochClock example_env.
Proof. intros k. by vm_compute. Qed.

Lemma example_env_monotone : MonotoneClock example_env.
Proof.
  assert (HN : NANOS_PER_SEC = 1000000000) by done.
  split; intros; simpl clock; simpl wall; rewrite HN; lia.
Qed.

(** ** Properties *)

(** The borrow arithmetic on timespecs is subtraction of nanoseconds,
    saturated at zero: for an [earlier] that is in fact later the duration is
    zero, and there is no panic. *)
Theorem duration_since_saturates (a b : Instant) :
  normalised a -> normalised b ->
  duration_since a b = Z.max 0 (nanos a - nanos b)
  /\ (checked_duration_since a b = None <-> nanos a < nanos b).
Proof.
  intros Ha Hb. split; [by apply duration_since_nanos|].
  unfold normalised, checked_duration_since, nanos in *.
  assert (HN : NANOSECOND = 1000000000) by done.
  repeat split_if; bprop; rewrite HN in *; split; intros; simplify_eq; done || lia.
Qed.

Lemma duration_since_saturates_witness :
  duration_since (mkInstant 5 1) (mkInstant 3 999999999) = 1000000002.
Proof.
  destruct (duration_since_saturates (mkInstant 5 1) (mkInstant 3 999999999)) as [-> _];
    [unfold normalised; simpl; unfold NANOSECOND; lia ..|reflexivity].
Defined.
