(* ===== verification/Packet.v ===== *)
(** * Datagrams ([noise/mod.rs]: packet types, [parse_incoming_packet],
    [dst_address])

    The four message types, the parser of incoming datagrams with its slice
    accesses, the wire layout as a printer, and the address extraction used for
    routing. *)

From Stdlib Require Import ZArith Lia.
From stdpp Require Import base numbers list decidable tactics.
From S2P Require Import Prelude Errors.

(** ** Constants and types *)

Definition IPV4_MIN_HEADER_SIZE : nat := 20.
Definition IPV4_LEN_OFF : nat := 2.
Definition IPV4_SRC_IP_OFF : nat := 12.
Definition IPV4_DST_IP_OFF : nat := 16.
Definition IPV4_IP_SZ : nat := 4.
Definition IPV6_MIN_HEADER_SIZE : nat := 40.
Definition IPV6_LEN_OFF : nat := 4.
Definition IPV6_SRC_IP_OFF : nat := 8.
Definition IPV6_DST_IP_OFF : nat := 24.
Definition IPV6_IP_SZ : nat := 16.
Definition IP_LEN_SZ : nat := 2.

Definition HANDSHAKE_INIT : Z := 1.
Definition HANDSHAKE_RESP : Z := 2.
Definition COOKIE_REPLY : Z := 3.
Definition DATA : Z := 4.

Definition HANDSHAKE_INIT_SZ : nat := 148.
Definition HANDSHAKE_RESP_SZ : nat := 92.
Definition COOKIE_REPLY_SZ : nat := 64.
Definition DATA_OVERHEAD_SZ : nat := 32.

Record HandshakeInit := mkInit {
  init_sender_idx : Z;
  init_ephemeral : bytes;
  encrypted_static : bytes;
  encrypted_timestamp : bytes;
}.

Record HandshakeResponse := mkResp {
  resp_sender_idx : Z;
  resp_receiver_idx : Z;
  resp_ephemeral : bytes;
  encrypted_nothing : bytes;
}.

Record PacketCookieReply := mkCookieReply {
  cookie_receiver_idx : Z;
  cookie_nonce : bytes;
  encrypted_cookie : bytes;
}.

Record PacketData := mkData {
  data_receiver_idx : Z;
  data_counter : Z;
  encrypted_encapsulated_packet : bytes;
}.

Inductive Packet :=
| PHandshakeInit (p : HandshakeInit)
| PHandshakeResponse (p : HandshakeResponse)
| PPacketCookieReply (p : PacketCookieReply)
| PPacketData (p : PacketData).

Inductive IpAddr :=
| V4 (octets : bytes)
| V6 (octets : bytes).

#[global] Instance IpAddr_eq_dec : EqDecision IpAddr.
Proof. solve_decision. Defined.

(** [TunnResult]: what an operation of the tunnel asks its caller to do. *)
Inductive TunnResult :=
| Done
| TunnErr (e : WireGuardError)
| WriteToNetwork (packet : bytes)
| WriteToTunnelV4 (packet : bytes) (addr : bytes)
| WriteToTunnelV6 (packet : bytes) (addr : bytes).

(** ** Parsing *)

Definition le_field (src : bytes) (i j : nat) : outcome Z :=
  let! s := slice src i j in Ret (from_le s).

Definition parse_init (src : bytes) : outcome HandshakeInit :=
  let! s := le_field src 4 8 in
  let! e := slice src 8 40 in
  let! es := slice src 40 88 in
  let! et := slice src 88 116 in
  Ret (mkInit s e es et).

Definition parse_resp (src : bytes) : outcome HandshakeResponse :=
  let! s := le_field src 4 8 in
  let! r := le_field src 8 12 in
  let! e := slice src 12 44 in
  let! n := slice src 44 60 in
  Ret (mkResp s r e n).

Definition parse_cookie (src : bytes) : outcome PacketCookieReply :=
  let! r := le_field src 4 8 in
  let! n := slice src 8 32 in
  let! c := slice src 32 64 in
  Ret (mkCookieReply r n c).

Definition parse_data (src : bytes) : outcome PacketData :=
  let! r := le_field src 4 8 in
  let! c := le_field src 8 16 in
  let! d := slice src 16 (length src) in
  Ret (mkData r c d).

Definition parse_incoming_packet (src : bytes) : outcome (result WireGuardError Packet) :=
  if bool_decide (length src < 4)%nat then Ret (Err InvalidPacket)
  else
    let! packet_type := le_field src 0 4 in
    if (packet_type =? HANDSHAKE_INIT) && bool_decide (length src = HANDSHAKE_INIT_SZ) then
      let! p := parse_init src in Ret (Ok (PHandshakeInit p))
    else if (packet_type =? HANDSHAKE_RESP) && bool_decide (length src = HANDSHAKE_RESP_SZ) then
      let! p := parse_resp src in Ret (Ok (PHandshakeResponse p))
    else if (packet_type =? COOKIE_REPLY) && bool_decide (length src = COOKIE_REPLY_SZ) then
      let! p := parse_cookie src in Ret (Ok (PPacketCookieReply p))
    else if (packet_type =? DATA) && bool_decide (DATA_OVERHEAD_SZ <= length src)%nat then
      let! p := parse_data src in Ret (Ok (PPacketData p))
    else Ret (Err InvalidPacket).

Definition dst_address (packet : bytes) : outcome (option IpAddr) :=
  if bool_decide (length packet = 0%nat) then Ret None
  else
    let! b := index packet 0 in
    let version := Z.shiftr (u8 b) 4 in
    if (version =? 4) && bool_decide (IPV4_MIN_HEADER_SIZE <= length packet)%nat then
      let! a := slice packet IPV4_DST_IP_OFF (IPV4_DST_IP_OFF + IPV4_IP_SZ) in
      Ret (Some (V4 a))
    else if (version =? 6) && bool_decide (IPV6_MIN_HEADER_SIZE <= length packet)%nat then
      let! a := slice packet IPV6_DST_IP_OFF (IPV6_DST_IP_OFF + IPV6_IP_SZ) in
      Ret (Some (V6 a))
    else Ret None.

(** ** The wire layout

    [wire p] is the layout of the fields; handshake messages carry 32 bytes of
    MACs after them, which the parser leaves to the rate limiter. *)

Definition wire (p : Packet) : bytes :=
  match p with
  | PHandshakeInit p =>
      to_le 4 HANDSHAKE_INIT ++ to_le 4 (init_sender_idx p) ++ init_ephemeral p
      ++ encrypted_static p ++ encrypted_timestamp p
  | PHandshakeResponse p =>
      to_le 4 HANDSHAKE_RESP ++ to_le 4 (resp_sender_idx p) ++ to_le 4 (resp_receiver_idx p)
      ++ resp_ephemeral p ++ encrypted_nothing p
  | PPacketCookieReply p =>
      to_le 4 COOKIE_REPLY ++ to_le 4 (cookie_receiver_idx p) ++ cookie_nonce p
      ++ encrypted_cookie p
  | PPacketData p =>
      to_le 4 DATA ++ to_le 4 (data_receiver_idx p) ++ to_le 8 (data_counter p)
      ++ encrypted_encapsulated_packet p
  end.

Definition macs_len (p : Packet) : nat :=
  match p with
  | PHandshakeInit _ | PHandshakeResponse _ => 32
  | _ => 0
  end.

Definition wf_packet (p : Packet) : Prop :=
  match p with
  | PHandshakeInit p =>
      u32_range (init_sender_idx p) /\ length (init_ephemeral p) = 32%nat
      /\ length (encrypted_static p) = 48%nat /\ length (encrypted_timestamp p) = 28%nat
  | PHandshakeResponse p =>
      u32_range (resp_sender_idx p) /\ u32_range (resp_receiver_idx p)
      /\ length (resp_ephemeral p) = 32%nat /\ length (encrypted_nothing p) = 16%nat
  | PPacketCookieReply p =>
      u32_range (cookie_receiver_idx p) /\ length (cookie_nonce p) = 24%nat
      /\ length (encrypted_cookie p) = 32%nat
  | PPacketData p =>
      u32_range (data_receiver_idx p) /\ u64_range (data_counter p)
      /\ (16 <= length (encrypted_encapsulated_packet p))%nat
  end.

(** ** Lemmas *)

Lemma le_field_ok src i j :
  (i <= j)%nat -> (j <= length src)%nat -> le_field src i j = Ret (from_le (sub src i j)).
Proof. intros. unfold le_field. by rewrite slice_ok. Qed.

Lemma le_field_range src i j :
  (i <= j)%nat -> (j <= length src)%nat ->
  in_width (Z.of_nat (j - i) * 8) (from_le (sub src i j)).
Proof. intros. rewrite <- (length_sub src i j) by done. apply from_le_range. Qed.

(** Splitting a datagram at the boundaries of its fields. *)
Lemma sub_split {A} (l : list A) i j k :
  (i <= j)%nat -> (j <= k)%nat -> sub l i k = sub l i j ++ sub l j k.
Proof.
  intros. unfold sub. replace (k - i)%nat with ((j - i) + (k - j))%nat by lia.
  rewrite <- take_take_drop, drop_drop. do 3 f_equal. lia.
Qed.

Lemma to_le_sub n src i j :
  (j - i = n)%nat -> (i <= j)%nat -> (j <= length src)%nat ->
  to_le n (from_le (sub src i j)) = sub src i j.
Proof. intros. apply to_from_le. by rewrite length_sub. Qed.

(** Run the slice accesses of a parser whose bounds follow from the context. *)
Ltac run_slices :=
  repeat first
    [ rewrite le_field_ok by (len; lia)
    | rewrite slice_ok by (len; lia) ];
  simpl outcome_bind.

Lemma parse_init_ok src :
  length src = HANDSHAKE_INIT_SZ ->
  parse_init src = Ret (mkInit (from_le (sub src 4 8)) (sub src 8 40) (sub src 40 88) (sub src 88 116)).
Proof. unfold HANDSHAKE_INIT_SZ. intros. unfold parse_init. run_slices. done. Qed.

Lemma parse_resp_ok src :
  length src = HANDSHAKE_RESP_SZ ->
  parse_resp src
  = Ret (mkResp (from_le (sub src 4 8)) (from_le (sub src 8 12)) (sub src 12 44) (sub src 44 60)).
Proof. unfold HANDSHAKE_RESP_SZ. intros. unfold parse_resp. run_slices. done. Qed.

Lemma parse_cookie_ok src :
  length src = COOKIE_REPLY_SZ ->
  parse_cookie src = Ret (mkCookieReply (from_le (sub src 4 8)) (sub src 8 32) (sub src 32 64)).
Proof. unfold COOKIE_REPLY_SZ. intros. unfold parse_cookie. run_slices. done. Qed.

Lemma parse_data_ok src :
  (DATA_OVERHEAD_SZ <= length src)%nat ->
  parse_data src = Ret (mkData (from_le (sub src 4 8)) (from_le (sub src 8 16)) (drop 16 src)).
Proof.
  unfold DATA_OVERHEAD_SZ. intros. unfold parse_data. run_slices. by rewrite sub_full_drop.
Qed.

(** The parser as a function without panics. *)
Definition parse_spec (src : bytes) : result WireGuardError Packet :=
  if bool_decide (length src < 4)%nat then Err InvalidPacket
  else
    let t := from_le (sub src 0 4) in
    if (t =? HANDSHAKE_INIT) && bool_decide (length src = HANDSHAKE_INIT_SZ) then
      Ok (PHandshakeInit
            (mkInit (from_le (sub src 4 8)) (sub src 8 40) (sub src 40 88) (sub src 88 116)))
    else if (t =? HANDSHAKE_RESP) && bool_decide (length src = HANDSHAKE_RESP_SZ) then
      Ok (PHandshakeResponse
            (mkResp (from_le (sub src 4 8)) (from_le (sub src 8 12)) (sub src 12 44) (sub src 44 60)))
    else if (t =? COOKIE_REPLY) && bool_decide (length src = COOKIE_REPLY_SZ) then
      Ok (PPacketCookieReply (mkCookieReply (from_le (sub src 4 8)) (sub src 8 32) (sub src 32 64)))
    else if (t =? DATA) && bool_decide (DATA_OVERHEAD_SZ <= length src)%nat then
      Ok (PPacketData (mkData (from_le (sub src 4 8)) (from_le (sub src 8 16)) (drop 16 src)))
    else Err InvalidPacket.

Lemma parse_is_spec src : parse_incoming_packet src = Ret (parse_spec src).
Proof.
  unfold parse_incoming_packet, parse_spec.
  case_bool_decide; [done|]. rewrite le_field_ok by lia. simpl.
  repeat (split_if; bprop;
    [first [rewrite parse_init_ok by done | rewrite parse_resp_ok by done
           | rewrite parse_cookie_ok by done | rewrite parse_data_ok by done]; done|]).
  done.
Qed.

Ltac wire_fields :=
  cbn [wire init_sender_idx init_ephemeral encrypted_static encrypted_timestamp
       resp_sender_idx resp_receiver_idx resp_ephemeral encrypted_nothing
       cookie_receiver_idx cookie_nonce encrypted_cookie
       data_receiver_idx data_counter encrypted_encapsulated_packet].

(** A datagram is the concatenation of its fields. *)
Lemma sub_0_all {A} (l : list A) : l = sub l 0 (length l).
Proof. symmetry. by apply sub_all. Qed.

Lemma parse_spec_inv src p :
  parse_spec src = Ok p ->
  wf_packet p /\ exists m, length m = macs_len p /\ src = wire p ++ m.
Proof.
  unfold parse_spec. case_bool_decide; [done|].
  repeat (split_if; bprop; [intros [= <-]|]); [..|done];
    match goal with H : from_le _ = _ |- _ => rename H into Ht end;
    unfold HANDSHAKE_INIT_SZ, HANDSHAKE_RESP_SZ, COOKIE_REPLY_SZ, DATA_OVERHEAD_SZ in *;
    (split; [simpl; rewrite ?length_sub, ?length_drop by lia; repeat split;
             (apply le_field_range; lia) || lia|]).
  - exists (sub src 116 148). rewrite length_sub by lia. split; [done|].
    wire_fields. rewrite <- Ht, !to_le_sub, <- !app_assoc by lia.
    rewrite <- !sub_split by lia. rewrite (sub_0_all src) at 1. by f_equal.
  - exists (sub src 60 92). rewrite length_sub by lia. split; [done|].
    wire_fields. rewrite <- Ht, !to_le_sub, <- !app_assoc by lia.
    rewrite <- !sub_split by lia. rewrite (sub_0_all src) at 1. by f_equal.
  - exists []. split; [done|].
    wire_fields. rewrite <- Ht, !to_le_sub, app_nil_r by lia.
    rewrite <- !sub_split by lia. rewrite (sub_0_all src) at 1. by f_equal.
  - exists []. split; [done|].
    wire_fields. rewrite <- Ht, !to_le_sub, app_nil_r, <- sub_full_drop by lia.
    rewrite <- !sub_split by lia. apply sub_0_all.
Qed.

Lemma parse_wf src p : parse_incoming_packet src = Ret (Ok p) -> wf_packet p.
Proof.
  rewrite parse_is_spec. intros H. apply (f_equal (fun o => match o with Ret r => r | Panic => Err InvalidPacket end)) in H.
  by apply parse_spec_inv in H as [? _].
Qed.

(** Evaluate comparisons of message types. *)
Ltac eval_tests :=
  repeat match goal with
  | |- context [?a =? ?b] =>
      let c := eval vm_compute in (a =? b) in
      match c with
      | true => change (a =? b) with true
      | false => change (a =? b) with false
      end
  end; cbn [andb].

Lemma wire_type p m :
  from_le (sub (wire p ++ m) 0 4)
  = match p with
    | PHandshakeInit _ => HANDSHAKE_INIT
    | PHandshakeResponse _ => HANDSHAKE_RESP
    | PPacketCookieReply _ => COOKIE_REPLY
    | PPacketData _ => DATA
    end.
Proof.
  destruct p; cbn [wire]; rewrite <- !app_assoc, (sub_app_head _ _ 4) by len;
    apply from_to_le; unfold in_width; vm_compute; split; [discriminate|reflexivity|..];
    try discriminate; reflexivity.
Qed.

Lemma length_wire p :
  wf_packet p ->
  match p with
  | PHandshakeInit _ => length (wire p) = 116%nat
  | PHandshakeResponse _ => length (wire p) = 60%nat
  | PPacketCookieReply _ => length (wire p) = 64%nat
  | PPacketData p' => length (wire p) = (16 + length (encrypted_encapsulated_packet p'))%nat
  end.
Proof. destruct p; cbn [wf_packet wire]; intros; destruct_and?; len. Qed.

Lemma parse_spec_wire p m :
  wf_packet p -> length m = macs_len p -> parse_spec (wire p ++ m) = Ok p.
Proof.
  intros Hp Hm. pose proof (length_wire p Hp) as Hl.
  unfold parse_spec. rewrite wire_type.
  rewrite bool_decide_eq_false_2 by (destruct p; cbn [wf_packet macs_len] in *; len).
  destruct p as [p|p|p|p]; eval_tests; cbn [wf_packet macs_len] in *; destruct_and?;
    rewrite bool_decide_eq_true_2 by
      (unfold HANDSHAKE_INIT_SZ, HANDSHAKE_RESP_SZ, COOKIE_REPLY_SZ, DATA_OVERHEAD_SZ; len);
    cbn [wire]; rewrite <- !app_assoc; clear Hl; field;
    rewrite ?from_to_le4, ?from_to_le8 by assumption; try by destruct p.
  - apply nil_length_inv in Hm as ->. rewrite app_nil_r, !app_assoc, drop_app_length' by len. by destruct p.
Qed.

Lemma dst_address_spec packet :
  dst_address packet
  = Ret (match packet with
         | [] => None
         | b :: _ =>
             if (Z.shiftr (u8 b) 4 =? 4) && bool_decide (20 <= length packet)%nat
             then Some (V4 (sub packet 16 20))
             else if (Z.shiftr (u8 b) 4 =? 6) && bool_decide (40 <= length packet)%nat
             then Some (V6 (sub packet 24 40))
             else None
         end).
Proof.
  unfold dst_address, IPV4_MIN_HEADER_SIZE, IPV6_MIN_HEADER_SIZE.
  destruct packet as [|b packet]; [done|].
  rewrite bool_decide_eq_false_2 by done. cbn [index lookup list_lookup unwrap outcome_bind].
  repeat (split_if; bprop; [by rewrite slice_ok by (vm_compute in *; lia)|]). done.
Qed.

(** ** Properties *)

(** C29. Parsing is total and is the inverse of the wire layout: no datagram makes
    [parse_incoming_packet] panic, and it returns packet [p] exactly when [p] is
    well formed and the datagram is the layout of [p], followed by exactly the 32
    bytes of MACs for a handshake message and by nothing otherwise. *)
Theorem parse_incoming_packet_inverse (src : bytes) :
  (exists r, parse_incoming_packet src = Ret r)
  /\ forall p, parse_incoming_packet src = Ret (Ok p)
     <-> wf_packet p /\ exists m, length m = macs_len p /\ src = wire p ++ m.
Proof.
  rewrite parse_is_spec. split; [eauto|]. intros p. split.
  - intros [= H]. by apply parse_spec_inv.
  - intros [Hp [m [Hm ->]]]. by rewrite parse_spec_wire.
Qed.

(** Routing never reads out of bounds: [dst_address] is total, and an address
    it returns has the width of its family. *)
Theorem dst_address_total (packet : bytes) :
  exists r, dst_address packet = Ret r
  /\ match r with
     | Some (V4 a) => length a = 4%nat /\ a = sub packet 16 20
     | Some (V6 a) => length a = 16%nat /\ a = sub packet 24 40
     | None => True
     end.
Proof.
  rewrite dst_address_spec. eexists; split; [done|].
  destruct packet as [|b packet]; [done|].
  repeat (split_if; bprop; [by rewrite length_sub by lia|]). done.
Qed.
