(* ===== verification/Crypto.v ===== *)
(** * Cryptographic primitives and their wrappers ([noise/handshake.rs], 38-159)

    The primitives come from third-party crates (blake2, hmac, ring,
    chacha20poly1305, x25519-dalek). [Crypto] is their interface and
    [CryptoLaws] the documented behaviour the tunnel relies on; the wrappers of
    [handshake.rs] are defined over the interface. [toy_crypto] is an executable
    instance of the laws used to evaluate examples: it is not secure, and no
    property depends on it. *)

From Stdlib Require Import ZArith Lia.
From stdpp Require Import base numbers list option.
From S2P Require Import Prelude Errors.

(** ** Interface *)

Class Crypto := {
  (* Blake2s256 of the concatenated updates *)
  blake2s : bytes -> bytes;
  (* SimpleHmac<Blake2s256> *)
  hmac_blake2s : bytes -> bytes -> bytes;
  (* Blake2sMac with an output of the given size *)
  blake2s_mac : nat -> bytes -> bytes -> bytes;
  (* CHACHA20_POLY1305: key, nonce, aad, plaintext to ciphertext and tag *)
  chacha_seal : bytes -> bytes -> bytes -> bytes -> bytes * bytes;
  (* key, nonce, aad, ciphertext followed by tag *)
  chacha_open : bytes -> bytes -> bytes -> bytes -> option bytes;
  (* XChaCha20Poly1305, the same with a 24-byte nonce *)
  xchacha_seal : bytes -> bytes -> bytes -> bytes -> bytes * bytes;
  xchacha_open : bytes -> bytes -> bytes -> bytes -> option bytes;
  (* public key of a secret, and Diffie-Hellman of a secret and a public key *)
  x25519_public : bytes -> bytes;
  diffie_hellman : bytes -> bytes -> bytes;
}.

Class CryptoLaws (C : Crypto) : Prop := {
  length_blake2s : forall d, length (blake2s d) = 32%nat;
  length_hmac : forall k d, length (hmac_blake2s k d) = 32%nat;
  length_mac : forall n k d, length (blake2s_mac n k d) = n;
  length_chacha_seal : forall k n a d,
    length (fst (chacha_seal k n a d)) = length d /\ length (snd (chacha_seal k n a d)) = 16%nat;
  chacha_open_seal : forall k n a d,
    chacha_open k n a (fst (chacha_seal k n a d) ++ snd (chacha_seal k n a d)) = Some d;
  chacha_open_inv : forall k n a c d,
    chacha_open k n a c = Some d -> c = fst (chacha_seal k n a d) ++ snd (chacha_seal k n a d);
  length_xchacha_seal : forall k n a d,
    length (fst (xchacha_seal k n a d)) = length d /\ length (snd (xchacha_seal k n a d)) = 16%nat;
  xchacha_open_seal : forall k n a d,
    xchacha_open k n a (fst (xchacha_seal k n a d) ++ snd (xchacha_seal k n a d)) = Some d;
  length_x25519_public : forall s, length (x25519_public s) = 32%nat;
  length_diffie_hellman : forall s p, length (diffie_hellman s p) = 32%nat;
  diffie_hellman_comm : forall s t,
    diffie_hellman s (x25519_public t) = diffie_hellman t (x25519_public s);
}.

(** ** The wrappers of the source *)

Section Wrappers.
Context `{Crypto}.

Definition b2s_hash (data1 data2 : bytes) : bytes := blake2s (data1 ++ data2).

Definition b2s_hmac (key data1 : bytes) : bytes := hmac_blake2s key data1.

Definition b2s_hmac2 (key data1 data2 : bytes) : bytes := hmac_blake2s key (data1 ++ data2).

Definition b2s_keyed_mac_16 (key data1 : bytes) : bytes := blake2s_mac 16 key data1.

Definition b2s_keyed_mac_16_2 (key data1 data2 : bytes) : bytes :=
  blake2s_mac 16 key (data1 ++ data2).

Definition b2s_mac_24 (key data1 : bytes) : bytes := blake2s_mac 24 key data1.

(** A counter nonce: four zero bytes and the counter. *)
Definition counter_nonce (counter : Z) : bytes := zeros 4 ++ to_le 8 counter.

(** [n] is the length of the [ciphertext] buffer, wholly overwritten: the first
    [copy_from_slice] needs [data.len()] bytes, the second exactly 16 more. *)
Definition aead_chacha20_seal_inner (n : nat) (key nonce data aad : bytes) : outcome bytes :=
  let! _ := require (bool_decide (length data <= n)%nat) in
  let '(ct, tag) := chacha_seal key nonce aad data in
  let! _ := require (bool_decide (n - length data = length tag)%nat) in
  Ret (ct ++ tag).

Definition aead_chacha20_seal (n : nat) (key : bytes) (counter : Z) (data aad : bytes)
    : outcome bytes :=
  aead_chacha20_seal_inner n key (counter_nonce counter) data aad.

(** [n] is the length of [buffer], which receives exactly the plaintext. *)
Definition aead_chacha20_open_inner (n : nat) (key nonce data aad : bytes)
    : outcome (result unit bytes) :=
  match chacha_open key nonce aad data with
  | None => Ret (Err tt)
  | Some plaintext =>
      let! _ := require (bool_decide (length plaintext = n)) in
      Ret (Ok plaintext)
  end.

Definition aead_chacha20_open (n : nat) (key : bytes) (counter : Z) (data aad : bytes)
    : outcome (result WireGuardError bytes) :=
  let! r := aead_chacha20_open_inner n key (counter_nonce counter) data aad in
  match r with
  | Ok p => Ret (Ok p)
  | Err _ => Ret (Err InvalidAeadTag)
  end.

End Wrappers.

Section Laws.
Context `{CryptoLaws}.

(** The sealed message as one value. *)
Definition sealed (key : bytes) (counter : Z) (data aad : bytes) : bytes :=
  let '(ct, tag) := chacha_seal key (counter_nonce counter) aad data in ct ++ tag.

Lemma length_sealed k c d a : length (sealed k c d a) = (length d + 16)%nat.
Proof.
  unfold sealed. destruct (length_chacha_seal k (counter_nonce c) a d) as [H1 H2].
  destruct (chacha_seal _ _ _ _); simpl in *. rewrite length_app. lia.
Qed.

Lemma seal_ok n k c d a :
  n = (length d + 16)%nat -> aead_chacha20_seal n k c d a = Ret (sealed k c d a).
Proof.
  intros ->. unfold aead_chacha20_seal, aead_chacha20_seal_inner, sealed.
  destruct (length_chacha_seal k (counter_nonce c) a d) as [H1 H2].
  destruct (chacha_seal _ _ _ _); simpl in *.
  rewrite bool_decide_eq_true_2 by lia; simpl. by rewrite bool_decide_eq_true_2 by lia.
Qed.

Lemma open_sealed k c d a : chacha_open k (counter_nonce c) a (sealed k c d a) = Some d.
Proof.
  unfold sealed. pose proof (chacha_open_seal k (counter_nonce c) a d).
  by destruct (chacha_seal _ _ _ _).
Qed.

Lemma chacha_open_sealed_inv k c a ct d :
  chacha_open k (counter_nonce c) a ct = Some d -> ct = sealed k c d a.
Proof.
  intros ->%chacha_open_inv. unfold sealed. by destruct (chacha_seal _ _ _ _).
Qed.

Lemma open_length k n a ct d : chacha_open k n a ct = Some d -> length ct = (length d + 16)%nat.
Proof.
  intros ->%chacha_open_inv. destruct (length_chacha_seal k n a d). rewrite length_app. lia.
Qed.

Lemma aead_open_sealed k c d a n :
  length d = n -> aead_chacha20_open n k c (sealed k c d a) a = Ret (Ok d).
Proof.
  intros. unfold aead_chacha20_open, aead_chacha20_open_inner. rewrite open_sealed.
  by rewrite bool_decide_eq_true_2.
Qed.

(** Opening a message of [n + 16] bytes into a buffer of [n] bytes cannot panic. *)
Lemma aead_open_total k c n ct a :
  length ct = (n + 16)%nat ->
  aead_chacha20_open n k c ct a
  = Ret (match chacha_open k (counter_nonce c) a ct with
         | Some p => Ok p
         | None => Err InvalidAeadTag
         end).
Proof.
  intros Hl. unfold aead_chacha20_open, aead_chacha20_open_inner.
  destruct (chacha_open _ _ _ _) eqn:E; [|done].
  apply open_length in E. by rewrite bool_decide_eq_true_2 by lia.
Qed.

Lemma length_b2s_hash a b : length (b2s_hash a b) = 32%nat.
Proof. apply length_blake2s. Qed.
Lemma length_b2s_hmac a b : length (b2s_hmac a b) = 32%nat.
Proof. apply length_hmac. Qed.
Lemma length_b2s_hmac2 a b c : length (b2s_hmac2 a b c) = 32%nat.
Proof. apply length_hmac. Qed.
Lemma length_b2s_keyed_mac_16 a b : length (b2s_keyed_mac_16 a b) = 16%nat.
Proof. apply length_mac. Qed.
Lemma length_b2s_keyed_mac_16_2 a b c : length (b2s_keyed_mac_16_2 a b c) = 16%nat.
Proof. apply length_mac. Qed.
Lemma length_b2s_mac_24 a b : length (b2s_mac_24 a b) = 24%nat.
Proof. apply length_mac. Qed.

End Laws.

#[export] Hint Rewrite @length_sealed @length_b2s_hash @length_b2s_hmac @length_b2s_hmac2
  @length_b2s_keyed_mac_16 @length_b2s_keyed_mac_16_2 @length_b2s_mac_24
  @length_x25519_public @length_diffie_hellman using typeclasses eauto : len.

(** ** An executable instance *)

Definition toy_modulus : Z := 2 ^ 255 - 19.

(** A polynomial checksum of [n] bytes. *)
Definition toy_digest (n : nat) (d : bytes) : bytes :=
  to_le n (foldl (fun h b => (h * 131 + u8 b + 7) mod toy_modulus) 5 d).

Definition toy_tag (k n a d : bytes) : bytes :=
  toy_digest 16 (k ++ n ++ a ++ d ++ to_le 8 (Z.of_nat (length a))).

Definition toy_seal (k n a d : bytes) : bytes * bytes := (d, toy_tag k n a d).

Definition toy_open (k n a c : bytes) : option bytes :=
  let d := take (length c - 16) c in
  if bool_decide (c = d ++ toy_tag k n a d) then Some d else None.

Definition toy_crypto : Crypto := {|
  blake2s := toy_digest 32;
  hmac_blake2s := fun k d => toy_digest 32 (k ++ d);
  blake2s_mac := fun n k d => toy_digest n (k ++ d);
  chacha_seal := toy_seal;
  chacha_open := toy_open;
  xchacha_seal := toy_seal;
  xchacha_open := toy_open;
  x25519_public := fun s => to_le 32 (from_le s * 9 mod toy_modulus);
  diffie_hellman := fun s p => to_le 32 (from_le s * from_le p mod toy_modulus);
|}.
#[local] Existing Instance toy_crypto.

Lemma toy_dh s t :
  diffie_hellman s (x25519_public t) = to_le 32 (from_le s * from_le t * 9 mod toy_modulus).
Proof.
  simpl. f_equal. rewrite from_to_le.
  - rewrite Z.mul_mod_idemp_r by done. f_equal. lia.
  - pose proof (Z.mod_pos_bound (from_le t * 9) toy_modulus eq_refl).
    unfold in_width. split; [lia|]. eapply Z.lt_trans; [apply H|reflexivity].
Qed.

Lemma toy_open_seal k n a d : toy_open k n a (d ++ toy_tag k n a d) = Some d.
Proof.
  unfold toy_open. rewrite length_app.
  replace (length (toy_tag k n a d)) with 16%nat by (unfold toy_tag, toy_digest; by rewrite length_to_le).
  replace (length d + 16 - 16)%nat with (length d) by lia.
  rewrite take_app_length. by rewrite bool_decide_eq_true_2.
Qed.

Lemma toy_laws : CryptoLaws toy_crypto.
Proof.
  split; simpl; intros; try apply length_to_le.
  - split; [done|apply length_to_le].
  - apply toy_open_seal.
  - unfold toy_open in H. case_bool_decide as E; simplify_eq. done.
  - split; [done|apply length_to_le].
  - apply toy_open_seal.
  - change (diffie_hellman s (x25519_public t) = diffie_hellman t (x25519_public s)).
    rewrite !toy_dh. do 2 f_equal. lia.
Qed.
