(* ===== verification/Session.v ===== *)
(** * Transport sessions ([noise/session.rs])

    A [Session] with its keys, its sending counter and its anti-replay window;
    [format_packet_data] and [receive_packet_data]. Destination buffers are
    represented by their length: what a function returns is the prefix it has
    written, and the rest of the buffer is not read. *)

From Stdlib Require Import ZArith Lia.
From stdpp Require Import base numbers list gmap.
From S2P Require Import Prelude Errors ReplayWindow Packet Crypto.

Record Session := mkSession {
  receiving_index : Z;
  sending_index : Z;
  receiver : bytes;
  sender : bytes;
  sending_key_counter : Z;
  receiving_key_counter : ReceivingKeyCounterValidator;
}.

Definition DATA_OFFSET : nat := 16.
Definition AEAD_SIZE : nat := 16.

(** [Session::new] *)
Definition session_new (local_index peer_index : Z) (receiving_key sending_key : bytes) : Session :=
  mkSession local_index peer_index receiving_key sending_key 0 validator_default.

Definition local_index (s : Session) : Z := receiving_index s.

Definition set_counter (s : Session) (v : ReceivingKeyCounterValidator) : Session :=
  mkSession (receiving_index s) (sending_index s) (receiver s) (sender s)
    (sending_key_counter s) v.

Definition receiving_counter_quick_check (s : Session) (counter : Z) : result WireGuardError unit :=
  will_accept (receiving_key_counter s) counter.

Definition receiving_counter_mark (s : Session) (counter : Z)
    : result WireGuardError unit * Session :=
  let '(v, ret) := mark_did_receive (receiving_key_counter s) counter in
  let v := if is_ok ret then mkValidator (next v) (add64 (receive_cnt v) 1) (bitmap v) else v in
  (ret, set_counter s v).

Section Transport.
Context `{Crypto}.

Definition format_packet_data (s : Session) (src : bytes) (dst_len : nat)
    : outcome (bytes * Session) :=
  if bool_decide (dst_len < length src + DATA_OVERHEAD_SZ)%nat then Panic
  else
    let counter := sending_key_counter s in
    let s' := mkSession (receiving_index s) (sending_index s) (receiver s) (sender s)
                (add64 counter 1) (receiving_key_counter s) in
    let '(ct, tag) := chacha_seal (sender s) (counter_nonce counter) [] src in
    let! _ := require (bool_decide (length tag = AEAD_SIZE)) in
    Ret (to_le 4 DATA ++ to_le 4 (sending_index s) ++ to_le 8 counter ++ ct ++ tag, s').

Definition receive_packet_data (s : Session) (packet : PacketData) (dst_len : nat)
    : outcome (result WireGuardError bytes * Session) :=
  let ct_len := length (encrypted_encapsulated_packet packet) in
  if bool_decide (dst_len < ct_len)%nat then Panic
  else if negb (data_receiver_idx packet =? receiving_index s) then Ret (Err WrongIndex, s)
  else
    match receiving_counter_quick_check s (data_counter packet) with
    | Err e => Ret (Err e, s)
    | Ok _ =>
        match chacha_open (receiver s) (counter_nonce (data_counter packet)) []
                (encrypted_encapsulated_packet packet) with
        | None => Ret (Err InvalidAeadTag, s)
        | Some ret =>
            let '(m, s') := receiving_counter_mark s (data_counter packet) in
            match m with
            | Err e => Ret (Err e, s')
            | Ok _ => Ret (Ok ret, s')
            end
        end
    end.

End Transport.

Definition current_packet_cnt (s : Session) : Z * Z :=
  (next (receiving_key_counter s), receive_cnt (receiving_key_counter s)).

(** ** Lemmas *)

Section TransportLemmas.
Context `{CryptoLaws}.

(** The packet a session sends next, and the session after it. *)
Definition data_packet (s : Session) (src : bytes) : PacketData :=
  mkData (sending_index s) (sending_key_counter s)
    (sealed (sender s) (sending_key_counter s) src []).

Definition after_send (s : Session) : Session :=
  mkSession (receiving_index s) (sending_index s) (receiver s) (sender s)
    (add64 (sending_key_counter s) 1) (receiving_key_counter s).

Lemma format_packet_data_ok s src n :
  (length src + 32 <= n)%nat ->
  format_packet_data s src n = Ret (wire (PPacketData (data_packet s src)), after_send s).
Proof.
  intros Hn. unfold format_packet_data, data_packet, sealed, after_send. cbn [wire].
  rewrite bool_decide_eq_false_2 by (unfold DATA_OVERHEAD_SZ; lia). simpl.
  destruct (length_chacha_seal (sender s) (counter_nonce (sending_key_counter s)) [] src) as [_ Ht].
  destruct (chacha_seal _ _ _ _) as [ct tag]; simpl in *. by rewrite bool_decide_eq_true_2.
Qed.

(** A packet of the interface travels with 32 bytes more. *)
Lemma length_format s src dst_len p s' :
  format_packet_data s src dst_len = Ret (p, s') -> length p = (length src + 32)%nat.
Proof.
  unfold format_packet_data. split_if; [done|].
  destruct (length_chacha_seal (sender s) (counter_nonce (sending_key_counter s)) [] src) as [Hc Ht].
  destruct (chacha_seal _ _ _ _) as [ct tag]. cbn [fst snd] in *. rewrite bool_decide_eq_true_2 by done. cbn.
  intros [= <- _]. rewrite !length_app, !length_to_le, Hc, Ht. lia.
Qed.

Lemma data_packet_wf s src :
  u32_range (sending_index s) -> u64_range (sending_key_counter s) ->
  wf_packet (PPacketData (data_packet s src)).
Proof. intros. cbn. rewrite length_sealed. split_and!; try done. lia. Qed.

Lemma receive_genuine r c d n :
  (length d + 16 <= n)%nat ->
  receive_packet_data r (mkData (receiving_index r) c (sealed (receiver r) c d [])) n
  = Ret (match receiving_counter_quick_check r c with
         | Err e => (Err e, r)
         | Ok _ => let '(m, r') := receiving_counter_mark r c in
                   (match m with Ok _ => Ok d | Err e => Err e end, r')
         end).
Proof.
  intros. unfold receive_packet_data. cbn [encrypted_encapsulated_packet data_receiver_idx data_counter].
  rewrite length_sealed, bool_decide_eq_false_2, Z.eqb_refl by lia. simpl.
  destruct (receiving_counter_quick_check r c); [|done].
  rewrite open_sealed. destruct (receiving_counter_mark r c) as [[] ?]; done.
Qed.

(** The window a session's validator represents is kept by every receive. *)
Definition session_window (s : Session) (w : Window) : Prop :=
  represents (receiving_key_counter s) w.

Lemma represents_receive_cnt v w c :
  represents v w -> represents (mkValidator (next v) c (bitmap v)) w.
Proof. intros []. by split. Qed.

Lemma counter_mark_refines s w c :
  session_window s w -> safe_counter c ->
  fst (receiving_counter_mark s c) = snd (window_mark w c)
  /\ session_window (snd (receiving_counter_mark s c)) (fst (window_mark w c)).
Proof.
  intros Hs Hc. destruct (mark_refines _ _ Hs c Hc) as [Hr Hrep].
  unfold receiving_counter_mark. destruct (mark_did_receive _ c) as [v r]. simpl in *.
  split; [done|]. unfold session_window. simpl.
  destruct (is_ok r); [by apply represents_receive_cnt|done].
Qed.

(** Receiving a genuine packet is a step of the window. *)
Lemma receive_genuine_window r w c d n :
  session_window r w -> safe_counter c -> (length d + 16 <= n)%nat ->
  exists res r',
    receive_packet_data r (mkData (receiving_index r) c (sealed (receiver r) c d [])) n
      = Ret (res, r')
    /\ session_window r' (fst (window_mark w c))
    /\ receiving_index r' = receiving_index r /\ receiver r' = receiver r
    /\ (if window_accepts w c then res = Ok d else is_ok res = false).
Proof.
  intros Hr Hc Hn. rewrite receive_genuine by done.
  unfold receiving_counter_quick_check.
  pose proof (will_accept_verdict _ _ c Hr Hc) as Hv.
  destruct (counter_mark_refines r w c Hr Hc) as [Hm Hw].
  unfold window_mark in *. destruct (window_accepts w c) eqn:E.
  - rewrite Hv. unfold receiving_counter_mark in *. destruct (mark_did_receive _ c) as [v m].
    simpl in *. subst m. eauto 10.
  - destruct Hv as [e ->]. eauto 10.
Qed.

(** ** A stream of packets *)

(** Send messages one after the other, each into a buffer of the size the
    interface asks for. *)
Fixpoint send_all (s : Session) (msgs : list bytes) : outcome (list bytes * Session) :=
  match msgs with
  | [] => Ret ([], s)
  | m :: msgs =>
      let! (p, s) := format_packet_data s m (length m + DATA_OVERHEAD_SZ) in
      let! (ps, s) := send_all s msgs in
      Ret (p :: ps, s)
  end.

(** Receive one datagram into a buffer of [n] bytes. *)
Definition deliver (r : Session) (n : nat) (datagram : bytes)
    : outcome (result WireGuardError bytes * Session) :=
  let! p := parse_incoming_packet datagram in
  match p with
  | Ok (PPacketData d) => receive_packet_data r d n
  | Ok _ => Ret (Err InvalidPacket, r)
  | Err e => Ret (Err e, r)
  end.

Fixpoint deliver_all (r : Session) (n : nat) (ps : list bytes)
    : outcome (list (result WireGuardError bytes) * Session) :=
  match ps with
  | [] => Ret ([], r)
  | p :: ps =>
      let! (x, r) := deliver r n p in
      let! (xs, r) := deliver_all r n ps in
      Ret (x :: xs, r)
  end.

(** The datagram that carries message [m] at counter [c]. *)
Definition datagram (s : Session) (c : Z) (m : bytes) : bytes :=
  wire (PPacketData (mkData (sending_index s) c (sealed (sender s) c m []))).

Lemma send_all_ok s msgs :
  0 <= sending_key_counter s -> sending_key_counter s + Z.of_nat (length msgs) < 2 ^ 64 ->
  exists s', send_all s msgs
    = Ret (imap (fun i m => datagram s (sending_key_counter s + Z.of_nat i) m) msgs, s')
  /\ sending_key_counter s' = sending_key_counter s + Z.of_nat (length msgs).
Proof.
  revert s. induction msgs as [|m msgs IH]; intros s H0' Hlt; simpl in *.
  - exists s. split; [done|lia].
  - rewrite format_packet_data_ok by done. simpl.
    destruct (IH (after_send s)) as [s' [-> Hs']];
      [simpl; rewrite add64_small; lia ..|]. simpl in *.
    exists s'. rewrite add64_small in * by lia. split; [|lia].
    rewrite Z.add_0_r. do 3 f_equal. apply imap_ext. intros i x _. simpl.
    by replace (sending_key_counter s + 1 + Z.of_nat i)
      with (sending_key_counter s + Z.pos (Pos.of_succ_nat i)) by lia.
Qed.

Lemma deliver_datagram s r w c m n :
  session_window r w -> safe_counter c -> u32_range (sending_index s) ->
  sending_index s = receiving_index r -> sender s = receiver r -> (length m + 16 <= n)%nat ->
  exists res r',
    deliver r n (datagram s c m) = Ret (res, r')
    /\ session_window r' (fst (window_mark w c))
    /\ receiving_index r' = receiving_index r /\ receiver r' = receiver r
    /\ (if window_accepts w c then res = Ok m else is_ok res = false).
Proof.
  intros Hw Hc Hi Hidx Hkey Hn. unfold deliver, datagram.
  rewrite parse_is_spec, <- (app_nil_r (wire _)), parse_spec_wire; [| |done].
  - simpl. rewrite Hidx, Hkey. by apply receive_genuine_window.
  - cbn [wf_packet data_receiver_idx data_counter encrypted_encapsulated_packet].
    rewrite length_sealed. assert (0 < N_BITS) by done. destruct Hc.
    split; [done|]. unfold in_width. lia.
Qed.

(** Deliveries of the sent messages in the order [ds] (any order, with losses and
    duplicates) are steps of the window. *)
Lemma deliver_all_window s r w msgs ds n :
  session_window r w -> u32_range (sending_index s) ->
  sending_index s = receiving_index r -> sender s = receiver r ->
  Forall (fun m => (length m + 16 <= n)%nat) msgs ->
  Z.of_nat (length msgs) <= 2 ^ 64 - N_BITS ->
  Forall (fun d => (d < length msgs)%nat) ds ->
  exists rs r',
    deliver_all r n ((fun d => datagram s (Z.of_nat d) (msgs !!! d)) <$> ds) = Ret (rs, r')
    /\ ok <$> rs = zip_with (fun v d => if is_ok v then msgs !! d else None)
                    (window_verdicts w (Z.of_nat <$> ds)) ds.
Proof.
  intros Hw Hi Hidx Hkey Hlen Hmax Hds. revert r w Hw Hidx Hkey.
  induction Hds as [|d ds Hd Hds IH]; intros r w Hw Hidx Hkey; csimpl; [eauto|].
  assert (safe_counter (Z.of_nat d)) as Hc by (unfold safe_counter; lia).
  destruct (lookup_lt_is_Some_2 _ _ Hd) as [m Hm].
  rewrite (list_lookup_total_correct _ _ _ Hm).
  assert (length m + 16 <= n)%nat as Hn by (by eapply Forall_lookup_1 in Hlen).
  destruct (deliver_datagram s r w (Z.of_nat d) m n Hw Hc Hi Hidx Hkey Hn)
    as (res & r' & -> & Hw' & Hi' & Hk' & Hres). csimpl.
  destruct (IH r' (fst (window_mark w (Z.of_nat d)))) as (rs & r'' & -> & Hrs); [congruence..|].
  simpl. eexists _, _. split; [done|]. csimpl. rewrite Hrs.
  unfold window_mark in *. destruct (window_accepts w (Z.of_nat d)); simpl.
  - subst res. by rewrite Hm.
  - by destruct res.
Qed.

Lemma imap_lookup_total (f : nat -> bytes -> bytes) (l : list bytes) d :
  (d < length l)%nat -> imap f l !!! d = f d (l !!! d).
Proof.
  intros [x Hx]%lookup_lt_is_Some_2. rewrite (list_lookup_total_correct l d x Hx).
  apply list_lookup_total_correct. by rewrite list_lookup_imap, Hx.
Qed.

(** A window that has accepted only counters below [k] accepts [k], [k+1], ... *)
Lemma window_verdicts_seq w k n :
  (forall c, c ∈ w_seen w -> c < Z.of_nat k) -> w_next w <= Z.of_nat k ->
  window_verdicts w (Z.of_nat <$> seq k n) = replicate n (Ok tt).
Proof.
  revert w k. induction n as [|n IH]; intros w k Hs Hn; csimpl; [done|].
  unfold window_mark, window_accepts. assert (0 < N_BITS) by done.
  rewrite bool_decide_eq_true_2, (proj2 (Z.leb_le _ _)) by (done || lia || intros ?%Hs; lia).
  csimpl. f_equal. apply IH; simpl; [|lia].
  intros c [->%elem_of_singleton|?%Hs]%elem_of_union; lia.
Qed.

Lemma ok_fmap_inj (rs : list (result WireGuardError bytes)) msgs :
  ok <$> rs = Some <$> msgs -> rs = Ok <$> msgs.
Proof.
  revert msgs. induction rs as [|r rs IH]; intros [|m msgs]; try done.
  csimpl. intros [= Hr Hrs]. f_equal; [by destruct r; simplify_eq/=|by apply IH].
Qed.

Lemma datagram_counter s c m : sub (datagram s c m) 8 16 = to_le 8 c.
Proof. unfold datagram. cbn [wire data_receiver_idx data_counter]. field. done. Qed.

Lemma zip_all_ok (msgs : list bytes) :
  zip_with (fun (v : result WireGuardError unit) d => if is_ok v then msgs !! d else None)
    (replicate (length msgs) (Ok tt)) (seq 0 (length msgs)) = Some <$> msgs.
Proof.
  apply list_eq. intros i. rewrite lookup_zip_with, list_lookup_fmap.
  destruct (msgs !! i) as [m|] eqn:E; simpl.
  - apply lookup_lt_Some in E as Hi. rewrite lookup_replicate_2, lookup_seq_lt by done.
    simpl. by rewrite E.
  - apply lookup_ge_None in E. by rewrite (lookup_ge_None_2 (replicate _ _) i) by (rewrite length_replicate; lia).
Qed.

Lemma sent_datagrams s msgs ds :
  sending_key_counter s = 0 -> Z.of_nat (length msgs) < 2 ^ 64 ->
  Forall (fun d => (d < length msgs)%nat) ds ->
  exists ps s', send_all s msgs = Ret (ps, s') /\ length ps = length msgs
  /\ (fun d => ps !!! d) <$> ds = (fun d => datagram s (Z.of_nat d) (msgs !!! d)) <$> ds.
Proof.
  intros H0' Hlt Hds. destruct (send_all_ok s msgs) as [s' [Hs _]]; [lia..|].
  eexists _, s'. split; [exact Hs|]. split; [by rewrite length_imap|].
  apply list_fmap_ext. intros i d Hd. rewrite imap_lookup_total, H0'; [done|].
  by eapply Forall_lookup_1 in Hds.
Qed.

(** In order and without loss nothing is dropped: the receiver gets all the
    messages, in their order. *)
Lemma session_in_order (a b : Z) (kr ks : bytes) (msgs : list bytes) (n : nat) :
  u32_range b ->
  Forall (fun m => (length m + 16 <= n)%nat) msgs ->
  Z.of_nat (length msgs) <= 2 ^ 64 - N_BITS ->
  exists ps s r,
    send_all (session_new a b kr ks) msgs = Ret (ps, s)
    /\ deliver_all (session_new b a ks kr) n ps = Ret (Ok <$> msgs, r).
Proof.
  intros Hb Hlen Hmax. assert (0 < N_BITS) by done.
  assert (Forall (fun d => (d < length msgs)%nat) (seq 0 (length msgs))) as Hds.
  { apply Forall_forall. intros d Hd%elem_of_seq. lia. }
  destruct (sent_datagrams (session_new a b kr ks) msgs (seq 0 (length msgs)))
    as (ps & s & Hs & Hl & Hps); [done|lia|done|].
  destruct (deliver_all_window (session_new a b kr ks) (session_new b a ks kr) window_empty msgs
              (seq 0 (length msgs)) n) as (rs & r & Hr & Hok); [apply represents_default|done..|].
  rewrite window_verdicts_seq, zip_all_ok in Hok by (simpl; set_solver || lia).
  exists ps, s, r. split; [done|]. rewrite <- (ok_fmap_inj _ _ Hok), <- Hr, <- Hps. f_equal.
  rewrite <- Hl. apply list_eq. intros i. rewrite list_lookup_fmap.
  destruct (decide (i < length ps)%nat) as [Hi|Hi].
  - rewrite lookup_seq_lt by done. simpl. by apply list_lookup_lookup_total_lt.
  - rewrite lookup_seq_ge, lookup_ge_None_2 by lia. done.
Qed.

(** ** Properties *)

(** C19. A session delivers what was sent: for paired sessions, any messages and
    any network (an arbitrary schedule [ds] that reorders, drops and repeats the
    datagrams), sending and receiving never panic, and each delivery yields
    exactly the message sent under that counter or an error, the choice being
    that of the anti-replay window. *)
Theorem session_stream (a b : Z) (kr ks : bytes) (msgs : list bytes) (ds : list nat) (n : nat) :
  u32_range b ->
  Forall (fun m => (length m + 16 <= n)%nat) msgs ->
  Z.of_nat (length msgs) <= 2 ^ 64 - N_BITS ->
  Forall (fun d => (d < length msgs)%nat) ds ->
  exists ps s rs r,
    send_all (session_new a b kr ks) msgs = Ret (ps, s)
    /\ deliver_all (session_new b a ks kr) n ((fun d => ps !!! d) <$> ds) = Ret (rs, r)
    /\ ok <$> rs = zip_with (fun v d => if is_ok v then msgs !! d else None)
                    (window_verdicts window_empty (Z.of_nat <$> ds)) ds.
Proof.
  intros Hb Hlen Hmax Hds. assert (0 < N_BITS) by done.
  destruct (sent_datagrams (session_new a b kr ks) msgs ds) as (ps & s & Hs & _ & Hps); [done|lia|done|].
  destruct (deliver_all_window (session_new a b kr ks) (session_new b a ks kr) window_empty msgs ds n)
    as (rs & r & Hr & Hok); [apply represents_default|done..|].
  exists ps, s, rs, r. by rewrite Hps.
Qed.

(** No nonce is used twice under a sending key: the counters of any [2^64 - 1]
    packets of a session are pairwise distinct. *)
Theorem sending_nonces_unique (a b : Z) (kr ks : bytes) (msgs : list bytes) :
  Z.of_nat (length msgs) < 2 ^ 64 ->
  exists ps s, send_all (session_new a b kr ks) msgs = Ret (ps, s)
  /\ NoDup ((fun p => sub p 8 16) <$> ps).
Proof.
  intros Hlt. destruct (send_all_ok (session_new a b kr ks) msgs) as [s [Hs _]]; [simpl; lia..|].
  eexists _, s. split; [exact Hs|]. apply NoDup_alt. intros i j x.
  rewrite !list_lookup_fmap, !list_lookup_imap.
  destruct (msgs !! i) eqn:Ei, (msgs !! j) eqn:Ej; cbn [fmap option_fmap option_map];
    intros Hi Hj; try discriminate.
  rewrite datagram_counter in Hi, Hj. apply (inj Some) in Hi as <-. apply (inj Some) in Hj as Heq.
  apply lookup_lt_Some in Ei, Ej. apply to_le_inj in Heq; [lia|split; simpl; lia..].
Qed.

End TransportLemmas.

#[local] Existing Instance toy_crypto.
#[local] Existing Instance toy_laws.

Definition example_msgs : list bytes := [[x01]; [x02; x03]; []].

Lemma session_stream_witness :
  exists ps s rs r,
    send_all (session_new 257 513 [x07] [x09]) example_msgs = Ret (ps, s)
    /\ deliver_all (session_new 513 257 [x09] [x07]) 64 ((fun d => ps !!! d) <$> [2; 0; 2]%nat)
       = Ret (rs, r)
    /\ ok <$> rs = zip_with (fun v d => if is_ok v then example_msgs !! d else None)
                    (window_verdicts window_empty (Z.of_nat <$> [2; 0; 2]%nat)) [2; 0; 2]%nat.
Proof.
  apply (session_stream 257 513 [x07] [x09] example_msgs [2; 0; 2]%nat 64);
    [ground | ground_list | ground | ground_list].
Defined.

Lemma sending_nonces_unique_witness :
  exists ps s, send_all (session_new 257 513 [x07] [x09]) example_msgs = Ret (ps, s)
  /\ NoDup ((fun p => sub p 8 16) <$> ps).
Proof. apply sending_nonces_unique. ground. Defined.
