(* ===== verification/Handshake.v ===== *)
(** * The Noise IK handshake ([noise/handshake.rs])

    The state of a handshake ([NoiseParams], [HandshakeState], [Cookies],
    [TimeStamper]) and every operation on it. An operation takes and returns the
    [Handshake] and the [World] of the party, also on its error paths, because
    the source mutates [self] before some of its early returns. *)

From Stdlib Require Import ZArith Lia.
From stdpp Require Import base numbers list option relations.
From S2P Require Import Prelude Errors Clock ReplayWindow Packet Crypto Session.

(** [b"mac1----"] and [b"cookie--"] *)
Definition LABEL_MAC1 : bytes := of_u8 <$> [109; 97; 99; 49; 45; 45; 45; 45].
Definition LABEL_COOKIE : bytes := of_u8 <$> [99; 111; 111; 107; 105; 101; 45; 45].
Definition KEY_LEN : nat := 32.
Definition TIMESTAMP_LEN : nat := 12.

Definition INITIAL_CHAIN_KEY : bytes := of_u8 <$>
  [96; 226; 109; 174; 243; 39; 239; 192; 46; 195; 53; 226; 160; 37; 210; 208; 22; 235; 66; 6; 248;
   114; 119; 245; 45; 56; 209; 152; 139; 120; 205; 54].

Definition INITIAL_CHAIN_HASH : bytes := of_u8 <$>
  [34; 17; 179; 97; 8; 26; 197; 102; 105; 18; 67; 219; 69; 138; 213; 50; 45; 156; 108; 102; 34;
   147; 232; 183; 14; 225; 156; 101; 186; 7; 158; 243].

(** ** Timestamps *)

Record Tai64N := mkTai64N { secs : Z; nano : Z }.

Record TimeStamper := mkTimeStamper {
  duration_at_start : Duration;
  instant_at_start : Instant;
}.

Definition tai64n_zero : Tai64N := mkTai64N 0 0.

(** [Tai64N::parse], on a slice of any length *)
Definition tai64n_parse (buf : bytes) : outcome (result WireGuardError Tai64N) :=
  if bool_decide (length buf < 12)%nat then Ret (Err InvalidTai64nTimestamp)
  else
    let! _ := require (bool_decide (length buf - 8 = 4)%nat) in
    Ret (Ok (mkTai64N (from_be (sub buf 0 8)) (from_be (sub buf 8 12)))).

Definition after (self other : Tai64N) : bool :=
  (secs other <? secs self) || ((secs self =? secs other) && (nano other <? nano self)).

Definition TAI64_BASE : Z := 2 ^ 62 + 37.

Section Stamps.
Context `{E : Env}.

(** [TimeStamper::new] *)
Definition stamper_new (w : World) : TimeStamper * World :=
  let '(d, w) := system_time_now w in
  let '(i, w) := instant_now w in
  (mkTimeStamper d i, w).

Definition stamp (self : TimeStamper) (w : World) : outcome (bytes * World) :=
  let '(now, w) := instant_now w in
  let! d := duration_add (duration_since now (instant_at_start self)) (duration_at_start self) in
  Ret (to_be 8 (add64 (as_secs d) TAI64_BASE) ++ to_be 4 (subsec_nanos d), w).

End Stamps.

(** ** State *)

Record NoiseParams := mkParams {
  static_public : bytes;
  static_private : bytes;
  peer_static_public : bytes;
  static_shared : bytes;
  sending_mac1_key : bytes;
  preshared_key : option bytes;
}.

Record HandshakeInitSentState := mkInitSent {
  sent_local_index : Z;
  sent_hash : bytes;
  sent_chaining_key : bytes;
  sent_ephemeral_private : bytes;
  sent_time : Instant;
}.

Inductive HandshakeState :=
| HNone
| InitSent (s : HandshakeInitSentState)
| InitReceived (hash chaining_key peer_ephemeral_public : bytes) (peer_index : Z)
| Expired.

Record Cookies := mkCookies {
  last_mac1 : option bytes;
  cookies_index : Z;
  write_cookie : option bytes;
}.

Record Handshake := mkHandshake {
  params : NoiseParams;
  next_index : Z;
  previous : HandshakeState;
  state : HandshakeState;
  cookies : Cookies;
  last_handshake_timestamp : Tai64N;
  stamper : TimeStamper;
  last_rtt : option Z;
}.

(** Field updates of [self]. *)
Definition with_params (p : NoiseParams) (h : Handshake) :=
  mkHandshake p (next_index h) (previous h) (state h) (cookies h)
    (last_handshake_timestamp h) (stamper h) (last_rtt h).
Definition with_index (i : Z) (h : Handshake) :=
  mkHandshake (params h) i (previous h) (state h) (cookies h)
    (last_handshake_timestamp h) (stamper h) (last_rtt h).
Definition with_states (prev st : HandshakeState) (h : Handshake) :=
  mkHandshake (params h) (next_index h) prev st (cookies h)
    (last_handshake_timestamp h) (stamper h) (last_rtt h).
Definition with_cookies (c : Cookies) (h : Handshake) :=
  mkHandshake (params h) (next_index h) (previous h) (state h) c
    (last_handshake_timestamp h) (stamper h) (last_rtt h).
Definition with_timestamp (t : Tai64N) (h : Handshake) :=
  mkHandshake (params h) (next_index h) (previous h) (state h) (cookies h)
    t (stamper h) (last_rtt h).
Definition with_rtt (r : option Z) (h : Handshake) :=
  mkHandshake (params h) (next_index h) (previous h) (state h) (cookies h)
    (last_handshake_timestamp h) (stamper h) r.

(** ** Simple operations *)

Definition is_in_progress (h : Handshake) : bool :=
  match state h with HNone | Expired => false | _ => true end.

Definition timer (h : Handshake) : option Instant :=
  match state h with InitSent s => Some (sent_time s) | _ => None end.

Definition set_expired (h : Handshake) : Handshake := with_states Expired Expired h.

Definition is_expired (h : Handshake) : bool :=
  match state h with Expired => true | _ => false end.

Definition has_cookie (h : Handshake) : bool :=
  match write_cookie (cookies h) with Some _ => true | None => false end.

Definition clear_cookie (h : Handshake) : Handshake :=
  with_cookies (mkCookies (last_mac1 (cookies h)) (cookies_index (cookies h)) None) h.

(** [index & !0xff] on a [u32], and [(index as u8).wrapping_add(1)]. *)
Definition inc_index (h : Handshake) : Z * Handshake :=
  let index := next_index h in
  let idx8 := wrap 8 index in
  let next := Z.lor (Z.land index (Z.lxor 255 (Z.ones 32))) (wrap 8 (idx8 + 1)) in
  (next, with_index next h).

(** ** The handshake *)

Section Noise.
Context `{C : Crypto} `{E : Env}.

(** [NoiseParams::new] *)
Definition params_new (static_private static_public peer_static_public : bytes)
    (preshared_key : option bytes) : NoiseParams :=
  mkParams static_public static_private peer_static_public
    (diffie_hellman static_private peer_static_public)
    (b2s_hash LABEL_MAC1 peer_static_public) preshared_key.

(** [NoiseParams::set_static_private], with its [assert_eq!] *)
Definition params_set_static_private (p : NoiseParams) (static_private static_public : bytes)
    : outcome NoiseParams :=
  let! _ := require (bool_decide (x25519_public static_private = static_public)) in
  Ret (mkParams static_public static_private (peer_static_public p)
         (diffie_hellman static_private (peer_static_public p))
         (sending_mac1_key p) (preshared_key p)).

(** [Handshake::new] *)
Definition handshake_new (static_private static_public peer_static_public : bytes)
    (global_idx : Z) (preshared_key : option bytes) (w : World) : Handshake * World :=
  let params := params_new static_private static_public peer_static_public preshared_key in
  let '(st, w) := stamper_new w in
  (mkHandshake params global_idx HNone HNone (mkCookies None 0 None) tai64n_zero st None, w).

Definition set_static_private (h : Handshake) (private_key public_key : bytes) : outcome Handshake :=
  let! p := params_set_static_private (params h) private_key public_key in
  Ret (with_params p h).

(** The key derivations of the source: [temp = HMAC(chaining_key, input)] and
    from it the next chaining key and up to two keys. *)
Definition kdf1 (ck input : bytes) : bytes :=
  let temp := b2s_hmac ck input in
  b2s_hmac temp [x01].

Definition kdf2 (ck input : bytes) : bytes * bytes :=
  let temp := b2s_hmac ck input in
  let ck := b2s_hmac temp [x01] in
  (ck, b2s_hmac2 temp ck [x02]).

Definition kdf3 (ck input : bytes) : bytes * bytes * bytes :=
  let temp := b2s_hmac ck input in
  let ck := b2s_hmac temp [x01] in
  let temp2 := b2s_hmac2 temp ck [x02] in
  (ck, temp2, b2s_hmac2 temp temp2 [x03]).

(** [HalfHandshake] and [parse_handshake_anon] *)
Record HalfHandshake := mkHalf { half_peer_index : Z; half_peer_static_public : bytes }.

Definition parse_handshake_anon (static_private static_public : bytes) (packet : HandshakeInit)
    : outcome (result WireGuardError HalfHandshake) :=
  let peer_index := init_sender_idx packet in
  let hash := b2s_hash INITIAL_CHAIN_HASH static_public in
  let peer_ephemeral_public := init_ephemeral packet in
  let hash := b2s_hash hash peer_ephemeral_public in
  let chaining_key := kdf1 INITIAL_CHAIN_KEY peer_ephemeral_public in
  let ephemeral_shared := diffie_hellman static_private peer_ephemeral_public in
  let '(chaining_key, key) := kdf2 chaining_key ephemeral_shared in
  let? peer_static_public := aead_chacha20_open KEY_LEN key 0 (encrypted_static packet) hash in
  Ret (Ok (mkHalf peer_index peer_static_public)).

(** [append_mac1_and_mac2]; [msg] is the message before its MAC fields, so that
    [dst] is [msg] and 32 more bytes. *)
Definition append_mac1_and_mac2 (h : Handshake) (local_index : Z) (msg : bytes)
    : bytes * Handshake :=
  let mac1 := b2s_keyed_mac_16 (sending_mac1_key (params h)) msg in
  let mac2 := match write_cookie (cookies h) with
              | Some cookie => b2s_keyed_mac_16 cookie (msg ++ mac1)
              | None => zeros 16
              end in
  (msg ++ mac1 ++ mac2,
   with_cookies (mkCookies (Some mac1) local_index (write_cookie (cookies h))) h).

Definition format_handshake_initiation (h : Handshake) (dst_len : nat) (w : World)
    : outcome (result WireGuardError bytes * Handshake * World) :=
  if bool_decide (dst_len < HANDSHAKE_INIT_SZ)%nat
  then Ret (Err DestinationBufferTooSmall, h, w)
  else
    let '(local_index, h) := inc_index h in
    let hash := b2s_hash INITIAL_CHAIN_HASH (peer_static_public (params h)) in
    let '(ephemeral_private, w) := fill_bytes 32 w in
    let unencrypted_ephemeral := x25519_public ephemeral_private in
    let hash := b2s_hash hash unencrypted_ephemeral in
    let chaining_key := kdf1 INITIAL_CHAIN_KEY unencrypted_ephemeral in
    let ephemeral_shared := diffie_hellman ephemeral_private (peer_static_public (params h)) in
    let '(chaining_key, key) := kdf2 chaining_key ephemeral_shared in
    let! encrypted_static :=
      aead_chacha20_seal (32 + 16) key 0 (static_public (params h)) hash in
    let hash := b2s_hash hash encrypted_static in
    let '(chaining_key, key) := kdf2 chaining_key (static_shared (params h)) in
    let! (timestamp, w) := stamp (stamper h) w in
    let! encrypted_timestamp := aead_chacha20_seal (12 + 16) key 0 timestamp hash in
    let hash := b2s_hash hash encrypted_timestamp in
    let '(time_now, w) := instant_now w in
    let h := with_states (state h)
               (InitSent (mkInitSent local_index hash chaining_key ephemeral_private time_now)) h in
    let msg := to_le 4 HANDSHAKE_INIT ++ to_le 4 local_index ++ unencrypted_ephemeral
               ++ encrypted_static ++ encrypted_timestamp in
    let '(packet, h) := append_mac1_and_mac2 h local_index msg in
    Ret (Ok packet, h, w).

Definition format_handshake_response (h : Handshake) (dst_len : nat) (w : World)
    : outcome (result WireGuardError (bytes * Session) * Handshake * World) :=
  if bool_decide (dst_len < HANDSHAKE_RESP_SZ)%nat
  then Ret (Err DestinationBufferTooSmall, h, w)
  else
    match state h with
    | InitReceived hash chaining_key peer_ephemeral_public peer_index =>
        let h := with_states (previous h) HNone h in
        let '(ephemeral_private, w) := fill_bytes 32 w in
        let '(local_index, h) := inc_index h in
        let unencrypted_ephemeral := x25519_public ephemeral_private in
        let hash := b2s_hash hash unencrypted_ephemeral in
        let chaining_key := kdf1 chaining_key unencrypted_ephemeral in
        let ephemeral_shared := diffie_hellman ephemeral_private peer_ephemeral_public in
        let chaining_key := kdf1 chaining_key ephemeral_shared in
        let chaining_key :=
          kdf1 chaining_key (diffie_hellman ephemeral_private (peer_static_public (params h))) in
        let '(chaining_key, temp2, key) :=
          kdf3 chaining_key (default (zeros 32) (preshared_key (params h))) in
        let hash := b2s_hash hash temp2 in
        let! encrypted_nothing := aead_chacha20_seal 16 key 0 [] hash in
        let '(temp2, temp3) := kdf2 chaining_key [] in
        let msg := to_le 4 HANDSHAKE_RESP ++ to_le 4 local_index ++ to_le 4 peer_index
                   ++ unencrypted_ephemeral ++ encrypted_nothing in
        let '(packet, h) := append_mac1_and_mac2 h local_index msg in
        Ret (Ok (packet, session_new local_index peer_index temp2 temp3), h, w)
    | _ => Panic
    end.

Definition receive_handshake_initialization (h : Handshake) (packet : HandshakeInit)
    (dst_len : nat) (w : World)
    : outcome (result WireGuardError (bytes * Session) * Handshake * World) :=
  let hash := b2s_hash INITIAL_CHAIN_HASH (static_public (params h)) in
  let peer_index := init_sender_idx packet in
  let peer_ephemeral_public := init_ephemeral packet in
  let hash := b2s_hash hash peer_ephemeral_public in
  let chaining_key := kdf1 INITIAL_CHAIN_KEY peer_ephemeral_public in
  let ephemeral_shared := diffie_hellman (static_private (params h)) peer_ephemeral_public in
  let '(chaining_key, key) := kdf2 chaining_key ephemeral_shared in
  let! r := aead_chacha20_open KEY_LEN key 0 (encrypted_static packet) hash in
  match r with
  | Err e => Ret (Err e, h, w)
  | Ok peer_static_public_decrypted =>
  if negb (bool_decide (peer_static_public (params h) = peer_static_public_decrypted))
  then Ret (Err WrongKey, h, w)
  else
  let hash := b2s_hash hash (encrypted_static packet) in
  let '(chaining_key, key) := kdf2 chaining_key (static_shared (params h)) in
  let! r := aead_chacha20_open TIMESTAMP_LEN key 0 (encrypted_timestamp packet) hash in
  match r with
  | Err e => Ret (Err e, h, w)
  | Ok timestamp =>
  let! r := tai64n_parse timestamp in
  match r with
  | Err e => Ret (Err e, h, w)
  | Ok timestamp =>
  if negb (after timestamp (last_handshake_timestamp h))
  then Ret (Err WrongTai64nTimestamp, h, w)
  else
  let h := with_timestamp timestamp h in
  let hash := b2s_hash hash (encrypted_timestamp packet) in
  let h := with_states (state h)
             (InitReceived hash chaining_key peer_ephemeral_public peer_index) h in
  format_handshake_response h dst_len w
  end end end.

(** The pending initiation a response answers, and whether it is [previous]. *)
Definition awaiting (h : Handshake) (idx : Z) : option (HandshakeInitSentState * bool) :=
  match state h, previous h with
  | InitSent s, InitSent p =>
      if sent_local_index s =? idx then Some (s, false)
      else if sent_local_index p =? idx then Some (p, true) else None
  | InitSent s, _ => if sent_local_index s =? idx then Some (s, false) else None
  | _, InitSent p => if sent_local_index p =? idx then Some (p, true) else None
  | _, _ => None
  end.

Definition receive_handshake_response (h : Handshake) (packet : HandshakeResponse) (w : World)
    : outcome (result WireGuardError Session * Handshake * World) :=
  match awaiting h (resp_receiver_idx packet) with
  | None => Ret (Err UnexpectedPacket, h, w)
  | Some (st, is_previous) =>
  let peer_index := resp_sender_idx packet in
  let local_index := sent_local_index st in
  let unencrypted_ephemeral := resp_ephemeral packet in
  let hash := b2s_hash (sent_hash st) unencrypted_ephemeral in
  let chaining_key := kdf1 (sent_chaining_key st) unencrypted_ephemeral in
  let ephemeral_shared := diffie_hellman (sent_ephemeral_private st) unencrypted_ephemeral in
  let chaining_key := kdf1 chaining_key ephemeral_shared in
  let chaining_key :=
    kdf1 chaining_key (diffie_hellman (static_private (params h)) unencrypted_ephemeral) in
  let '(chaining_key, temp2, key) :=
    kdf3 chaining_key (default (zeros 32) (preshared_key (params h))) in
  let hash := b2s_hash hash temp2 in
  let! r := aead_chacha20_open 0 key 0 (encrypted_nothing packet) hash in
  match r with
  | Err e => Ret (Err e, h, w)
  | Ok _ =>
  let '(temp2, temp3) := kdf2 chaining_key [] in
  let '(now, w) := instant_now w in
  let rtt_time := duration_since now (sent_time st) in
  let h := with_rtt (Some (wrap 32 (as_millis rtt_time))) h in
  let h := if is_previous then with_states HNone (state h) h
           else with_states (previous h) HNone h in
  Ret (Ok (session_new local_index peer_index temp3 temp2), h, w)
  end end.

Definition receive_cookie_reply (h : Handshake) (packet : PacketCookieReply)
    : result WireGuardError unit * Handshake :=
  match last_mac1 (cookies h) with
  | None => (Err UnexpectedPacket, h)
  | Some mac1 =>
      if negb (cookie_receiver_idx packet =? cookies_index (cookies h)) then (Err WrongIndex, h)
      else
        let key := b2s_hash LABEL_COOKIE (peer_static_public (params h)) in
        match xchacha_open key (cookie_nonce packet) mac1 (encrypted_cookie packet) with
        | None => (Err InvalidAeadTag, h)
        | Some plaintext =>
            if bool_decide (length plaintext = 16%nat)
            then (Ok tt, with_cookies (mkCookies (last_mac1 (cookies h))
                                         (cookies_index (cookies h)) (Some plaintext)) h)
            else (Err InvalidPacket, h)
        end
  end.

End Noise.

(** ** The messages as functions of the shared secrets

    Both sides compute the same transcript from their own view of the
    Diffie-Hellman results: [es] of the initiator's ephemeral and the responder's
    static key, [ss] of the static keys, [ee] and [se] in the response. *)

Section Transcript.
Context `{Crypto}.

Record InitTranscript := mkInitTranscript {
  t_static : bytes;      (* encrypted_static *)
  t_timestamp : bytes;   (* encrypted_timestamp *)
  t_hash : bytes;
  t_chaining_key : bytes;
}.

Definition init_transcript (responder_public ephemeral es initiator_public ss timestamp : bytes)
    : InitTranscript :=
  let hash := b2s_hash (b2s_hash INITIAL_CHAIN_HASH responder_public) ephemeral in
  let '(ck, key) := kdf2 (kdf1 INITIAL_CHAIN_KEY ephemeral) es in
  let enc_static := sealed key 0 initiator_public hash in
  let hash := b2s_hash hash enc_static in
  let '(ck, key) := kdf2 ck ss in
  let enc_timestamp := sealed key 0 timestamp hash in
  mkInitTranscript enc_static enc_timestamp (b2s_hash hash enc_timestamp) ck.

Record RespTranscript := mkRespTranscript {
  t_nothing : bytes;          (* encrypted_nothing *)
  t_initiator_key : bytes;    (* what the initiator sends under *)
  t_responder_key : bytes;
}.

Definition resp_transcript (hash ck ephemeral ee se psk : bytes) : RespTranscript :=
  let hash := b2s_hash hash ephemeral in
  let ck := kdf1 (kdf1 (kdf1 ck ephemeral) ee) se in
  let '(ck, temp2, key) := kdf3 ck psk in
  let '(k1, k2) := kdf2 ck [] in
  mkRespTranscript (sealed key 0 [] (b2s_hash hash temp2)) k1 k2.

Definition psk_of (p : NoiseParams) : bytes := default (zeros 32) (preshared_key p).

(** The indices of successive handshakes. *)
Definition next_local_index (h : Handshake) : Z := fst (inc_index h).

End Transcript.

(** The MACs of a message: 32 bytes, the first 16 under the given key. *)
Definition macs_for `{C : Crypto} (key msg macs : bytes) : Prop :=
  length macs = 32%nat /\ take 16 macs = b2s_keyed_mac_16 key msg.

Section NoiseLemmas.
Context `{C : Crypto} `{CL : !CryptoLaws C} `{E : Env}.

Lemma append_macs_for h i msg dg h' :
  append_mac1_and_mac2 h i msg = (dg, h') ->
  exists macs, dg = msg ++ macs /\ macs_for (sending_mac1_key (params h)) msg macs.
Proof.
  intros [= <- <-]. eexists. split; [reflexivity|].
  pose proof (length_b2s_keyed_mac_16 (sending_mac1_key (params h)) msg) as Hl. split.
  - destruct (write_cookie _); len.
  - rewrite <- Hl at 1. apply take_app_length.
Qed.

Lemma format_initiation_ok h n w ts w1 :
  (HANDSHAKE_INIT_SZ <= n)%nat -> length (static_public (params h)) = 32%nat ->
  stamp (stamper h) (snd (fill_bytes 32 w)) = Ret (ts, w1) -> length ts = 12%nat ->
  let e := fst (fill_bytes 32 w) in
  let p := params h in
  let t := init_transcript (peer_static_public p) (x25519_public e)
             (diffie_hellman e (peer_static_public p)) (static_public p) (static_shared p) ts in
  let i := next_local_index h in
  exists macs h',
    format_handshake_initiation h n w
    = Ret (Ok (wire (PHandshakeInit (mkInit i (x25519_public e) (t_static t) (t_timestamp t)))
               ++ macs), h', snd (instant_now w1))
    /\ macs_for (sending_mac1_key p)
         (wire (PHandshakeInit (mkInit i (x25519_public e) (t_static t) (t_timestamp t)))) macs
    /\ params h' = p /\ previous h' = state h /\ next_index h' = i
    /\ last_handshake_timestamp h' = last_handshake_timestamp h /\ stamper h' = stamper h
    /\ state h' = InitSent (mkInitSent i (t_hash t) (t_chaining_key t) e (fst (instant_now w1))).
Proof.
  intros Hn Hl Hs Hts. unfold format_handshake_initiation, init_transcript.
  rewrite bool_decide_eq_false_2 by lia.
  cbn [inc_index fill_bytes fst snd params with_index stamper] in *.
  destruct (kdf2 (kdf1 _ _) _) as [ck1 k1]. rewrite seal_ok by (rewrite Hl; done).
  cbn [outcome_bind]. destruct (kdf2 ck1 _) as [ck2 k2].
  rewrite Hs. cbn [outcome_bind]. rewrite seal_ok by (rewrite Hts; done).
  cbn [outcome_bind instant_now fst snd].
  destruct (append_mac1_and_mac2 _ _ _) as [dg h'] eqn:Ha.
  destruct (append_macs_for _ _ _ _ _ Ha) as (macs & -> & Hm). apply pair_equal_spec in Ha as [_ <-].
  exists macs. eexists. split; [reflexivity|]. by split.
Qed.

Definition tai64n_of (ts : bytes) : Tai64N :=
  mkTai64N (from_be (sub ts 0 8)) (from_be (sub ts 8 12)).

Lemma tai64n_parse_ok ts : length ts = 12%nat -> tai64n_parse ts = Ret (Ok (tai64n_of ts)).
Proof. intros Hl. unfold tai64n_parse. rewrite !Hl. done. Qed.

(** The initiation a party expects from its peer, for a given ephemeral key. *)
Definition expected_init (p : NoiseParams) (e ts : bytes) : InitTranscript :=
  init_transcript (static_public p) e (diffie_hellman (static_private p) e)
    (peer_static_public p) (static_shared p) ts.

(** The handshake after an initiation has been accepted. *)
Definition accepted_init (h : Handshake) (i : Z) (e ts : bytes) : Handshake :=
  let t := expected_init (params h) e ts in
  with_states (state h) (InitReceived (t_hash t) (t_chaining_key t) e i)
    (with_timestamp (tai64n_of ts) h).

Lemma receive_init_genuine h i e ts n w :
  length (peer_static_public (params h)) = 32%nat -> length ts = 12%nat ->
  let t := expected_init (params h) e ts in
  receive_handshake_initialization h (mkInit i e (t_static t) (t_timestamp t)) n w
  = if after (tai64n_of ts) (last_handshake_timestamp h)
    then format_handshake_response (accepted_init h i e ts) n w
    else Ret (Err WrongTai64nTimestamp, h, w).
Proof.
  intros Hl Hts. unfold accepted_init, expected_init, init_transcript.
  unfold receive_handshake_initialization. cbn [init_sender_idx init_ephemeral encrypted_static encrypted_timestamp].
  destruct (kdf2 (kdf1 _ _) _) as [ck1 k1], (kdf2 ck1 _) as [ck2 k2].
  cbn [t_static t_timestamp t_hash t_chaining_key].
  rewrite aead_open_sealed by done. cbn [outcome_bind].
  rewrite bool_decide_eq_true_2 by done. cbn [negb].
  rewrite aead_open_sealed by done. cbn [outcome_bind].
  rewrite tai64n_parse_ok by done. cbn [outcome_bind].
  by destruct (after _ _).
Qed.

(** Every well-formed initiation is refused without a change of state, or is the
    one expected from the peer, with a fresh timestamp. *)
Lemma receive_init_cases h p n w :
  length (encrypted_static p) = 48%nat -> length (encrypted_timestamp p) = 28%nat ->
  (exists e, receive_handshake_initialization h p n w = Ret (Err e, h, w)) \/
  (exists ts, length ts = 12%nat
     /\ encrypted_static p = t_static (expected_init (params h) (init_ephemeral p) ts)
     /\ encrypted_timestamp p = t_timestamp (expected_init (params h) (init_ephemeral p) ts)
     /\ after (tai64n_of ts) (last_handshake_timestamp h) = true
     /\ receive_handshake_initialization h p n w
        = format_handshake_response
            (accepted_init h (init_sender_idx p) (init_ephemeral p) ts) n w).
Proof.
  intros Hs Ht. unfold accepted_init, expected_init, init_transcript, receive_handshake_initialization.
  destruct (kdf2 (kdf1 _ _) _) as [ck1 k1], (kdf2 ck1 _) as [ck2 k2].
  cbn [t_static t_timestamp t_hash t_chaining_key].
  rewrite aead_open_total by done. cbn [outcome_bind].
  destruct (chacha_open k1 _ _ _) as [pk|] eqn:O1; [|by eauto].
  case_bool_decide as Hpk; cbn [negb]; [subst pk|by eauto].
  apply chacha_open_sealed_inv in O1.
  rewrite aead_open_total by done. cbn [outcome_bind].
  destruct (chacha_open k2 _ _ _) as [ts|] eqn:O2; [|by eauto].
  pose proof (open_length _ _ _ _ _ O2). apply chacha_open_sealed_inv in O2.
  assert (length ts = 12%nat) as Hts by lia.
  rewrite tai64n_parse_ok by done. cbn [outcome_bind].
  destruct (after _ _) eqn:Ha; [|by eauto]. right. exists ts. rewrite <- O1, <- O2. done.
Qed.

Lemma format_response_ok h n w hash ck pe i :
  (HANDSHAKE_RESP_SZ <= n)%nat -> state h = InitReceived hash ck pe i ->
  let e := fst (fill_bytes 32 w) in
  let t := resp_transcript hash ck (x25519_public e) (diffie_hellman e pe)
             (diffie_hellman e (peer_static_public (params h))) (psk_of (params h)) in
  let li := next_local_index h in
  exists macs h',
    format_handshake_response h n w
    = Ret (Ok (wire (PHandshakeResponse (mkResp li i (x25519_public e) (t_nothing t))) ++ macs,
               session_new li i (t_initiator_key t) (t_responder_key t)),
           h', snd (fill_bytes 32 w))
    /\ macs_for (sending_mac1_key (params h))
         (wire (PHandshakeResponse (mkResp li i (x25519_public e) (t_nothing t)))) macs
    /\ params h' = params h /\ previous h' = previous h /\ state h' = HNone /\ next_index h' = li
    /\ last_handshake_timestamp h' = last_handshake_timestamp h /\ stamper h' = stamper h.
Proof.
  intros Hn Hst. unfold format_handshake_response, resp_transcript, psk_of.
  rewrite bool_decide_eq_false_2, Hst by lia.
  cbn [inc_index fill_bytes fst snd params with_index with_states].
  destruct (kdf3 _ _) as [[ck' temp2] key]. rewrite seal_ok by done. cbn [outcome_bind].
  destruct (kdf2 ck' []) as [k1 k2].
  destruct (append_mac1_and_mac2 _ _ _) as [dg h'] eqn:Ha.
  destruct (append_macs_for _ _ _ _ _ Ha) as (macs & -> & Hm). apply pair_equal_spec in Ha as [_ <-].
  exists macs. eexists. split; [reflexivity|]. by split.
Qed.

(** The response a party expects to its pending initiation. *)
Definition expected_resp (p : NoiseParams) (st : HandshakeInitSentState) (e : bytes) : RespTranscript :=
  resp_transcript (sent_hash st) (sent_chaining_key st) e
    (diffie_hellman (sent_ephemeral_private st) e) (diffie_hellman (static_private p) e) (psk_of p).

(** The handshake after a response has been accepted. *)
Definition accepted_resp (h : Handshake) (st : HandshakeInitSentState) (is_previous : bool)
    (now : Instant) : Handshake :=
  let h := with_rtt (Some (wrap 32 (as_millis (duration_since now (sent_time st))))) h in
  if is_previous then with_states HNone (state h) h else with_states (previous h) HNone h.

Lemma receive_response_cases h p w :
  length (encrypted_nothing p) = 16%nat ->
  receive_handshake_response h p w
  = Ret (match awaiting h (resp_receiver_idx p) with
         | None => (Err UnexpectedPacket, h, w)
         | Some (st, b) =>
             let t := expected_resp (params h) st (resp_ephemeral p) in
             if bool_decide (encrypted_nothing p = t_nothing t)
             then (Ok (session_new (sent_local_index st) (resp_sender_idx p)
                         (t_responder_key t) (t_initiator_key t)),
                   accepted_resp h st b (fst (instant_now w)), snd (instant_now w))
             else (Err InvalidAeadTag, h, w)
         end).
Proof.
  intros Hl. unfold receive_handshake_response, expected_resp, resp_transcript, psk_of.
  destruct (awaiting _ _) as [[st b]|]; [|done].
  destruct (kdf3 _ _) as [[ck temp2] key]. rewrite aead_open_total by done. cbn [outcome_bind].
  destruct (kdf2 ck []) as [k1 k2]. cbn [t_nothing t_initiator_key t_responder_key].
  destruct (chacha_open _ _ _ _) as [d|] eqn:O.
  - pose proof (open_length _ _ _ _ _ O). apply chacha_open_sealed_inv in O.
    destruct d; [|simpl in *; lia]. by rewrite bool_decide_eq_true_2.
  - rewrite bool_decide_eq_false_2; [done|]. intros Heq. by rewrite Heq, open_sealed in O.
Qed.

(** Indices: the low byte cycles, the peer's 24 bits stay. *)
Lemma next_local_index_spec h :
  u32_range (next_index h) ->
  next_local_index h = next_index h / 256 * 256 + (next_index h + 1) mod 256.
Proof.
  intros Hi. unfold next_local_index, inc_index, wrap. cbn [fst].
  change 255 with (Z.ones 8). rewrite land_high_mask, shiftl_lor_add; try done; try lia.
  - change (2 ^ 8) with 256. by rewrite Z.add_mod_idemp_l by done.
  - apply Z.mod_pos_bound. done.
Qed.

Lemma next_local_index_range h : u32_range (next_index h) -> u32_range (next_local_index h).
Proof.
  intros Hi. rewrite next_local_index_spec by done.
  unfold in_width in *. change (2 ^ 32) with (16777216 * 256) in *.
  pose proof (Z.mod_pos_bound (next_index h + 1) 256 eq_refl).
  pose proof (Z.div_lt_upper_bound (next_index h) 256 16777216).
  pose proof (Z.div_pos (next_index h) 256). lia.
Qed.

Lemma next_local_index_neq h : u32_range (next_index h) -> next_local_index h <> next_index h.
Proof.
  intros Hi. rewrite next_local_index_spec by done.
  pose proof (Z.div_mod (next_index h) 256). pose proof (Z.mod_pos_bound (next_index h) 256 eq_refl).
  rewrite <- Z.add_mod_idemp_l by done. intros Heq.
  assert ((next_index h mod 256 + 1) mod 256 = next_index h mod 256) as Hm by lia.
  destruct (decide (next_index h mod 256 = 255)) as [E255|].
  - rewrite E255 in Hm. done.
  - rewrite Z.mod_small in Hm by lia. lia.
Qed.

(** A time stamper made from the clocks. *)
Definition stamper_ok (st : TimeStamper) : Prop :=
  exists i j, duration_at_start st = wall i /\ instant_at_start st = instant_of_nanos (clock j).

(** The bytes of a stamp for a duration since the epoch. *)
Definition stamp_bytes (d : Duration) : bytes :=
  to_be 8 (add64 (as_secs d) TAI64_BASE) ++ to_be 4 (subsec_nanos d).

Lemma length_stamp_bytes d : length (stamp_bytes d) = 12%nat.
Proof. unfold stamp_bytes. len. Qed.

Lemma tai64n_of_stamp d :
  0 <= d < 2 ^ 63 * NANOS_PER_SEC ->
  tai64n_of (stamp_bytes d) = mkTai64N (as_secs d + TAI64_BASE) (subsec_nanos d).
Proof.
  intros Hd. unfold tai64n_of, stamp_bytes. field.
  assert (HN : NANOS_PER_SEC = 1000000000) by done.
  pose proof (Z.mod_pos_bound d NANOS_PER_SEC eq_refl).
  pose proof (Z.div_pos d NANOS_PER_SEC). pose proof (Z.div_lt_upper_bound d NANOS_PER_SEC (2 ^ 63)).
  unfold as_secs, subsec_nanos, TAI64_BASE in *.
  rewrite add64_small, !from_to_be by (unfold in_width; simpl Z.of_nat; rewrite ?HN in *; lia).
  done.
Qed.

Lemma after_stamps d1 d2 :
  0 <= d1 < 2 ^ 63 * NANOS_PER_SEC -> 0 <= d2 < 2 ^ 63 * NANOS_PER_SEC ->
  after (tai64n_of (stamp_bytes d2)) (tai64n_of (stamp_bytes d1)) = (d1 <? d2).
Proof.
  intros H1 H2. rewrite !tai64n_of_stamp by done. unfold after, as_secs, subsec_nanos. simpl.
  assert (HN : NANOS_PER_SEC = 1000000000) by done.
  pose proof (Z.div_mod d1 NANOS_PER_SEC). pose proof (Z.div_mod d2 NANOS_PER_SEC).
  pose proof (Z.mod_pos_bound d1 NANOS_PER_SEC eq_refl).
  pose proof (Z.mod_pos_bound d2 NANOS_PER_SEC eq_refl).
  rewrite HN in *.
  destruct (Z.ltb_spec d1 d2), (Z.ltb_spec (d1 / 1000000000 + TAI64_BASE) (d2 / 1000000000 + TAI64_BASE)),
    (Z.eqb_spec (d2 / 1000000000 + TAI64_BASE) (d1 / 1000000000 + TAI64_BASE)),
    (Z.ltb_spec (d1 mod 1000000000) (d2 mod 1000000000)); simpl; lia.
Qed.

(** The duration a stamper reports at the next reading of the clock. *)
Definition stamp_duration (st : TimeStamper) (w : World) : Duration :=
  duration_since (instant_of_nanos (clock (ticks w))) (instant_at_start st) + duration_at_start st.


End NoiseLemmas.

Section StampLemmas.
Context `{E : Env} `{!MonotoneClock E}.

Lemma stamp_duration_range st w :
  stamper_ok st -> 0 <= stamp_duration st w < 2 ^ 63 * NANOS_PER_SEC.
Proof.
  intros (i & j & Hd & Hi). unfold stamp_duration. rewrite Hd, Hi, duration_since_readings.
  pose proof (clock_range (ticks w)). pose proof (clock_range j). pose proof (wall_range i). lia.
Qed.

Lemma stamp_ok st w :
  stamper_ok st ->
  stamp st w = Ret (stamp_bytes (stamp_duration st w), snd (instant_now w)).
Proof.
  intros Hst. pose proof (stamp_duration_range st w Hst). unfold stamp. simpl.
  rewrite duration_add_ok; [done|]. unfold stamp_duration in *. lia.
Qed.

Lemma stamp_duration_mono st w w' :
  stamper_ok st -> (ticks w <= ticks w')%nat -> stamp_duration st w <= stamp_duration st w'.
Proof.
  intros (i & j & Hd & Hi) Hw. unfold stamp_duration. rewrite Hi, !duration_since_readings.
  pose proof (clock_mono _ _ Hw). lia.
Qed.

Lemma stamper_new_ok w : stamper_ok (fst (stamper_new w)).
Proof. exists (ticks w), (S (ticks w)). done. Qed.

End StampLemmas.

(** ** Agreement *)

(** Two ends of one transport session: what one sends under, the other receives
    under, with crossed indices. *)
Definition paired (s r : Session) : Prop :=
  exists a b ka kb, u32_range a /\ u32_range b
  /\ s = session_new a b kb ka /\ r = session_new b a ka kb.

Section Agreement.
Context `{C : Crypto} `{CL : !CryptoLaws C}.

(** What the initiator computes is what the responder expects. *)
Lemma init_views_agree sI sR psk e ts :
  let pI := params_new sI (x25519_public sI) (x25519_public sR) psk in
  let pR := params_new sR (x25519_public sR) (x25519_public sI) psk in
  init_transcript (peer_static_public pI) (x25519_public e)
    (diffie_hellman e (peer_static_public pI)) (static_public pI) (static_shared pI) ts
  = expected_init pR (x25519_public e) ts.
Proof.
  simpl. unfold expected_init. simpl.
  by rewrite (diffie_hellman_comm e sR), (diffie_hellman_comm sI sR).
Qed.

Lemma resp_views_agree sI sR psk e st :
  let pI := params_new sI (x25519_public sI) (x25519_public sR) psk in
  let pR := params_new sR (x25519_public sR) (x25519_public sI) psk in
  resp_transcript (sent_hash st) (sent_chaining_key st) (x25519_public e)
    (diffie_hellman e (x25519_public (sent_ephemeral_private st)))
    (diffie_hellman e (peer_static_public pR)) (psk_of pR)
  = expected_resp pI st (x25519_public e).
Proof.
  simpl. unfold expected_resp. simpl.
  by rewrite (diffie_hellman_comm e (sent_ephemeral_private st)), (diffie_hellman_comm e sI).
Qed.

Lemma length_init_transcript rp e es ip ss ts :
  length (t_static (init_transcript rp e es ip ss ts)) = (length ip + 16)%nat
  /\ length (t_timestamp (init_transcript rp e es ip ss ts)) = (length ts + 16)%nat.
Proof.
  unfold init_transcript. destruct (kdf2 (kdf1 _ _) _) as [ck1 k1], (kdf2 ck1 _). simpl.
  rewrite !length_sealed. done.
Qed.

Lemma length_expected_init p e ts :
  length (peer_static_public p) = 32%nat -> length ts = 12%nat ->
  length (t_static (expected_init p e ts)) = 48%nat
  /\ length (t_timestamp (expected_init p e ts)) = 28%nat.
Proof.
  intros Hp Hts. unfold expected_init.
  destruct (length_init_transcript (static_public p) e (diffie_hellman (static_private p) e)
    (peer_static_public p) (static_shared p) ts) as [-> ->]. lia.
Qed.

Lemma length_t_nothing h ck e ee se psk :
  length (t_nothing (resp_transcript h ck e ee se psk)) = 16%nat.
Proof.
  unfold resp_transcript. destruct (kdf3 _ _) as [[ck' t2] k], (kdf2 _ _). simpl.
  by rewrite length_sealed.
Qed.

(** One party initiates: its peer's view of the message, and what it remembers. *)
Lemma initiate `{E : Env} `{!MonotoneClock E} sI sR psk h n w :
  params h = params_new sI (x25519_public sI) (x25519_public sR) psk ->
  u32_range (next_index h) -> stamper_ok (stamper h) -> (HANDSHAKE_INIT_SZ <= n)%nat ->
  let pR := params_new sR (x25519_public sR) (x25519_public sI) psk in
  let e := fst (fill_bytes 32 w) in
  let ts := stamp_bytes (stamp_duration (stamper h) (snd (fill_bytes 32 w))) in
  let t := expected_init pR (x25519_public e) ts in
  let i := next_local_index h in
  exists init h1 w1 now,
    format_handshake_initiation h n w = Ret (Ok init, h1, w1)
    /\ parse_incoming_packet init
       = Ret (Ok (PHandshakeInit (mkInit i (x25519_public e) (t_static t) (t_timestamp t))))
    /\ params h1 = params h
    /\ state h1 = InitSent (mkInitSent i (t_hash t) (t_chaining_key t) e now)
    /\ exists macs,
         init = wire (PHandshakeInit (mkInit i (x25519_public e) (t_static t) (t_timestamp t))) ++ macs
         /\ macs_for (sending_mac1_key (params h))
              (wire (PHandshakeInit (mkInit i (x25519_public e) (t_static t) (t_timestamp t)))) macs.
Proof.
  intros Hp Hi Hst Hn pR e ts t i.
  destruct (format_initiation_ok h n w ts (snd (instant_now (snd (fill_bytes 32 w)))))
    as (macs & h1 & Hf & Hm & Hp1 & _ & _ & _ & _ & Hs1);
    [done|by rewrite Hp; apply length_x25519_public|by apply stamp_ok|apply length_stamp_bytes|].
  rewrite Hp, init_views_agree in Hf, Hs1.
  rewrite Hp, init_views_agree in Hm.
  eexists _, _, _, _. split; [exact Hf|]. split; [|split_and!; [done|done|rewrite Hp; eauto]].
  rewrite parse_is_spec, parse_spec_wire; [done| |apply Hm].
  destruct (length_expected_init pR (x25519_public e) ts) as [Hl1 Hl2];
    [apply length_x25519_public|apply length_stamp_bytes|].
  split_and!; [by apply next_local_index_range|by apply length_x25519_public|done..].
Qed.

(** The other responds to an expected initiation. *)
Lemma respond `{E : Env} sI sR psk h n w i e ts :
  params h = params_new sR (x25519_public sR) (x25519_public sI) psk ->
  u32_range (next_index h) -> u32_range i -> (HANDSHAKE_RESP_SZ <= n)%nat -> length ts = 12%nat ->
  after (tai64n_of ts) (last_handshake_timestamp h) = true ->
  let pI := params_new sI (x25519_public sI) (x25519_public sR) psk in
  let t := expected_init (params h) (x25519_public e) ts in
  let f := fst (fill_bytes 32 w) in
  let j := next_local_index h in
  exists resp now,
    let r := expected_resp pI (mkInitSent i (t_hash t) (t_chaining_key t) e now) (x25519_public f) in
    exists h1,
    receive_handshake_initialization h (mkInit i (x25519_public e) (t_static t) (t_timestamp t)) n w
      = Ret (Ok (resp, session_new j i (t_initiator_key r) (t_responder_key r)), h1,
             snd (fill_bytes 32 w))
    /\ parse_incoming_packet resp
       = Ret (Ok (PHandshakeResponse (mkResp j i (x25519_public f) (t_nothing r))))
    /\ exists macs,
         resp = wire (PHandshakeResponse (mkResp j i (x25519_public f) (t_nothing r))) ++ macs
         /\ macs_for (sending_mac1_key (params h))
              (wire (PHandshakeResponse (mkResp j i (x25519_public f) (t_nothing r)))) macs.
Proof.
  intros Hp Hi Hi' Hn Hts Ha pI t f j.
  pose proof (receive_init_genuine h i (x25519_public e) ts n w) as Hr. cbv zeta in Hr.
  fold t in Hr. rewrite Ha in Hr.
  destruct (format_response_ok (accepted_init h i (x25519_public e) ts) n w
              (t_hash t) (t_chaining_key t) (x25519_public e) i)
    as (macs & h1 & Hf & Hm & _); [done|done|].
  rewrite Hr, Hf by (rewrite ?Hp; apply length_x25519_public || done).
  set (st := mkInitSent i (t_hash t) (t_chaining_key t) e (instant_of_nanos 0)).
  pose proof (resp_views_agree sI sR psk f st) as Hv. cbv zeta in Hv. rewrite <- Hp in Hv.
  cbn [accepted_init with_states with_timestamp params] in *.
  cbn [st sent_hash sent_chaining_key sent_ephemeral_private] in Hv. fold f. fold f in Hm.
  rewrite Hv. rewrite Hv in Hm.
  eexists _, (instant_of_nanos 0), _. split; [reflexivity|].
  split; [|exists macs; split; [reflexivity|exact Hm]].
  rewrite parse_is_spec, parse_spec_wire; [done| |apply Hm].
  split_and!; [by apply next_local_index_range|done|by apply length_x25519_public|].
  apply length_t_nothing.
Qed.

(** The initiator completes with an expected response. *)
Lemma complete `{E : Env} h st q w :
  state h = InitSent st -> resp_receiver_idx q = sent_local_index st ->
  length (encrypted_nothing q) = 16%nat ->
  encrypted_nothing q = t_nothing (expected_resp (params h) st (resp_ephemeral q)) ->
  exists h', receive_handshake_response h q w
    = Ret (Ok (session_new (sent_local_index st) (resp_sender_idx q)
                 (t_responder_key (expected_resp (params h) st (resp_ephemeral q)))
                 (t_initiator_key (expected_resp (params h) st (resp_ephemeral q)))),
           h', snd (instant_now w)).
Proof.
  intros Hst Hidx Hl Hn. rewrite receive_response_cases by done. unfold awaiting. rewrite Hst, Hidx.
  destruct (previous h); rewrite Z.eqb_refl; cbv zeta; rewrite bool_decide_eq_true_2 by done;
    by eexists.
Qed.

(** A complete exchange. *)
Lemma honest_handshake (EI ER : Env) (sI sR : bytes) (psk : option bytes)
    (hI hR : Handshake) (nI nR : nat) (wI wR : World) :
  MonotoneClock EI ->
  params hI = params_new sI (x25519_public sI) (x25519_public sR) psk ->
  params hR = params_new sR (x25519_public sR) (x25519_public sI) psk ->
  u32_range (next_index hI) -> u32_range (next_index hR) ->
  stamper_ok (E := EI) (stamper hI) ->
  (HANDSHAKE_INIT_SZ <= nI)%nat -> (HANDSHAKE_RESP_SZ <= nR)%nat ->
  after (tai64n_of (stamp_bytes
           (stamp_duration (E := EI) (stamper hI) (snd (fill_bytes (E := EI) 32 wI)))))
        (last_handshake_timestamp hR) = true ->
  exists init p resp q sesI sesR hI1 hI2 hR1 wI1 wI2 wR1,
    format_handshake_initiation (E := EI) hI nI wI = Ret (Ok init, hI1, wI1)
    /\ parse_incoming_packet init = Ret (Ok (PHandshakeInit p))
    /\ receive_handshake_initialization (E := ER) hR p nR wR = Ret (Ok (resp, sesR), hR1, wR1)
    /\ parse_incoming_packet resp = Ret (Ok (PHandshakeResponse q))
    /\ receive_handshake_response (E := EI) hI1 q wI1 = Ret (Ok sesI, hI2, wI2)
    /\ paired sesI sesR.
Proof.
  intros HM HpI HpR HiI HiR Hst HnI HnR Hts.
  destruct (initiate (E := EI) sI sR psk hI nI wI) as (init & hI1 & wI1 & now & Hf & Hpi & Hp1 & Hs1 & _);
    [done..|].
  rewrite <- HpR in Hpi, Hs1.
  destruct (respond (E := ER) sI sR psk hR nR wR (next_local_index hI) (fst (fill_bytes (E := EI) 32 wI))
              (stamp_bytes (stamp_duration (E := EI) (stamper hI) (snd (fill_bytes (E := EI) 32 wI)))))
    as (resp & now' & hR1 & Hr & Hpr & _);
    [done|done|by apply next_local_index_range|done|apply length_stamp_bytes|done|].
  match type of Hpr with _ = Ret (Ok (PHandshakeResponse ?q)) =>
    destruct (complete (E := EI) hI1 _ q wI1 Hs1) as [hI2 Hc] end;
    [reflexivity|apply length_t_nothing|rewrite Hp1, HpI; reflexivity|].
  do 12 eexists. split; [exact Hf|]. split; [exact Hpi|]. split; [exact Hr|].
  split; [exact Hpr|].
  split; [exact Hc|]. exists (next_local_index hI), (next_local_index hR). eexists _, _.
  split; [by apply next_local_index_range|]. split; [by apply next_local_index_range|].
  split; [reflexivity|]. rewrite Hp1, HpI. reflexivity.
Qed.

(** C3. Key agreement: an initiation formatted by one party and a response
    formatted by the other are parsed and accepted, with no panic, and leave both
    with sessions whose keys and indices match crosswise, over which any messages
    sent in either direction are received in full and in order. The two parties have
    their own clocks and random generators, any pending handshakes, any cookies;
    the initiator's stamp only has to be later than the last one the responder
    has seen. *)
Theorem handshake_key_agreement (EI ER : Env) (sI sR : bytes) (psk : option bytes)
    (hI hR : Handshake) (nI nR : nat) (wI wR : World) :
  MonotoneClock EI ->
  params hI = params_new sI (x25519_public sI) (x25519_public sR) psk ->
  params hR = params_new sR (x25519_public sR) (x25519_public sI) psk ->
  u32_range (next_index hI) -> u32_range (next_index hR) ->
  stamper_ok (E := EI) (stamper hI) ->
  (HANDSHAKE_INIT_SZ <= nI)%nat -> (HANDSHAKE_RESP_SZ <= nR)%nat ->
  after (tai64n_of (stamp_bytes
           (stamp_duration (E := EI) (stamper hI) (snd (fill_bytes (E := EI) 32 wI)))))
        (last_handshake_timestamp hR) = true ->
  exists init p resp q sesI sesR hI1 hI2 hR1 wI1 wI2 wR1,
    format_handshake_initiation (E := EI) hI nI wI = Ret (Ok init, hI1, wI1)
    /\ parse_incoming_packet init = Ret (Ok (PHandshakeInit p))
    /\ receive_handshake_initialization (E := ER) hR p nR wR = Ret (Ok (resp, sesR), hR1, wR1)
    /\ parse_incoming_packet resp = Ret (Ok (PHandshakeResponse q))
    /\ receive_handshake_response (E := EI) hI1 q wI1 = Ret (Ok sesI, hI2, wI2)
    /\ paired sesI sesR
    /\ forall s r msgs n,
         (s, r) = (sesI, sesR) \/ (s, r) = (sesR, sesI) ->
         Forall (fun m => (length m + 16 <= n)%nat) msgs ->
         Z.of_nat (length msgs) <= 2 ^ 64 - N_BITS ->
         exists ps s' r', send_all s msgs = Ret (ps, s')
         /\ deliver_all r n ps = Ret (Ok <$> msgs, r').
Proof.
  intros HM HpI HpR HiI HiR Hst HnI HnR Hts.
  destruct (honest_handshake EI ER sI sR psk hI hR nI nR wI wR)
    as (init & p & resp & q & sesI & sesR & hI1 & hI2 & hR1 & wI1 & wI2 & wR1 & ? & ? & ? & ? & ? & Hpair);
    [done..|].
  exists init, p, resp, q, sesI, sesR, hI1, hI2, hR1, wI1, wI2, wR1. split_and!; try done.
  destruct Hpair as (a & b & ka & kb & Ha & Hb & -> & ->).
  intros s r msgs n [[= -> ->]|[= -> ->]] Hlen Hmax; by apply session_in_order.
Qed.

End Agreement.

(** ** Runs of a handshake *)

Section Runs.
Context `{C : Crypto} `{E : Env}.

(** One operation on a handshake that keeps its static keys, in any world. *)
Inductive step : Handshake -> Handshake -> Prop :=
| step_format_initiation h n w r h' w' :
    format_handshake_initiation h n w = Ret (r, h', w') -> step h h'
| step_receive_initialization h p n w r h' w' :
    receive_handshake_initialization h p n w = Ret (r, h', w') -> step h h'
| step_receive_response h p w r h' w' :
    receive_handshake_response h p w = Ret (r, h', w') -> step h h'
| step_receive_cookie_reply h p r h' :
    receive_cookie_reply h p = (r, h') -> step h h'
| step_set_expired h : step h (set_expired h)
| step_clear_cookie h : step h (clear_cookie h).

(** [t'] is [t] or chronologically after it. *)
Definition not_before (t' t : Tai64N) : Prop := t' = t \/ after t' t = true.

(** What every operation respects. *)
Record evolves (h h' : Handshake) : Prop := {
  ev_params : params h' = params h;
  ev_stamper : stamper h' = stamper h;
  ev_timestamp : not_before (last_handshake_timestamp h') (last_handshake_timestamp h);
  ev_index : next_index h' = next_index h \/ next_index h' = next_local_index h;
}.

Lemma after_trans a b c : after a b = true -> after b c = true -> after a c = true.
Proof.
  unfold after. rewrite !orb_true_iff, !andb_true_iff, !Z.ltb_lt, !Z.eqb_eq. lia.
Qed.

Lemma after_irrefl a : after a a = false.
Proof. unfold after. by rewrite !Z.ltb_irrefl, andb_false_r. Qed.

Lemma not_before_trans a b c : not_before a b -> not_before b c -> not_before a c.
Proof.
  unfold not_before. intros [->|Hab] [->|Hbc]; auto. right. by eapply after_trans.
Qed.

Lemma format_initiation_evolves h n w r h' w' :
  format_handshake_initiation h n w = Ret (r, h', w') ->
  h' = h \/
  (params h' = params h /\ stamper h' = stamper h
   /\ last_handshake_timestamp h' = last_handshake_timestamp h
   /\ next_index h' = next_local_index h /\ previous h' = state h
   /\ exists s, state h' = InitSent s /\ sent_local_index s = next_local_index h).
Proof.
  unfold format_handshake_initiation. case_bool_decide; [intros [= <- <- <-]; by left|].
  cbn [inc_index fill_bytes instant_now append_mac1_and_mac2]. intros Hf. right.
  invert_binds. simplify_eq. simpl. eauto 10.
Qed.

Lemma format_response_evolves h n w r h' w' :
  format_handshake_response h n w = Ret (r, h', w') ->
  h' = h \/
  (params h' = params h /\ stamper h' = stamper h
   /\ last_handshake_timestamp h' = last_handshake_timestamp h
   /\ next_index h' = next_local_index h /\ previous h' = previous h /\ state h' = HNone).
Proof.
  unfold format_handshake_response. case_bool_decide; [intros [= <- <- <-]; by left|].
  destruct (state h); try discriminate.
  cbn [inc_index fill_bytes append_mac1_and_mac2]. intros Hf. right.
  invert_binds. simplify_eq. simpl. eauto 10.
Qed.

Lemma receive_response_evolves h p w r h' w' :
  receive_handshake_response h p w = Ret (r, h', w') ->
  h' = h \/ exists st b now,
    awaiting h (resp_receiver_idx p) = Some (st, b) /\ h' = accepted_resp h st b now.
Proof.
  unfold receive_handshake_response. destruct (awaiting _ _) as [[st b]|]; [|intros [= <- <- <-]; by left].
  intros Hf. invert_binds. destruct x; [|simplify_eq; by left].
  invert_binds. simplify_eq. right. eauto 10.
Qed.

Lemma receive_init_evolves h p n w r h' w' :
  receive_handshake_initialization h p n w = Ret (r, h', w') ->
  h' = h \/ exists t hash ck,
    after t (last_handshake_timestamp h) = true
    /\ format_handshake_response
         (with_states (state h) (InitReceived hash ck (init_ephemeral p) (init_sender_idx p))
            (with_timestamp t h)) n w = Ret (r, h', w').
Proof.
  unfold receive_handshake_initialization. intros Hf. invert_binds.
  destruct x; [|simplify_eq; by left]. case_bool_decide; [|simplify_eq/=; by left]. cbn [negb] in Hf.
  invert_binds. destruct x; [|simplify_eq; by left]. invert_binds.
  destruct x; [|simplify_eq; by left].
  destruct (after _ _) eqn:Ha; cbn [negb] in Hf; [|simplify_eq/=; by left].
  right. eauto 10.
Qed.

Lemma evolves_refl h : evolves h h.
Proof. split; auto. by left. Qed.

Lemma accepted_resp_evolves h st b now : evolves h (accepted_resp h st b now).
Proof. destruct b; split; simpl; auto; by left. Qed.

Lemma step_evolves h h' : step h h' -> evolves h h'.
Proof.
  destruct 1 as [h n w r h' w' Hf|h p n w r h' w' Hf|h p w r h' w' Hf|h p r h' Hf|h|h].
  - apply format_initiation_evolves in Hf as [->|(?&?&?&?&_)]; [apply evolves_refl|].
    split; auto. by left.
  - apply receive_init_evolves in Hf as [->|(t & hash & ck & Ha & Hf)]; [apply evolves_refl|].
    apply format_response_evolves in Hf as [->|(?&?&Ht&Hi&_)].
    + split; simpl; auto. by right.
    + split; auto. rewrite Ht. by right.
  - apply receive_response_evolves in Hf as [->|(st & b & now & _ & ->)];
      [apply evolves_refl|apply accepted_resp_evolves].
  - unfold receive_cookie_reply in Hf. repeat case_match; simplify_eq; split; simpl; auto; by left.
  - split; simpl; auto; by left.
  - split; simpl; auto; by left.
Qed.

(** Which initiations may be pending. *)
Record handshake_inv (h : Handshake) : Prop := {
  inv_index : u32_range (next_index h);
  inv_state : forall s, state h = InitSent s -> sent_local_index s = next_index h;
  inv_distinct : forall s p, state h = InitSent s -> previous h = InitSent p ->
    sent_local_index s <> sent_local_index p;
}.

Lemma accepted_resp_inv h st b now : handshake_inv h -> handshake_inv (accepted_resp h st b now).
Proof. intros [Hi Hs Hd]. destruct b; split; simpl; auto; done. Qed.

Lemma step_inv h h' : step h h' -> handshake_inv h -> handshake_inv h'.
Proof.
  intros Hstep [Hi Hs Hd].
  destruct Hstep as [h n w r h' w' Hf|h p n w r h' w' Hf|h p w r h' w' Hf|h p r h' Hf|h|h].
  - apply format_initiation_evolves in Hf as [->|(_&_&_&Hn&Hp&s&Hst&Hl)]; [done|].
    pose proof (next_local_index_neq h Hi). split.
    + rewrite Hn. by apply next_local_index_range.
    + intros ? ?. congruence.
    + rewrite Hst, Hp. intros ? q [= <-] Hq%Hs. congruence.
  - apply receive_init_evolves in Hf as [->|(t & hash & ck & _ & Hf)]; [done|].
    apply format_response_evolves in Hf as [->|(_&_&_&Hn&_&Hst)]; [by split|].
    split; [rewrite Hn; by apply next_local_index_range|congruence..].
  - apply receive_response_evolves in Hf as [->|(st & b & now & _ & ->)]; [done|].
    by apply accepted_resp_inv.
  - unfold receive_cookie_reply in Hf. repeat case_match; simplify_eq; by split.
  - by split.
  - by split.
Qed.

(** The peer's part of an index. *)
Lemma next_local_index_peer h :
  u32_range (next_index h) -> next_local_index h / 256 = next_index h / 256.
Proof.
  intros Hi. rewrite next_local_index_spec by done.
  rewrite Z.add_comm, Z.div_add, Z.div_small by (done || by apply Z.mod_pos_bound). lia.
Qed.

Lemma reaches_evolves h h' : rtc step h h' ->
  params h' = params h /\ stamper h' = stamper h
  /\ not_before (last_handshake_timestamp h') (last_handshake_timestamp h).
Proof.
  induction 1 as [h|h h1 h2 Hs%step_evolves _ IH]; [split_and!; auto; by left|].
  destruct IH as (? & ? & ?). destruct Hs. split_and!; [congruence..|].
  by eapply not_before_trans.
Qed.

Lemma reaches_inv h h' : rtc step h h' -> handshake_inv h ->
  handshake_inv h' /\ next_index h' / 256 = next_index h / 256.
Proof.
  induction 1 as [h|h h1 h2 Hs _ IH]; [done|]. intros Hh.
  destruct (IH (step_inv _ _ Hs Hh)) as [? ->]. split; [done|].
  destruct (ev_index _ _ (step_evolves _ _ Hs)) as [->| ->]; [done|].
  apply next_local_index_peer, Hh.
Qed.

End Runs.

Section RunProperties.
Context `{C : Crypto} `{CL : !CryptoLaws C} `{E : Env}.

(** A refused initiation changes nothing; an accepted one advances the last
    timestamp to its own. *)
Lemma refused_if_not_after h p ts n w :
  length (encrypted_static p) = 48%nat -> length (encrypted_timestamp p) = 28%nat ->
  length (peer_static_public (params h)) = 32%nat -> length ts = 12%nat ->
  encrypted_static p = t_static (expected_init (params h) (init_ephemeral p) ts) ->
  encrypted_timestamp p = t_timestamp (expected_init (params h) (init_ephemeral p) ts) ->
  after (tai64n_of ts) (last_handshake_timestamp h) = false ->
  receive_handshake_initialization h p n w = Ret (Err WrongTai64nTimestamp, h, w).
Proof.
  intros Hl1 Hl2 Hpk Hts Hs Ht Ha.
  pose proof (receive_init_genuine h (init_sender_idx p) (init_ephemeral p) ts n w Hpk Hts) as Hr.
  cbv zeta in Hr. rewrite <- Hs, <- Ht, Ha in Hr. by destruct p.
Qed.

Lemma accepted_timestamp h i e ts n w r h' w' :
  format_handshake_response (accepted_init h i e ts) n w = Ret (r, h', w') ->
  last_handshake_timestamp h' = tai64n_of ts.
Proof. intros [->|(_&_&->&_)]%format_response_evolves; done. Qed.

Lemma awaiting_accepted h idx st b now :
  handshake_inv h -> awaiting h idx = Some (st, b) -> awaiting (accepted_resp h st b now) idx = None.
Proof.
  intros [_ _ Hd] Haw. unfold awaiting in *.
  destruct (state h) as [|s| |] eqn:Est, (previous h) as [|q| |] eqn:Epr; try done;
    repeat (split_if; try done); bprop; simplify_eq; simpl; rewrite ?Est, ?Epr; try done.
  - pose proof (Hd _ _ eq_refl eq_refl). by rewrite (proj2 (Z.eqb_neq _ _)) by done.
  - by rewrite (proj2 (Z.eqb_neq _ _)) by done.
Qed.

(** C20. An initiation is never accepted twice: once a party has accepted one, it
    refuses the same message, with no change of its state, after any further
    operations on the handshake. *)
Theorem initiation_not_replayed (h h1 h2 : Handshake) (p : HandshakeInit) (n n2 : nat)
    (w w1 w2 : World) (resp : bytes) (ses : Session) :
  wf_packet (PHandshakeInit p) -> length (peer_static_public (params h)) = 32%nat ->
  receive_handshake_initialization h p n w = Ret (Ok (resp, ses), h1, w1) ->
  rtc step h1 h2 ->
  receive_handshake_initialization h2 p n2 w2 = Ret (Err WrongTai64nTimestamp, h2, w2).
Proof.
  intros (_ & _ & Hl1 & Hl2) Hpk Hacc Hreach.
  assert (step h h1) as Hstep by (by eapply step_receive_initialization).
  destruct (receive_init_cases h p n w Hl1 Hl2) as [[e He]|(ts & Hts & Hs & Ht & _ & Hr)]; [congruence|].
  rewrite Hr in Hacc. apply accepted_timestamp in Hacc.
  destruct (reaches_evolves _ _ Hreach) as (Hp2 & _ & Hnb).
  pose proof (ev_params _ _ (step_evolves _ _ Hstep)) as Hp1.
  rewrite Hp1 in Hp2. rewrite <- Hp2 in Hs, Ht, Hpk. apply (refused_if_not_after _ _ ts); try done.
  rewrite Hacc in Hnb. destruct Hnb as [->|Hnb]; [apply after_irrefl|].
  apply not_true_iff_false. intros Ha.
  pose proof (after_trans _ _ _ Ha Hnb) as Hc. by rewrite after_irrefl in Hc.
Qed.

(** C21. Only the peer can complete an initiation: receiving a well-formed one never
    panics, and either refuses it leaving the state unchanged, or the message is
    the AEAD of the peer's static key and of a timestamp later than all accepted
    ones, under keys derived from the Diffie-Hellman secrets of our static key
    with the sender's ephemeral and the peer's static keys. *)
Theorem initiation_authenticated (h : Handshake) (p : HandshakeInit) (n : nat) (w : World) :
  wf_packet (PHandshakeInit p) ->
  (exists e, receive_handshake_initialization h p n w = Ret (Err e, h, w))
  \/ exists ts r h' w',
       receive_handshake_initialization h p n w = Ret (r, h', w')
       /\ length ts = 12%nat
       /\ encrypted_static p = t_static (expected_init (params h) (init_ephemeral p) ts)
       /\ encrypted_timestamp p = t_timestamp (expected_init (params h) (init_ephemeral p) ts)
       /\ after (tai64n_of ts) (last_handshake_timestamp h) = true
       /\ last_handshake_timestamp h' = tai64n_of ts
       /\ is_ok r = bool_decide (HANDSHAKE_RESP_SZ <= n)%nat.
Proof.
  intros (_ & _ & Hl1 & Hl2).
  destruct (receive_init_cases h p n w Hl1 Hl2) as [|(ts & Hts & Hs & Ht & Ha & Hr)]; [by left|right].
  exists ts. rewrite Hr. case_bool_decide as Hn.
  - destruct (format_response_ok (accepted_init h (init_sender_idx p) (init_ephemeral p) ts) n w
      _ _ _ _ Hn eq_refl) as (macs & h' & Hf & _ & _ & _ & _ & _ & Hlast & _).
    rewrite Hf. eexists _, _, _. by rewrite Hlast.
  - unfold format_handshake_response. rewrite bool_decide_eq_true_2 by lia. eauto 15.
Qed.

(** A response is accepted at most once: after it has completed a handshake the
    same response finds no pending initiation. *)
Theorem response_accepted_once (h h' : Handshake) (p : HandshakeResponse) (w w' w2 : World)
    (ses : Session) :
  handshake_inv h ->
  receive_handshake_response h p w = Ret (Ok ses, h', w') ->
  receive_handshake_response h' p w2 = Ret (Err UnexpectedPacket, h', w2).
Proof.
  intros Hinv Hr. unfold receive_handshake_response in *.
  assert (awaiting h' (resp_receiver_idx p) = None) as ->; [|done].
  apply receive_response_evolves in Hr as Hev.
  destruct (awaiting h (resp_receiver_idx p)) as [[st b]|] eqn:Haw; [|done].
  assert (exists now, h' = accepted_resp h st b now) as [now ->].
  { destruct Hev as [->|(?&?&now&[= -> ->]&?)]; [|by eauto]. invert_binds.
    destruct x; [|done]. invert_binds. simplify_eq. eauto. }
  by apply awaiting_accepted.
Qed.

(** Along every run of a handshake the index of the peer (the upper 24 bits)
    never changes, indices stay 32-bit, the current pending initiation is the
    last index handed out, and two pending initiations have distinct indices. *)
Theorem handshake_run_invariant (sp pp peer : bytes) (idx : Z) (psk : option bytes)
    (w w' : World) (h h' : Handshake) :
  u32_range idx ->
  handshake_new sp pp peer idx psk w = (h, w') -> rtc step h h' ->
  handshake_inv h' /\ next_index h' / 256 = idx / 256
  /\ params h' = params_new sp pp peer psk.
Proof.
  intros Hidx [= <- <-] Hreach.
  destruct (reaches_inv _ _ Hreach) as [Hinv Hpeer]; [by split|].
  destruct (reaches_evolves _ _ Hreach) as [Hp _]. done.
Qed.

End RunProperties.

(** Stamps follow the clock: with a monotone clock [stamp] never panics, never
    goes back, and a stamp taken at a strictly later reading compares as later to
    the receiver, which parses the 12 bytes back. *)
Theorem stamps_follow_clock `{E : Env} (st : TimeStamper) (w w' : World) :
  MonotoneClock E -> stamper_ok st -> (ticks w <= ticks w')%nat ->
  exists b b' d d',
    stamp st w = Ret (b, snd (instant_now w)) /\ stamp st w' = Ret (b', snd (instant_now w'))
    /\ tai64n_parse b = Ret (Ok (tai64n_of b)) /\ tai64n_parse b' = Ret (Ok (tai64n_of b'))
    /\ after (tai64n_of b) (tai64n_of b') = false
    /\ after (tai64n_of b') (tai64n_of b) = (d <? d')
    /\ d = stamp_duration st w /\ d' = stamp_duration st w' /\ d <= d'.
Proof.
  intros HM Hst Hw. pose proof (stamp_duration_mono st w w' Hst Hw) as Hd.
  eexists _, _, _, _. rewrite !stamp_ok by done. do 2 (split; [reflexivity|]).
  rewrite !tai64n_parse_ok, !after_stamps by (apply length_stamp_bytes || by apply stamp_duration_range).
  split_and!; try done. by apply Z.ltb_ge.
Qed.

(** ** Examples *)

#[local] Existing Instance toy_crypto.
#[local] Existing Instance toy_laws.
#[local] Existing Instance example_env.
#[local] Existing Instance example_env_monotone.

Definition example_secret (b : byte) : bytes := replicate 32 b.
Definition example_handshake (mine peer : byte) (idx : Z) : Handshake :=
  fst (handshake_new (example_secret mine) (x25519_public (example_secret mine))
         (x25519_public (example_secret peer)) idx None (mkWorld 0 0)).

(** The hypotheses of an exchange between two fresh parties. *)
Ltac example_exchange :=
  first [apply example_env_monotone | apply stamper_new_ok | reflexivity | ground
        | vm_compute; reflexivity].

Lemma handshake_key_agreement_witness :
  exists init sesI sesR hI1 wI1,
    format_handshake_initiation (example_handshake x03 x04 256) 148 (mkWorld 9 0)
      = Ret (Ok init, hI1, wI1)
    /\ paired sesI sesR.
Proof.
  destruct (handshake_key_agreement example_env example_env (example_secret x03) (example_secret x04) None
    (example_handshake x03 x04 256) (example_handshake x04 x03 512) 148 92 (mkWorld 9 0) (mkWorld 3 50))
    as (init & p & resp & q & sesI & sesR & hI1 & hI2 & hR1 & wI1 & wI2 & wR1 & Hf & _ & _ & _ & _ & Hp & _).
  all: [> example_exchange .. | exists init, sesI, sesR, hI1, wI1; split; [exact Hf | exact Hp]].
Defined.

(** A complete exchange between two fresh parties. *)
Lemma example_handshake_run :
  exists init p resp q sesI sesR hI1 hI2 hR1 wI1 wI2 wR1,
    format_handshake_initiation (example_handshake x03 x04 256) 148 (mkWorld 9 0)
      = Ret (Ok init, hI1, wI1)
    /\ parse_incoming_packet init = Ret (Ok (PHandshakeInit p))
    /\ receive_handshake_initialization (example_handshake x04 x03 512) p 92 (mkWorld 3 50)
       = Ret (Ok (resp, sesR), hR1, wR1)
    /\ parse_incoming_packet resp = Ret (Ok (PHandshakeResponse q))
    /\ receive_handshake_response hI1 q wI1 = Ret (Ok sesI, hI2, wI2)
    /\ paired sesI sesR.
Proof.
  apply (honest_handshake example_env example_env (example_secret x03) (example_secret x04) None);
    example_exchange.
Qed.

Lemma initiation_not_replayed_witness :
  exists p resp ses h1 w1,
    receive_handshake_initialization (example_handshake x04 x03 512) p 92 (mkWorld 3 50)
      = Ret (Ok (resp, ses), h1, w1)
    /\ receive_handshake_initialization h1 p 92 w1 = Ret (Err WrongTai64nTimestamp, h1, w1).
Proof.
  destruct example_handshake_run as (init & p & resp & _ & _ & ses & _ & _ & h1 & _ & _ & w1 & _ & Hp & Hr & _).
  exists p, resp, ses, h1, w1. split; [exact Hr|].
  apply (initiation_not_replayed (example_handshake x04 x03 512) h1 h1 p 92 92
           (mkWorld 3 50) w1 w1 resp ses);
    [exact (parse_wf _ _ Hp)|apply length_x25519_public|exact Hr|apply rtc_refl].
Defined.

Lemma initiation_authenticated_witness :
  let p := mkInit 1 (zeros 32) (zeros 48) (zeros 28) in
  exists r h w, receive_handshake_initialization (example_handshake x04 x03 512) p 92 (mkWorld 3 50)
                = Ret (r, h, w).
Proof.
  intros p. destruct (initiation_authenticated (example_handshake x04 x03 512) p 92 (mkWorld 3 50))
    as [[e He]|(ts & r & h & w & Hr & _)].
  - split_and!; [ground|apply length_zeros ..].
  - exists (Err e), (example_handshake x04 x03 512), (mkWorld 3 50). exact He.
  - exists r, h, w. exact Hr.
Defined.

Lemma response_accepted_once_witness :
  exists h q w ses h1 w1,
    receive_handshake_response h q w = Ret (Ok ses, h1, w1)
    /\ receive_handshake_response h1 q w1 = Ret (Err UnexpectedPacket, h1, w1).
Proof.
  destruct example_handshake_run
    as (init & p & resp & q & sesI & sesR & hI1 & hI2 & hR1 & wI1 & wI2 & wR1 & Hf & _ & _ & _ & Hr & _).
  exists hI1, q, wI1, sesI, hI2, wI2. split; [exact Hr|].
  apply (response_accepted_once hI1 hI2 q wI1 wI2 wI2 sesI); [|exact Hr].
  apply (step_inv (example_handshake x03 x04 256) hI1).
  - by eapply step_format_initiation.
  - split; [ground|done|done].
Defined.

Lemma handshake_run_invariant_witness :
  handshake_inv (set_expired (example_handshake x03 x04 256))
  /\ next_index (set_expired (example_handshake x03 x04 256)) / 256 = 256 / 256
  /\ params (set_expired (example_handshake x03 x04 256))
     = params_new (example_secret x03) (x25519_public (example_secret x03))
         (x25519_public (example_secret x04)) None.
Proof.
  eapply (handshake_run_invariant _ _ _ 256 None (mkWorld 0 0) _ (example_handshake x03 x04 256));
    [ground|reflexivity|apply rtc_once, step_set_expired].
Defined.

Lemma stamps_follow_clock_witness :
  exists b, stamp (stamper (example_handshake x03 x04 256)) (mkWorld 5 0)
            = Ret (b, snd (instant_now (mkWorld 5 0))).
Proof.
  destruct (stamps_follow_clock (stamper (example_handshake x03 x04 256)) (mkWorld 5 0) (mkWorld 8 0))
    as (b & _ & _ & _ & Hb & _);
    [apply example_env_monotone|apply stamper_new_ok|simpl; lia|exists b; exact Hb].
Defined.
