(* ===== verification/RateLimiter.v ===== *)
(** * Rate limiting of handshakes ([noise/rate_limiter.rs])

    The counter of handshake messages, the cookie a source address has to prove
    ownership with when the counter passes the limit, and [verify_packet], which
    every datagram goes through first. *)

From Stdlib Require Import ZArith Lia.
From stdpp Require Import base numbers list option.
From S2P Require Import Prelude Errors Clock Packet Crypto Session Handshake.

Definition COOKIE_REFRESH : Z := 128.
Definition COOKIE_SIZE : nat := 16.
Definition COOKIE_NONCE_SIZE : nat := 24.
Definition RESET_PERIOD : Z := 1.

Record RateLimiter := mkRateLimiter {
  nonce_key : bytes;
  secret_key : bytes;
  start_time : Instant;
  nonce_ctr : Z;
  mac1_key : bytes;
  cookie_key : bytes;
  limit : Z;
  count : Z;
  last_reset : Instant;
}.

Definition with_nonce_ctr (c : Z) (r : RateLimiter) : RateLimiter :=
  mkRateLimiter (nonce_key r) (secret_key r) (start_time r) c (mac1_key r) (cookie_key r)
    (limit r) (count r) (last_reset r).
Definition with_count (c : Z) (r : RateLimiter) : RateLimiter :=
  mkRateLimiter (nonce_key r) (secret_key r) (start_time r) (nonce_ctr r) (mac1_key r)
    (cookie_key r) (limit r) c (last_reset r).
Definition with_last_reset (t : Instant) (r : RateLimiter) : RateLimiter :=
  mkRateLimiter (nonce_key r) (secret_key r) (start_time r) (nonce_ctr r) (mac1_key r)
    (cookie_key r) (limit r) (count r) t.

(** The 16 bytes of an address: IPv4 octets are followed by zeros. *)
Definition addr_bytes (addr : IpAddr) : bytes :=
  match addr with
  | V4 a => a ++ zeros 12
  | V6 a => a
  end.

Section Limiter.
Context `{C : Crypto} `{E : Env}.

(** [RateLimiter::new] *)
Definition rate_limiter_new (public_key : bytes) (lim : Z) (w : World) : RateLimiter * World :=
  let '(secret, w) := fill_bytes 16 w in
  let '(nkey, w) := fill_bytes 32 w in
  let '(start, w) := instant_now w in
  let '(reset, w) := instant_now w in
  (mkRateLimiter nkey secret start 0 (b2s_hash LABEL_MAC1 public_key)
     (b2s_hash LABEL_COOKIE public_key) lim 0 reset, w).

Definition reset_count (r : RateLimiter) (w : World) : RateLimiter * World :=
  let '(current_time, w) := instant_now w in
  if RESET_PERIOD <=? as_secs (duration_since current_time (last_reset r))
  then (with_last_reset current_time (with_count 0 r), w)
  else (r, w).

Definition current_cookie (r : RateLimiter) (addr : IpAddr) (w : World) : bytes * World :=
  let '(now, w) := instant_now w in
  let cur_counter := as_secs (duration_since now (start_time r)) / COOKIE_REFRESH in
  (b2s_keyed_mac_16_2 (secret_key r) (to_le 8 cur_counter) (addr_bytes addr), w).

Definition limiter_nonce (r : RateLimiter) : bytes * RateLimiter :=
  let ctr := nonce_ctr r in
  (b2s_mac_24 (nonce_key r) (to_le 8 ctr), with_nonce_ctr (add64 ctr 1) r).

Definition is_under_load (r : RateLimiter) : bool * RateLimiter :=
  (limit r <=? count r, with_count (add64 (count r) 1) r).

Definition format_cookie_reply (r : RateLimiter) (idx : Z) (cookie mac1 : bytes) (dst_len : nat)
    : result WireGuardError bytes * RateLimiter :=
  if bool_decide (dst_len < COOKIE_REPLY_SZ)%nat then (Err DestinationBufferTooSmall, r)
  else
    let '(nonce, r) := limiter_nonce r in
    let '(ct, tag) := xchacha_seal (cookie_key r) nonce mac1 cookie in
    (Ok (to_le 4 COOKIE_REPLY ++ to_le 4 idx ++ nonce ++ ct ++ tag), r).

(** The sender index of a handshake message. *)
Definition handshake_sender (p : Packet) : option Z :=
  match p with
  | PHandshakeInit p => Some (init_sender_idx p)
  | PHandshakeResponse p => Some (resp_sender_idx p)
  | _ => None
  end.

Definition verify_packet (r : RateLimiter) (src_addr : option IpAddr) (src : bytes)
    (dst_len : nat) (w : World)
    : outcome (result TunnResult Packet * RateLimiter * World) :=
  let! p := parse_incoming_packet src in
  match p with
  | Err e => Ret (Err (TunnErr e), r, w)
  | Ok packet =>
  match handshake_sender packet with
  | None => Ret (Ok packet, r, w)
  | Some sender_idx =>
      let! _ := require (bool_decide (32 <= length src)%nat) in
      let msg := take (length src - 32) src in
      let macs := drop (length src - 32) src in
      let mac1 := take 16 macs in
      let mac2 := drop 16 macs in
      let computed_mac1 := b2s_keyed_mac_16 (mac1_key r) msg in
      if negb (bool_decide (computed_mac1 = mac1)) then Ret (Err (TunnErr InvalidMac), r, w)
      else
        let '(under_load, r) := is_under_load r in
        if negb under_load then Ret (Ok packet, r, w)
        else
          match src_addr with
          | None => Ret (Err (TunnErr UnderLoad), r, w)
          | Some addr =>
              let '(cookie, w) := current_cookie r addr w in
              let computed_mac2 := b2s_keyed_mac_16_2 cookie msg mac1 in
              if bool_decide (computed_mac2 = mac2) then Ret (Ok packet, r, w)
              else
                let '(reply, r) := format_cookie_reply r sender_idx cookie mac1 dst_len in
                match reply with
                | Err e => Ret (Err (TunnErr e), r, w)
                | Ok cookie_packet => Ret (Err (WriteToNetwork cookie_packet), r, w)
                end
          end
  end
  end.

End Limiter.

(** ** Lemmas *)

(** The fields of a handshake datagram as [verify_packet] splits it. *)
Definition dg_msg (src : bytes) : bytes := take (length src - 32) src.
Definition dg_mac1 (src : bytes) : bytes := take 16 (drop (length src - 32) src).
Definition dg_mac2 (src : bytes) : bytes := drop 16 (drop (length src - 32) src).

Lemma dg_split msg mac1 mac2 :
  length mac1 = 16%nat -> length mac2 = 16%nat ->
  dg_msg (msg ++ mac1 ++ mac2) = msg /\ dg_mac1 (msg ++ mac1 ++ mac2) = mac1
  /\ dg_mac2 (msg ++ mac1 ++ mac2) = mac2.
Proof.
  intros H1 H2. unfold dg_msg, dg_mac1, dg_mac2. rewrite !length_app, H1, H2.
  replace (length msg + (16 + 16) - 32)%nat with (length msg) by lia.
  rewrite take_app_length, drop_app_length, <- H1, take_app_length, drop_app_length. done.
Qed.

Section LimiterLemmas.
Context `{C : Crypto} `{CL : !CryptoLaws C} `{E : Env}.

(** Whether a datagram carries the MACs the limiter checks. *)
Definition mac1_valid (r : RateLimiter) (src : bytes) : bool :=
  bool_decide (b2s_keyed_mac_16 (mac1_key r) (dg_msg src) = dg_mac1 src).

Definition mac2_valid (r : RateLimiter) (src_addr : option IpAddr) (src : bytes) (w : World) : bool :=
  match src_addr with
  | None => false
  | Some addr =>
      bool_decide (b2s_keyed_mac_16_2 (fst (current_cookie r addr w)) (dg_msg src) (dg_mac1 src)
                   = dg_mac2 src)
  end.

Lemma parsed_handshake_length src p i :
  parse_incoming_packet src = Ret (Ok p) -> handshake_sender p = Some i -> (32 <= length src)%nat.
Proof.
  rewrite parse_is_spec. intros H Hp.
  apply (f_equal (fun o => match o with Ret r => r | Panic => Err InvalidPacket end)) in H.
  apply parse_spec_inv in H as [_ (m & Hm & ->)]. rewrite length_app.
  destruct p; simpl in *; try done; lia.
Qed.

(** [verify_packet] on a parsed datagram, as a decision on its MACs. *)
Lemma verify_handshake r a src n w p i :
  parse_incoming_packet src = Ret (Ok p) -> handshake_sender p = Some i ->
  exists res r' w', verify_packet r a src n w = Ret (res, r', w')
  /\ (mac1_valid r src = false -> res = Err (TunnErr InvalidMac) /\ r' = r)
  /\ (mac1_valid r src = true ->
      count r' = add64 (count r) 1 /\ limit r' = limit r /\ mac1_key r' = mac1_key r
      /\ secret_key r' = secret_key r /\ start_time r' = start_time r
      /\ cookie_key r' = cookie_key r /\ nonce_key r' = nonce_key r
      /\ (count r < limit r -> res = Ok p)
      /\ (limit r <= count r ->
          if mac2_valid r a src w then res = Ok p
          else match a with
               | None => res = Err (TunnErr UnderLoad)
               | Some addr =>
                   res = match fst (format_cookie_reply r i (fst (current_cookie r addr w))
                                      (dg_mac1 src) n) with
                         | Ok reply => Err (WriteToNetwork reply)
                         | Err e => Err (TunnErr e)
                         end
               end)).
Proof.
  intros Hp Hi. unfold verify_packet, mac1_valid, mac2_valid. rewrite Hp. simpl. rewrite Hi.
  rewrite bool_decide_eq_true_2 by (by eapply parsed_handshake_length). simpl.
  fold (dg_msg src) (dg_mac1 src) (dg_mac2 src).
  case_bool_decide; simpl; [|by eexists _, _, _].
  destruct (Z.leb_spec (limit r) (count r)); simpl.
  2:{ eexists _, _, _. split; [reflexivity|]. split; [done|]. intros _. split_and!; auto; lia. }
  destruct a as [addr|].
  2:{ eexists _, _, _. split; [reflexivity|]. split; [done|]. intros _. split_and!; auto; lia. }
  case_bool_decide; simpl.
  { eexists _, _, _. split; [reflexivity|]. split; [done|]. intros _. split_and!; auto; lia. }
  unfold format_cookie_reply. destruct (bool_decide _); simpl.
  { eexists _, _, _. split; [reflexivity|]. split; [done|]. intros _. split_and!; auto; lia. }
  destruct (xchacha_seal _ _ _ _); simpl.
  eexists _, _, _. split; [reflexivity|]. split; [done|]. intros _. split_and!; auto; lia.
Qed.

Lemma verify_other r a src n w :
  (forall p, parse_incoming_packet src = Ret (Ok p) -> handshake_sender p = None) ->
  exists res, verify_packet r a src n w = Ret (res, r, w)
  /\ (forall p, res = Ok p <-> parse_incoming_packet src = Ret (Ok p)).
Proof.
  intros Hs. unfold verify_packet. rewrite parse_is_spec in *. simpl.
  destruct (parse_spec src) as [p|e].
  - rewrite (Hs p) by done. exists (Ok p). split; [done|]. intros q. split; intros; congruence.
  - eexists. split; [done|]. intros q. split; intros; congruence.
Qed.

(** What [verify_packet] may return. *)
Lemma verify_result r a src n w :
  exists res r' w', verify_packet r a src n w = Ret (res, r', w') /\ (ticks w <= ticks w')%nat
  /\ match res with
     | Ok p => parse_incoming_packet src = Ret (Ok p)
     | Err (WriteToNetwork c) => length c = COOKIE_REPLY_SZ
     | Err (TunnErr _) => True
     | Err _ => False
     end.
Proof.
  unfold verify_packet. destruct (parse_incoming_packet src) as [[p|e]|] eqn:Hp.
  2: by eexists _, _, _.
  2: by rewrite parse_is_spec in Hp.
  simpl. destruct (handshake_sender p) as [i|] eqn:Hi; [|by eexists _, _, _].
  rewrite bool_decide_eq_true_2 by (by eapply parsed_handshake_length). simpl.
  destruct (bool_decide _); simpl; [|by eexists _, _, _].
  destruct (limit r <=? count r); simpl; [|by eexists _, _, _].
  destruct a as [addr|]; [|by eexists _, _, _].
  destruct (bool_decide _); simpl; [eexists _, _, _; split; [reflexivity|]; simpl; split; [lia|done]|].
  unfold format_cookie_reply.
  destruct (bool_decide _); simpl; [eexists _, _, _; split; [reflexivity|]; simpl; split; [lia|done]|].
  match goal with |- context [xchacha_seal ?k ?n ?a ?d] =>
    destruct (length_xchacha_seal k n a d) as [Hl1 Hl2]; destruct (xchacha_seal k n a d) end.
  simpl in *. eexists _, _, _. split; [reflexivity|]. simpl. split; [lia|].
  rewrite !length_app, !length_to_le, Hl1, Hl2. unfold b2s_mac_24, b2s_keyed_mac_16_2.
  by rewrite !length_mac.
Qed.

(** Verify datagrams one after the other; count the handshake messages admitted
    without a valid cookie. *)
Definition admits_handshake (res : result TunnResult Packet) : bool :=
  match res with
  | Ok p => match handshake_sender p with Some _ => true | None => false end
  | Err _ => false
  end.

Fixpoint cookieless (r : RateLimiter) (n : nat) (w : World) (ds : list (option IpAddr * bytes)) : nat :=
  match ds with
  | [] => 0
  | (a, src) :: ds =>
      match verify_packet r a src n w with
      | Ret (res, r', w') =>
          (if admits_handshake res && negb (mac2_valid r a src w) then 1 else 0)
          + cookieless r' n w' ds
      | Panic => 0
      end
  end.

(** One datagram: it is admitted without a cookie only below the limit. *)
Lemma verify_counts r a src n w :
  exists res r' w', verify_packet r a src n w = Ret (res, r', w') /\ limit r' = limit r
  /\ (r' = r /\ admits_handshake res = false
      \/ count r' = add64 (count r) 1
         /\ (limit r <= count r -> admits_handshake res && negb (mac2_valid r a src w) = false)).
Proof.
  destruct (parse_incoming_packet src) as [[p|e]|] eqn:Hp.
  2,3: destruct (verify_other r a src n w) as (res & -> & Hres); [congruence|];
    eexists _, _, _; split; [reflexivity|]; split; [done|left; split; [done|]];
    destruct res as [q|]; [|done]; pose proof (proj1 (Hres q) eq_refl); congruence.
  destruct (handshake_sender p) as [i|] eqn:Hi.
  - destruct (verify_handshake r a src n w p i Hp Hi) as (res & r' & w' & Hv & Hbad & Hgood).
    exists res, r', w'. split; [done|]. destruct (mac1_valid r src).
    + destruct (Hgood eq_refl) as (Hc & Hl & _ & _ & _ & _ & _ & _ & Hload). split; [done|right].
      split; [done|]. intros Hlim. specialize (Hload Hlim).
      destruct (mac2_valid r a src w); simpl; [apply andb_false_r|rewrite andb_true_r].
      destruct a; subst res; [|done]. by destruct (fst _).
    + destruct (Hbad eq_refl) as [-> ->]. split; [done|by left].
  - destruct (verify_other r a src n w) as (res & Hv & Hres); [intros q Hq; congruence|].
    exists res, r, w. split; [done|]. split; [done|]. left. split; [done|].
    destruct res as [q|]; [|done]. pose proof (proj1 (Hres q) eq_refl).
    assert (q = p) as -> by congruence. simpl. by rewrite Hi.
Qed.

Lemma cookieless_bound ds r n w :
  0 <= count r -> count r + Z.of_nat (length ds) < 2 ^ 64 ->
  Z.of_nat (cookieless r n w ds) <= Z.max 0 (limit r - count r).
Proof.
  revert r w. induction ds as [|[a src] ds IH]; intros r w H0 Hlt; simpl in *; [lia|].
  destruct (verify_counts r a src n w) as (res & r' & w' & -> & Hl & [[-> ->]|[Hc Hload]]).
  - simpl. apply IH; lia.
  - rewrite add64_small in Hc by lia. pose proof (IH r' w' ltac:(lia) ltac:(lia)) as Hih.
    rewrite Hl, Hc in Hih. destruct (Z.le_gt_cases (limit r) (count r)) as [Hge|Hlt'].
    + rewrite Hload by done. simpl. lia.
    + destruct (_ && _); lia.
Qed.

(** MACs written by a handshake are the ones a limiter of the peer checks. *)
Lemma append_macs_valid r h i msg dg h' a w :
  append_mac1_and_mac2 h i msg = (dg, h') ->
  sending_mac1_key (params h) = mac1_key r ->
  mac1_valid r dg = true
  /\ last_mac1 (cookies h') = Some (dg_mac1 dg) /\ cookies_index (cookies h') = i
  /\ params h' = params h
  /\ (write_cookie (cookies h) = Some (fst (current_cookie r a w)) ->
      mac2_valid r (Some a) dg w = true).
Proof.
  intros [= <- <-] Hk.
  set (mac1 := b2s_keyed_mac_16 (sending_mac1_key (params h)) msg).
  set (mac2 := match write_cookie (cookies h) with Some c => _ | None => _ end).
  assert (length mac1 = 16%nat) as H1 by apply length_mac.
  assert (length mac2 = 16%nat) as H2.
  { subst mac2. destruct (write_cookie _); [apply length_mac|apply length_zeros]. }
  destruct (dg_split msg mac1 mac2 H1 H2) as (Hm & Hm1 & Hm2).
  unfold mac1_valid, mac2_valid. rewrite Hm, Hm1, Hm2. split_and!; try done.
  - apply bool_decide_eq_true_2. by rewrite <- Hk.
  - intros Hc. apply bool_decide_eq_true_2. subst mac2. by rewrite Hc.
Qed.

(** The cookie reply is readable by the party whose MAC it answers. *)
Lemma cookie_reply_readable r h i cookie mac1 n :
  u32_range i -> length cookie = 16%nat -> (COOKIE_REPLY_SZ <= n)%nat ->
  cookie_key r = b2s_hash LABEL_COOKIE (peer_static_public (params h)) ->
  last_mac1 (cookies h) = Some mac1 -> cookies_index (cookies h) = i ->
  exists reply c h', fst (format_cookie_reply r i cookie mac1 n) = Ok reply
  /\ parse_incoming_packet reply = Ret (Ok (PPacketCookieReply c))
  /\ receive_cookie_reply h c = (Ok tt, h')
  /\ write_cookie (cookies h') = Some cookie /\ params h' = params h.
Proof.
  intros Hi Hc Hn Hk Hm Hidx. unfold format_cookie_reply. rewrite bool_decide_eq_false_2 by lia.
  cbn [limiter_nonce]. set (nonce := b2s_mac_24 _ _).
  cbn [cookie_key with_nonce_ctr].
  destruct (length_xchacha_seal (cookie_key r) nonce mac1 cookie) as [Hl1 Hl2].
  pose proof (xchacha_open_seal (cookie_key r) nonce mac1 cookie) as Ho.
  destruct (xchacha_seal _ _ _ _) as [ct tag]. simpl in *.
  eexists _, (mkCookieReply i nonce (ct ++ tag)), _. split; [reflexivity|]. split.
  - change (to_le 4 COOKIE_REPLY ++ to_le 4 i ++ nonce ++ ct ++ tag)
      with (wire (PPacketCookieReply (mkCookieReply i nonce (ct ++ tag)))).
    rewrite parse_is_spec, <- (app_nil_r (wire _)), parse_spec_wire; [done| |done].
    cbn [wf_packet cookie_receiver_idx cookie_nonce encrypted_cookie].
    split_and!; [done|apply length_mac|]. rewrite length_app. lia.
  - unfold receive_cookie_reply. rewrite Hm. simpl. rewrite Hidx, Z.eqb_refl, <- Hk. simpl.
    rewrite Ho, bool_decide_eq_true_2 by done. done.
Qed.

(** ** Properties *)

(** C27. Verification never panics and admits a handshake message only if its first
    MAC is right and either the limiter is below its limit or the second MAC
    proves the current cookie of the source address; data packets pass
    untouched. *)
Theorem verify_packet_sound (r : RateLimiter) (a : option IpAddr) (src : bytes) (n : nat) (w : World) :
  exists res r' w', verify_packet r a src n w = Ret (res, r', w')
  /\ forall p, res = Ok p ->
     parse_incoming_packet src = Ret (Ok p)
     /\ match handshake_sender p with
        | None => r' = r /\ w' = w
        | Some _ => mac1_valid r src = true
                    /\ (count r < limit r \/ mac2_valid r a src w = true)
        end.
Proof.
  destruct (parse_incoming_packet src) as [[p|e]|] eqn:Hp.
  2,3: destruct (verify_other r a src n w) as (res & -> & Hres); [congruence|];
    eexists _, _, _; split; [reflexivity|]; intros q Hq%Hres; congruence.
  destruct (handshake_sender p) as [i|] eqn:Hi.
  - destruct (verify_handshake r a src n w p i Hp Hi) as (res & r' & w' & -> & Hbad & Hgood).
    eexists _, _, _. split; [reflexivity|]. intros q Hq. destruct (mac1_valid r src).
    + destruct (Hgood eq_refl) as (_ & _ & _ & _ & _ & _ & _ & Hfree & Hload).
      destruct (Z.le_gt_cases (limit r) (count r)) as [Hge|Hlt].
      * specialize (Hload Hge). destruct (mac2_valid r a src w).
        -- assert (q = p) as -> by congruence. rewrite Hi. auto.
        -- destruct a; subst res; [|done]. by destruct (fst _).
      * assert (q = p) as -> by (rewrite Hfree in Hq by lia; congruence). rewrite Hi. auto.
    + destruct (Hbad eq_refl) as [-> _]. done.
  - destruct (verify_other r a src n w) as (res & -> & Hres); [intros q Hq; congruence|].
    eexists _, _, _. split; [reflexivity|]. intros q Hq%Hres.
    assert (q = p) as -> by congruence. by rewrite Hi.
Qed.

(** The load is bounded: between two resets, however many datagrams arrive and
    wherever they claim to come from, the handshake messages admitted without a
    valid cookie number at most what is left of the limit. *)
Theorem verify_packet_load_bound (r : RateLimiter) (n : nat) (w : World)
    (ds : list (option IpAddr * bytes)) :
  0 <= count r -> count r + Z.of_nat (length ds) < 2 ^ 64 ->
  Z.of_nat (cookieless r n w ds) <= Z.max 0 (limit r - count r).
Proof. apply cookieless_bound. Qed.

(** C28. The cookie exchange completes: when a limiter under load answers a
    handshake message with a cookie reply, the sender can parse and decrypt it,
    and from then on its handshake messages are admitted from that address, under
    any load, for as long as the cookie is current. *)
Theorem cookie_exchange (r : RateLimiter) (h h1 : Handshake) (i : Z) (msg dg : bytes) (p : Packet)
    (addr : IpAddr) (n : nat) (w : World) :
  sending_mac1_key (params h) = mac1_key r ->
  cookie_key r = b2s_hash LABEL_COOKIE (peer_static_public (params h)) ->
  append_mac1_and_mac2 h i msg = (dg, h1) -> u32_range i ->
  parse_incoming_packet dg = Ret (Ok p) -> handshake_sender p = Some i ->
  limit r <= count r -> mac2_valid r (Some addr) dg w = false -> (COOKIE_REPLY_SZ <= n)%nat ->
  exists reply r1 w1 c h2,
    verify_packet r (Some addr) dg n w = Ret (Err (WriteToNetwork reply), r1, w1)
    /\ parse_incoming_packet reply = Ret (Ok (PPacketCookieReply c))
    /\ receive_cookie_reply h1 c = (Ok tt, h2)
    /\ forall i' msg' dg' h3 p' w2 n',
         append_mac1_and_mac2 h2 i' msg' = (dg', h3) ->
         parse_incoming_packet dg' = Ret (Ok p') -> handshake_sender p' = Some i' ->
         fst (current_cookie r1 addr w2) = fst (current_cookie r addr w) ->
         exists r2 w3, verify_packet r1 (Some addr) dg' n' w2 = Ret (Ok p', r2, w3).
Proof.
  intros Hk Hck Hdg Hi Hp Hs Hload Hm2 Hn.
  destruct (append_macs_valid r h i msg dg h1 addr w Hdg Hk) as (Hm1 & Hlast & Hidx & Hpar & _).
  destruct (verify_handshake r (Some addr) dg n w p i Hp Hs) as (res & r1 & w1 & Hv & _ & Hgood).
  destruct (Hgood Hm1) as (_ & _ & Hmk & _ & _ & _ & _ & _ & Hres).
  specialize (Hres Hload). rewrite Hm2 in Hres.
  destruct (cookie_reply_readable r h1 i (fst (current_cookie r addr w)) (dg_mac1 dg) n)
    as (reply & c & h2 & Hf & Hpc & Hrc & Hw & Hp2); [done|apply length_mac|done|by rewrite Hpar|done..|].
  rewrite Hf in Hres. subst res. exists reply, r1, w1, c, h2. split_and!; try done.
  intros i' msg' dg' h3 p' w2 n' Hdg' Hp' Hs' Hcur.
  destruct (append_macs_valid r1 h2 i' msg' dg' h3 addr w2 Hdg') as (Hm1' & _ & _ & _ & Hm2');
    [by rewrite Hp2, Hpar, Hmk|].
  destruct (verify_handshake r1 (Some addr) dg' n' w2 p' i' Hp' Hs') as (res & r2 & w3 & Hv' & _ & Hgood').
  destruct (Hgood' Hm1') as (_ & _ & _ & _ & _ & _ & _ & Hfree & Hload').
  rewrite Hm2' in Hload' by (by rewrite Hw, Hcur).
  exists r2, w3. rewrite Hv'. destruct (Z.le_gt_cases (limit r1) (count r1));
    [by rewrite Hload'|by rewrite Hfree by lia].
Qed.

End LimiterLemmas.

(** ** Examples *)

#[local] Existing Instance toy_crypto.
#[local] Existing Instance toy_laws.
#[local] Existing Instance example_env.

(** The limiter of the party with secret [x04], with a limit of zero. *)
Definition example_limiter : RateLimiter :=
  fst (rate_limiter_new (x25519_public (example_secret x04)) 0 (mkWorld 0 0)).

Lemma verify_packet_load_bound_witness :
  Z.of_nat (cookieless example_limiter 64 (mkWorld 2 0) [(None, zeros 148)])
  <= Z.max 0 (limit example_limiter - count example_limiter).
Proof. apply verify_packet_load_bound; ground. Defined.

(** An initiation message without a valid cookie. *)
Definition example_message : bytes :=
  wire (PHandshakeInit (mkInit 257 (zeros 32) (zeros 48) (zeros 28))).

Definition example_datagram : bytes * Handshake :=
  append_mac1_and_mac2 (example_handshake x03 x04 256) 257 example_message.

Lemma cookie_exchange_witness :
  exists reply r1 w1,
    verify_packet example_limiter (Some (V4 [x0a; x00; x00; x01])) (fst example_datagram) 64 (mkWorld 2 0)
    = Ret (Err (WriteToNetwork reply), r1, w1).
Proof.
  destruct (cookie_exchange example_limiter (example_handshake x03 x04 256) (snd example_datagram) 257
    example_message (fst example_datagram) (PHandshakeInit (mkInit 257 (zeros 32) (zeros 48) (zeros 28)))
    (V4 [x0a; x00; x00; x01]) 64 (mkWorld 2 0)) as (reply & r1 & w1 & _ & _ & Hv & _).
  all: [> vm_compute; reflexivity | vm_compute; reflexivity | vm_compute; reflexivity | ground
        | vm_compute; reflexivity | reflexivity | ground | vm_compute; reflexivity | ground
        | exists reply, r1, w1; exact Hv].
Defined.
