(* ===== verification/Tunnel.v ===== *)
(** * The tunnel ([noise/mod.rs], [noise/timers.rs])

    [Timers] and [Tunn] with every operation that changes them: encapsulation,
    decapsulation of the four message types, the packet queue, session selection
    and the timer state machine [update_timers]. Operations return the
    [TunnResult] for the caller with the new tunnel and world; [Panic] is a
    reachable [panic!], an out-of-range slice or a negative [Duration]. *)

From Stdlib Require Import ZArith Lia.
From stdpp Require Import base numbers list option relations.
From S2P Require Import Prelude Errors Clock ReplayWindow Packet Crypto Session Handshake RateLimiter.

(** ** Constants *)

Definition PEER_HANDSHAKE_RATE_LIMIT : Z := 10.
Definition MAX_QUEUE_DEPTH : nat := 256.
Definition N_SESSIONS : Z := 8.

Definition REKEY_AFTER_TIME : Duration := from_secs 120.
Definition REJECT_AFTER_TIME : Duration := from_secs 180.
Definition REKEY_ATTEMPT_TIME : Duration := from_secs 90.
Definition REKEY_TIMEOUT : Duration := from_secs 5.
Definition KEEPALIVE_TIMEOUT : Duration := from_secs 10.
Definition COOKIE_EXPIRATION_TIME : Duration := from_secs 120.

(** ** Timers *)

Inductive TimerName :=
| TimeCurrent
| TimeSessionEstablished
| TimeLastHandshakeStarted
| TimeLastPacketReceived
| TimeLastPacketSent
| TimeLastDataPacketReceived
| TimeLastDataPacketSent
| TimeCookieReceived
| TimePersistentKeepalive
| Top.

(** [timer_name as usize] *)
Definition timer_index (n : TimerName) : nat :=
  match n with
  | TimeCurrent => 0
  | TimeSessionEstablished => 1
  | TimeLastHandshakeStarted => 2
  | TimeLastPacketReceived => 3
  | TimeLastPacketSent => 4
  | TimeLastDataPacketReceived => 5
  | TimeLastDataPacketSent => 6
  | TimeCookieReceived => 7
  | TimePersistentKeepalive => 8
  | Top => 9
  end.

Record Timers := mkTimers {
  is_initiator : bool;
  time_started : Instant;
  timers : list Duration;
  session_timers : list Duration;
  want_keepalive : bool;
  want_handshake : bool;
  persistent_keepalive_secs : Z;
  should_reset_rr : bool;
}.

Definition with_timers (l : list Duration) (t : Timers) : Timers :=
  mkTimers (is_initiator t) (time_started t) l (session_timers t) (want_keepalive t)
    (want_handshake t) (persistent_keepalive_secs t) (should_reset_rr t).
Definition with_session_timers (l : list Duration) (t : Timers) : Timers :=
  mkTimers (is_initiator t) (time_started t) (timers t) l (want_keepalive t)
    (want_handshake t) (persistent_keepalive_secs t) (should_reset_rr t).
Definition with_wants (keepalive handshake : bool) (t : Timers) : Timers :=
  mkTimers (is_initiator t) (time_started t) (timers t) (session_timers t) keepalive
    handshake (persistent_keepalive_secs t) (should_reset_rr t).
Definition with_initiator (b : bool) (t : Timers) : Timers :=
  mkTimers b (time_started t) (timers t) (session_timers t) (want_keepalive t)
    (want_handshake t) (persistent_keepalive_secs t) (should_reset_rr t).
Definition with_reset_rr (b : bool) (t : Timers) : Timers :=
  mkTimers (is_initiator t) (time_started t) (timers t) (session_timers t) (want_keepalive t)
    (want_handshake t) (persistent_keepalive_secs t) b.

(** [self.timers[name]] and its assignment; the index is in range for every name
    but [Top], which the source never uses as an index. *)
Definition timer_get (t : Timers) (n : TimerName) : Duration := timers t !!! timer_index n.
Definition timer_set (n : TimerName) (d : Duration) (t : Timers) : Timers :=
  with_timers (<[timer_index n := d]> (timers t)) t.

Section TimerOps.
Context `{E : Env}.

(** [Timers::new] *)
Definition timers_new (persistent_keepalive : option Z) (reset_rr : bool) (w : World)
    : Timers * World :=
  let '(now, w) := instant_now w in
  (mkTimers false now (replicate (timer_index Top) 0) (replicate (Z.to_nat N_SESSIONS) 0)
     false false (default 0 persistent_keepalive) reset_rr, w).

(** [Timers::clear] *)
Definition timers_clear (t : Timers) (w : World) : Timers * World :=
  let '(i, w) := instant_now w in
  let now := duration_since i (time_started t) in
  (with_wants false false (with_timers ((fun _ : Duration => now) <$> timers t) t), w).

End TimerOps.

(** ** Tunnel state *)

Record Tunn := mkTunn {
  handshake : Handshake;
  sessions : list (option Session);
  current : Z;
  packet_queue : list bytes;
  t_timers : Timers;
  tx_bytes : Z;
  rx_bytes : Z;
  rate_limiter : RateLimiter;
}.

Definition with_handshake (h : Handshake) (t : Tunn) : Tunn :=
  mkTunn h (sessions t) (current t) (packet_queue t) (t_timers t) (tx_bytes t) (rx_bytes t)
    (rate_limiter t).
Definition with_sessions (l : list (option Session)) (t : Tunn) : Tunn :=
  mkTunn (handshake t) l (current t) (packet_queue t) (t_timers t) (tx_bytes t) (rx_bytes t)
    (rate_limiter t).
Definition with_current (i : Z) (t : Tunn) : Tunn :=
  mkTunn (handshake t) (sessions t) i (packet_queue t) (t_timers t) (tx_bytes t) (rx_bytes t)
    (rate_limiter t).
Definition with_queue (q : list bytes) (t : Tunn) : Tunn :=
  mkTunn (handshake t) (sessions t) (current t) q (t_timers t) (tx_bytes t) (rx_bytes t)
    (rate_limiter t).
Definition with_t_timers (ti : Timers) (t : Tunn) : Tunn :=
  mkTunn (handshake t) (sessions t) (current t) (packet_queue t) ti (tx_bytes t) (rx_bytes t)
    (rate_limiter t).
Definition with_bytes (tx rx : Z) (t : Tunn) : Tunn :=
  mkTunn (handshake t) (sessions t) (current t) (packet_queue t) (t_timers t) tx rx
    (rate_limiter t).
Definition with_limiter (r : RateLimiter) (t : Tunn) : Tunn :=
  mkTunn (handshake t) (sessions t) (current t) (packet_queue t) (t_timers t) (tx_bytes t)
    (rx_bytes t) r.

(** [idx % N_SESSIONS], always a valid index of [sessions]. *)
Definition slot (idx : Z) : nat := Z.to_nat (idx mod N_SESSIONS).

Definition session_at (t : Tunn) (idx : Z) : option Session := sessions t !!! slot idx.
Definition store_session (idx : Z) (s : option Session) (t : Tunn) : Tunn :=
  with_sessions (<[slot idx := s]> (sessions t)) t.

(** ** Timer ticks *)

Definition timer_tick (name : TimerName) (t : Tunn) : Tunn :=
  let ti := t_timers t in
  let ti := match name with
            | TimeLastPacketReceived => with_wants true false ti
            | TimeLastPacketSent => with_wants false true ti
            | _ => ti
            end in
  with_t_timers (timer_set name (timer_get ti TimeCurrent) ti) t.

Definition timer_tick_session_established (is_init : bool) (session_idx : Z) (t : Tunn) : Tunn :=
  let t := timer_tick TimeSessionEstablished t in
  let ti := t_timers t in
  let ti := with_session_timers
              (<[slot session_idx := timer_get ti TimeCurrent]> (session_timers ti)) ti in
  with_t_timers (with_initiator is_init ti) t.

(** ** The packet queue *)

Definition queue_packet (packet : bytes) (t : Tunn) : Tunn :=
  if bool_decide (length (packet_queue t) < MAX_QUEUE_DEPTH)%nat
  then with_queue (packet_queue t ++ [packet]) t else t.

Definition requeue_packet (packet : bytes) (t : Tunn) : Tunn :=
  if bool_decide (length (packet_queue t) < MAX_QUEUE_DEPTH)%nat
  then with_queue (packet :: packet_queue t) t else t.

Definition dequeue_packet (t : Tunn) : option bytes * Tunn :=
  match packet_queue t with
  | [] => (None, t)
  | p :: q => (Some p, with_queue q t)
  end.

(** Update the index of the session in use. *)
Definition set_current_session (new_idx : Z) (t : Tunn) : Tunn :=
  let cur_idx := current t in
  if cur_idx =? new_idx then t
  else if match session_at t cur_idx with None => true | Some _ => false end
          || (session_timers (t_timers t) !!! slot cur_idx
              <=? session_timers (t_timers t) !!! slot new_idx)
  then with_current new_idx t
  else t.

(** ** Decapsulated packets *)

(** The length field and source address of an IP packet, when its header is
    complete. *)
Definition ip_header (packet : bytes) : outcome (option (nat * IpAddr)) :=
  let! b := index packet 0 in
  let version := Z.shiftr (u8 b) 4 in
  if (version =? 4) && bool_decide (IPV4_MIN_HEADER_SIZE <= length packet)%nat then
    let! len_bytes := slice packet IPV4_LEN_OFF (IPV4_LEN_OFF + IP_LEN_SZ) in
    let! addr := slice packet IPV4_SRC_IP_OFF (IPV4_SRC_IP_OFF + IPV4_IP_SZ) in
    Ret (Some (Z.to_nat (from_be len_bytes), V4 addr))
  else if (version =? 6) && bool_decide (IPV6_MIN_HEADER_SIZE <= length packet)%nat then
    let! len_bytes := slice packet IPV6_LEN_OFF (IPV6_LEN_OFF + IP_LEN_SZ) in
    let! addr := slice packet IPV6_SRC_IP_OFF (IPV6_SRC_IP_OFF + IPV6_IP_SZ) in
    Ret (Some ((Z.to_nat (from_be len_bytes) + IPV6_MIN_HEADER_SIZE)%nat, V6 addr))
  else Ret None.

Definition validate_decapsulated_packet (packet : bytes) (t : Tunn) : outcome (TunnResult * Tunn) :=
  if bool_decide (length packet = 0%nat) then Ret (Done, t)
  else
    let! hd := ip_header packet in
    match hd with
    | None => Ret (TunnErr InvalidPacket, t)
    | Some (computed_len, src_ip_address) =>
        if bool_decide (length packet < computed_len)%nat then Ret (TunnErr InvalidPacket, t)
        else
          let t := timer_tick TimeLastDataPacketReceived t in
          let t := with_bytes (tx_bytes t) (add64 (rx_bytes t) (Z.of_nat computed_len)) t in
          let! p := slice packet 0 computed_len in
          match src_ip_address with
          | V4 addr => Ret (WriteToTunnelV4 p addr, t)
          | V6 addr => Ret (WriteToTunnelV6 p addr, t)
          end
    end.

(** ** Operations *)

Section TunnOps.
Context `{C : Crypto} `{E : Env}.

(** [Tunn::new]; [index << 8] keeps the low 24 bits of the index. The limiter is
    the one given, or a fresh one of the tunnel's own. *)
Definition tunn_new (static_private peer_static_public : bytes) (preshared_key : option bytes)
    (persistent_keepalive : option Z) (idx : Z) (rl : option RateLimiter) (w : World)
    : Tunn * World :=
  let static_public := x25519_public static_private in
  let '(h, w) := handshake_new static_private static_public peer_static_public
                   (wrap 32 (Z.shiftl idx 8)) preshared_key w in
  let '(ti, w) := timers_new persistent_keepalive
                    (match rl with None => true | Some _ => false end) w in
  let '(r, w) := match rl with
                 | Some r => (r, w)
                 | None => rate_limiter_new static_public PEER_HANDSHAKE_RATE_LIMIT w
                 end in
  (mkTunn h (replicate (Z.to_nat N_SESSIONS) None) 0 [] ti 0 0 r, w).

(** [Tunn::set_static_private] *)
Definition tunn_set_static_private (private_key public_key : bytes) (rl : option RateLimiter)
    (t : Tunn) (w : World) : outcome (Tunn * World) :=
  let t := with_t_timers (with_reset_rr (match rl with None => true | Some _ => false end)
                            (t_timers t)) t in
  let '(r, w) := match rl with
                 | Some r => (r, w)
                 | None => rate_limiter_new public_key PEER_HANDSHAKE_RATE_LIMIT w
                 end in
  let t := with_limiter r t in
  let! h := set_static_private (handshake t) private_key public_key in
  let t := with_handshake h t in
  Ret (with_sessions ((fun _ : option Session => None) <$> sessions t) t, w).

Definition tunn_is_expired (t : Tunn) : bool := is_expired (handshake t).

(** [if self.handshake.is_expired() { self.timers.clear() }] *)
Definition clear_if_expired (t : Tunn) (w : World) : Tunn * World :=
  if is_expired (handshake t)
  then let '(ti, w) := timers_clear (t_timers t) w in (with_t_timers ti t, w)
  else (t, w).

Definition tunn_format_handshake_initiation (dst_len : nat) (force_resend : bool) (t : Tunn) (w : World)
    : outcome (TunnResult * Tunn * World) :=
  if is_in_progress (handshake t) && negb force_resend then Ret (Done, t, w)
  else
    let '(t, w) := clear_if_expired t w in
    let starting_new_handshake := negb (is_in_progress (handshake t)) in
    let! (r, h, w) := format_handshake_initiation (handshake t) dst_len w in
    let t := with_handshake h t in
    match r with
    | Ok packet =>
        let t := if starting_new_handshake then timer_tick TimeLastHandshakeStarted t else t in
        let t := timer_tick TimeLastPacketSent t in
        Ret (WriteToNetwork packet, t, w)
    | Err e => Ret (TunnErr e, t, w)
    end.

Definition encapsulate (src : bytes) (dst_len : nat) (t : Tunn) (w : World)
    : outcome (TunnResult * Tunn * World) :=
  match session_at t (current t) with
  | Some session =>
      let! (packet, session) := format_packet_data session src dst_len in
      let t := store_session (current t) (Some session) t in
      let t := timer_tick TimeLastPacketSent t in
      let t := if bool_decide (length src = 0%nat) then t
               else timer_tick TimeLastDataPacketSent t in
      let t := with_bytes (add64 (tx_bytes t) (Z.of_nat (length src))) (rx_bytes t) t in
      Ret (WriteToNetwork packet, t, w)
  | None =>
      let t := queue_packet src t in
      tunn_format_handshake_initiation dst_len false t w
  end.

Definition send_queued_packet (dst_len : nat) (t : Tunn) (w : World)
    : outcome (TunnResult * Tunn * World) :=
  match dequeue_packet t with
  | (Some packet, t) =>
      let! (r, t, w) := encapsulate packet dst_len t w in
      match r with
      | TunnErr _ => Ret (Done, requeue_packet packet t, w)
      | _ => Ret (r, t, w)
      end
  | (None, t) => Ret (Done, t, w)
  end.

Definition handle_handshake_init (p : HandshakeInit) (dst_len : nat) (t : Tunn) (w : World)
    : outcome (result WireGuardError TunnResult * Tunn * World) :=
  let! (r, h, w) := receive_handshake_initialization (handshake t) p dst_len w in
  let t := with_handshake h t in
  match r with
  | Err e => Ret (Err e, t, w)
  | Ok (packet, session) =>
      let idx := local_index session in
      let t := store_session idx (Some session) t in
      let t := timer_tick TimeLastPacketReceived t in
      let t := timer_tick TimeLastPacketSent t in
      let t := timer_tick_session_established false idx t in
      Ret (Ok (WriteToNetwork packet), t, w)
  end.

Definition handle_handshake_response (p : HandshakeResponse) (dst_len : nat) (t : Tunn) (w : World)
    : outcome (result WireGuardError TunnResult * Tunn * World) :=
  let! (r, h, w) := receive_handshake_response (handshake t) p w in
  let t := with_handshake h t in
  match r with
  | Err e => Ret (Err e, t, w)
  | Ok session =>
      let! (keepalive_packet, session) := format_packet_data session [] dst_len in
      let l_idx := local_index session in
      let idx := l_idx mod N_SESSIONS in
      let t := store_session l_idx (Some session) t in
      let t := timer_tick TimeLastPacketReceived t in
      let t := timer_tick_session_established true idx t in
      let t := set_current_session l_idx t in
      Ret (Ok (WriteToNetwork keepalive_packet), t, w)
  end.

Definition handle_cookie_reply (p : PacketCookieReply) (t : Tunn)
    : result WireGuardError TunnResult * Tunn :=
  let '(r, h) := receive_cookie_reply (handshake t) p in
  let t := with_handshake h t in
  match r with
  | Err e => (Err e, t)
  | Ok _ =>
      let t := timer_tick TimeLastPacketReceived t in
      let t := timer_tick TimeCookieReceived t in
      (Ok Done, t)
  end.

Definition handle_data (packet : PacketData) (dst_len : nat) (t : Tunn)
    : outcome (result WireGuardError TunnResult * Tunn) :=
  let r_idx := data_receiver_idx packet in
  match session_at t r_idx with
  | None => Ret (Err NoCurrentSession, t)
  | Some session =>
      let! (r, session) := receive_packet_data session packet dst_len in
      let t := store_session r_idx (Some session) t in
      match r with
      | Err e => Ret (Err e, t)
      | Ok decapsulated_packet =>
          let t := set_current_session r_idx t in
          let t := timer_tick TimeLastPacketReceived t in
          let! (res, t) := validate_decapsulated_packet decapsulated_packet t in
          Ret (Ok res, t)
      end
  end.

(** [unwrap_or_else(TunnResult::from)] *)
Definition flatten (r : result WireGuardError TunnResult) : TunnResult :=
  match r with Ok r => r | Err e => TunnErr e end.

Definition handle_verified_packet (packet : Packet) (dst_len : nat) (t : Tunn) (w : World)
    : outcome (TunnResult * Tunn * World) :=
  match packet with
  | PHandshakeInit p =>
      let! (r, t, w) := handle_handshake_init p dst_len t w in Ret (flatten r, t, w)
  | PHandshakeResponse p =>
      let! (r, t, w) := handle_handshake_response p dst_len t w in Ret (flatten r, t, w)
  | PPacketCookieReply p =>
      let '(r, t) := handle_cookie_reply p t in Ret (flatten r, t, w)
  | PPacketData p =>
      let! (r, t) := handle_data p dst_len t in Ret (flatten r, t, w)
  end.

Definition decapsulate (src_addr : option IpAddr) (datagram : bytes) (dst_len : nat) (t : Tunn) (w : World)
    : outcome (TunnResult * Tunn * World) :=
  if bool_decide (length datagram = 0%nat) then send_queued_packet dst_len t w
  else
    let! (r, rl, w) := verify_packet (rate_limiter t) src_addr datagram COOKIE_REPLY_SZ w in
    let t := with_limiter rl t in
    match r with
    | Ok packet => handle_verified_packet packet dst_len t w
    | Err (WriteToNetwork cookie) =>
        let! _ := require (bool_decide (length cookie <= dst_len)%nat) in
        Ret (WriteToNetwork cookie, t, w)
    | Err (TunnErr e) => Ret (TunnErr e, t, w)
    | Err _ => Panic
    end.

(** ** Timers *)

Definition clear_all (t : Tunn) (w : World) : Tunn * World :=
  let t := with_sessions ((fun _ : option Session => None) <$> sessions t) t in
  let t := with_queue [] t in
  let '(ti, w) := timers_clear (t_timers t) w in
  (with_t_timers ti t, w).

(** The loop of [update_session_timers] over the slots. *)
Fixpoint expire_slots (time_now : Duration) (ss : list (option Session)) (ts : list Duration)
    : outcome (list (option Session) * list Duration) :=
  match ss, ts with
  | s :: ss, t :: ts =>
      let! age := duration_sub time_now t in
      let! (ss, ts) := expire_slots time_now ss ts in
      if REJECT_AFTER_TIME <? age then Ret (None :: ss, time_now :: ts) else Ret (s :: ss, t :: ts)
  | _, _ => Ret (ss, ts)
  end.

Definition update_session_timers (time_now : Duration) (t : Tunn) : outcome Tunn :=
  let! (ss, ts) := expire_slots time_now (sessions t) (session_timers (t_timers t)) in
  Ret (with_t_timers (with_session_timers ts (t_timers t)) (with_sessions ss t)).

(** [now - t >= d] *)
Definition elapsed_at_least (now t d : Duration) : outcome bool :=
  let! age := duration_sub now t in Ret (d <=? age).

(** [a && now - t >= d], which evaluates the subtraction only if [a]. *)
Definition and_elapsed (a : bool) (now t d : Duration) : outcome bool :=
  if a then elapsed_at_least now t d else Ret false.

(** The branch of [update_timers] without a pending initiation: whether a
    handshake and whether a keepalive is required. *)
Definition idle_timers (now : Duration) (t : Tunn) : outcome (bool * bool * Tunn) :=
  let ti := t_timers t in
  let session_established := timer_get ti TimeSessionEstablished in
  let aut_packet_received := timer_get ti TimeLastPacketReceived in
  let aut_packet_sent := timer_get ti TimeLastPacketSent in
  let data_packet_received := timer_get ti TimeLastDataPacketReceived in
  let data_packet_sent := timer_get ti TimeLastDataPacketSent in
  let! rekey_on_send :=
    and_elapsed (is_initiator ti && (session_established <? data_packet_sent))
      now session_established REKEY_AFTER_TIME in
  let! rekey_on_receive :=
    and_elapsed (is_initiator ti && (session_established <? data_packet_received))
      now session_established (REJECT_AFTER_TIME - KEEPALIVE_TIMEOUT - REKEY_TIMEOUT) in
  let! no_answer :=
    and_elapsed (aut_packet_received <? data_packet_sent)
      now aut_packet_received (KEEPALIVE_TIMEOUT + REKEY_TIMEOUT) in
  let rehandshake := no_answer && want_handshake ti in
  let t := if no_answer
           then with_t_timers (with_wants (want_keepalive ti) false ti) t else t in
  let initiation := rekey_on_send || rekey_on_receive || rehandshake in
  if initiation then Ret (true, false, t)
  else
    let ti := t_timers t in
    let! must_answer :=
      and_elapsed (aut_packet_sent <? data_packet_received) now aut_packet_sent KEEPALIVE_TIMEOUT in
    let keepalive := must_answer && want_keepalive ti in
    let t := if must_answer
             then with_t_timers (with_wants false (want_handshake ti) ti) t else t in
    let! persistent :=
      and_elapsed (0 <? persistent_keepalive_secs ti) now (timer_get ti TimePersistentKeepalive)
        (from_secs (persistent_keepalive_secs ti)) in
    let t := if persistent then timer_tick TimePersistentKeepalive t else t in
    Ret (false, keepalive || persistent, t).

(** [if self.timers.should_reset_rr { self.rate_limiter.reset_count() }] *)
Definition reset_limiter (t : Tunn) (w : World) : Tunn * World :=
  if should_reset_rr (t_timers t)
  then let '(r, w) := reset_count (rate_limiter t) w in (with_limiter r t, w)
  else (t, w).

Definition update_timers (dst_len : nat) (t : Tunn) (w : World) : outcome (TunnResult * Tunn * World) :=
  let '(time, w) := instant_now w in
  let '(t, w) := reset_limiter t w in
  let now := duration_since time (time_started (t_timers t)) in
  let t := with_t_timers (timer_set TimeCurrent now (t_timers t)) t in
  let! t := update_session_timers now t in
  let session_established := timer_get (t_timers t) TimeSessionEstablished in
  let handshake_started := timer_get (t_timers t) TimeLastHandshakeStarted in
  if is_expired (handshake t) then Ret (TunnErr ConnectionExpired, t, w)
  else
    let! cookie_expired :=
      and_elapsed (has_cookie (handshake t)) now (timer_get (t_timers t) TimeCookieReceived)
        COOKIE_EXPIRATION_TIME in
    let t := if cookie_expired then with_handshake (clear_cookie (handshake t)) t else t in
    let! dead := elapsed_at_least now session_established (REJECT_AFTER_TIME * 3) in
    if dead then
      let '(t, w) := clear_all (with_handshake (set_expired (handshake t)) t) w in
      Ret (TunnErr ConnectionExpired, t, w)
    else
      match timer (handshake t) with
      | Some time_init_sent =>
          let! gave_up := elapsed_at_least now handshake_started REKEY_ATTEMPT_TIME in
          if gave_up then
            let '(t, w) := clear_all (with_handshake (set_expired (handshake t)) t) w in
            Ret (TunnErr ConnectionExpired, t, w)
          else
            let '(since, w) := elapsed time_init_sent w in
            if REKEY_TIMEOUT <=? since
            then tunn_format_handshake_initiation dst_len true t w
            else Ret (Done, t, w)
      | None =>
          let! (initiation, keepalive, t) := idle_timers now t in
          if initiation then tunn_format_handshake_initiation dst_len true t w
          else if keepalive then encapsulate [] dst_len t w
          else Ret (Done, t, w)
      end.

Definition time_since_last_handshake (t : Tunn) (w : World) : outcome (option Duration * World) :=
  match session_at t (current t) with
  | Some _ =>
      let '(i, w) := instant_now w in
      let! d := duration_sub (duration_since i (time_started (t_timers t)))
                  (timer_get (t_timers t) TimeSessionEstablished) in
      Ret (Some d, w)
  | None => Ret (None, w)
  end.

Definition persistent_keepalive (t : Tunn) : option Z :=
  let keepalive := persistent_keepalive_secs (t_timers t) in
  if 0 <? keepalive then Some (wrap 16 keepalive) else None.

End TunnOps.

(** ** Invariants *)

Create HintDb tunnel.

Section Invariants.
Context `{C : Crypto} `{CL : !CryptoLaws C} `{E : Env} `{MC : !MonotoneClock E}.

(** The size of the buffers the caller provides. *)
Context (buf : nat).

(** [d] is not in the future of a tunnel started at reading [k]. *)
Definition past (k : nat) (w : World) (d : Duration) : Prop :=
  0 <= d <= Z.max 0 (clock (ticks w) - clock k).

Record timers_inv (ti : Timers) (w : World) : Prop := {
  inv_timers_len : length (timers ti) = timer_index Top;
  inv_session_timers_len : length (session_timers ti) = Z.to_nat N_SESSIONS;
  inv_past : exists k, time_started ti = instant_of_nanos (clock k)
    /\ Forall (past k w) (timers ti) /\ Forall (past k w) (session_timers ti);
}.

Definition handshake_ok (h : Handshake) : Prop :=
  handshake_inv h /\ stamper_ok (stamper h) /\ length (static_public (params h)) = 32%nat.

Definition session_ok (s : Session) : Prop :=
  u32_range (receiving_index s) /\ u32_range (sending_index s)
  /\ u64_range (sending_key_counter s).

(** Every session is in the slot of its index. *)
Definition slots_ok (ss : list (option Session)) : Prop :=
  length ss = Z.to_nat N_SESSIONS
  /\ forall i s, ss !! i = Some (Some s) -> session_ok s /\ slot (receiving_index s) = i.

(** The queue is bounded, and what is queued can be sent later. *)
Definition queue_ok (q : list bytes) : Prop :=
  (length q <= MAX_QUEUE_DEPTH)%nat /\ Forall (fun p => (length p + 32 <= buf)%nat) q.

Record tunn_inv (t : Tunn) (w : World) : Prop := {
  inv_handshake : handshake_ok (handshake t);
  inv_slots : slots_ok (sessions t);
  inv_queue : queue_ok (packet_queue t);
  inv_timers : timers_inv (t_timers t) w;
}.

(** *** Timers *)

Lemma past_later k w w' d : (ticks w <= ticks w')%nat -> past k w d -> past k w' d.
Proof. intros Hw [H0 H1]. pose proof (clock_mono _ _ Hw). unfold past. lia. Qed.

Lemma timers_inv_later ti w w' : (ticks w <= ticks w')%nat -> timers_inv ti w -> timers_inv ti w'.
Proof.
  intros Hw [H1 H2 (k & Hk & Ht & Hs)]. split; try done. exists k. split; [done|].
  split; eapply Forall_impl; eauto; intros; by eapply past_later.
Qed.

Lemma tunn_inv_later t w w' : (ticks w <= ticks w')%nat -> tunn_inv t w -> tunn_inv t w'.
Proof. intros Hw []. split; try done. by eapply timers_inv_later. Qed.

Lemma timer_index_lt n : n <> Top -> (timer_index n < timer_index Top)%nat.
Proof. destruct n; simpl; lia || done. Qed.

Lemma timer_get_past ti w n :
  timers_inv ti w -> n <> Top ->
  forall k, time_started ti = instant_of_nanos (clock k) -> Forall (past k w) (timers ti) ->
  past k w (timer_get ti n).
Proof.
  intros [Hl _ _] Hn k _ Ht. unfold timer_get.
  destruct (lookup_lt_is_Some_2 (timers ti) (timer_index n)) as [d Hd];
    [rewrite Hl; by apply timer_index_lt|].
  rewrite (list_lookup_total_correct _ _ _ Hd). by eapply Forall_lookup_1 in Ht.
Qed.

Lemma timer_set_inv ti w n m :
  timers_inv ti w -> n <> Top -> timers_inv (timer_set m (timer_get ti n) ti) w.
Proof.
  intros Hinv Hn. pose proof Hinv as [Hl Hs (k & Hk & Ht & Hst)]. split; simpl.
  - by rewrite length_insert.
  - done.
  - exists k. split_and!; try done. apply Forall_insert; [done|]. by eapply timer_get_past.
Qed.

Lemma with_wants_inv ti w a b : timers_inv ti w -> timers_inv (with_wants a b ti) w.
Proof. intros []. by split. Qed.

Lemma with_initiator_inv ti w b : timers_inv ti w -> timers_inv (with_initiator b ti) w.
Proof. intros []. by split. Qed.

Lemma timer_tick_inv n t w : n <> Top -> tunn_inv t w -> tunn_inv (timer_tick n t) w.
Proof.
  intros Hn [Hh Hs Hq Ht]. split; simpl; try done.
  destruct n; try (apply timer_set_inv; [done|done]);
    (apply (timer_set_inv (with_wants _ _ _)); [by apply with_wants_inv|done]) || done.
Qed.

Lemma slot_lt idx : (slot idx < Z.to_nat N_SESSIONS)%nat.
Proof.
  unfold slot, N_SESSIONS. pose proof (Z.mod_pos_bound idx 8 eq_refl). lia.
Qed.

Lemma slot_mod idx : slot (idx mod N_SESSIONS) = slot idx.
Proof. unfold slot. by rewrite Z.mod_mod. Qed.

Lemma tick_established_inv b i t w :
  tunn_inv t w -> tunn_inv (timer_tick_session_established b i t) w.
Proof.
  intros Hinv. assert (TimeSessionEstablished <> Top) as Hne by done.
  destruct (timer_tick_inv TimeSessionEstablished t w Hne Hinv) as [Hh Hs Hq Ht].
  split; try done. unfold timer_tick_session_established. cbn [t_timers with_t_timers].
  apply with_initiator_inv. pose proof Ht as [Hl Hsl (k & Hk & Hf & Hsf)].
  split; simpl; [done|by rewrite length_insert|]. exists k. split_and!; try done.
  apply Forall_insert; [done|]. by eapply (timer_get_past _ w TimeCurrent Ht).
Qed.

Lemma timers_clear_inv ti w ti' w' :
  timers_clear ti w = (ti', w') -> timers_inv ti w ->
  timers_inv ti' w' /\ (ticks w <= ticks w')%nat.
Proof.
  intros [= <- <-] [Hl Hs (k & Hk & Hf & Hsf)]. simpl. split; [|lia].
  apply with_wants_inv. split; simpl; [by rewrite length_fmap|done|].
  exists k. split_and!; try done.
  - apply Forall_fmap, Forall_true. intros d. simpl. rewrite Hk, duration_since_readings.
    unfold past. simpl. pose proof (clock_mono (ticks w) (S (ticks w)) ltac:(lia)). lia.
  - eapply Forall_impl; [exact Hsf|]. intros d. apply past_later. simpl. lia.
Qed.

(** *** Sessions *)

Lemma store_session_inv t w s :
  tunn_inv t w -> session_ok s ->
  tunn_inv (store_session (receiving_index s) (Some s) t) w.
Proof.
  intros [Hh [Hl Hs] Hq Ht] Hok. split; try done. split; simpl; [by rewrite length_insert|].
  intros i s' Hi. apply list_lookup_insert_Some in Hi as [(<- & Heq & _)|[_ Hi]]; [|by apply Hs].
  by simplify_eq.
Qed.

Lemma set_current_inv t w i : tunn_inv t w -> tunn_inv (set_current_session i t) w.
Proof.
  intros [Hh Hs Hq Ht]. unfold set_current_session.
  destruct (current t =? i); [done|]. destruct (_ || _); by split.
Qed.

Lemma session_at_ok t w i s :
  tunn_inv t w -> session_at t i = Some s -> session_ok s /\ slot (receiving_index s) = slot i.
Proof.
  intros [_ [Hl Hs] _ _] Hi. unfold session_at in Hi.
  destruct (lookup_lt_is_Some_2 (sessions t) (slot i)) as [x Hx]; [rewrite Hl; apply slot_lt|].
  rewrite (list_lookup_total_correct _ _ _ Hx) in Hi. subst x. by apply Hs.
Qed.

(** *** Handshake operations are total *)

Lemma step_ok h h' : step h h' -> handshake_ok h -> handshake_ok h'.
Proof.
  intros Hs (Hi & Hst & Hp). destruct (step_evolves _ _ Hs) as [Hpar Hstamp _ _].
  unfold handshake_ok. rewrite Hpar, Hstamp. split; [by eapply step_inv|done].
Qed.

Lemma format_init_total h n w :
  handshake_ok h ->
  exists r h' w', format_handshake_initiation h n w = Ret (r, h', w')
  /\ handshake_ok h' /\ (ticks w <= ticks w')%nat
  /\ (forall p, r = Ok p -> length p = HANDSHAKE_INIT_SZ).
Proof.
  intros Hok. pose proof Hok as (Hi & Hst & Hp).
  destruct (decide (HANDSHAKE_INIT_SZ <= n)%nat) as [Hn|Hn].
  - destruct (format_initiation_ok h n w _ _ Hn Hp (stamp_ok _ _ Hst) (length_stamp_bytes _))
      as (macs & h' & Hf & Hm & _).
    eexists _, _, _. split; [exact Hf|]. split; [|split; [simpl; lia|]].
    + eapply step_ok; [by eapply step_format_initiation|done].
    + intros p <-%(inj Ok). rewrite length_app, (proj1 Hm). cbn [wire init_sender_idx init_ephemeral
        encrypted_static encrypted_timestamp].
      rewrite !length_app, !length_to_le, length_x25519_public.
      rewrite (proj1 (length_init_transcript _ _ _ _ _ _)), (proj2 (length_init_transcript _ _ _ _ _ _)).
      by rewrite Hp, length_stamp_bytes.
  - exists (Err DestinationBufferTooSmall), h, w. unfold format_handshake_initiation.
    rewrite bool_decide_eq_true_2 by lia. done.
Qed.

Lemma session_new_ok a b k1 k2 : u32_range a -> u32_range b -> session_ok (session_new a b k1 k2).
Proof. intros. split_and!; done. Qed.

Lemma receive_init_total h p n w :
  handshake_ok h -> wf_packet (PHandshakeInit p) ->
  exists r h' w', receive_handshake_initialization h p n w = Ret (r, h', w')
  /\ handshake_ok h' /\ (ticks w <= ticks w')%nat
  /\ (forall pk s, r = Ok (pk, s) -> session_ok s /\ next_index h' = receiving_index s).
Proof.
  intros Hok (Hidx & _ & Hl1 & Hl2). pose proof Hok as (Hi & Hst & Hp).
  destruct (receive_init_cases h p n w Hl1 Hl2) as [[e He]|(ts & _ & _ & _ & _ & Hr)].
  - by eexists _, _, _.
  - destruct (decide (HANDSHAKE_RESP_SZ <= n)%nat) as [Hn|Hn].
    + destruct (format_response_ok (accepted_init h (init_sender_idx p) (init_ephemeral p) ts) n w
        _ _ _ _ Hn eq_refl) as (macs & h' & Hf & _ & _ & _ & _ & Hni & _).
      rewrite Hf in Hr. eexists _, _, _. split; [exact Hr|]. split; [|split; [done|]].
      * eapply step_ok; [by eapply step_receive_initialization|done].
      * intros pk s [= _ <-]. split; [|done]. apply session_new_ok; [|done].
        apply next_local_index_range. apply Hi.
    + unfold format_handshake_response in Hr. rewrite bool_decide_eq_true_2 in Hr by lia.
      eexists _, _, _. split; [exact Hr|]. split; [|done].
      eapply step_ok; [by eapply step_receive_initialization|done].
Qed.

Lemma awaiting_index h idx st b : awaiting h idx = Some (st, b) -> sent_local_index st = idx.
Proof.
  unfold awaiting. destruct (state h), (previous h); intros; repeat split_if; bprop; by simplify_eq.
Qed.

Lemma receive_resp_total h p w :
  handshake_ok h -> wf_packet (PHandshakeResponse p) ->
  exists r h' w', receive_handshake_response h p w = Ret (r, h', w')
  /\ handshake_ok h' /\ (ticks w <= ticks w')%nat
  /\ (forall s, r = Ok s -> session_ok s /\ receiving_index s = resp_receiver_idx p).
Proof.
  intros Hok (Hsi & Hri & _ & Hn).
  destruct (receive_handshake_response h p w) as [[[r h'] w']|] eqn:Hr;
    rewrite receive_response_cases in Hr by done; [|done].
  exists r, h', w'. split; [done|].
  assert (handshake_ok h') as Hok'.
  { eapply step_ok; [|done]. eapply step_receive_response.
    rewrite receive_response_cases by done. exact Hr. }
  split; [done|]. destruct (awaiting h _) as [[st b]|] eqn:Haw; [|by simplify_eq].
  apply awaiting_index in Haw as Hst. cbv zeta in Hr. apply (inj Ret) in Hr.
  destruct (bool_decide _); apply pair_equal_spec in Hr as [[<- _]%pair_equal_spec <-]; [|done].
  split; [simpl; lia|]. intros s <-%(inj Ok). split; [|done].
  apply session_new_ok; [by rewrite Hst|done].
Qed.

Lemma receive_cookie_ok h p r h' :
  receive_cookie_reply h p = (r, h') -> handshake_ok h -> handshake_ok h'.
Proof. intros Hr. apply step_ok. by eapply step_receive_cookie_reply. Qed.

(** *** Tunnel operations are total *)

Lemma with_handshake_inv t w h : handshake_ok h -> tunn_inv t w -> tunn_inv (with_handshake h t) w.
Proof. intros ? []. by split. Qed.

Lemma with_t_timers_inv t w ti : timers_inv ti w -> tunn_inv t w -> tunn_inv (with_t_timers ti t) w.
Proof. intros ? []. by split. Qed.

Lemma with_limiter_inv t w r : tunn_inv t w -> tunn_inv (with_limiter r t) w.
Proof. intros []. by split. Qed.

Lemma with_bytes_inv t w a b : tunn_inv t w -> tunn_inv (with_bytes a b t) w.
Proof. intros []. by split. Qed.

Lemma queue_packet_inv t w p :
  (length p + 32 <= buf)%nat -> tunn_inv t w -> tunn_inv (queue_packet p t) w.
Proof.
  intros Hp Hinv. unfold queue_packet. case_bool_decide; [|done]. destruct Hinv as [? ? [Hl Hf] ?].
  split; try done. split; simpl; [rewrite length_app; simpl; lia|].
  apply Forall_app. split; [done|by constructor].
Qed.

Lemma requeue_packet_inv t w p :
  (length p + 32 <= buf)%nat -> tunn_inv t w -> tunn_inv (requeue_packet p t) w.
Proof.
  intros Hp Hinv. unfold requeue_packet. case_bool_decide; [|done]. destruct Hinv as [? ? [Hl Hf] ?].
  split; try done. split; simpl; [lia|by constructor].
Qed.

#[local] Hint Resolve timer_tick_inv tick_established_inv set_current_inv with_handshake_inv
  with_t_timers_inv with_limiter_inv with_bytes_inv queue_packet_inv requeue_packet_inv : tunnel.
#[local] Hint Extern 1 (_ <> Top) => discriminate : tunnel.

Lemma clear_if_expired_inv t w t' w' :
  clear_if_expired t w = (t', w') -> tunn_inv t w ->
  tunn_inv t' w' /\ (ticks w <= ticks w')%nat /\ handshake t' = handshake t
  /\ sessions t' = sessions t /\ packet_queue t' = packet_queue t.
Proof.
  unfold clear_if_expired. intros Heq Hinv. destruct (is_expired _); [|by simplify_eq].
  destruct (timers_clear (t_timers t) w) as [ti w1] eqn:Hc. simplify_eq.
  destruct (timers_clear_inv _ _ _ _ Hc (inv_timers _ _ Hinv)) as [Hti Hw].
  split; [|done]. apply with_t_timers_inv; [done|]. by eapply tunn_inv_later.
Qed.

Lemma tunn_format_total n force t w :
  tunn_inv t w ->
  exists r t' w', tunn_format_handshake_initiation n force t w = Ret (r, t', w')
  /\ tunn_inv t' w' /\ (ticks w <= ticks w')%nat.
Proof.
  intros Hinv. unfold tunn_format_handshake_initiation.
  destruct (_ && _); [by eexists _, _, _|].
  destruct (clear_if_expired t w) as [t1 w1] eqn:Hc.
  destruct (clear_if_expired_inv _ _ _ _ Hc Hinv) as (Hinv1 & Hw1 & _).
  destruct (format_init_total (handshake t1) n w1) as (r & h & w2 & -> & Hh & Hw2 & _);
    [apply Hinv1|]. simpl.
  assert (tunn_inv (with_handshake h t1) w2) as Hinv2.
  { apply with_handshake_inv; [done|]. by eapply tunn_inv_later. }
  destruct r; eexists _, _, _; (split; [reflexivity|]); (split; [|lia]); [|done].
  destruct (negb _); auto 10 with tunnel.
Qed.

Lemma store_session_same i j s t : slot i = slot j -> store_session i s t = store_session j s t.
Proof. intros H. unfold store_session. by rewrite H. Qed.

Lemma encapsulate_into_total n src t w :
  tunn_inv t w -> (length src + 32 <= n)%nat -> (n <= buf)%nat ->
  exists r t' w', encapsulate src n t w = Ret (r, t', w')
  /\ tunn_inv t' w' /\ (ticks w <= ticks w')%nat.
Proof.
  intros Hinv Hn Hbuf. unfold encapsulate.
  destruct (session_at t (current t)) as [ses|] eqn:Hs.
  - rewrite format_packet_data_ok by done. simpl.
    destruct (session_at_ok t w _ _ Hinv Hs) as [(H1 & H2 & H3) Hslot].
    eexists _, _, _. split; [reflexivity|]. split; [|done]. apply with_bytes_inv.
    assert (tunn_inv (store_session (current t) (Some (after_send ses)) t) w) as Hst.
    { rewrite (store_session_same _ (receiving_index (after_send ses))) by done.
      apply store_session_inv; [done|]. split_and!; try done. apply wrap_in_width. lia. }
    destruct (bool_decide _); auto 10 with tunnel.
  - apply tunn_format_total. apply queue_packet_inv; (done || lia).
Qed.

Lemma encapsulate_total src t w :
  tunn_inv t w -> (length src + 32 <= buf)%nat ->
  exists r t' w', encapsulate src buf t w = Ret (r, t', w')
  /\ tunn_inv t' w' /\ (ticks w <= ticks w')%nat.
Proof. intros. by apply encapsulate_into_total. Qed.

Lemma dequeue_inv t w p t' : dequeue_packet t = (Some p, t') -> tunn_inv t w ->
  tunn_inv t' w /\ (length p + 32 <= buf)%nat.
Proof.
  unfold dequeue_packet. intros Hd [? ? [Hl Hf] ?].
  destruct (packet_queue t) as [|x q] eqn:Hq; [done|]. simplify_eq.
  apply Forall_cons in Hf as [Hx Hf]. split; [|done]. split; try done.
  split; simpl in *; [lia|done].
Qed.

Lemma send_queued_total t w :
  tunn_inv t w ->
  exists r t' w', send_queued_packet buf t w = Ret (r, t', w')
  /\ tunn_inv t' w' /\ (ticks w <= ticks w')%nat.
Proof.
  intros Hinv. unfold send_queued_packet. destruct (dequeue_packet t) as [[p|] t1] eqn:Hd.
  - destruct (dequeue_inv _ _ _ _ Hd Hinv) as [Hinv1 Hp].
    destruct (encapsulate_total p t1 w Hinv1 Hp) as (r & t2 & w2 & -> & Hinv2 & Hw). simpl.
    destruct r; eexists _, _, _; (split; [reflexivity|]); auto with tunnel.
  - unfold dequeue_packet in Hd. destruct (packet_queue t); simplify_eq. by eexists _, _, _.
Qed.

Lemma ip_header_ok p :
  (0 < length p)%nat -> exists h, ip_header p = Ret h.
Proof.
  intros Hp. unfold ip_header. destruct (index_ok p 0 Hp) as (b & -> & _). simpl.
  unfold IPV4_MIN_HEADER_SIZE, IPV6_MIN_HEADER_SIZE.
  repeat (split_if; bprop; [rewrite !slice_ok by (vm_compute in *; lia); by eexists|]).
  by eexists.
Qed.

Lemma validate_total p t w :
  tunn_inv t w -> exists r t', validate_decapsulated_packet p t = Ret (r, t') /\ tunn_inv t' w.
Proof.
  intros Hinv. unfold validate_decapsulated_packet. case_bool_decide; [by eexists _, _|].
  destruct (ip_header_ok p ltac:(lia)) as [hd ->]. simpl.
  destruct hd as [[n a]|]; [|by eexists _, _]. case_bool_decide; [by eexists _, _|].
  rewrite slice_ok by lia. simpl. destruct a; eexists _, _; (split; [reflexivity|]); auto with tunnel.
Qed.

(** A buffer large enough for the packet being handled. *)
Definition fits (n : nat) (p : Packet) : Prop :=
  match p with
  | PPacketData d => (length (encrypted_encapsulated_packet d) <= n)%nat
  | _ => (32 <= n)%nat
  end.

Lemma handle_init_total p n t w :
  tunn_inv t w -> wf_packet (PHandshakeInit p) ->
  exists r t' w', handle_handshake_init p n t w = Ret (r, t', w')
  /\ tunn_inv t' w' /\ (ticks w <= ticks w')%nat.
Proof.
  intros Hinv Hwf. unfold handle_handshake_init.
  destruct (receive_init_total (handshake t) p n w (inv_handshake _ _ Hinv) Hwf)
    as (r & h & w1 & -> & Hh & Hw & Hses). simpl.
  assert (tunn_inv (with_handshake h t) w1) as Hinv1.
  { apply with_handshake_inv; [done|]. by eapply tunn_inv_later. }
  destruct r as [[pk ses]|e]; [|by eexists _, _, _].
  destruct (Hses _ _ eq_refl) as [Hok _].
  eexists _, _, _. split; [reflexivity|]. split; [|done]. unfold local_index.
  pose proof (store_session_inv _ _ _ Hinv1 Hok). auto 10 with tunnel.
Qed.

Lemma handle_response_total p n t w :
  tunn_inv t w -> wf_packet (PHandshakeResponse p) -> (32 <= n)%nat ->
  exists r t' w', handle_handshake_response p n t w = Ret (r, t', w')
  /\ tunn_inv t' w' /\ (ticks w <= ticks w')%nat.
Proof.
  intros Hinv Hwf Hn. unfold handle_handshake_response.
  destruct (receive_resp_total (handshake t) p w (inv_handshake _ _ Hinv) Hwf)
    as (r & h & w1 & -> & Hh & Hw & Hses). simpl.
  assert (tunn_inv (with_handshake h t) w1) as Hinv1.
  { apply with_handshake_inv; [done|]. by eapply tunn_inv_later. }
  destruct r as [ses|e]; [|by eexists _, _, _].
  destruct (Hses _ eq_refl) as [(H1 & H2 & H3) _]. rewrite format_packet_data_ok by done. simpl.
  eexists _, _, _. split; [reflexivity|]. split; [|done]. unfold local_index.
  assert (session_ok (after_send ses)) as Hok
    by (split_and!; try done; apply wrap_in_width; lia).
  pose proof (store_session_inv _ _ _ Hinv1 Hok). simpl in *. auto 10 with tunnel.
Qed.

Lemma handle_cookie_total p t w r t' :
  handle_cookie_reply p t = (r, t') -> tunn_inv t w -> tunn_inv t' w.
Proof.
  unfold handle_cookie_reply. destruct (receive_cookie_reply _ _) as [rc h] eqn:Hr. intros Heq Hinv.
  pose proof (receive_cookie_ok _ _ _ _ Hr (inv_handshake _ _ Hinv)) as Hh.
  destruct rc; simplify_eq; auto 10 with tunnel.
Qed.

Lemma receive_packet_frame ses p n r ses' :
  receive_packet_data ses p n = Ret (r, ses') ->
  receiving_index ses' = receiving_index ses /\ sending_index ses' = sending_index ses
  /\ sending_key_counter ses' = sending_key_counter ses.
Proof.
  unfold receive_packet_data, receiving_counter_mark. intros H.
  repeat case_match; by simplify_eq.
Qed.

Lemma receive_packet_total ses p n :
  (length (encrypted_encapsulated_packet p) <= n)%nat ->
  exists r ses', receive_packet_data ses p n = Ret (r, ses').
Proof.
  intros Hn. unfold receive_packet_data. rewrite bool_decide_eq_false_2 by lia.
  repeat case_match; eauto.
Qed.

Lemma handle_data_total p n t w :
  tunn_inv t w -> (length (encrypted_encapsulated_packet p) <= n)%nat ->
  exists r t', handle_data p n t = Ret (r, t') /\ tunn_inv t' w.
Proof.
  intros Hinv Hn. unfold handle_data.
  destruct (session_at t _) as [ses|] eqn:Hs; [|by eexists _, _].
  destruct (session_at_ok _ _ _ _ Hinv Hs) as [Hok Hslot].
  destruct (receive_packet_total ses p n Hn) as (r & ses' & Hr). rewrite Hr. simpl.
  destruct (receive_packet_frame _ _ _ _ _ Hr) as (H1 & H2 & H3).
  assert (tunn_inv (store_session (data_receiver_idx p) (Some ses') t) w) as Hinv1.
  { rewrite (store_session_same _ (receiving_index ses')) by (by rewrite H1, Hslot).
    apply store_session_inv; [done|]. unfold session_ok. by rewrite H1, H2, H3. }
  destruct r as [d|e]; [|by eexists _, _].
  destruct (validate_total d (timer_tick TimeLastPacketReceived
    (set_current_session (data_receiver_idx p) (store_session (data_receiver_idx p) (Some ses') t))) w)
    as (res & t' & -> & Hinv2); [auto with tunnel|]. simpl. eauto.
Qed.

Lemma handle_verified_total p n t w :
  tunn_inv t w -> wf_packet p -> fits n p ->
  exists r t' w', handle_verified_packet p n t w = Ret (r, t', w')
  /\ tunn_inv t' w' /\ (ticks w <= ticks w')%nat.
Proof.
  intros Hinv Hwf Hfit. destruct p as [p|p|p|p]; cbn [handle_verified_packet].
  - destruct (handle_init_total p n t w Hinv Hwf) as (r & t' & w' & -> & ?).
    by eexists _, _, _.
  - destruct (handle_response_total p n t w Hinv Hwf Hfit) as (r & t' & w' & -> & ?).
    by eexists _, _, _.
  - destruct (handle_cookie_reply p t) as [r t'] eqn:Hc. eexists _, _, _. split; [reflexivity|].
    split; [by eapply handle_cookie_total|done].
  - destruct (handle_data_total p n t w Hinv Hfit) as (r & t' & -> & ?).
    by eexists _, _, _.
Qed.

Lemma decapsulate_total a dg t w :
  tunn_inv t w -> (COOKIE_REPLY_SZ <= buf)%nat -> (length dg <= buf)%nat ->
  exists r t' w', decapsulate a dg buf t w = Ret (r, t', w')
  /\ tunn_inv t' w' /\ (ticks w <= ticks w')%nat.
Proof.
  intros Hinv Hn Hdg. unfold decapsulate. case_bool_decide; [by apply send_queued_total|].
  destruct (verify_result (rate_limiter t) a dg COOKIE_REPLY_SZ w) as (res & rl & w1 & -> & Hw & Hres).
  simpl. assert (tunn_inv (with_limiter rl t) w1) as Hinv1.
  { apply with_limiter_inv. by eapply tunn_inv_later. }
  unfold COOKIE_REPLY_SZ in *.
  destruct res as [p|[|e|c| |]]; try done.
  - destruct (handle_verified_total p buf (with_limiter rl t) w1) as (r & t' & w' & -> & ? & ?);
      [done|by eapply parse_wf| |by eexists _, _, _; split; [reflexivity|split; [done|lia]]].
    destruct p as [p|p|p|p]; cbn [fits]; try lia.
    rewrite parse_is_spec in Hres. apply (inj Ret) in Hres.
    apply parse_spec_inv in Hres as [_ (m & _ & ->)]. rewrite length_app in Hdg.
    cbn [wire] in Hdg. rewrite !length_app in Hdg. lia.
  - by eexists _, _, _.
  - rewrite bool_decide_eq_true_2 by lia. by eexists _, _, _.
Qed.

(** *** [update_timers] *)

(** What the expiry loop computes. *)
Lemma expire_slots_ok now ss ts :
  Forall (fun t => t <= now) ts -> length ss = length ts ->
  expire_slots now ss ts
  = Ret (zip_with (fun s t => if REJECT_AFTER_TIME <? now - t then None else s) ss ts,
         (fun t => if REJECT_AFTER_TIME <? now - t then now else t) <$> ts).
Proof.
  intros Ht. revert ss. induction Ht as [|t ts Ht Hts IH]; intros [|s ss] Hl; try done.
  cbn [expire_slots]. rewrite duration_sub_ok by done. cbn [outcome_bind].
  rewrite IH by (simpl in Hl; lia). cbn [outcome_bind]. csimpl.
  by destruct (_ <? _).
Qed.

Lemma past_now k w d :
  past k w d -> d <= duration_since (instant_of_nanos (clock (ticks w))) (instant_of_nanos (clock k)).
Proof. intros [_ H]. by rewrite duration_since_readings. Qed.

Lemma slots_expire now ss ts :
  slots_ok ss -> length ts = Z.to_nat N_SESSIONS ->
  slots_ok (zip_with (fun s t => if REJECT_AFTER_TIME <? now - t then None else s) ss ts).
Proof.
  intros [Hl Hs] Hts. split; [rewrite length_zip_with, Hl, Hts; lia|].
  intros i s Hi. rewrite lookup_zip_with in Hi.
  destruct (ss !! i) as [x|] eqn:Hx; [|done]. destruct (ts !! i) as [t|]; [|done]. simpl in Hi.
  apply (inj Some) in Hi. destruct (_ <? _); [done|]. subst. by apply Hs.
Qed.

(** After reading the clock: the timers, now including the current time. *)
Record timers_at (ti : Timers) (now : Duration) (w : World) : Prop := {
  at_inv : timers_inv ti w;
  at_timers : Forall (fun d => d <= now) (timers ti);
}.

Lemma timers_at_get ti now w n : timers_at ti now w -> n <> Top -> timer_get ti n <= now.
Proof.
  intros [[Hl _ _] Ht] Hn. unfold timer_get.
  destruct (lookup_lt_is_Some_2 (timers ti) (timer_index n)) as [d Hd];
    [rewrite Hl; by apply timer_index_lt|].
  rewrite (list_lookup_total_correct _ _ _ Hd). by eapply Forall_lookup_1 in Ht.
Qed.

Lemma and_elapsed_ok a now t d : t <= now -> exists b, and_elapsed a now t d = Ret b.
Proof.
  intros. unfold and_elapsed, elapsed_at_least. rewrite duration_sub_ok by done.
  destruct a; by eexists.
Qed.

Lemma elapsed_ok now t d : t <= now -> elapsed_at_least now t d = Ret (d <=? now - t).
Proof. intros. unfold elapsed_at_least. by rewrite duration_sub_ok. Qed.

Definition since_start (t : Tunn) (w : World) : Duration :=
  duration_since (fst (instant_now w)) (time_started (t_timers t)).

(** The tunnel after the expiry of old sessions at [now]. *)
Definition expired_at (now : Duration) (t : Tunn) : Tunn :=
  let ti := timer_set TimeCurrent now (t_timers t) in
  let ts := session_timers ti in
  with_t_timers
    (with_session_timers ((fun t => if REJECT_AFTER_TIME <? now - t then now else t) <$> ts) ti)
    (with_sessions
       (zip_with (fun s t => if REJECT_AFTER_TIME <? now - t then None else s) (sessions t) ts) t).

Lemma update_session_timers_ok t w w' :
  tunn_inv t w -> (ticks w <= ticks w')%nat ->
  let now := since_start t w in
  update_session_timers now (with_t_timers (timer_set TimeCurrent now (t_timers t)) t)
    = Ret (expired_at now t)
  /\ tunn_inv (expired_at now t) w' /\ timers_at (t_timers (expired_at now t)) now w'.
Proof.
  intros [Hh Hsl Hq [Hl1 Hl2 (k & Hk & Hf & Hsf)]] Hw now.
  assert (past k w' now /\ forall d, past k w d -> d <= now) as [Hnow Hle].
  { subst now. unfold since_start. cbn [instant_now fst]. rewrite Hk. split; [|apply past_now].
    rewrite duration_since_readings. pose proof (clock_mono _ _ Hw). unfold past. lia. }
  unfold update_session_timers. cbn [t_timers with_t_timers sessions timer_set with_timers session_timers].
  rewrite expire_slots_ok.
  2: { eapply Forall_impl; [exact Hsf|]. exact Hle. }
  2: { destruct Hsl as [-> _]. done. }
  split; [done|].
  assert (timers_inv (t_timers (expired_at now t)) w') as Hti.
  { split; simpl; [by rewrite length_insert|by rewrite length_fmap|]. exists k. split; [done|]. split.
    - apply Forall_insert; [|done]. eapply Forall_impl; [exact Hf|]. intros; by eapply past_later.
    - apply Forall_fmap. eapply Forall_impl; [exact Hsf|]. intros d Hd. simpl.
      destruct (_ <? _); [done|by eapply past_later]. }
  split; [split; try done; by apply slots_expire|]. split; [done|]. simpl.
  apply Forall_insert; [|done]. eapply Forall_impl; [exact Hf|]. exact Hle.
Qed.

Lemma idle_timers_total now t w :
  tunn_inv t w -> timers_at (t_timers t) now w ->
  exists i k t', idle_timers now t = Ret (i, k, t') /\ tunn_inv t' w.
Proof.
  intros Hinv Hat. unfold idle_timers.
  pose proof (fun n => timers_at_get _ _ _ n Hat) as Hle.
  edestruct (and_elapsed_ok (is_initiator (t_timers t) &&
    (timer_get (t_timers t) TimeSessionEstablished <? timer_get (t_timers t) TimeLastDataPacketSent)))
    as [b1 ->]; [by apply Hle|]. cbn [outcome_bind].
  edestruct (and_elapsed_ok (is_initiator (t_timers t) &&
    (timer_get (t_timers t) TimeSessionEstablished <? timer_get (t_timers t) TimeLastDataPacketReceived)))
    as [b2 ->]; [by apply Hle|]. cbn [outcome_bind].
  edestruct (and_elapsed_ok (timer_get (t_timers t) TimeLastPacketReceived
    <? timer_get (t_timers t) TimeLastDataPacketSent)) as [b3 ->]; [by apply Hle|]. cbn [outcome_bind].
  assert (tunn_inv (with_t_timers (with_wants (want_keepalive (t_timers t)) false (t_timers t)) t) w)
    as Hinv3 by (apply with_t_timers_inv; [apply with_wants_inv, Hinv|done]).
  destruct (_ || _); [destruct b3; by eexists _, _, _|].
  edestruct (and_elapsed_ok (timer_get (t_timers t) TimeLastPacketSent
    <? timer_get (t_timers t) TimeLastDataPacketReceived)) as [b4 ->]; [by apply Hle|]. cbn [outcome_bind].
  set (t3 := if b3 then _ else t).
  assert (tunn_inv t3 w /\ timer_get (t_timers t3) TimePersistentKeepalive
          = timer_get (t_timers t) TimePersistentKeepalive) as [Ht3 Hpk] by (subst t3; by destruct b3).
  edestruct (and_elapsed_ok (0 <? persistent_keepalive_secs (t_timers t3))) as [b5 ->];
    [rewrite Hpk; by apply Hle|]. cbn [outcome_bind].
  eexists _, _, _. split; [reflexivity|].
  assert (tunn_inv (if b4 then with_t_timers (with_wants false (want_handshake (t_timers t3)) (t_timers t3)) t3
                    else t3) w) as Ht4.
  { destruct b4; [|done]. apply with_t_timers_inv; [apply with_wants_inv, Ht3|done]. }
  destruct b5; [apply timer_tick_inv; [discriminate|done]|done].
Qed.

Lemma clear_all_inv t w t' w' :
  clear_all t w = (t', w') -> tunn_inv t w -> tunn_inv t' w' /\ (ticks w <= ticks w')%nat.
Proof.
  unfold clear_all. cbn [t_timers with_sessions with_queue].
  destruct (timers_clear (t_timers t) w) as [ti w1] eqn:Hc. intros [= <- <-] [Hh [Hl Hs] Hq Ht].
  destruct (timers_clear_inv _ _ _ _ Hc Ht) as [Hti Hw]. split; [|done].
  split; simpl; try done; [|by split; [simpl; lia|]].
  split; [by rewrite length_fmap|]. intros i s Hi. rewrite list_lookup_fmap in Hi.
  by destruct (sessions t !! i).
Qed.

Lemma set_expired_ok h : handshake_ok h -> handshake_ok (set_expired h).
Proof. apply step_ok. constructor. Qed.

Lemma reset_limiter_inv t w t' w' :
  reset_limiter t w = (t', w') -> 
  (forall v, tunn_inv t v -> tunn_inv t' v) /\ (ticks w <= ticks w')%nat
  /\ t_timers t' = t_timers t /\ handshake t' = handshake t /\ sessions t' = sessions t.
Proof.
  unfold reset_limiter, reset_count. cbn [instant_now]. intros Heq.
  repeat (split_if; simplify_eq); simpl; split_and!; auto with tunnel lia.
Qed.

(** The last part of [update_timers], on a live connection. *)
Lemma update_tail_total now t w :
  tunn_inv t w -> timers_at (t_timers t) now w -> (32 <= buf)%nat ->
  exists r t' w',
    (let! (initiation, keepalive, t) := idle_timers now t in
     if initiation then tunn_format_handshake_initiation buf true t w
     else if keepalive then encapsulate [] buf t w
     else Ret (Done, t, w)) = Ret (r, t', w')
  /\ tunn_inv t' w' /\ (ticks w <= ticks w')%nat.
Proof.
  intros Hinv Hat Hn. destruct (idle_timers_total now t w Hinv Hat) as (i & k & t5 & -> & Hinv5).
  cbn [outcome_bind]. destruct i; [|destruct k; [|by eexists _, _, _]].
  - by apply tunn_format_total.
  - by apply encapsulate_total.
Qed.

Lemma update_timers_total t w :
  tunn_inv t w -> (32 <= buf)%nat ->
  exists r t' w', update_timers buf t w = Ret (r, t', w')
  /\ tunn_inv t' w' /\ (ticks w <= ticks w')%nat.
Proof.
  intros Hinv Hn. unfold update_timers. cbn [instant_now].
  destruct (reset_limiter t _) as [t1 w1] eqn:Hr.
  destruct (reset_limiter_inv _ _ _ _ Hr) as (Hinv1 & Hw1 & Hti & _). simpl in Hw1.
  destruct (update_session_timers_ok t1 w w1 (Hinv1 _ Hinv) ltac:(lia)) as (Hus & Hinv2 & Hat).
  unfold since_start in *. cbn [instant_now fst] in *.
  set (now := duration_since _ _) in *. rewrite Hus. cbn [outcome_bind].
  set (t2 := expired_at now t1) in *. pose proof (fun n => timers_at_get _ _ _ n Hat) as Hle.
  destruct (is_expired _); [eexists _, _, _; split; [reflexivity|split; [done|lia]]|].
  edestruct (and_elapsed_ok (has_cookie (handshake t2))) as [b ->]; [by apply Hle|]. cbn [outcome_bind].
  set (t3 := if b then _ else t2).
  assert (tunn_inv t3 w1 /\ t_timers t3 = t_timers t2) as [Hinv3 Ht3].
  { subst t3. destruct b; [|done]. split; [|done]. apply with_handshake_inv; [|done].
    eapply step_ok; [apply step_clear_cookie|apply Hinv2]. }
  rewrite elapsed_ok by (by apply Hle). cbn [outcome_bind].
  destruct (clear_all (with_handshake (set_expired (handshake t3)) t3) w1) as [t4 w4] eqn:Hca.
  apply clear_all_inv in Hca as [Hinv4 Hw4];
    [|apply with_handshake_inv; [apply set_expired_ok, Hinv3|done]].
  destruct (_ <=? _); [eexists _, _, _; split; [reflexivity|]; split; [done|lia]|].
  destruct (timer _) as [sent|].
  - rewrite elapsed_ok by (by apply Hle). cbn [outcome_bind].
    destruct (_ <=? _); [eexists _, _, _; split; [reflexivity|]; split; [done|lia]|].
    cbn [Clock.elapsed instant_now].
    assert (tunn_inv t3 (mkWorld (S (ticks w1)) (drawn w1))) as Hinv5
      by (eapply tunn_inv_later; [|exact Hinv3]; simpl; lia).
    destruct (_ <=? _); [|eexists _, _, _; split; [reflexivity|]; simpl; split; [done|lia]].
    destruct (tunn_format_total buf true t3 _ Hinv5) as (r & t5 & w5 & -> & Hi5 & Hw5).
    simpl in *. eexists _, _, _. split; [reflexivity|]. split; [done|lia].
  - destruct (update_tail_total now t3 w1 Hinv3) as (r & t6 & w6 & -> & ? & ?); [by rewrite Ht3|done|].
    eexists _, _, _. split; [reflexivity|]. split; [done|lia].
Qed.

End Invariants.
