(* ===== verification/TunnelRuns.v ===== *)
(** * Runs of a tunnel

    Sequences of operations on one tunnel: absence of panics and the state
    invariant, expiry of sessions and of the connection, truncation of received
    packets, and the packet queue. *)

From Stdlib Require Import ZArith Lia.
From stdpp Require Import base numbers list option relations.
From S2P Require Import Prelude Errors Clock ReplayWindow Packet Crypto Session Handshake RateLimiter Tunnel.

(** ** Operations of the interface *)

Inductive tunn_op :=
| OpEncapsulate (src : bytes)
| OpDecapsulate (src_addr : option IpAddr) (datagram : bytes)
| OpHandleVerified (packet : Packet)
| OpUpdateTimers
| OpInitiate (force_resend : bool).

Section Runs.
Context `{C : Crypto} `{CL : !CryptoLaws C} `{E : Env} `{MC : !MonotoneClock E}.

Definition run_op (n : nat) (op : tunn_op) (t : Tunn) (w : World) : outcome (TunnResult * Tunn * World) :=
  match op with
  | OpEncapsulate src => encapsulate src n t w
  | OpDecapsulate a dg => decapsulate a dg n t w
  | OpHandleVerified p => handle_verified_packet p n t w
  | OpUpdateTimers => update_timers n t w
  | OpInitiate force => tunn_format_handshake_initiation n force t w
  end.

(** The caller's obligations: room for the packet in the buffer, and packets that
    come from the parser. *)
Definition admissible (n : nat) (op : tunn_op) : Prop :=
  match op with
  | OpEncapsulate src => (length src + 32 <= n)%nat
  | OpDecapsulate _ dg => (length dg <= n)%nat
  | OpHandleVerified p => wf_packet p /\ fits n p
  | _ => True
  end.

Fixpoint run_ops (n : nat) (ops : list tunn_op) (t : Tunn) (w : World)
    : outcome (list TunnResult * Tunn * World) :=
  match ops with
  | [] => Ret ([], t, w)
  | op :: ops =>
      let! (r, t, w) := run_op n op t w in
      let! (rs, t, w) := run_ops n ops t w in
      Ret (r :: rs, t, w)
  end.

Lemma run_op_total n op t w :
  (HANDSHAKE_INIT_SZ <= n)%nat -> tunn_inv n t w -> admissible n op ->
  exists r t' w', run_op n op t w = Ret (r, t', w') /\ tunn_inv n t' w' /\ (ticks w <= ticks w')%nat.
Proof.
  unfold HANDSHAKE_INIT_SZ. intros Hn Hinv Ha. destruct op; simpl in *.
  - by apply encapsulate_total.
  - apply decapsulate_total; [done|unfold COOKIE_REPLY_SZ; lia|done].
  - destruct Ha. by apply handle_verified_total.
  - apply update_timers_total; [done|lia].
  - by apply tunn_format_total.
Qed.

Lemma run_ops_total n ops t w :
  (HANDSHAKE_INIT_SZ <= n)%nat -> tunn_inv n t w -> Forall (admissible n) ops ->
  exists rs t' w', run_ops n ops t w = Ret (rs, t', w') /\ tunn_inv n t' w' /\ (ticks w <= ticks w')%nat.
Proof.
  intros Hn Hinv Hops. revert t w Hinv.
  induction Hops as [|op ops Ha Hops IH]; intros t w Hinv; simpl; [by eexists _, _, _|].
  destruct (run_op_total n op t w Hn Hinv Ha) as (r & t1 & w1 & -> & Hinv1 & Hw1). simpl.
  destruct (IH t1 w1 Hinv1) as (rs & t2 & w2 & -> & Hinv2 & Hw2). simpl.
  eexists _, _, _. split; [reflexivity|]. split; [done|lia].
Qed.

Lemma tunn_new_inv n sp peer psk ka idx rl w t w' :
  tunn_new sp peer psk ka idx rl w = (t, w') -> tunn_inv n t w'.
Proof.
  unfold tunn_new, timers_new. cbn [handshake_new instant_now stamper_new system_time_now].
  set (w1 := mkWorld _ _). intros Heq.
  assert (exists r, t = mkTunn
    (mkHandshake (params_new sp (x25519_public sp) peer psk) (wrap 32 (Z.shiftl idx 8)) HNone HNone
       (mkCookies None 0 None) tai64n_zero
       (mkTimeStamper (wall (ticks w)) (instant_of_nanos (clock (S (ticks w))))) None)
    (replicate (Z.to_nat N_SESSIONS) None) 0 []
    (mkTimers false (instant_of_nanos (clock (S (S (ticks w))))) (replicate (timer_index Top) 0)
       (replicate (Z.to_nat N_SESSIONS) 0) false false (default 0 ka)
       (match rl with None => true | Some _ => false end)) 0 0 r) as [r ->].
  { destruct rl; [|unfold rate_limiter_new in Heq; cbn [fill_bytes instant_now] in Heq];
      apply pair_equal_spec in Heq as [<- _]; by eexists. }
  split; cbn [handshake sessions packet_queue t_timers].
  - split; [|split; [by eexists _, _|apply length_x25519_public]].
    split; simpl; [apply wrap_in_width; lia|done|done].
  - split; [by rewrite length_replicate|]. intros i s [Hc _]%lookup_replicate_1. done.
  - split; [simpl; lia|done].
  - split; [done|done|]. exists (S (S (ticks w))). split; [done|].
    assert (forall l, Forall (fun d => d = 0) l -> Forall (past (S (S (ticks w))) w') l) as Hz.
    { intros l Hl. eapply Forall_impl; [exact Hl|]. intros d ->. unfold past. lia. }
    split; apply Hz; repeat constructor.
Qed.

Lemma tunn_new_ticks sp peer psk ka idx rl w t w' :
  tunn_new sp peer psk ka idx rl w = (t, w') -> (ticks w <= ticks w')%nat.
Proof.
  unfold tunn_new, timers_new. cbn [handshake_new instant_now stamper_new system_time_now].
  destruct rl; [|unfold rate_limiter_new; cbn [fill_bytes instant_now]];
    intros [_ <-]%pair_equal_spec; cbn; lia.
Qed.

(** The age of the last handshake, read now. *)
Lemma handshake_age_ok buf t w :
  tunn_inv buf t w ->
  exists time w', time_since_last_handshake t w = Ret (time, w') /\ (ticks w <= ticks w')%nat
    /\ forall a, time = Some a -> in_width 64 (as_secs a).
Proof.
  intros Hinv. unfold time_since_last_handshake. destruct (session_at t (current t)); [|by eexists _, _].
  destruct (inv_timers _ _ _ Hinv) as [Hl Hsl (k & Hk & Hf & Hsf)].
  pose proof (timer_get_past _ w TimeSessionEstablished (inv_timers _ _ _ Hinv) ltac:(done) k Hk Hf) as [H0 H1].
  unfold elapsed, instant_now. rewrite Hk, duration_since_readings.
  pose proof (clock_range (ticks w)). pose proof (clock_range k).
  rewrite duration_sub_ok by lia. cbn [outcome_bind]. eexists _, _. split; [done|]. cbn [ticks]. split; [lia|].
  intros a [= <-]. unfold as_secs, NANOS_PER_SEC in *. split; [apply Z.div_pos; lia|].
  apply Z.div_lt_upper_bound; lia.
Qed.

(** ** What the expiry keeps *)

Definition occupied (ss : list (option Session)) (i : nat) : Prop := exists s, ss !! i = Some (Some s).

Lemma format_sessions n force t w r t' w' :
  tunn_format_handshake_initiation n force t w = Ret (r, t', w') -> sessions t' = sessions t.
Proof.
  unfold tunn_format_handshake_initiation, clear_if_expired. destruct (_ && _); [by intros [= <- <- <-]|].
  cbn [timers_clear instant_now]. intros Hf.
  destruct (is_expired _); invert_binds; destruct r0; simplify_eq; try done; by destruct (negb _).
Qed.

Lemma insert_occupied ss i j (s s' : Session) :
  ss !! j = Some (Some s) -> occupied (<[j := Some s']> ss) i -> occupied ss i.
Proof.
  intros Hj [x Hx]. apply list_lookup_insert_Some in Hx as [(-> & _ & _)|[_ Hx]]; [by exists s|by exists x].
Qed.

Lemma encapsulate_occupied n src t w r t' w' i :
  tunn_inv n t w -> encapsulate src n t w = Ret (r, t', w') ->
  occupied (sessions t') i -> occupied (sessions t) i.
Proof.
  intros Hinv. unfold encapsulate. destruct (session_at t (current t)) as [ses|] eqn:Hs.
  - intros Hf. invert_binds. simplify_eq.
    assert (sessions t !! slot (current t) = Some (Some ses)) as Hl.
    { unfold session_at in Hs. rewrite <- Hs. apply list_lookup_lookup_total_lt.
      destruct (inv_slots _ _ _ Hinv) as [-> _]. apply slot_lt. }
    destruct (bool_decide _); simpl; by apply (insert_occupied _ _ _ ses).
  - intros Hf%format_sessions. rewrite Hf. unfold queue_packet. by case_bool_decide.
Qed.

Lemma idle_sessions now t i k t' : idle_timers now t = Ret (i, k, t') -> sessions t' = sessions t.
Proof.
  unfold idle_timers. intros Hf. invert_binds.
  repeat (split_if; invert_binds; simplify_eq; try done).
Qed.

(** The sessions left by [update_timers] are among those the expiry kept. *)
Lemma update_timers_occupied n t w r t' w' i :
  tunn_inv n t w -> (32 <= n)%nat -> update_timers n t w = Ret (r, t', w') ->
  occupied (sessions t') i -> occupied (sessions (expired_at (since_start t w) t)) i.
Proof.
  intros Hinv Hn. unfold update_timers. cbn [instant_now].
  destruct (reset_limiter t _) as [t1 w1] eqn:Hr.
  destruct (reset_limiter_inv n _ _ _ _ Hr) as (Hinv1 & Hw1 & Hti & _ & Hse). simpl in Hw1.
  destruct (update_session_timers_ok n t1 w w1 (Hinv1 _ Hinv) ltac:(lia)) as (Hus & Hinv2 & Hat).
  unfold since_start in *. cbn [instant_now fst] in *. rewrite Hti in *.
  set (now := duration_since _ _) in *.
  assert (sessions (expired_at now t) = sessions (expired_at now t1)) as ->
    by (unfold expired_at; simpl; by rewrite Hti, Hse).
  rewrite Hus. cbn [outcome_bind]. set (t2 := expired_at now t1) in *.
  pose proof (fun n => timers_at_get _ _ _ n Hat) as Hle.
  destruct (is_expired _); [by intros [= <- <- <-]|].
  edestruct (and_elapsed_ok (has_cookie (handshake t2))) as [b ->]; [by apply Hle|]. cbn [outcome_bind].
  set (t3 := if b then _ else t2).
  assert (sessions t3 = sessions t2 /\ t_timers t3 = t_timers t2 /\ tunn_inv n t3 w1) as (<- & Ht3 & Hinv3).
  { subst t3. destruct b; [|done]. split_and!; try done. apply with_handshake_inv; [|done].
    eapply step_ok; [apply step_clear_cookie|apply Hinv2]. }
  rewrite elapsed_ok by (by apply Hle). cbn [outcome_bind].
  assert (forall t4 w4, clear_all (with_handshake (set_expired (handshake t3)) t3) w1 = (t4, w4) ->
    occupied (sessions t4) i -> occupied (sessions t3) i) as Hclear.
  { intros t4 w4 [= <- <-] [s Hs]. simpl in Hs. rewrite list_lookup_fmap in Hs.
    by destruct (sessions t3 !! i). }
  destruct (clear_all _ _) as [t4 w4] eqn:Hca. specialize (Hclear _ _ eq_refl).
  destruct (_ <=? _); [intros [= <- <- <-]; exact Hclear|]. destruct (timer _) as [sent|].
  - rewrite elapsed_ok by (by apply Hle). cbn [outcome_bind].
    destruct (_ <=? _); [intros [= <- <- <-]; exact Hclear|]. cbn [Clock.elapsed instant_now].
    destruct (_ <=? _); [|by intros [= <- <- <-]]. intros Hf%format_sessions. by rewrite Hf.
  - intros Hf. apply bind_Ret_inv in Hf as ([[init keep] t5] & Hid & Hf).
    destruct (idle_timers_total n now t3 w1) as (i' & k' & t5' & Hid' & Hinv5); [done|by rewrite Ht3|].
    assert (sessions t5 = sessions t3) as <-; [by eapply idle_sessions|].
    rewrite Hid in Hid'. simplify_eq. destruct i'; [apply format_sessions in Hf; by rewrite Hf|].
    destruct k'; [by eapply encapsulate_occupied|by simplify_eq].
Qed.

(** ** Properties *)

(** C4. A tunnel never panics and keeps its invariant: for a fresh tunnel and any
    sequence of sends, receptions, timer updates and forced initiations, with
    buffers of at least 148 bytes that fit each packet and a monotone clock, every
    operation returns; afterwards each session is in the slot of its index, at
    most 256 packets are queued, all of them sendable, no timer is in the future
    and the handshake is consistent. *)
Theorem tunnel_runs_total (n : nat) (sp peer : bytes) (psk : option bytes) (ka : option Z) (idx : Z)
    (rl : option RateLimiter) (w w1 : World) (t : Tunn) (ops : list tunn_op) :
  (HANDSHAKE_INIT_SZ <= n)%nat ->
  tunn_new sp peer psk ka idx rl w = (t, w1) ->
  Forall (admissible n) ops ->
  exists rs t' w', run_ops n ops t w1 = Ret (rs, t', w') /\ length rs = length ops /\ tunn_inv n t' w'.
Proof.
  intros Hn Hnew%(tunn_new_inv n) Hops.
  destruct (run_ops_total n ops t w1 Hn Hnew Hops) as (rs & t' & w' & Hr & Hinv & _).
  exists rs, t', w'. split_and!; try done.
  clear Hops Hinv Hnew. revert t w1 rs Hr.
  induction ops as [|op ops IH]; intros t w1 rs Hr; simpl in Hr; [by simplify_eq|].
  invert_binds. simplify_eq. simpl. f_equal. by eapply IH.
Qed.

(** Old sessions are dropped: after [update_timers] every session still held was
    established (in the tunnel's time) at most 180 seconds before. *)
Theorem sessions_expire (n : nat) (t : Tunn) (w : World) :
  (32 <= n)%nat -> tunn_inv n t w ->
  exists r t' w', update_timers n t w = Ret (r, t', w')
  /\ forall i s, sessions t' !! i = Some (Some s) ->
     exists d, session_timers (t_timers t) !! i = Some d
     /\ since_start t w - d <= REJECT_AFTER_TIME.
Proof.
  intros Hn Hinv. destruct (update_timers_total n t w Hinv Hn) as (r & t' & w' & Hu & _ & _).
  exists r, t', w'. split; [done|]. intros i s Hs.
  destruct (update_timers_occupied n t w r t' w' i Hinv Hn Hu (ex_intro _ s Hs)) as [s' Hs'].
  unfold expired_at in Hs'. simpl in Hs'. rewrite lookup_zip_with in Hs'.
  destruct (sessions t !! i); [|done]. simpl in Hs'.
  destruct (session_timers (t_timers t) !! i) as [d|]; [|done]. simpl in Hs'.
  exists d. split; [done|]. destruct (Z.ltb_spec REJECT_AFTER_TIME (since_start t w - d)); [done|lia].
Qed.

(** A dead connection is closed: when 540 seconds have passed since the last
    session was established, [update_timers] reports [ConnectionExpired], forgets
    every session and every queued packet, and leaves the handshake expired. *)
Theorem connection_expires (n : nat) (t : Tunn) (w : World) :
  (32 <= n)%nat -> tunn_inv n t w -> is_expired (handshake t) = false ->
  REJECT_AFTER_TIME * 3 <= since_start t w - timer_get (t_timers t) TimeSessionEstablished ->
  exists t' w', update_timers n t w = Ret (TunnErr ConnectionExpired, t', w')
  /\ Forall (fun s => s = None) (sessions t') /\ packet_queue t' = []
  /\ is_expired (handshake t') = true.
Proof.
  intros Hn Hinv Hexp Hage. unfold update_timers. cbn [instant_now].
  destruct (reset_limiter t _) as [t1 w1] eqn:Hr.
  destruct (reset_limiter_inv n _ _ _ _ Hr) as (Hinv1 & Hw1 & Hti & Hh & _). simpl in Hw1.
  destruct (update_session_timers_ok n t1 w w1 (Hinv1 _ Hinv) ltac:(lia)) as (Hus & _ & Hat).
  unfold since_start in *. cbn [instant_now fst] in *. rewrite Hti in *.
  set (now := duration_since _ _) in *. rewrite Hus. cbn [outcome_bind].
  set (t2 := expired_at now t1) in *. pose proof (fun n => timers_at_get _ _ _ n Hat) as Hle.
  change (handshake t2) with (handshake t1). rewrite Hh, Hexp.
  edestruct (and_elapsed_ok (has_cookie (handshake t))) as [b ->]; [by apply Hle|]. cbn [outcome_bind].
  rewrite elapsed_ok by (by apply Hle). cbn [outcome_bind].
  assert (timer_get (t_timers t2) TimeSessionEstablished
          = timer_get (t_timers t) TimeSessionEstablished) as ->.
  { unfold t2, expired_at, timer_get. simpl. rewrite Hti. by rewrite list_lookup_total_insert_ne. }
  rewrite (proj2 (Z.leb_le _ _)) by done.
  unfold clear_all. cbn [timers_clear instant_now].
  eexists _, _. split; [reflexivity|]. split; [|done]. simpl. apply Forall_fmap, Forall_true. done.
Qed.

(** The result of the header check, by cases. *)
Lemma validate_shape (p : bytes) (t : Tunn) :
  exists r t', validate_decapsulated_packet p t = Ret (r, t')
  /\ match r with
     | WriteToTunnelV4 q a =>
         exists k, p = q ++ k /\ Z.of_nat (length q) = from_be (sub p 2 4)
         /\ a = sub p 12 16 /\ (20 <= length p)%nat
         /\ rx_bytes t' = add64 (rx_bytes t) (Z.of_nat (length q))
     | WriteToTunnelV6 q a =>
         exists k, p = q ++ k /\ Z.of_nat (length q) = from_be (sub p 4 6) + 40
         /\ a = sub p 8 24 /\ (40 <= length p)%nat
         /\ rx_bytes t' = add64 (rx_bytes t) (Z.of_nat (length q))
     | Done => p = [] /\ t' = t
     | TunnErr e => e = InvalidPacket /\ t' = t
     | WriteToNetwork _ => False
     end.
Proof.
  unfold validate_decapsulated_packet. case_bool_decide as Hl.
  { eexists _, _. split; [reflexivity|]. split; [by apply nil_length_inv|done]. }
  unfold ip_header. destruct (index_ok p 0 ltac:(lia)) as (b & -> & _). cbn [outcome_bind].
  unfold IPV4_MIN_HEADER_SIZE, IPV6_MIN_HEADER_SIZE.
  repeat split_if; bprop; [| |eexists _, _; split; [reflexivity|done]];
    rewrite !slice_ok by (vm_compute in *; lia); cbn [outcome_bind].
  - change (sub p IPV4_LEN_OFF (IPV4_LEN_OFF + IP_LEN_SZ)) with (sub p 2 4).
    pose proof (from_be_range (sub p 2 4)) as [Hr0 _].
    destruct (bool_decide (length p < _)%nat) eqn:Hb; bprop;
      [eexists _, _; split; [reflexivity|done]|].
    rewrite slice_ok by lia. cbn [outcome_bind].
    eexists _, _. split; [reflexivity|]. exists (drop (Z.to_nat (from_be (sub p 2 4))) p).
    rewrite length_sub by lia. split_and!; try done; try lia.
    + unfold sub at 1. by rewrite drop_0, Nat.sub_0_r, take_drop.
    + simpl. by rewrite Nat.sub_0_r.
  - change (sub p IPV6_LEN_OFF (IPV6_LEN_OFF + IP_LEN_SZ)) with (sub p 4 6).
    pose proof (from_be_range (sub p 4 6)) as [Hr0 _].
    destruct (bool_decide (length p < _)%nat) eqn:Hb; bprop;
      [eexists _, _; split; [reflexivity|done]|].
    rewrite slice_ok by lia. cbn [outcome_bind].
    eexists _, _. split; [reflexivity|].
    exists (drop (Z.to_nat (from_be (sub p 4 6)) + 40) p).
    rewrite length_sub by lia. split_and!; try done; try lia.
    + unfold sub at 1. by rewrite drop_0, Nat.sub_0_r, take_drop.
    + simpl. by rewrite Nat.sub_0_r.
Qed.

(** What is handed to the tunnel interface is a prefix of the decrypted packet,
    exactly as long as its IP header says, with the source address of that
    header; anything shorter than its header claims is refused. *)
Theorem validated_packet_is_prefix (p : bytes) (t : Tunn) :
  exists r t', validate_decapsulated_packet p t = Ret (r, t')
  /\ match r with
     | WriteToTunnelV4 q a =>
         exists k, p = q ++ k /\ Z.of_nat (length q) = from_be (sub p 2 4)
         /\ a = sub p 12 16 /\ (20 <= length p)%nat
         /\ rx_bytes t' = add64 (rx_bytes t) (Z.of_nat (length q))
     | WriteToTunnelV6 q a =>
         exists k, p = q ++ k /\ Z.of_nat (length q) = from_be (sub p 4 6) + 40
         /\ a = sub p 8 24 /\ (40 <= length p)%nat
         /\ rx_bytes t' = add64 (rx_bytes t) (Z.of_nat (length q))
     | Done => p = [] /\ t' = t
     | TunnErr e => e = InvalidPacket /\ t' = t
     | WriteToNetwork _ => False
     end.
Proof. apply validate_shape. Qed.

(** With no session and a buffer too small for an initiation,
    [send_queued_packet] duplicates the packet it takes from the queue:
    [encapsulate] has already queued it again when the error branch puts it
    back. *)
Theorem send_queued_packet_duplicates (t : Tunn) (p : bytes) (q : list bytes) (n : nat) (w : World) :
  session_at t (current t) = None -> packet_queue t = p :: q ->
  (length q + 1 < MAX_QUEUE_DEPTH)%nat -> (n < HANDSHAKE_INIT_SZ)%nat ->
  state (handshake t) = HNone ->
  exists t' w', send_queued_packet n t w = Ret (Done, t', w') /\ packet_queue t' = p :: q ++ [p].
Proof.
  intros Hs Hq Hlen Hn Hst. unfold send_queued_packet, dequeue_packet. rewrite Hq.
  unfold encapsulate. change (session_at (with_queue q t) (current (with_queue q t)))
    with (session_at t (current t)). rewrite Hs.
  unfold queue_packet. cbn [packet_queue with_queue]. rewrite bool_decide_eq_true_2 by lia.
  unfold tunn_format_handshake_initiation, clear_if_expired, is_in_progress, is_expired.
  cbn [handshake with_queue]. rewrite Hst. cbn [andb negb].
  unfold format_handshake_initiation. rewrite bool_decide_eq_true_2 by lia. cbn [outcome_bind].
  unfold requeue_packet. cbn [packet_queue with_queue with_handshake].
  rewrite bool_decide_eq_true_2 by (rewrite length_app; simpl; lia). by eexists _, _.
Qed.

End Runs.

(** ** Examples *)

#[local] Existing Instance toy_crypto.
#[local] Existing Instance toy_laws.
#[local] Existing Instance example_env.
#[local] Existing Instance example_env_monotone.

Definition example_tunn (mine peer : byte) (idx : Z) : Tunn * World :=
  tunn_new (example_secret mine) (x25519_public (example_secret peer)) None None idx None (mkWorld 0 0).

Lemma example_tunn_inv n mine peer idx :
  tunn_inv n (fst (example_tunn mine peer idx)) (snd (example_tunn mine peer idx)).
Proof. eapply tunn_new_inv. apply surjective_pairing. Qed.

Lemma tunnel_runs_total_witness :
  exists rs t' w',
    run_ops 2048 [OpEncapsulate [x45]; OpUpdateTimers; OpInitiate true]
      (fst (example_tunn x03 x04 1)) (snd (example_tunn x03 x04 1)) = Ret (rs, t', w')
    /\ length rs = 3%nat /\ tunn_inv 2048 t' w'.
Proof.
  apply (tunnel_runs_total 2048 (example_secret x03) (x25519_public (example_secret x04)) None None 1 None
           (mkWorld 0 0)); [ground|reflexivity|repeat constructor; ground].
Defined.

Lemma sessions_expire_witness :
  exists r t' w', update_timers 2048 (fst (example_tunn x03 x04 1)) (snd (example_tunn x03 x04 1))
                  = Ret (r, t', w').
Proof.
  destruct (sessions_expire 2048 (fst (example_tunn x03 x04 1)) (snd (example_tunn x03 x04 1)))
    as (r & t' & w' & Hu & _); [ground|apply example_tunn_inv|].
  exists r, t', w'. exact Hu.
Defined.

Lemma connection_expires_witness :
  exists t' w', update_timers 2048 (fst (example_tunn x03 x04 1)) (mkWorld 1000 500)
                = Ret (TunnErr ConnectionExpired, t', w').
Proof.
  destruct (connection_expires 2048 (fst (example_tunn x03 x04 1)) (mkWorld 1000 500))
    as (t' & w' & Hu & _).
  - ground.
  - apply (tunn_inv_later _ _ (snd (example_tunn x03 x04 1))); [vm_compute; lia|apply example_tunn_inv].
  - reflexivity.
  - vm_compute. discriminate.
  - exists t', w'. exact Hu.
Defined.

Lemma send_queued_packet_duplicates_witness :
  exists t' w',
    send_queued_packet 100 (with_queue [[x01]] (fst (example_tunn x03 x04 1))) (mkWorld 9 90)
    = Ret (Done, t', w') /\ packet_queue t' = [[x01]; [x01]].
Proof.
  apply (send_queued_packet_duplicates (with_queue [[x01]] (fst (example_tunn x03 x04 1))) [x01] []);
    [reflexivity|reflexivity|ground|ground|reflexivity].
Defined.
