(* ===== verification/TunnelTransport.v ===== *)
(** * Two tunnels end to end

    From two fresh tunnels and one packet to send: the exchange of datagrams that
    establishes the session and delivers the packet to the other side's
    interface, through the public operations [encapsulate] and [decapsulate]. *)

From Stdlib Require Import ZArith Lia.
From stdpp Require Import base numbers list gmap option.
From S2P Require Import Prelude Errors Clock ReplayWindow Packet Crypto Session Handshake RateLimiter Tunnel TunnelRuns.

Section Transport.
Context `{C : Crypto} `{CL : !CryptoLaws C} `{E : Env}.

(** ** The limiter below its limit *)

Lemma verify_free r a src n w p i :
  parse_incoming_packet src = Ret (Ok p) -> handshake_sender p = Some i ->
  mac1_valid r src = true -> count r < limit r ->
  verify_packet r a src n w = Ret (Ok p, with_count (add64 (count r) 1) r, w).
Proof.
  intros Hp Hi Hm Hc. unfold verify_packet. rewrite Hp. cbn [outcome_bind]. rewrite Hi.
  rewrite bool_decide_eq_true_2 by (by eapply parsed_handshake_length). cbn [outcome_bind require].
  fold (dg_msg src) (dg_mac1 src) (dg_mac2 src). unfold mac1_valid in Hm. rewrite Hm. cbn [negb].
  unfold is_under_load. by rewrite (proj2 (Z.leb_gt _ _)) by done.
Qed.

Lemma parsed_nonempty src p : parse_incoming_packet src = Ret (Ok p) -> length src <> 0%nat.
Proof. intros Hp H0. apply nil_length_inv in H0. subst. discriminate Hp. Qed.

Lemma macs_valid r msg macs :
  macs_for (mac1_key r) msg macs -> mac1_valid r (msg ++ macs) = true.
Proof.
  intros [Hl Hm]. rewrite <- (take_drop 16 macs).
  assert (length (take 16 macs) = 16%nat /\ length (drop 16 macs) = 16%nat) as [H1 H2]
    by (rewrite length_take, length_drop; lia).
  destruct (dg_split msg _ _ H1 H2) as (H3 & H4 & _).
  unfold mac1_valid. rewrite H3, H4. by apply bool_decide_eq_true_2.
Qed.

(** Decapsulating a message that passes the limiter. *)
Lemma decapsulate_handshake a dg n t w p i :
  parse_incoming_packet dg = Ret (Ok p) -> handshake_sender p = Some i ->
  mac1_valid (rate_limiter t) dg = true -> count (rate_limiter t) < limit (rate_limiter t) ->
  exists rl, decapsulate a dg n t w = handle_verified_packet p n (with_limiter rl t) w.
Proof.
  intros Hp Hi Hm Hc. unfold decapsulate.
  rewrite bool_decide_eq_false_2 by (by eapply parsed_nonempty).
  rewrite (verify_free _ _ _ _ _ p i) by done. by eexists.
Qed.

Lemma decapsulate_data a dg n t w p :
  parse_incoming_packet dg = Ret (Ok p) -> handshake_sender p = None ->
  decapsulate a dg n t w = handle_verified_packet p n (with_limiter (rate_limiter t) t) w.
Proof.
  intros Hp Hi. unfold decapsulate.
  rewrite bool_decide_eq_false_2 by (by eapply parsed_nonempty).
  destruct (verify_other (rate_limiter t) a dg COOKIE_REPLY_SZ w) as (res & -> & Hres);
    [intros q Hq; congruence|].
  cbn [outcome_bind]. by rewrite (proj2 (Hres p) Hp).
Qed.

(** ** Steps of the exchange *)

Definition slots_full (t : Tunn) : Prop := length (sessions t) = Z.to_nat N_SESSIONS.

Lemma session_at_store t i j s :
  slots_full t -> slot i = slot j -> session_at (store_session i s t) j = s.
Proof.
  intros Hl Hij. unfold session_at, store_session. simpl. rewrite Hij.
  rewrite list_lookup_total_insert_eq; [done|]. rewrite Hl. apply slot_lt.
Qed.

Lemma session_at_tick t n i : session_at (timer_tick n t) i = session_at t i.
Proof. done. Qed.

Lemma session_at_current t i j : session_at (set_current_session j t) i = session_at t i.
Proof. unfold set_current_session. by repeat split_if. Qed.

Lemma slots_full_current t j : slots_full t -> slots_full (set_current_session j t).
Proof. unfold set_current_session. by repeat split_if. Qed.

(** The first packet is queued and an initiation goes out. *)
Lemma first_encapsulate src n t w init h w' :
  session_at t (current t) = None -> state (handshake t) = HNone -> packet_queue t = [] ->
  format_handshake_initiation (handshake t) n w = Ret (Ok init, h, w') ->
  exists t', encapsulate src n t w = Ret (WriteToNetwork init, t', w')
  /\ handshake t' = h /\ sessions t' = sessions t /\ current t' = current t
  /\ packet_queue t' = [src] /\ rate_limiter t' = rate_limiter t.
Proof.
  intros Hs Hst Hq Hf. unfold encapsulate. rewrite Hs. unfold queue_packet. rewrite Hq.
  cbn [length]. rewrite bool_decide_eq_true_2 by (unfold MAX_QUEUE_DEPTH; lia).
  unfold tunn_format_handshake_initiation, clear_if_expired, is_in_progress, is_expired.
  cbn [handshake with_queue]. rewrite Hst. cbn [andb handshake with_queue].
  rewrite Hf. cbn [outcome_bind].
  eexists. split; [reflexivity|]. rewrite Hst. cbn [negb]. done.
Qed.

(** The responder stores its session. *)
Lemma handle_init_ok p n t w resp ses h w' :
  slots_full t ->
  receive_handshake_initialization (handshake t) p n w = Ret (Ok (resp, ses), h, w') ->
  exists t', handle_verified_packet (PHandshakeInit p) n t w = Ret (WriteToNetwork resp, t', w')
  /\ session_at t' (receiving_index ses) = Some ses /\ slots_full t'
  /\ rate_limiter t' = rate_limiter t.
Proof.
  intros Hl Hr. cbn [handle_verified_packet]. unfold handle_handshake_init. rewrite Hr.
  cbn [outcome_bind]. eexists. split; [reflexivity|]. split; [|split; [|done]].
  - by apply (session_at_store (with_handshake h t)).
  - unfold slots_full. simpl. by rewrite length_insert.
Qed.

(** The initiator stores its session, makes it current and sends a keepalive. *)
Lemma handle_resp_ok p n t w ses h w' :
  slots_full t -> session_at t (current t) = None -> slot (receiving_index ses) <> slot (current t) ->
  (32 <= n)%nat ->
  receive_handshake_response (handshake t) p w = Ret (Ok ses, h, w') ->
  exists t', handle_verified_packet (PHandshakeResponse p) n t w
             = Ret (WriteToNetwork (wire (PPacketData (data_packet ses []))), t', w')
  /\ session_at t' (current t') = Some (after_send ses) /\ slots_full t'
  /\ packet_queue t' = packet_queue t.
Proof.
  intros Hl Hn Hslot Hbuf Hr. cbn [handle_verified_packet]. unfold handle_handshake_response. rewrite Hr.
  cbn [outcome_bind]. rewrite format_packet_data_ok by done. cbn [outcome_bind].
  eexists. split; [reflexivity|].
  set (t1 := timer_tick_session_established _ _ _).
  assert (session_at t1 (receiving_index ses) = Some (after_send ses)) as Hs1
    by (by apply (session_at_store (with_handshake h t))).
  assert (session_at t1 (current t) = None) as Hc1.
  { rewrite <- Hn. unfold session_at, t1. simpl. by rewrite list_lookup_total_insert_ne. }
  assert (current (set_current_session (receiving_index ses) t1) = receiving_index ses) as Hcur.
  { unfold set_current_session. change (current t1) with (current t). rewrite Hc1.
    destruct (current t =? receiving_index ses) eqn:Heq; bprop; [congruence|done]. }
  change (local_index (after_send ses)) with (receiving_index ses).
  rewrite session_at_current, Hcur. split; [done|]. split.
  - apply slots_full_current. unfold slots_full. simpl. by rewrite length_insert.
  - unfold set_current_session. by repeat split_if.
Qed.

(** A genuine data packet reaches [validate_decapsulated_packet]. *)
Lemma handle_data_ok t w r win c m n :
  slots_full t -> session_at t (receiving_index r) = Some r -> session_window r win ->
  safe_counter c -> window_accepts win c = true -> (length m + 16 <= n)%nat ->
  exists r' t',
    handle_verified_packet (PPacketData (mkData (receiving_index r) c (sealed (receiver r) c m []))) n t w
    = (let! (res, t'') := validate_decapsulated_packet m t' in Ret (res, t'', w))
  /\ session_window r' (fst (window_mark win c))
  /\ receiving_index r' = receiving_index r /\ receiver r' = receiver r
  /\ session_at t' (receiving_index r) = Some r' /\ slots_full t'
  /\ rate_limiter t' = rate_limiter t.
Proof.
  intros Hl Hs Hw Hc Hacc Hn.
  destruct (receive_genuine_window r win c m n Hw Hc Hn) as (res & r' & Hr & Hw' & Hi & Hk & Hres).
  rewrite Hacc in Hres. subst res.
  cbn [handle_verified_packet]. unfold handle_data. cbn [data_receiver_idx]. rewrite Hs, Hr.
  cbn [outcome_bind].
  exists r', (timer_tick TimeLastPacketReceived (set_current_session (receiving_index r)
               (store_session (receiving_index r) (Some r') t))).
  split; [|split_and!; try done].
  - destruct (validate_decapsulated_packet _ _) as [[res' t'']|]; reflexivity.
  - rewrite session_at_tick, session_at_current. by apply session_at_store.
  - apply (slots_full_current (store_session _ _ t)). unfold slots_full. simpl. by rewrite length_insert.
  - unfold set_current_session. simpl. by repeat split_if.
Qed.

(** An IPv4 packet with a consistent length field. *)
Definition ipv4_packet (p : bytes) : Prop :=
  (20 <= length p)%nat /\ from_be (sub p 2 4) = Z.of_nat (length p)
  /\ exists b, p !! 0%nat = Some b /\ Z.shiftr (u8 b) 4 = 4.

Lemma validate_ipv4 p t :
  ipv4_packet p ->
  exists t', validate_decapsulated_packet p t = Ret (WriteToTunnelV4 p (sub p 12 16), t').
Proof.
  intros (Hl & Hlen & b & Hb & Hv). unfold validate_decapsulated_packet.
  rewrite bool_decide_eq_false_2 by lia. unfold ip_header, index. rewrite Hb. cbn [unwrap outcome_bind].
  rewrite Hv. cbn [Z.eqb Pos.eqb andb]. rewrite bool_decide_eq_true_2 by (unfold IPV4_MIN_HEADER_SIZE; lia).
  rewrite !slice_ok by (vm_compute in *; lia). cbn [outcome_bind].
  change (sub p IPV4_LEN_OFF (IPV4_LEN_OFF + IP_LEN_SZ)) with (sub p 2 4).
  rewrite Hlen, Nat2Z.id, bool_decide_eq_false_2, slice_ok by lia. cbn [outcome_bind].
  rewrite (sub_all p) by done. by eexists.
Qed.

(** A fresh tunnel with its own limiter. *)
Record fresh (t : Tunn) (sp peer : bytes) (psk : option bytes) : Prop := {
  fresh_params : params (handshake t) = params_new sp (x25519_public sp) peer psk;
  fresh_state : state (handshake t) = HNone;
  fresh_index : u32_range (next_index (handshake t)) /\ next_index (handshake t) mod 256 = 0;
  fresh_timestamp : last_handshake_timestamp (handshake t) = tai64n_zero;
  fresh_sessions : slots_full t /\ forall i, session_at t i = None;
  fresh_current : current t = 0;
  fresh_queue : packet_queue t = [];
  fresh_mac1 : mac1_key (rate_limiter t) = b2s_hash LABEL_MAC1 (x25519_public sp);
  fresh_load : count (rate_limiter t) < limit (rate_limiter t);
}.

Lemma tunn_new_fresh sp peer psk ka idx w t w' :
  tunn_new sp peer psk ka idx None w = (t, w') ->
  fresh t sp peer psk /\ stamper_ok (stamper (handshake t)).
Proof.
  unfold tunn_new, timers_new, rate_limiter_new.
  cbn [handshake_new instant_now stamper_new system_time_now fill_bytes].
  intros [<- _]%pair_equal_spec. split; [|by eexists _, _].
  split; try done.
  - split; [apply wrap_in_width; lia|]. simpl. unfold wrap. rewrite Z.shiftl_mul_pow2 by lia.
    change (2 ^ 32) with (256 * 2 ^ 24). change (2 ^ 8) with 256.
    rewrite (Z.mul_comm idx 256), Z.mul_mod_distr_l by done. rewrite Z.mul_comm. apply Z_mod_mult.
  - split; [done|]. intros i. unfold session_at.
    change (sessions _) with (replicate (Z.to_nat N_SESSIONS) (@None Session)).
    apply lookup_total_replicate_2, slot_lt.
Qed.

Lemma fresh_slot t sp peer psk : fresh t sp peer psk ->
  slot (next_local_index (handshake t)) <> slot (current t).
Proof.
  intros []. destruct fresh_index0 as [Hr Hm]. rewrite fresh_current0, next_local_index_spec by done.
  rewrite <- Z.add_mod_idemp_l, Hm by done. change ((0 + 1) mod 256) with 1.
  unfold slot, N_SESSIONS. replace (next_index (handshake t) / 256 * 256 + 1)
    with (1 + next_index (handshake t) / 256 * 32 * 8) by lia.
  rewrite Z.mod_add by done. done.
Qed.

Lemma parse_datagram s m :
  u32_range (sending_index s) -> u64_range (sending_key_counter s) ->
  parse_incoming_packet (wire (PPacketData (data_packet s m))) = Ret (Ok (PPacketData (data_packet s m))).
Proof.
  intros. rewrite parse_is_spec, <- (app_nil_r (wire _)), parse_spec_wire; [done| |done].
  by apply data_packet_wf.
Qed.

Lemma after_zero st w : MonotoneClock E -> stamper_ok st ->
  after (tai64n_of (stamp_bytes (stamp_duration st w))) tai64n_zero = true.
Proof.
  intros HM Hst. pose proof (stamp_duration_range st w Hst) as Hd.
  rewrite tai64n_of_stamp by done. unfold after. simpl. apply orb_true_iff. left. apply Z.ltb_lt.
  pose proof (Z.div_pos (stamp_duration st w) NANOS_PER_SEC). unfold as_secs, TAI64_BASE.
  assert (0 < NANOS_PER_SEC) by done. lia.
Qed.

(** A queued packet goes out over the current session. *)
Lemma flush_queue n t w s p :
  session_at t (current t) = Some s -> packet_queue t = [p] -> (length p + 32 <= n)%nat ->
  exists t', decapsulate None [] n t w = Ret (WriteToNetwork (wire (PPacketData (data_packet s p))), t', w)
  /\ packet_queue t' = [].
Proof.
  intros Hs Hq Hn. unfold decapsulate. rewrite bool_decide_eq_true_2 by done.
  unfold send_queued_packet, dequeue_packet. rewrite Hq. unfold encapsulate.
  change (session_at (with_queue [] t) (current (with_queue [] t))) with (session_at t (current t)).
  rewrite Hs, format_packet_data_ok by done. cbn [outcome_bind].
  eexists. split; [reflexivity|]. by destruct (bool_decide _).
Qed.

End Transport.

(** ** Establishing a session *)

Section EndToEnd.
Context `{C : Crypto} `{CL : !CryptoLaws C}.
Context (EA EB : Env) `{MA : !MonotoneClock EA}.
Context (sA sB : bytes) (psk : option bytes) (n : nat).
Hypothesis Hn : (HANDSHAKE_INIT_SZ <= n)%nat.

(** Three datagrams: initiation, response, keepalive. *)
Lemma establish tA tB wA wB src :
  fresh tA sA (x25519_public sB) psk -> fresh tB sB (x25519_public sA) psk ->
  stamper_ok (E := EA) (stamper (handshake tA)) ->
  exists m1 m2 m3 tA1 tA2 tB1 wA1 wA2 wB1 ses ser,
    encapsulate (E := EA) src n tA wA = Ret (WriteToNetwork m1, tA1, wA1)
    /\ decapsulate (E := EB) None m1 n tB wB = Ret (WriteToNetwork m2, tB1, wB1)
    /\ decapsulate (E := EA) None m2 n tA1 wA1 = Ret (WriteToNetwork m3, tA2, wA2)
    /\ m3 = wire (PPacketData (data_packet ses []))
    /\ session_at tA2 (current tA2) = Some (after_send ses) /\ packet_queue tA2 = [src]
    /\ session_at tB1 (receiving_index ser) = Some ser /\ slots_full tB1
    /\ paired ses ser.
Proof.
  intros FA FB Hst. pose proof FA as [PA SA [IA _] TA [LA NA] CA QA MKA LDA].
  pose proof FB as [PB SB [IB _] TB [LB NB] CB QB MKB LDB].
  destruct (initiate (E := EA) sA sB psk (handshake tA) n wA PA IA Hst Hn)
    as (init & h1 & w1 & now & Hf & Hp1 & Hpar & Hs1 & macs & Hinit & Hm).
  destruct (first_encapsulate (E := EA) src n tA wA init h1 w1 (NA _) SA QA Hf)
    as (tA1 & He & Hh1 & HsA1 & HcA1 & HqA1 & HrA1).
  rewrite <- PB in Hp1, Hs1, Hinit, Hm.
  destruct (respond (E := EB) sA sB psk (handshake tB) n wB (next_local_index (handshake tA))
     (fst (fill_bytes (E := EA) 32 wA))
     (stamp_bytes (stamp_duration (E := EA) (stamper (handshake tA)) (snd (fill_bytes (E := EA) 32 wA)))))
    as (resp & now' & hB1 & Hr & Hp2 & macs2 & Hresp & Hm2);
    [done|done|by apply next_local_index_range|unfold HANDSHAKE_INIT_SZ, HANDSHAKE_RESP_SZ in *; lia
    |apply length_stamp_bytes|rewrite TB; by apply after_zero|].
  destruct (decapsulate_handshake (E := EB) None init n tB wB _ _ Hp1 eq_refl) as [rl Hd1];
    [rewrite Hinit; apply macs_valid; by rewrite MKB, PA in *|done|].
  destruct (handle_init_ok (E := EB) _ n (with_limiter rl tB) wB resp _ hB1 _ LB Hr)
    as (tB1 & Hh & HsB1 & HlB1 & _).
  destruct (decapsulate_handshake (E := EA) None resp n tA1 w1 _ _ Hp2 eq_refl) as [rl2 Hd2];
    [rewrite Hresp, HrA1; apply macs_valid; by rewrite MKA, PB in *|by rewrite HrA1|].
  match type of Hp2 with _ = Ret (Ok (PHandshakeResponse ?q)) =>
    destruct (complete (E := EA) h1 _ q w1 Hs1) as [hI2 Hc] end;
    [reflexivity|apply length_t_nothing|rewrite Hpar, PA; reflexivity|].
  rewrite <- Hh1 in Hc.
  pose proof (fun a b c d => handle_resp_ok (E := EA) _ n (with_limiter rl2 tA1) w1 _ hI2 _ a b c d Hc) as HR.
  destruct HR as (tA2 & Hh2 & HsA2 & _ & HqA2);
    [unfold slots_full; simpl; rewrite HsA1; exact LA
    |unfold session_at; simpl; rewrite HsA1; apply NA
    |simpl; rewrite HcA1; apply (fresh_slot tA _ _ _ FA)
    |unfold HANDSHAKE_INIT_SZ in *; lia|].
  rewrite <- Hd1 in Hh. rewrite <- Hd2 in Hh2.
  do 11 eexists. split; [exact He|]. split; [exact Hh|]. split; [exact Hh2|].
  split; [reflexivity|]. split; [exact HsA2|]. split; [by rewrite HqA2|].
  split; [exact HsB1|]. split; [exact HlB1|].
  exists (next_local_index (handshake tA)), (next_local_index (handshake tB)). eexists _, _.
  split; [by apply next_local_index_range|]. split; [by apply next_local_index_range|].
  split; [reflexivity|]. rewrite Hh1, Hpar, PA. reflexivity.
Qed.

(** C1. End to end: take two fresh tunnels that know each other's public keys, each
    with its own clock and random generator, and an IPv4 packet. Sending the
    packet produces an initiation; feeding each datagram to the other side yields a
    response, a keepalive, and nothing more; the flush that follows sends the queued
    packet, and the other side writes exactly that packet, with its source
    address, to its interface. No step panics. *)
Theorem tunnel_end_to_end (kA kB : option Z) (iA iB : Z) (vA vB wA wB : World) (tA tB : Tunn)
    (packet : bytes) :
  tunn_new (E := EA) sA (x25519_public sB) psk kA iA None vA = (tA, wA) ->
  tunn_new (E := EB) sB (x25519_public sA) psk kB iB None vB = (tB, wB) ->
  ipv4_packet packet -> (length packet + 32 <= n)%nat ->
  exists m1 m2 m3 m4 tA1 tA2 tA3 tB1 tB2 tB3 wA1 wA2 wA3 wB1 wB2 wB3,
    encapsulate (E := EA) packet n tA wA = Ret (WriteToNetwork m1, tA1, wA1)
    /\ decapsulate (E := EB) None m1 n tB wB = Ret (WriteToNetwork m2, tB1, wB1)
    /\ decapsulate (E := EA) None m2 n tA1 wA1 = Ret (WriteToNetwork m3, tA2, wA2)
    /\ decapsulate (E := EB) None m3 n tB1 wB1 = Ret (Done, tB2, wB2)
    /\ decapsulate (E := EA) None [] n tA2 wA2 = Ret (WriteToNetwork m4, tA3, wA3)
    /\ decapsulate (E := EB) None m4 n tB2 wB2
       = Ret (WriteToTunnelV4 packet (sub packet 12 16), tB3, wB3)
    /\ packet_queue tA3 = [].
Proof.
  intros [FA HA]%(tunn_new_fresh (E := EA)) [FB _]%(tunn_new_fresh (E := EB)) Hip Hlen.
  destruct (establish tA tB wA wB packet FA FB HA)
    as (m1 & m2 & m3 & tA1 & tA2 & tB1 & wA1 & wA2 & wB1 & ses & ser & H1 & H2 & H3 & -> & HsA & HqA & HsB & HlB & Hpair).
  destruct (flush_queue (E := EA) n tA2 wA2 _ packet HsA HqA Hlen) as (tA3 & H5 & HqA3).
  destruct Hpair as (a & b & ka & kb & Ha & Hb & -> & ->).
  assert (safe_counter 0 /\ safe_counter 1) as [Hc0 Hc1] by (split; ground).
  destruct (handle_data_ok (E := EB) (with_limiter (rate_limiter tB1) tB1) wB1 (session_new b a ka kb)
              window_empty 0 [] n HlB HsB represents_default Hc0)
    as (r1 & t1 & Hd1 & Hw1 & Hi1 & Hk1 & Hs1 & Hl1 & _);
    [vm_compute; reflexivity|unfold HANDSHAKE_INIT_SZ in *; simpl; lia|].
  simpl in Hi1, Hk1, Hs1. rewrite <- Hi1 in Hs1.
  destruct (handle_data_ok (E := EB) (with_limiter (rate_limiter t1) t1) wB1 r1 _ 1 packet n
              Hl1 Hs1 Hw1 Hc1) as (r2 & t2 & Hd2 & _); [vm_compute; reflexivity|lia|].
  destruct (validate_ipv4 packet t2 Hip) as [t3 Hv]. rewrite Hv in Hd2. rewrite Hi1, Hk1 in Hd2.
  exists m1, m2. do 2 eexists. exists tA1, tA2, tA3, tB1, t1, t3, wA1, wA2. eexists. exists wB1, wB1, wB1.
  split; [exact H1|]. split; [exact H2|]. split; [exact H3|].
  split; [erewrite decapsulate_data by (apply parse_datagram || reflexivity; done); exact Hd1|].
  split; [exact H5|]. split; [|done].
  erewrite decapsulate_data by (apply parse_datagram || reflexivity; done). exact Hd2.
Qed.

End EndToEnd.

(** ** Example *)

#[local] Existing Instance toy_crypto.
#[local] Existing Instance toy_laws.

Definition example_ipv4 : bytes :=
  [x45; x00; x00; x14] ++ zeros 8 ++ [x0a; x00; x00; x01] ++ [x0a; x00; x00; x02].

Lemma tunnel_end_to_end_witness :
  exists m1 tA1 wA1,
    encapsulate (E := example_env) example_ipv4 2048
      (fst (example_tunn x03 x04 1)) (snd (example_tunn x03 x04 1)) = Ret (WriteToNetwork m1, tA1, wA1).
Proof.
  destruct (tunnel_end_to_end example_env example_env (MA := example_env_monotone)
    (example_secret x03) (example_secret x04) None 2048 ltac:(ground) None None 1 2
    (mkWorld 0 0) (mkWorld 0 0) (snd (example_tunn x03 x04 1)) (snd (example_tunn x04 x03 2))
    (fst (example_tunn x03 x04 1)) (fst (example_tunn x04 x03 2)) example_ipv4)
    as (m1 & _ & _ & _ & tA1 & _ & _ & _ & _ & _ & wA1 & _ & _ & _ & _ & _ & H & _).
  - apply surjective_pairing.
  - apply surjective_pairing.
  - split; [ground|]. split; [vm_compute; reflexivity|]. exists x45. split; reflexivity.
  - ground.
  - exists m1, tA1, wA1. exact H.
Defined.
