(* ===== verification/TunnelStats.v ===== *)
(** * The statistics of a tunnel ([noise/mod.rs], [estimate_loss] and [stats])

    The loss is a weighted average over the sessions, in binary32 ([Floats.SpecFloat]). *)

From Stdlib Require Import ZArith Lia Floats.SpecFloat.
From stdpp Require Import base numbers list option.
From S2P Require Import Prelude Clock Crypto Session Handshake RateLimiter Tunnel.

Local Open Scope Z_scope.

(** ** [f32] *)

Definition f32 : Type := spec_float.
Definition f32_prec : Z := 24.
Definition f32_emax : Z := 128.

Definition f32_of (z : Z) : f32 := binary_normalize f32_prec f32_emax z 0 false.
Definition f32_add : f32 -> f32 -> f32 := SFadd f32_prec f32_emax.
Definition f32_sub : f32 -> f32 -> f32 := SFsub f32_prec f32_emax.
Definition f32_mul : f32 -> f32 -> f32 := SFmul f32_prec f32_emax.
Definition f32_div : f32 -> f32 -> f32 := SFdiv f32_prec f32_emax.

(** ** [estimate_loss] *)

Record Loss := mkLoss { weight : f32; cur_avg : f32; total_weight : f32 }.

Definition loss_of (expected received : Z) : f32 :=
  if expected =? 0 then f32_of 0 else f32_sub (f32_of 1) (f32_div (f32_of received) (f32_of expected)).

Definition loss_step (l : Loss) (session : option (Z * Z)) : Loss :=
  match session with
  | Some (expected, received) =>
      mkLoss (f32_div (weight l) (f32_of 3)) (f32_add (cur_avg l) (f32_mul (loss_of expected received) (weight l)))
        (f32_add (total_weight l) (weight l))
  | None => l
  end.

Definition average (l : Loss) : f32 :=
  if SFeqb (total_weight l) (f32_of 0) then f32_of 0 else f32_div (cur_avg l) (total_weight l).

Definition loss_average (counts : list (option (Z * Z))) : f32 :=
  average (foldl loss_step (mkLoss (f32_of 9) (f32_of 0) (f32_of 0)) counts).

Section Stats.
Context `{C : Crypto} `{E : Env}.

(** [(session_idx.wrapping_sub(i)) % N_SESSIONS], for every [i]. *)
Definition loss_slots (current : Z) : list nat :=
  (fun i => slot (wrap 64 (current - Z.of_nat i))) <$> seq 0 (Z.to_nat N_SESSIONS).

Definition estimate_loss (t : Tunn) : f32 :=
  loss_average ((fun i => current_packet_cnt <$> mjoin (sessions t !! i)) <$> loss_slots (current t)).

Definition tunn_stats (t : Tunn) (w : World) : outcome (option Duration * Z * Z * f32 * option Z * World) :=
  let! (time, w) := time_since_last_handshake t w in
  Ret (time, tx_bytes t, rx_bytes t, estimate_loss t, last_rtt (handshake t), w).
End Stats.

(** ** Every session counts once *)

Lemma mod8_wrap z : wrap 64 z mod 8 = z mod 8.
Proof. unfold wrap. symmetry. apply Znumtheory.Zmod_div_mod; [lia|lia|]. by exists (2 ^ 61). Qed.

Lemma loss_slots_mod current : loss_slots current = loss_slots (current mod 8).
Proof.
  unfold loss_slots. apply list_fmap_ext. intros i x _. unfold slot, N_SESSIONS. rewrite !mod8_wrap.
  by rewrite Zminus_mod_idemp_l.
Qed.

(** The slots that [estimate_loss] visits are all of them, whatever the current one is. *)
Theorem loss_slots_complete current : loss_slots current ≡ₚ seq 0 (Z.to_nat N_SESSIONS).
Proof.
  rewrite loss_slots_mod. assert (0 <= current mod 8 < 8) as Hb by (apply Z.mod_pos_bound; lia).
  generalize dependent (current mod 8). intros c Hc.
  assert (c = 0 \/ c = 1 \/ c = 2 \/ c = 3 \/ c = 4 \/ c = 5 \/ c = 6 \/ c = 7) as Hc' by lia. clear Hc.
  destruct_or! Hc'; subst c; apply (bool_decide_unpack _); vm_compute; exact I.
Qed.

(** ** Sessions that lose nothing *)

(** The quotient of a number by itself. *)
Lemma f32_div_self m e : f32_div (S754_finite false m e) (S754_finite false m e) = f32_of 1.
Proof.
  unfold f32_div, SFdiv, SFdiv_core_binary. rewrite !Z.sub_diag. cbn [Zdigits2 xorb].
  change (Z.min (fexp f32_prec f32_emax 0) 0) with (-24). change (0 - -24) with 24. cbv iota zeta.
  rewrite Z.shiftl_mul_pow2 by lia. pose proof (Z_div_mod_eq_full (Z.pos m * 2 ^ 24) (Z.pos m)) as Hd.
  unfold Z.div, Z.modulo in Hd. assert (Z.div_eucl (Z.pos m * 2 ^ 24) (Z.pos m) = (2 ^ 24, 0)) as ->.
  { rewrite (surjective_pairing (Z.div_eucl _ _)). f_equal.
    - change (Z.div (Z.pos m * 2 ^ 24) (Z.pos m) = 2 ^ 24). rewrite Z.mul_comm. by apply Z.div_mul.
    - change (Z.modulo (Z.pos m * 2 ^ 24) (Z.pos m) = 0). rewrite Z.mul_comm. by apply Z.mod_mul. }
  assert (new_location (Z.pos m) 0 = loc_Exact) as ->.
  { unfold new_location, new_location_even, new_location_odd. by destruct (Z.even _). }
  vm_compute. reflexivity.
Qed.

Lemma digits2_bounds p : 2 ^ (Z.pos (digits2_pos p) - 1) <= Z.pos p < 2 ^ Z.pos (digits2_pos p).
Proof.
  induction p as [p IH|p IH|]; cbn [digits2_pos]; [| |cbn; lia];
    rewrite Pos2Z.inj_succ, Z.pow_succ_r by lia; replace (Z.succ (Z.pos (digits2_pos p)) - 1) with (Z.succ (Z.pos (digits2_pos p) - 1)) by lia;
    rewrite Z.pow_succ_r by lia; lia.
Qed.

Lemma digits2_le p k : 0 <= k -> Z.pos p < 2 ^ k -> Z.pos (digits2_pos p) <= k.
Proof.
  intros Hk Hp. pose proof (digits2_bounds p) as [H1 _]. assert (2 ^ (Z.pos (digits2_pos p) - 1) < 2 ^ k) as Hlt by lia.
  apply Z.pow_lt_mono_r_iff in Hlt; lia.
Qed.

Lemma shr_1_half r : 0 <= shr_m r -> shr_m (shr_1 r) = shr_m r / 2.
Proof.
  destruct r as [[|[p|p|]|p] r s]; cbn [shr_m]; intros Hm; try done; try lia.
  - cbn. rewrite Pos2Z.inj_xI. replace (2 * Z.pos p + 1) with (1 + Z.pos p * 2) by lia. by rewrite Z.div_add.
  - cbn. rewrite Pos2Z.inj_xO, Z.mul_comm. by rewrite Z.div_mul.
Qed.

Lemma pow2_xI n : 2 ^ Z.pos n~1 = 2 * 2 ^ Z.pos n * 2 ^ Z.pos n.
Proof. replace (Z.pos n~1) with (1 + Z.pos n + Z.pos n) by lia. by rewrite !Z.pow_add_r by lia. Qed.

Lemma pow2_xO n : 2 ^ Z.pos n~0 = 2 ^ Z.pos n * 2 ^ Z.pos n.
Proof. replace (Z.pos n~0) with (Z.pos n + Z.pos n) by lia. by rewrite !Z.pow_add_r by lia. Qed.

Lemma shr_iter n r : 0 <= shr_m r -> shr_m (SpecFloat.iter_pos shr_1 n r) = shr_m r / 2 ^ Z.pos n.
Proof.
  revert r. induction n as [n IH|n IH|]; intros r Hr; cbn [SpecFloat.iter_pos]; [| |by apply shr_1_half].
  - assert (0 <= shr_m (shr_1 r)) as H1 by (rewrite shr_1_half by done; apply Z.div_pos; lia).
    assert (0 <= shr_m (SpecFloat.iter_pos shr_1 n (shr_1 r))) as H2 by (rewrite IH by done; apply Z.div_pos; lia).
    rewrite !IH, shr_1_half by done. rewrite pow2_xI, !Z.div_div by lia. f_equal; ring.
  - assert (0 <= shr_m (SpecFloat.iter_pos shr_1 n r)) as H2 by (rewrite IH by done; apply Z.div_pos; lia).
    rewrite !IH by done. rewrite pow2_xO, Z.div_div by lia. done.
Qed.

(** Dropping the digits beyond the precision leaves a positive mantissa. *)
Lemma shr_fexp_pos m e l : 0 < m < 2 ^ 65 -> -149 <= e ->
  let '(r, e') := shr_fexp f32_prec f32_emax m e l in 0 < shr_m r < 2 ^ 65 /\ (m < 2 ^ 64 -> shr_m r < 2 ^ 64) /\ e <= e' <= e + 41.
Proof.
  intros Hm He. unfold shr_fexp, shr. destruct m as [|p|p]; [lia| |lia]. cbn [Zdigits2].
  assert (shr_m (shr_record_of_loc (Z.pos p) l) = Z.pos p) as Hrec by (by destruct l as [|[]]).
  pose proof (digits2_bounds p) as [Hd _]. pose proof (digits2_le p 65 ltac:(lia) ltac:(lia)) as Hle.
  change (fexp f32_prec f32_emax (Z.pos (digits2_pos p) + e)) with (Z.max (Z.pos (digits2_pos p) + e - 24) (-149)).
  destruct (Z.max (Z.pos (digits2_pos p) + e - 24) (-149) - e) as [|n|n] eqn:En; [rewrite Hrec; split_and!; lia| |rewrite Hrec; split_and!; lia].
  assert (Z.pos n = Z.pos (digits2_pos p) - 24) as Hn by lia. rewrite shr_iter by (rewrite Hrec; lia). rewrite Hrec.
  assert (0 < 2 ^ Z.pos n) as Hpow by lia. assert (2 ^ Z.pos n <= 2 ^ (Z.pos (digits2_pos p) - 1)) as Hpe by (apply Z.pow_le_mono_r; lia).
  assert (Z.pos p / 2 ^ Z.pos n <= Z.pos p) as Hq by (apply Z.div_le_upper_bound; nia).
  split_and!; [apply Z.div_str_pos; lia|lia|lia|lia|lia].
Qed.

Lemma iter_xO p n : Z.pos (Pos.iter xO p n) = Z.pos p * 2 ^ Z.pos n.
Proof.
  induction n as [|n IH] using Pos.peano_ind; [cbn; lia|]. rewrite Pos.iter_succ, Pos2Z.inj_xO, IH, Pos2Z.inj_succ, Z.pow_succ_r by lia. lia.
Qed.

Lemma shl_align_small p : Z.pos p < 2 ^ 64 -> exists mz ez,
  shl_align p 0 (fexp f32_prec f32_emax (Z.pos (digits2_pos p) + 0)) = (mz, ez) /\ Z.pos mz < 2 ^ 64 /\ -149 <= ez <= 0.
Proof.
  intros Hp. change (fexp f32_prec f32_emax (Z.pos (digits2_pos p) + 0)) with (Z.max (Z.pos (digits2_pos p) + 0 - 24) (-149)).
  unfold shl_align. destruct (Z.max _ _ - 0) as [|n|n] eqn:En; [exists p, 0; by split_and!; [done|lia..]|exists p, 0; by split_and!; [done|lia..]|].
  eexists _, _. split_and!; [done| |lia|lia]. assert (Z.pos n = 24 - Z.pos (digits2_pos p)) as Hn by lia.
  rewrite iter_xO, Hn. pose proof (digits2_bounds p) as [_ Hb].
  assert (2 ^ Z.pos (digits2_pos p) * 2 ^ (24 - Z.pos (digits2_pos p)) = 2 ^ 24) as Heq by (rewrite <- Z.pow_add_r by lia; f_equal; lia).
  assert (0 < 2 ^ (24 - Z.pos (digits2_pos p))) by lia. nia.
Qed.

(** A counter is a number that is neither zero nor infinite. *)
Lemma f32_of_finite z : 0 < z < 2 ^ 64 -> exists m e, f32_of z = S754_finite false m e.
Proof.
  intros Hz. destruct z as [|p|p]; [lia| |lia]. unfold f32_of, binary_normalize, binary_round.
  destruct (shl_align_small p) as (mz & ez & -> & Hmz & Hez); [lia|]. unfold binary_round_aux.
  pose proof (shr_fexp_pos (Z.pos mz) ez loc_Exact ltac:(lia) ltac:(lia)) as H1.
  destruct (shr_fexp f32_prec f32_emax (Z.pos mz) ez loc_Exact) as [r1 e1]. destruct H1 as (H1 & H2 & H3). specialize (H2 ltac:(lia)).
  set (m2 := round_nearest_even _ _). assert (0 < m2 < 2 ^ 65) as Hm2.
  { unfold m2, round_nearest_even. destruct (loc_of_shr_record r1) as [|[]]; [lia| |lia|lia]. destruct (Z.even _); lia. }
  pose proof (shr_fexp_pos m2 e1 loc_Exact Hm2 ltac:(lia)) as H4. destruct (shr_fexp f32_prec f32_emax m2 e1 loc_Exact) as [r2 e2].
  destruct H4 as (H4 & _ & H5). destruct (shr_m r2) as [|q|q]; [lia| |lia]. rewrite (proj2 (Z.leb_le e2 (f32_emax - f32_prec))); [by eauto|].
  unfold f32_emax, f32_prec. lia.
Qed.

Lemma loss_of_none n : 0 <= n < 2 ^ 64 -> loss_of n n = f32_of 0.
Proof.
  intros Hn. unfold loss_of. destruct (Z.eqb_spec n 0) as [->|Hne]; [done|]. destruct (f32_of_finite n) as (m & e & ->); [lia|].
  rewrite f32_div_self. vm_compute. reflexivity.
Qed.

(** Counters of a session that has received all it expected. *)
Definition all_received (counts : Z * Z) : Prop := counts.2 = counts.1 /\ 0 <= counts.1 < 2 ^ 64.

Lemma steps_none l (counts : list (option (Z * Z))) :
  Forall (fun o => forall c, o = Some c -> all_received c) counts ->
  foldl loss_step l counts = foldl loss_step l (replicate (length (omap id counts)) (Some (0, 0))).
Proof.
  intros Hall. revert l. induction Hall as [|o counts Ho _ IH]; intros l; [done|]. destruct o as [[e r]|]; [|apply IH].
  destruct (Ho _ eq_refl) as [Hr He]. cbn in Hr, He. subst r. cbn. rewrite IH. f_equal. by rewrite loss_of_none.
Qed.

Lemma average_none k : (k <= 8)%nat ->
  average (foldl loss_step (mkLoss (f32_of 9) (f32_of 0) (f32_of 0)) (replicate k (Some (0, 0)))) = f32_of 0.
Proof. intros Hk. do 9 (destruct k as [|k]; [vm_compute; reflexivity|]). lia. Qed.

Lemma length_omap_le {A B} (f : A -> option B) l : (length (omap f l) <= length l)%nat.
Proof. induction l as [|x l IH]; cbn; [done|]. destruct (f x); cbn; lia. Qed.

(** A tunnel whose sessions have received every packet up to the last one reports no loss,
    for all counters. *)
Theorem no_loss `{C : Crypto} (t : Tunn) :
  Forall (fun o => forall s, o = Some s -> all_received (current_packet_cnt s)) (sessions t) ->
  estimate_loss t = f32_of 0.
Proof.
  intros Hall. unfold estimate_loss, loss_average. rewrite steps_none.
  - apply average_none. etrans; [apply length_omap_le|]. unfold loss_slots. by rewrite !length_fmap, length_seq.
  - rewrite Forall_fmap. apply Forall_true. intros i c. cbn. destruct (sessions t !! i) as [[s|]|] eqn:E; cbn; [|done|done]. intros [= <-].
    by apply (Forall_lookup_1 _ _ _ _ Hall E).
Qed.
