(* ===== verification/IndexLfsr.v ===== *)
(** * Peer indices ([device/mod.rs]: [IndexLfsr])

    The shift register that hands out 24-bit peer indices. Its transition is
    linear over GF(2), so that a power of it is determined by its 24 columns;
    the full period is proved by computing those columns for [2^24 - 1] and for
    its quotients by the six prime factors. *)

From Stdlib Require Import ZArith Lia Znumtheory.
From stdpp Require Import base numbers list.
From S2P Require Import Prelude Clock.

Record IndexLfsr := mkLfsr { initial : Z; lfsr : Z; mask : Z }.

Definition LFSR_MAX : Z := 16777215.      (* 0xffffff *)
Definition LFSR_POLY : Z := 14155776.     (* 0xd80000 *)

(** [self.lfsr = (self.lfsr >> 1) ^ ((0u32.wrapping_sub(self.lfsr & 1)) & LFSR_POLY)] *)
Definition lfsr_step (x : Z) : Z :=
  Z.lxor (Z.shiftr x 1) (Z.land (wrap 32 (0 - Z.land x 1)) LFSR_POLY).

(** [IndexLfsr::next]; [self.lfsr - 1] is a [u32] subtraction. *)
Definition lfsr_next (s : IndexLfsr) : outcome (Z * IndexLfsr) :=
  let value := wrap 32 (lfsr s - 1) in
  let s' := mkLfsr (initial s) (lfsr_step (lfsr s)) (mask s) in
  let! _ := require (negb (lfsr s' =? initial s')) in
  Ret (Z.lxor value (mask s'), s').

Section Random.
Context `{E : Env}.

(** [IndexLfsr::random_index], for at most [fuel] draws of [next_u32]. *)
Fixpoint random_index (fuel : nat) (w : World) : option (Z * World) :=
  match fuel with
  | O => None
  | S fuel =>
      let '(b, w) := fill_bytes 4 w in
      let i := Z.land (from_le b) LFSR_MAX in
      if 0 <? i then Some (i, w) else random_index fuel w
  end.

(** [IndexLfsr::default] *)
Definition lfsr_default (fuel : nat) (w : World) : option (IndexLfsr * World) :=
  match random_index fuel w with
  | None => None
  | Some (seed, w) =>
      match random_index fuel w with
      | None => None
      | Some (m, w) => Some (mkLfsr seed seed m, w)
      end
  end.

End Random.

(** ** Linear maps on 24 bits *)

Definition u24 : Z -> Prop := in_width 24.

(** The image of [x] under the map whose columns are the images of the powers of
    two. *)
Fixpoint apply_cols (m : list Z) (x : Z) : Z :=
  match m with
  | [] => 0
  | c :: m => Z.lxor (if Z.odd x then c else 0) (apply_cols m (Z.div2 x))
  end.

Record linear (f : Z -> Z) : Prop := {
  lin_zero : f 0 = 0;
  lin_xor : forall x y, f (Z.lxor x y) = Z.lxor (f x) (f y);
}.

Definition basis_from (i n : nat) : list Z := (fun k => 2 ^ Z.of_nat k) <$> seq i n.
Definition basis : list Z := basis_from 0 24.

Lemma lin_comp f g : linear f -> linear g -> linear (fun x => f (g x)).
Proof. intros [F0 FX] [G0 GX]. split; [by rewrite G0|]. intros. by rewrite GX, FX. Qed.

Lemma lin_add f g : linear f -> linear g -> linear (fun x => Z.lxor (f x) (g x)).
Proof.
  intros [F0 FX] [G0 GX]. split; [by rewrite F0, G0|]. intros. rewrite FX, GX.
  rewrite !Z.lxor_assoc. f_equal. rewrite <- !Z.lxor_assoc. f_equal. apply Z.lxor_comm.
Qed.

Lemma lin_id : linear (fun x => x).
Proof. by split. Qed.

Lemma lin_cols m : linear (apply_cols m).
Proof.
  split.
  - induction m; simpl; [done|]. by rewrite IHm.
  - induction m as [|c m IH]; intros x y; cbn [apply_cols]; [done|].
    rewrite !Z.div2_spec, Z.shiftr_lxor, <- !Z.div2_spec, IH.
    rewrite <- !Z.bit0_odd, Z.lxor_spec, !Z.bit0_odd.
    destruct (Z.odd x), (Z.odd y); simpl; rewrite ?Z.lxor_0_l; try done.
    + rewrite Z.lxor_assoc, (Z.lxor_comm _ (Z.lxor c _)), Z.lxor_assoc, (Z.lxor_comm _ (apply_cols m (Z.div2 x))).
      by rewrite <- Z.lxor_assoc, Z.lxor_nilpotent, Z.lxor_0_l.
    + by rewrite Z.lxor_assoc.
    + rewrite <- !Z.lxor_assoc. f_equal. apply Z.lxor_comm.
Qed.

Lemma low_bit x : x = Z.lxor (if Z.odd x then 1 else 0) (Z.shiftl (Z.div2 x) 1).
Proof.
  apply Z.bits_inj'. intros n Hn. rewrite Z.lxor_spec, Z.shiftl_spec, Z.div2_spec by lia.
  destruct (Z.eqb_spec n 0) as [->|Hne].
  - rewrite (Z.testbit_neg_r _ (0 - 1)), xorb_false_r by lia. rewrite <- Z.bit0_odd.
    by destruct (Z.testbit x 0).
  - rewrite Z.shiftr_spec by lia. replace (n - 1 + 1) with n by lia.
    destruct (Z.odd x); [|by rewrite Z.bits_0, xorb_false_l].
    change 1 with (2 ^ 0). by rewrite Z.pow2_bits_false, xorb_false_l by lia.
Qed.

(** A linear map is its columns. *)
Lemma cols_ok f n i x :
  linear f -> in_width (Z.of_nat n) x ->
  apply_cols (f <$> basis_from i n) x = f (Z.shiftl x (Z.of_nat i)).
Proof.
  intros [F0 FX]. revert i x. induction n as [|n IH]; intros i x Hx.
  - assert (x = 0) as -> by (unfold in_width in Hx; simpl in Hx; lia).
    by rewrite Z.shiftl_0_l, F0.
  - unfold basis_from. cbn [seq]. csimpl. fold (basis_from (S i) n). rewrite IH.
    + rewrite (low_bit x) at 3. rewrite Z.shiftl_lxor, FX, Z.shiftl_shiftl by lia.
      replace (1 + Z.of_nat i) with (Z.of_nat (S i)) by lia. f_equal.
      destruct (Z.odd x); [|by rewrite Z.shiftl_0_l, F0].
      by rewrite Z.shiftl_mul_pow2, Z.mul_1_l by lia.
    + unfold in_width in *. rewrite Nat2Z.inj_succ, Z.pow_succ_r in Hx by lia.
      rewrite Z.div2_div. split; [apply Z.div_pos; lia|]. apply Z.div_lt_upper_bound; lia.
Qed.

Lemma cols_basis f x : linear f -> u24 x -> apply_cols (f <$> basis) x = f x.
Proof. intros Hf Hx. unfold basis. rewrite (cols_ok f 24 0 x Hf Hx). by rewrite Z.shiftl_0_r. Qed.

Lemma linear_ext f g : linear f -> linear g -> f <$> basis = g <$> basis ->
  forall x, u24 x -> f x = g x.
Proof. intros Hf Hg Heq x Hx. by rewrite <- (cols_basis f), <- (cols_basis g), Heq. Qed.

(** ** The transition *)

Lemma lfsr_step_odd x : lfsr_step x = Z.lxor (Z.div2 x) (if Z.odd x then LFSR_POLY else 0).
Proof.
  unfold lfsr_step. rewrite Z.div2_spec. f_equal.
  change 1 with (Z.ones 1) at 1. rewrite Z.land_ones by lia. change (2 ^ 1) with 2.
  rewrite Zmod_odd. by destruct (Z.odd x).
Qed.

Lemma lin_step : linear lfsr_step.
Proof.
  split; [done|]. intros x y. rewrite !lfsr_step_odd.
  rewrite !Z.div2_spec, Z.shiftr_lxor, <- !Z.div2_spec.
  rewrite <- !Z.bit0_odd, Z.lxor_spec, !Z.bit0_odd.
  destruct (Z.odd x), (Z.odd y); cbn [xorb]; rewrite ?Z.lxor_0_r; try done.
  - rewrite (Z.lxor_comm (Z.div2 x) LFSR_POLY), Z.lxor_assoc, (Z.lxor_comm LFSR_POLY).
    by rewrite <- !Z.lxor_assoc, (Z.lxor_assoc _ LFSR_POLY), Z.lxor_nilpotent, Z.lxor_0_r.
  - rewrite !Z.lxor_assoc. f_equal. apply Z.lxor_comm.
  - by rewrite Z.lxor_assoc.
Qed.

Lemma lxor_u24 x y : u24 x -> u24 y -> u24 (Z.lxor x y).
Proof.
  intros Hx Hy. assert (0 <= Z.lxor x y) as H0 by (apply Z.lxor_nonneg; unfold u24, in_width in *; lia).
  split; [done|]. destruct (Z.eq_dec (Z.lxor x y) 0) as [->|Hne]; [done|].
  apply Z.log2_lt_pow2; [lia|]. eapply Z.le_lt_trans; [apply Z.log2_lxor; unfold u24, in_width in *; lia|].
  assert (forall z, u24 z -> Z.log2 z < 24) as Hlog.
  { intros z [Hz0 Hz]. destruct (Z.eq_dec z 0) as [->|]; [done|]. apply Z.log2_lt_pow2; lia. }
  pose proof (Hlog x Hx). pose proof (Hlog y Hy). lia.
Qed.

Lemma step_u24 x : u24 x -> u24 (lfsr_step x).
Proof.
  intros Hx. rewrite lfsr_step_odd. apply lxor_u24.
  - unfold u24, in_width in *. rewrite Z.div2_div. split; [apply Z.div_pos; lia|].
    apply Z.div_lt_upper_bound; lia.
  - destruct (Z.odd x); ground.
Qed.

(** Iteration, with binary exponents for the computation. *)
Definition steps (k : Z) (x : Z) : Z := Nat.iter (Z.to_nat k) lfsr_step x.

Lemma steps_add a b x : 0 <= a -> 0 <= b -> steps (a + b) x = steps a (steps b x).
Proof. intros. unfold steps. rewrite Z2Nat.inj_add by done. apply Nat.iter_add. Qed.

Lemma steps_1 x : steps 1 x = lfsr_step x.
Proof. done. Qed.

Lemma steps_lin k : linear (steps k).
Proof.
  unfold steps. induction (Z.to_nat k) as [|n IH]; [apply lin_id|]. simpl.
  apply (lin_comp lfsr_step _ lin_step IH).
Qed.

Lemma steps_u24 k x : u24 x -> u24 (steps k x).
Proof. intros Hx. unfold steps. induction (Z.to_nat k); [done|]. simpl. by apply step_u24. Qed.

Fixpoint pow_cols (p : positive) : list Z :=
  match p with
  | xH => lfsr_step <$> basis
  | xO q => let m := pow_cols q in apply_cols m <$> m
  | xI q => let m := pow_cols q in lfsr_step <$> (apply_cols m <$> m)
  end.

Lemma basis_u24 x : x ∈ basis -> u24 x.
Proof.
  intros Hx. assert (Forall u24 basis) as Hb by (unfold basis; simpl; ground_list).
  by eapply Forall_forall in Hb.
Qed.

Lemma pow_cols_double p x :
  u24 x -> apply_cols (steps (Zpos p) <$> basis) (steps (Zpos p) x) = steps (Zpos p + Zpos p) x.
Proof.
  intros Hx. rewrite cols_basis by (apply steps_lin || by apply steps_u24).
  by rewrite <- steps_add by lia.
Qed.

Lemma pow_cols_ok p : pow_cols p = steps (Zpos p) <$> basis.
Proof.
  induction p as [p IH|p IH|]; cbn [pow_cols]; [| |reflexivity];
    rewrite IH, <- !list_fmap_compose; apply list_fmap_ext;
    intros i x Hx%list_elem_of_lookup_2%basis_u24; unfold compose.
  - rewrite pow_cols_double, <- steps_1, <- steps_add by (done || lia).
    replace (1 + (Zpos p + Zpos p)) with (Zpos p~1) by lia. reflexivity.
  - rewrite pow_cols_double by done.
    replace (Zpos p + Zpos p) with (Zpos p~0) by lia. reflexivity.
Qed.

#[global] Opaque steps.

(** ** The period *)

Definition PERIOD : Z := 16777215.

Lemma full_cycle x : u24 x -> steps PERIOD x = x.
Proof.
  apply (linear_ext (steps PERIOD) (fun x => x) (steps_lin _) lin_id).
  unfold PERIOD. rewrite <- pow_cols_ok, list_fmap_id. vm_compute. reflexivity.
Qed.

(** [steps q] fixes only zero: [inverse] undoes [x -> steps q x xor x]. *)
Definition undoes (inverse : list Z) (q : positive) : bool :=
  bool_decide (zip_with (fun m b => apply_cols inverse (Z.lxor m b)) (pow_cols q) basis = basis).

Lemma zip_with_fmap_l {A B} (f : A -> B -> B) (g : B -> A) (l : list B) :
  zip_with f (g <$> l) l = (fun x => f (g x) x) <$> l.
Proof. induction l; csimpl; by f_equal. Qed.

Lemma undoes_no_fixpoint inverse q x :
  undoes inverse q = true -> u24 x -> steps (Zpos q) x = x -> x = 0.
Proof.
  unfold undoes. rewrite bool_decide_eq_true, pow_cols_ok, zip_with_fmap_l. intros Hb Hx Hfix.
  assert (apply_cols inverse (Z.lxor (steps (Zpos q) x) x) = x) as Hid.
  { apply (linear_ext (fun x => apply_cols inverse (Z.lxor (steps (Zpos q) x) x)) (fun x => x)).
    - apply (lin_comp (apply_cols inverse)); [apply lin_cols|apply lin_add; [apply steps_lin|apply lin_id]].
    - apply lin_id.
    - by rewrite Hb, list_fmap_id.
    - done. }
  by rewrite Hfix, Z.lxor_nilpotent, (lin_zero _ (lin_cols _)) in Hid.
Qed.

(** The prime factors of the period, with the inverse for each quotient. *)
Definition certificates : list (Z * positive * list Z) :=
  [(3, 5592405%positive,
    [8706816; 12170753; 12807171; 3594247; 7188494; 14376988; 442425; 884850; 1769700; 3539400;
     7078800; 14157600; 3649; 7298; 14596; 29192; 58384; 116768; 233536; 467072; 934144; 1868288;
     3736576; 7473152]);
   (5, 3355443%positive,
    [7260528; 14521056; 730561; 1461122; 2922244; 5844488; 11688976; 13940769; 1667139; 3334278;
     6668556; 13337112; 2556977; 5113954; 10227908; 8921481; 10502931; 15762983; 5311567; 10623134;
     16003389; 5792379; 11584758; 13732333]);
   (7, 2396745%positive,
    [6139565; 12279130; 13023925; 4027755; 8055510; 16111020; 6007641; 12015282; 14593381; 875211;
     1750422; 3500844; 7001688; 14003376; 1792353; 3584706; 7169412; 14338824; 366097; 732194;
     1464388; 2928776; 5857552; 11715104]);
   (13, 1290555%positive,
    [7879737; 15759474; 5304549; 10609098; 15975317; 5736235; 11472470; 15604909; 7092571; 14185142;
     58733; 117466; 234932; 469864; 939728; 1879456; 3758912; 7517824; 15035648; 8051201; 16102402;
     5990405; 11980810; 14524437]);
   (17, 986895%positive,
    [7992023; 15984046; 5753693; 11507386; 15674741; 7232235; 14464470; 617389; 1234778; 2469556;
     4939112; 9878224; 10319265; 9104195; 10868359; 16493839; 4676127; 9352254; 11364477; 15388923;
     6660599; 13321198; 2525149; 5050298]);
   (241, 69615%positive,
    [12054626; 14672069; 1032587; 2065174; 4130348; 8260696; 16521392; 4731233; 9462466; 9487749;
     9538315; 9639447; 9841711; 10246239; 8958143; 10576255; 15909631; 5604863; 11209726; 15079421;
     8138747; 16277494; 4243437; 8486874])].

Lemma certificates_ok :
  Forall (fun '(p, q, l) => undoes l q = true /\ p * Zpos q = PERIOD) certificates.
Proof. repeat constructor; vm_compute; reflexivity. Qed.

Definition is_prime (p : Z) : bool :=
  forallb (fun n => Z.gcd (Z.of_nat n) p =? 1) (seq 1 (Z.to_nat p - 1)) && (1 <? p).

Lemma is_prime_ok p : is_prime p = true -> prime p.
Proof.
  unfold is_prime. intros [Hf Hp]%andb_true_iff. apply Z.ltb_lt in Hp. split; [done|].
  intros n Hn. rewrite forallb_forall in Hf. specialize (Hf (Z.to_nat n)).
  rewrite Z2Nat.id, Z.eqb_eq in Hf by lia. apply Zgcd_1_rel_prime, Hf, in_seq. lia.
Qed.

(** A divisor of the period other than 1 has one of the prime factors. *)
Lemma period_factor m :
  (m | PERIOD) -> 1 < m -> exists p, p ∈ [3; 5; 7; 13; 17; 241] /\ (p | m).
Proof.
  intros Hd Hm.
  destruct (decide (Exists (fun p => Z.gcd p m <> 1) [3; 5; 7; 13; 17; 241])) as [He|He].
  - apply Exists_exists in He as (p & Hp & Hg). exists p. split; [done|].
    assert (prime p) as Hpr.
    { apply is_prime_ok. revert Hp. rewrite !elem_of_cons, elem_of_nil.
      intros [->|[->|[->|[->|[->|[->|[]]]]]]]; vm_compute; reflexivity. }
    destruct (Znumtheory.prime_divisors p Hpr (Z.gcd p m)) as [H|[H|[H|H]]];
      [apply Z.gcd_divide_l|..]; pose proof (Z.gcd_nonneg p m); destruct Hpr;
      try lia. rewrite <- H. apply Z.gcd_divide_r.
  - exfalso. apply not_Exists_Forall in He; [|intros ?; apply _].
    assert (forall p, p ∈ [3; 5; 7; 13; 17; 241] -> rel_prime p m) as Hrel.
    { intros p Hp. apply Zgcd_1_rel_prime. eapply Forall_forall in He; [|exact Hp].
      by apply dec_stable. }
    assert (rel_prime m PERIOD) as Hr.
    { change PERIOD with (3 * (3 * (5 * (7 * (13 * (17 * 241)))))).
      repeat apply rel_prime_mult; apply rel_prime_sym, Hrel; repeat constructor. }
    apply (Znumtheory.rel_prime_sym) in Hr. destruct Hr as [_ _ Hgcd].
    specialize (Hgcd m Hd (Z.divide_refl m)). apply Z.divide_1_r in Hgcd. lia.
Qed.

Lemma steps_mul k m x : 0 <= k -> 0 <= m -> steps k x = x -> steps (m * k) x = x.
Proof.
  intros Hk Hm Hfix. revert m Hm. apply natlike_ind; [done|].
  intros m Hm IH. replace (Z.succ m * k) with (k + m * k) by lia.
  by rewrite steps_add, IH by nia.
Qed.

Lemma bezout_nonneg k n :
  0 < k < n -> exists a c, 0 <= a /\ 0 <= c /\ a * k = Z.gcd k n + c * n.
Proof.
  intros Hk. pose proof (Z.gcd_nonneg k n).
  assert (Z.gcd k n <= k) by (apply Z.divide_pos_le; [lia|apply Z.gcd_divide_l]).
  destruct (Z.gcd_bezout k n _ eq_refl) as (a & b & Hab).
  pose proof (Z.mod_pos_bound a n ltac:(lia)) as Ha.
  exists (a mod n), (- b - (a / n) * k).
  assert (a mod n * k = Z.gcd k n + (- b - (a / n) * k) * n) as Heq.
  { rewrite (Z.mod_eq a n), <- Hab by lia. ring. }
  split; [lia|]. split; [nia|done].
Qed.

(** A common cycle length of two cycle lengths: their gcd. *)
Lemma steps_gcd k n x :
  0 < k < n -> steps n x = x -> steps k x = x -> steps (Z.gcd k n) x = x.
Proof.
  intros Hk Hn Hfix. destruct (bezout_nonneg k n Hk) as (a & c & Ha & Hc & Heq).
  pose proof (Z.gcd_nonneg k n).
  rewrite <- (steps_mul k a x) at 2 by (done || lia).
  rewrite Heq, steps_add by nia. by rewrite (steps_mul n c x) by (done || lia).
Qed.

Lemma cofactor k n :
  0 < k < n -> exists m, n = m * Z.gcd k n /\ 1 < m /\ 0 < Z.gcd k n.
Proof.
  intros Hk. destruct (Z.gcd_divide_r k n) as [m Hm], (Z.gcd_divide_l k n) as [j Hj].
  pose proof (Z.gcd_nonneg k n) as Hg. exists m. split; [done|].
  assert (Z.gcd k n <> 0) by (intros H0; rewrite H0, Z.mul_0_r in Hm; lia).
  generalize dependent (Z.gcd k n). intros g Hm Hj Hg H0.
  assert (0 < j) by (apply (Z.mul_pos_cancel_r j g); lia).
  assert (j < m) by (apply (Z.mul_lt_mono_pos_r g); lia). lia.
Qed.

Lemma no_short_cycle k x : u24 x -> x <> 0 -> 0 < k < PERIOD -> steps k x <> x.
Proof.
  intros Hx H0 Hk Hfix. pose proof (steps_gcd k PERIOD x Hk (full_cycle x Hx) Hfix) as Hg.
  destruct (cofactor k PERIOD Hk) as (m & Hm & Hm1 & Hg0).
  set (g := Z.gcd k PERIOD) in *. clearbody g.
  destruct (period_factor m) as (p & Hp & [r Hr]); [exists g; lia|done|].
  assert (exists q l, 0 < p /\ (p, q, l) ∈ certificates) as (q & l & Hp0 & Hin).
  { revert Hp. rewrite !elem_of_cons, elem_of_nil.
    intros [->|[->|[->|[->|[->|[->|[]]]]]]]; do 2 eexists; (split; [done|]); repeat constructor. }
  pose proof (proj1 (Forall_forall _ _) certificates_ok _ Hin) as [Hl Hpq].
  apply H0, (undoes_no_fixpoint l q x Hl Hx).
  assert (Zpos q = r * g) as -> by (rewrite Hm, Hr in Hpq; nia).
  apply steps_mul; (done || nia).
Qed.

Lemma steps_nonzero k x : u24 x -> 0 < x -> 0 <= k -> k < PERIOD -> 0 < steps k x.
Proof.
  intros Hx H0 Hk HP. pose proof (steps_u24 k x Hx) as [Hl _].
  destruct (Z.eq_dec (steps k x) 0) as [Hz|]; [|lia].
  assert (steps PERIOD x = 0) as Hfull; [|rewrite full_cycle in Hfull by done; lia].
  replace PERIOD with ((PERIOD - k) + k) by lia.
  by rewrite steps_add, Hz, (lin_zero _ (steps_lin _)) by lia.
Qed.

Lemma steps_distinct i j x :
  u24 x -> 0 < x -> 0 <= i < j -> j < PERIOD -> steps i x <> steps j x.
Proof.
  intros Hx H0 Hi Hj He. replace j with ((j - i) + i) in He by lia.
  rewrite steps_add in He by lia. symmetry in He.
  apply no_short_cycle in He; [done|by apply steps_u24| |lia].
  assert (0 < steps i x) by (apply steps_nonzero; (done || lia)). lia.
Qed.

(** ** The indices handed out *)

(** [n] calls of [next]. *)
Fixpoint nexts (n : nat) (s : IndexLfsr) : outcome (list Z * IndexLfsr) :=
  match n with
  | O => Ret ([], s)
  | S n =>
      let! (i, s) := lfsr_next s in
      let! (l, s) := nexts n s in
      Ret (i :: l, s)
  end.

Definition index_at (s : IndexLfsr) (k : nat) : Z :=
  Z.lxor (steps (Z.of_nat k) (lfsr s) - 1) (mask s).

Lemma lfsr_next_ok s :
  u24 (lfsr s) -> 0 < lfsr s -> steps 1 (lfsr s) <> initial s ->
  lfsr_next s = Ret (index_at s 0, mkLfsr (initial s) (steps 1 (lfsr s)) (mask s)).
Proof.
  intros [Hl Hu] H0 Hne. unfold lfsr_next, index_at. cbn [lfsr initial mask].
  rewrite <- steps_1. apply Z.eqb_neq in Hne. rewrite Hne. cbn [negb require outcome_bind].
  rewrite wrap_small; [done|]. split; [lia|]. change (2 ^ 24) with 16777216 in Hu. lia.
Qed.

Lemma nexts_ok n s :
  u24 (lfsr s) -> 0 < lfsr s -> Z.of_nat n < PERIOD ->
  (forall k, 0 < k <= Z.of_nat n -> steps k (lfsr s) <> initial s) ->
  nexts n s = Ret (index_at s <$> seq 0 n,
                   mkLfsr (initial s) (steps (Z.of_nat n) (lfsr s)) (mask s)).
Proof.
  revert s. induction n as [|n IH]; intros s Hu H0 Hn Hk; [by destruct s|].
  cbn [nexts]. rewrite lfsr_next_ok by (done || apply Hk; lia). cbn [outcome_bind].
  assert (forall k, 0 <= k -> steps k (steps 1 (lfsr s)) = steps (k + 1) (lfsr s)) as Hs
    by (intros; by rewrite steps_add by lia).
  rewrite IH; cbn [lfsr initial mask outcome_bind].
  - rewrite Hs by lia. rewrite <- cons_seq, fmap_cons, <- fmap_S_seq, <- list_fmap_compose.
    replace (Z.of_nat n + 1) with (Z.of_nat (S n)) by lia. do 3 f_equal.
    apply list_fmap_ext. intros i k _. unfold index_at, compose. cbn [lfsr mask].
    rewrite Hs by lia. by replace (Z.of_nat k + 1) with (Z.of_nat (S k)) by lia.
  - by apply steps_u24.
  - apply steps_nonzero; (done || lia).
  - lia.
  - intros k Hk'. rewrite Hs by lia. apply Hk. lia.
Qed.

Lemma nexts_snoc n s :
  nexts (S n) s =
  (let! (l, s) := nexts n s in let! (i, s) := lfsr_next s in Ret (l ++ [i], s)).
Proof.
  revert s. induction n as [|n IH]; intros s.
  - cbn [nexts outcome_bind]. destruct (lfsr_next s) as [[i s']|]; done.
  - change (nexts (S (S n)) s) with
      (let! (i, s) := lfsr_next s in let! (l, s) := nexts (S n) s in Ret (i :: l, s)).
    cbn [nexts]. destruct (lfsr_next s) as [[i s']|]; cbn [outcome_bind]; [|done].
    change (let! (i0, s0) := lfsr_next s' in let! (l, s1) := nexts n s0 in Ret (i0 :: l, s1))
      with (nexts (S n) s').
    rewrite IH. destruct (nexts n s') as [[l s2]|]; cbn [outcome_bind]; [|done].
    by destruct (lfsr_next s2) as [[j s3]|].
Qed.

Lemma index_at_distinct s i j :
  u24 (lfsr s) -> 0 < lfsr s -> (i < j)%nat -> Z.of_nat j < PERIOD ->
  index_at s i <> index_at s j.
Proof.
  intros Hu H0 Hij Hj He. unfold index_at in He.
  apply (f_equal (Z.lxor (mask s))) in He.
  rewrite !(Z.lxor_comm (mask s)), !Z.lxor_assoc, Z.lxor_nilpotent, !Z.lxor_0_r in He.
  apply (steps_distinct (Z.of_nat i) (Z.of_nat j) (lfsr s)); (done || lia).
Qed.

Lemma indices_nodup s n :
  u24 (lfsr s) -> 0 < lfsr s -> Z.of_nat n <= PERIOD -> NoDup (index_at s <$> seq 0 n).
Proof.
  intros Hu H0 Hn. apply NoDup_alt. intros i j x.
  rewrite !list_lookup_fmap, !fmap_Some.
  intros (a & Ha & ->) (b & Hb & He). apply lookup_seq in Ha as [-> Hi], Hb as [-> Hj].
  destruct (Nat.lt_total i j) as [Hlt|[->|Hlt]]; [|done|]; exfalso.
  - eapply (index_at_distinct s i j); (done || lia).
  - eapply (index_at_distinct s j i); (done || lia).
Qed.

Lemma index_at_u24 s k :
  u24 (lfsr s) -> u24 (mask s) -> 0 < lfsr s -> Z.of_nat k < PERIOD -> u24 (index_at s k).
Proof.
  intros Hu Hm H0 Hk. apply lxor_u24; [|done].
  pose proof (steps_u24 (Z.of_nat k) _ Hu). pose proof (steps_nonzero (Z.of_nat k) _ Hu H0).
  split; [lia|]. destruct H. lia.
Qed.

(** C30. The register that names peers has the full period. From a fresh register
    with a nonzero 24-bit seed, any number [n < 2^24 - 1] of calls of [next]
    succeeds and returns [n] pairwise distinct 24-bit indices; the call number
    [2^24 - 1] is the one that panics with "Too many peers created". *)
Theorem peer_indices_distinct (seed m : Z) (Hseed : u24 seed) (Hpos : 0 < seed) (Hm : u24 m) :
  (forall n, Z.of_nat n < PERIOD ->
     exists l s, nexts n (mkLfsr seed seed m) = Ret (l, s)
                 /\ length l = n /\ NoDup l /\ Forall u24 l)
  /\ (forall n, Z.of_nat n = PERIOD -> nexts n (mkLfsr seed seed m) = Panic).
Proof.
  set (s := mkLfsr seed seed m).
  assert (forall k, 0 < k < PERIOD -> steps k (lfsr s) <> initial s) as Hfresh
    by (intros k Hk; apply no_short_cycle; (done || cbn; lia)).
  split.
  - intros n Hn. do 2 eexists. split; [apply nexts_ok; (done || intros; apply Hfresh; lia)|].
    rewrite length_fmap, length_seq. split; [done|]. split.
    + apply indices_nodup; (done || lia).
    + apply Forall_fmap, Forall_seq. intros k Hk. apply index_at_u24; (done || lia).
  - intros n Hn. destruct n as [|n]; [done|].
    rewrite (nexts_snoc n), nexts_ok by (done || lia || intros; apply Hfresh; lia).
    cbn [outcome_bind]. unfold lfsr_next. cbn [lfsr initial mask].
    rewrite <- steps_1, <- steps_add by lia.
    replace (1 + Z.of_nat n) with PERIOD by lia. cbn [lfsr s].
    by rewrite full_cycle, Z.eqb_refl by done.
Qed.

Lemma peer_indices_distinct_witness :
  exists l s, nexts 4 (mkLfsr 9 9 5) = Ret (l, s) /\ length l = 4%nat /\ NoDup l /\ Forall u24 l.
Proof.
  refine (proj1 (peer_indices_distinct 9 5 _ _ _) 4%nat _); ground.
Defined.

Section RandomLaws.
Context `{E : Env}.

(** The draws of [next_u32] that [random_index] looks at. *)
Definition draw (w : World) (k : nat) : Z :=
  Z.land (from_le (fst (fill_bytes 4 (Nat.iter k (fun w => snd (fill_bytes 4 w)) w)))) LFSR_MAX.

Lemma draw_S w k : draw w (S k) = draw (snd (fill_bytes 4 w)) k.
Proof. unfold draw. by rewrite Nat.iter_succ_r. Qed.

Lemma random_index_first fuel w k :
  (k < fuel)%nat -> 0 < draw w k -> (forall j, (j < k)%nat -> draw w j = 0) ->
  fst <$> random_index fuel w = Some (draw w k).
Proof.
  revert w k. induction fuel as [|fuel IH]; intros w k Hk Hd Hz; [lia|].
  cbn [random_index]. rewrite (surjective_pairing (fill_bytes 4 w)).
  change (Z.land (from_le (fst (fill_bytes 4 w))) LFSR_MAX) with (draw w 0).
  destruct k as [|k].
  - apply Z.ltb_lt in Hd. by rewrite Hd.
  - rewrite (Hz O), Z.ltb_irrefl by lia. rewrite draw_S in *. apply IH; [lia|done|].
    intros j Hj. rewrite <- draw_S. apply Hz. lia.
Qed.
End RandomLaws.
