(* ===== verification/Quota.v ===== *)
(** * Bandwidth quota ([payment/quota.rs])

    The per-peer byte budget and its set of used payment nonces. Every call of
    these methods in [device/mod.rs] and [device/api.rs] is made with the peer's
    mutex held, so that the methods of one quota run one after the other and each
    is a function of the state it finds. *)

From Stdlib Require Import ZArith Lia.
From stdpp Require Import base numbers list gmap.
From S2P Require Import Prelude.

Definition DEFAULT_QUOTA_BYTES : Z := 10 * 1024 * 1024.

Record BandwidthQuota := mkQuota {
  remaining_bytes : Z;
  blocked : bool;
  total_consumed : Z;
  payment_count : Z;
  used_nonces : gset bytes;
}.

Definition quota_new (initial_bytes : Z) : BandwidthQuota :=
  mkQuota initial_bytes false 0 0 ∅.

Definition consume (bytes : Z) (q : BandwidthQuota) : bool * BandwidthQuota :=
  let remaining := remaining_bytes q in
  if remaining =? 0 then (false, q)
  else if remaining <? bytes then
    (false, mkQuota 0 true (add64 (total_consumed q) remaining) (payment_count q) (used_nonces q))
  else
    (true, mkQuota (sub64 (remaining_bytes q) bytes) (blocked q)
                   (add64 (total_consumed q) bytes) (payment_count q) (used_nonces q)).

Definition credit (bytes : Z) (q : BandwidthQuota) : BandwidthQuota :=
  mkQuota (add64 (remaining_bytes q) bytes) false (total_consumed q)
          (add64 (payment_count q) 1) (used_nonces q).

Definition check_and_record_nonce (nonce : bytes) (q : BandwidthQuota) : bool * BandwidthQuota :=
  (bool_decide (nonce ∉ used_nonces q),
   mkQuota (remaining_bytes q) (blocked q) (total_consumed q) (payment_count q)
           ({[nonce]} ∪ used_nonces q)).

Definition is_blocked (q : BandwidthQuota) : bool := blocked q.

(** ** Runs of a quota *)

Inductive quota_op := Consume (bytes : Z) | Credit (bytes : Z) | UseNonce (nonce : bytes).

Definition quota_step (op : quota_op) (q : BandwidthQuota) : bool * BandwidthQuota :=
  match op with
  | Consume n => consume n q
  | Credit n => (true, credit n q)
  | UseNonce n => check_and_record_nonce n q
  end.

(** The answers of a run of operations, and the final quota. *)
Fixpoint quota_run (ops : list quota_op) (q : BandwidthQuota) : list bool * BandwidthQuota :=
  match ops with
  | [] => ([], q)
  | op :: ops =>
      let '(b, q) := quota_step op q in
      let '(bs, q) := quota_run ops q in
      (b :: bs, q)
  end.

Definition consumed_by (op : quota_op) (b : bool) : Z :=
  match op, b with Consume n, true => n | _, _ => 0 end.
Definition credited_by (op : quota_op) : Z :=
  match op with Credit n => n | _ => 0 end.

(** Bytes let through, and bytes paid for. *)
Definition allowed (ops : list quota_op) (bs : list bool) : Z :=
  foldr Z.add 0 (zip_with consumed_by ops bs).
Definition credited (ops : list quota_op) : Z := foldr Z.add 0 (credited_by <$> ops).

Definition op_ok (op : quota_op) : Prop :=
  match op with Consume n | Credit n => 0 <= n < 2 ^ 64 | UseNonce _ => True end.

(** [supply] is what the quota was created with plus what was paid for. *)
Definition accounted (supply : Z) (q : BandwidthQuota) : Prop :=
  0 <= remaining_bytes q /\ 0 <= total_consumed q
  /\ remaining_bytes q + total_consumed q = supply
  /\ (blocked q = true -> remaining_bytes q = 0).

Lemma consume_accounted n q b q' supply :
  0 <= n -> supply < 2 ^ 64 -> accounted supply q -> consume n q = (b, q') ->
  accounted supply q' /\ consumed_by (Consume n) b <= total_consumed q' - total_consumed q.
Proof.
  intros Hn Hs (Hr & Ht & Hsum & Hb). unfold consume, accounted.
  destruct (Z.eqb_spec (remaining_bytes q) 0); [intros [= <- <-]; cbn; lia|].
  destruct (Z.ltb_spec (remaining_bytes q) n); intros [= <- <-]; cbn.
  - rewrite add64_small by lia. lia.
  - rewrite add64_small, sub64_small by lia. split_and!; try lia.
    intros Hbl. specialize (Hb Hbl). lia.
Qed.

Lemma quota_step_accounted op q b q' supply :
  op_ok op -> supply + credited_by op < 2 ^ 64 -> accounted supply q -> quota_step op q = (b, q') ->
  accounted (supply + credited_by op) q'
  /\ consumed_by op b <= total_consumed q' - total_consumed q.
Proof.
  destruct op as [n|n|n]; cbn [op_ok quota_step credited_by]; intros Hok Hs Ha.
  - rewrite Z.add_0_r in *. apply consume_accounted; (done || lia).
  - intros [= <- <-]. destruct Ha as (Hr & Ht & Hsum & Hb). unfold accounted, credit. cbn.
    rewrite add64_small by lia. split_and!; lia || done.
  - intros [= <- <-]. rewrite Z.add_0_r. split; [exact Ha|]. cbn. lia.
Qed.

Lemma credited_nonneg ops : Forall op_ok ops -> 0 <= credited ops.
Proof.
  unfold credited. induction 1 as [|op ops Hop _ IH]; csimpl; [done|].
  destruct op; cbn in *; lia.
Qed.

Lemma quota_run_accounted ops q bs q' supply :
  Forall op_ok ops -> supply + credited ops < 2 ^ 64 -> accounted supply q ->
  quota_run ops q = (bs, q') ->
  accounted (supply + credited ops) q'
  /\ allowed ops bs <= total_consumed q' - total_consumed q.
Proof.
  intros Hok. revert q bs q' supply. induction Hok as [|op ops Hop Hops IH];
    intros q bs q' supply Hs Ha; cbn [quota_run].
  - intros [= <- <-]. unfold credited, allowed. csimpl. rewrite Z.add_0_r. split; [done|lia].
  - destruct (quota_step op q) as [b q1] eqn:Estep, (quota_run ops q1) as [bs1 q2] eqn:Erun.
    intros [= <- <-]. pose proof (credited_nonneg ops Hops).
    unfold credited, allowed in *. csimpl. cbn [foldr] in *. csimpl in *.
    destruct (quota_step_accounted op q b q1 supply) as [Ha1 Hc]; [done|lia|done|done|].
    destruct (IH q1 bs1 q2 (supply + credited_by op)) as [Ha2 Hc2]; [lia|done|done|].
    split; [|lia]. rewrite Z.add_assoc. exact Ha2.
Qed.

(** The nonces a run accepts. *)
Definition accepted (op : quota_op) (b : bool) : option bytes :=
  match op, b with UseNonce n, true => Some n | _, _ => None end.
Definition accepted_nonces (ops : list quota_op) (bs : list bool) : list bytes :=
  omap (fun '(op, b) => accepted op b) (zip ops bs).

Lemma quota_step_nonces op q b q' :
  quota_step op q = (b, q') ->
  (forall n, accepted op b = Some n -> n ∉ used_nonces q /\ n ∈ used_nonces q')
  /\ used_nonces q ⊆ used_nonces q'.
Proof.
  destruct op as [n|n|n]; cbn [quota_step].
  - unfold consume. repeat case_match; intros [= <- <-]; done.
  - intros [= <- <-]. done.
  - intros [= <- <-]. cbn [used_nonces]. split; [|set_solver]. intros m. unfold accepted.
    case_bool_decide; [|done]. intros [= ->]. set_solver.
Qed.

Lemma quota_run_nonces ops q bs q' :
  quota_run ops q = (bs, q') ->
  NoDup (accepted_nonces ops bs) /\ Forall (fun n => n ∉ used_nonces q) (accepted_nonces ops bs).
Proof.
  revert q bs q'. induction ops as [|op ops IH]; intros q bs q'; cbn [quota_run].
  - intros [= <- <-]. by split; constructor.
  - destruct (quota_step op q) as [b q1] eqn:Estep, (quota_run ops q1) as [bs1 q2] eqn:Erun.
    intros [= <- <-]. destruct (quota_step_nonces op q b q1 Estep) as [Hacc Hsub].
    destruct (IH q1 bs1 q2 Erun) as [Hnd Hf]. unfold accepted_nonces in *. csimpl.
    assert (Forall (fun n => n ∉ used_nonces q) (omap (fun '(op, b) => accepted op b) (zip ops bs1)))
      as Hf' by (eapply Forall_impl; [exact Hf|]; set_solver).
    destruct (accepted op b) as [n|] eqn:En; [|done]. destruct (Hacc n eq_refl) as [Hn Hn1].
    split; constructor; try done. intros Hin. by eapply Forall_forall in Hf; [|exact Hin].
Qed.

(** ** Correctness *)

(** The byte budget is conserved. For every sequence of [consume], [credit]
    and nonce checks on a new quota, as long as the bytes ever granted fit a
    [u64]: what remains plus what was charged is exactly what was granted, the
    bytes let through never exceed what was granted, a quota is blocked only with
    nothing left, and no payment nonce is accepted twice. *)
Theorem quota_conservation (initial : Z) (ops : list quota_op)
    (Hinit : 0 <= initial) (Hops : Forall op_ok ops) (Hgrant : initial + credited ops < 2 ^ 64) :
  let '(bs, q) := quota_run ops (quota_new initial) in
  remaining_bytes q + total_consumed q = initial + credited ops
  /\ allowed ops bs <= total_consumed q <= initial + credited ops
  /\ (blocked q = true -> remaining_bytes q = 0)
  /\ NoDup (accepted_nonces ops bs).
Proof.
  destruct (quota_run ops (quota_new initial)) as [bs q] eqn:Erun.
  destruct (quota_run_accounted ops (quota_new initial) bs q initial)
    as [(Hr & Ht & Hsum & Hb) Hc]; try done; [by split_and!; cbn; lia|].
  destruct (quota_run_nonces ops _ bs q Erun) as [Hnd _]. cbn in Hc. split_and!; (done || lia).
Qed.

Lemma quota_conservation_witness :
  let ops := [Consume 700; Consume 400; UseNonce [x01]; Credit 500; UseNonce [x01]; Consume 500] in
  let '(bs, q) := quota_run ops (quota_new 1000) in
  remaining_bytes q + total_consumed q = 1000 + credited ops
  /\ allowed ops bs <= total_consumed q <= 1000 + credited ops
  /\ (blocked q = true -> remaining_bytes q = 0)
  /\ NoDup (accepted_nonces ops bs).
Proof.
  intros ops. refine (quota_conservation 1000 ops _ _ _); [ground| |ground]. repeat constructor; ground.
Defined.

Lemma consume_empty n q : remaining_bytes q = 0 -> consume n q = (false, q).
Proof. intros H. unfold consume. by rewrite H. Qed.

Lemma quota_run_empty ns q :
  remaining_bytes q = 0 ->
  quota_run (Consume <$> ns) q = (replicate (length ns) false, q).
Proof.
  intros H. induction ns as [|n ns IH]; [done|]. csimpl. cbn [quota_run quota_step].
  rewrite consume_empty by done. by rewrite IH.
Qed.

(** A quota used up exactly is never marked as blocked. When one packet takes
    the last byte, [blocked] stays false, and every later [consume] is refused
    without setting it: the "just exhausted" answer is repeated for each packet
    until a payment arrives. *)
Theorem exact_exhaustion_never_blocks (n : Z) (ns : list Z) (Hn : 0 < n < 2 ^ 64) :
  let '(b, q) := consume n (quota_new n) in
  b = true /\ is_blocked q = false /\ remaining_bytes q = 0
  /\ quota_run (Consume <$> ns) q = (replicate (length ns) false, q).
Proof.
  unfold consume. cbn [quota_new remaining_bytes].
  destruct (Z.eqb_spec n 0); [lia|]. rewrite Z.ltb_irrefl.
  assert (sub64 n n = 0) as H0 by (rewrite sub64_small; lia).
  split_and!; [done|done|done|]. by apply quota_run_empty.
Qed.

Lemma exact_exhaustion_never_blocks_witness :
  let '(b, q) := consume 1500 (quota_new 1500) in
  b = true /\ is_blocked q = false /\ remaining_bytes q = 0
  /\ quota_run (Consume <$> [60; 60]) q = ([false; false], q).
Proof. refine (exact_exhaustion_never_blocks 1500 [60; 60] _). ground. Defined.
