(* ===== verification/PaymentProtocol.v ===== *)
(** * Payment signalling ([payment/protocol.rs])

    The three TLV messages between a node and its client, and the IPv4/UDP packet
    that carries them inside the tunnel. *)

From Stdlib Require Import ZArith Lia.
From stdpp Require Import base numbers list option.
From S2P Require Import Prelude.

(** ** Constants and messages *)

Definition PAYMENT_GATEWAY_IP : bytes := [of_u8 169; of_u8 254; of_u8 254; of_u8 1].
Definition PAYMENT_PORT : Z := 7078.

Definition MSG_PAYMENT_REQUIRED : Z := 1.
Definition MSG_PAYMENT_ACCEPTED : Z := 2.
Definition MSG_PAYMENT_SUBMIT : Z := 129.     (* 0x81 *)

Record PaymentRequired := mkRequired {
  req_amount_usdc : Z;
  req_nonce : bytes;
  req_recipient : bytes;
  req_deadline : Z;
  req_chain_id : Z;
  req_usdc_contract : bytes;
}.

Record PaymentSubmit := mkSubmit {
  sub_from : bytes;
  sub_to : bytes;
  sub_value : Z;
  sub_valid_after : Z;
  sub_valid_before : Z;
  sub_nonce : bytes;
  sub_v : byte;
  sub_r : bytes;
  sub_s : bytes;
}.

Record PaymentAccepted := mkAccepted { new_quota_bytes : Z }.

(** ** Serialisation *)

Definition be_field (src : bytes) (i j : nat) : outcome Z :=
  let! s := slice src i j in Ret (from_be s).

(** [u16::from_be_bytes([data[i], data[i + 1]]) as usize] *)
Definition be16_at (data : bytes) (i : nat) : outcome nat :=
  let! h := index data i in
  let! l := index data (i + 1) in
  Ret (Z.to_nat (from_be [h; l])).

Definition PaymentRequired_encode (m : PaymentRequired) : bytes :=
  let payload_len := 8 + 32 + 20 + 8 + 8 + 20 in
  [of_u8 MSG_PAYMENT_REQUIRED] ++ to_be 2 payload_len
  ++ to_be 8 (req_amount_usdc m) ++ req_nonce m ++ req_recipient m
  ++ to_be 8 (req_deadline m) ++ to_be 8 (req_chain_id m) ++ req_usdc_contract m.

Definition PaymentRequired_decode (data : bytes) : outcome (option PaymentRequired) :=
  if bool_decide (length data < 3)%nat then Ret None
  else
    let! t := index data 0 in
    if negb (u8 t =? MSG_PAYMENT_REQUIRED) then Ret None
    else
      let! len := be16_at data 1 in
      if bool_decide (length data < 3 + len)%nat || bool_decide (len < 96)%nat then Ret None
      else
        let! p := slice data 3 (length data) in
        let! amount_usdc := be_field p 0 8 in
        let! nonce := slice p 8 40 in
        let! recipient := slice p 40 60 in
        let! deadline := be_field p 60 68 in
        let! chain_id := be_field p 68 76 in
        let! usdc_contract := slice p 76 96 in
        Ret (Some (mkRequired amount_usdc nonce recipient deadline chain_id usdc_contract)).

Definition PaymentSubmit_encode (m : PaymentSubmit) : bytes :=
  let payload_len := 20 + 20 + 8 + 8 + 8 + 32 + 1 + 32 + 32 in
  [of_u8 MSG_PAYMENT_SUBMIT] ++ to_be 2 payload_len
  ++ sub_from m ++ sub_to m
  ++ to_be 8 (sub_value m) ++ to_be 8 (sub_valid_after m) ++ to_be 8 (sub_valid_before m)
  ++ sub_nonce m ++ [sub_v m] ++ sub_r m ++ sub_s m.

Definition PaymentSubmit_decode (data : bytes) : outcome (option PaymentSubmit) :=
  if bool_decide (length data < 3)%nat then Ret None
  else
    let! t := index data 0 in
    if negb (u8 t =? MSG_PAYMENT_SUBMIT) then Ret None
    else
      let! len := be16_at data 1 in
      if bool_decide (length data < 3 + len)%nat || bool_decide (len < 161)%nat then Ret None
      else
        let! p := slice data 3 (length data) in
        let! from := slice p 0 20 in
        let! to := slice p 20 40 in
        let! value := be_field p 40 48 in
        let! valid_after := be_field p 48 56 in
        let! valid_before := be_field p 56 64 in
        let! nonce := slice p 64 96 in
        let! v := index p 96 in
        let! r := slice p 97 129 in
        let! s := slice p 129 161 in
        Ret (Some (mkSubmit from to value valid_after valid_before nonce v r s)).

Definition PaymentAccepted_encode (m : PaymentAccepted) : bytes :=
  [of_u8 MSG_PAYMENT_ACCEPTED] ++ to_be 2 8 ++ to_be 8 (new_quota_bytes m).

Definition PaymentAccepted_decode (data : bytes) : outcome (option PaymentAccepted) :=
  if bool_decide (length data < 3)%nat then Ret None
  else
    let! t := index data 0 in
    if negb (u8 t =? MSG_PAYMENT_ACCEPTED) then Ret None
    else
      let! len := be16_at data 1 in
      if bool_decide (length data < 3 + len)%nat || bool_decide (len < 8)%nat then Ret None
      else
        let! new_quota_bytes := be_field data 3 11 in
        Ret (Some (mkAccepted new_quota_bytes)).

(** ** The carrier packet *)

(** [buf[i..i + b.len()].copy_from_slice(b)] *)
Definition copy_at (i : nat) (b : bytes) (buf : bytes) : outcome bytes :=
  if bool_decide (i + length b <= length buf)%nat
  then Ret (take i buf ++ b ++ drop (i + length b) buf)
  else Panic.

(** The 16-bit words of a header; an odd last byte is the high half. *)
Fixpoint header_words (header : bytes) : list Z :=
  match header with
  | [] => []
  | [h] => [from_be [h; x00]]
  | h :: l :: rest => from_be [h; l] :: header_words rest
  end.

Definition fold_carry (sum : Z) : Z := Z.land sum 65535 + Z.shiftr sum 16.
Definition has_carry (sum : Z) : bool := negb (Z.shiftr sum 16 =? 0).

Definition ip_checksum (header : bytes) : Z :=
  let sum := foldl (fun s w => wrap 32 (s + w)) 0 (header_words header) in
  let sum := while 3 has_carry fold_carry sum in
  65535 - wrap 16 sum.

Definition build_signal_packet (src_ip dst_ip payload : bytes) : outcome bytes :=
  let udp_len := (8 + length payload)%nat in
  let total_len := (20 + udp_len)%nat in
  let! _ := require (Z.of_nat total_len <=? 65535) in
  let packet := zeros total_len in
  let! packet := copy_at 0 [of_u8 69] packet in
  let! packet := copy_at 2 (to_be 2 (Z.of_nat total_len)) packet in
  let! packet := copy_at 6 [of_u8 64] packet in
  let! packet := copy_at 8 [of_u8 64] packet in
  let! packet := copy_at 9 [of_u8 17] packet in
  let! packet := copy_at 12 src_ip packet in
  let! packet := copy_at 16 dst_ip packet in
  let! header := slice packet 0 20 in
  let cksum := ip_checksum header in
  let! packet := copy_at 10 (to_be 2 cksum) packet in
  let! packet := copy_at 20 (to_be 2 PAYMENT_PORT) packet in
  let! packet := copy_at 22 (to_be 2 PAYMENT_PORT) packet in
  let! packet := copy_at 24 (to_be 2 (Z.of_nat udp_len)) packet in
  copy_at 28 payload packet.

Definition is_payment_signal (packet : bytes) : outcome bool :=
  if bool_decide (length packet < 20)%nat then Ret false
  else
    let! b := index packet 0 in
    if negb (Z.shiftr (u8 b) 4 =? 4) then Ret false
    else
      let! src := slice packet 12 16 in
      let! dst := slice packet 16 20 in
      Ret (bool_decide (src = PAYMENT_GATEWAY_IP) || bool_decide (dst = PAYMENT_GATEWAY_IP)).

Definition extract_signal_payload (packet : bytes) : outcome (option bytes) :=
  if bool_decide (length packet < 20)%nat then Ret None
  else
    let! b := index packet 0 in
    let ihl := (Z.to_nat (Z.land (u8 b) 15) * 4)%nat in
    let! protocol := index packet 9 in
    if negb (u8 protocol =? 17) then Ret None
    else if bool_decide (length packet < ihl + 8)%nat then Ret None
    else
      let! udp_len := be16_at packet (ihl + 4) in
      if bool_decide (udp_len < 8)%nat || bool_decide (length packet < ihl + udp_len)%nat
      then Ret None
      else
        let! p := slice packet (ihl + 8) (ihl + udp_len) in
        Ret (Some p).

Definition src_ipv4 (packet : bytes) : outcome (option bytes) :=
  if bool_decide (length packet < 20)%nat then Ret None
  else let! a := slice packet 12 16 in Ret (Some a).

Definition dst_ipv4 (packet : bytes) : outcome (option bytes) :=
  if bool_decide (length packet < 20)%nat then Ret None
  else let! a := slice packet 16 20 in Ret (Some a).

(** ** The parsers as functions without panics *)

Lemma be_field_ok src i j :
  (i <= j)%nat -> (j <= length src)%nat -> be_field src i j = Ret (from_be (sub src i j)).
Proof. intros. unfold be_field. by rewrite slice_ok. Qed.

Lemma sub_two {A} (l : list A) i a b :
  l !! i = Some a -> l !! (i + 1)%nat = Some b -> sub l i (i + 2) = [a; b].
Proof.
  intros Ha Hb. unfold sub. replace (i + 2 - i)%nat with 2%nat by lia.
  rewrite (drop_S _ a i Ha). replace (S i) with (i + 1)%nat by lia.
  by rewrite (drop_S _ b (i + 1) Hb).
Qed.

Lemma be16_at_ok data i :
  (i + 2 <= length data)%nat ->
  be16_at data i = Ret (Z.to_nat (from_be (sub data i (i + 2)))).
Proof.
  intros Hl. unfold be16_at.
  destruct (index_ok data i) as (a & Ha & Ea); [lia|].
  destruct (index_ok data (i + 1)) as (b & Hb & Eb); [lia|].
  rewrite Ha, Hb. cbn [outcome_bind]. by rewrite (sub_two data i a b).
Qed.

Lemma index_sub {A} (l : list A) i a : sub l i (i + 1) = [a] -> index l i = Ret a.
Proof.
  intros H. unfold index. destruct (l !! i) as [b|] eqn:E.
  - unfold sub in H. rewrite (drop_S _ b i E) in H. replace (i + 1 - i)%nat with 1%nat in H by lia.
    cbn in H. by injection H as ->.
  - apply lookup_ge_None in E. unfold sub in H. by rewrite drop_ge, take_nil in H.
Qed.

Lemma be_field_range src i j :
  (i <= j)%nat -> (j <= length src)%nat ->
  in_width (Z.of_nat (j - i) * 8) (from_be (sub src i j)).
Proof. intros. rewrite <- (length_sub src i j) by done. apply from_be_range. Qed.

Definition wf_required (m : PaymentRequired) : Prop :=
  u64_range (req_amount_usdc m) /\ u64_range (req_deadline m) /\ u64_range (req_chain_id m)
  /\ length (req_nonce m) = 32%nat /\ length (req_recipient m) = 20%nat
  /\ length (req_usdc_contract m) = 20%nat.

Definition wf_submit (m : PaymentSubmit) : Prop :=
  u64_range (sub_value m) /\ u64_range (sub_valid_after m) /\ u64_range (sub_valid_before m)
  /\ length (sub_from m) = 20%nat /\ length (sub_to m) = 20%nat /\ length (sub_nonce m) = 32%nat
  /\ length (sub_r m) = 32%nat /\ length (sub_s m) = 32%nat.

Definition wf_accepted (m : PaymentAccepted) : Prop := u64_range (new_quota_bytes m).

Ltac run_be :=
  repeat first
    [ rewrite be_field_ok by (len; lia)
    | rewrite slice_ok by (len; lia)
    | rewrite be16_at_ok by (len; lia) ];
  cbn [outcome_bind].

Lemma PaymentRequired_decode_total data :
  exists r, PaymentRequired_decode data = Ret r /\ (forall m, r = Some m -> wf_required m).
Proof.
  unfold PaymentRequired_decode. case_bool_decide; [by eexists|].
  destruct (index_ok data 0) as (t & -> & _); [lia|]. cbn [outcome_bind].
  split_if; [by eexists|]. run_be. split_if; [by eexists|]. bprop.
  assert (96 <= length (sub data 3 (length data)))%nat as Hl by (rewrite length_sub by lia; lia).
  run_be. eexists. split; [done|]. intros m [= <-]. unfold wf_required. cbn.
  rewrite !length_sub by lia. split_and!; try done; apply be_field_range; lia.
Qed.

Lemma PaymentSubmit_decode_total data :
  exists r, PaymentSubmit_decode data = Ret r /\ (forall m, r = Some m -> wf_submit m).
Proof.
  unfold PaymentSubmit_decode. case_bool_decide; [by eexists|].
  destruct (index_ok data 0) as (t & -> & _); [lia|]. cbn [outcome_bind].
  split_if; [by eexists|]. run_be. split_if; [by eexists|]. bprop.
  assert (161 <= length (sub data 3 (length data)))%nat as Hl by (rewrite length_sub by lia; lia).
  run_be. destruct (index_ok (sub data 3 (length data)) 96) as (v & -> & _); [lia|].
  run_be. eexists. split; [done|]. intros m [= <-]. unfold wf_submit. cbn.
  rewrite !length_sub by lia. split_and!; try done; apply be_field_range; lia.
Qed.

Lemma PaymentAccepted_decode_total data :
  exists r, PaymentAccepted_decode data = Ret r /\ (forall m, r = Some m -> wf_accepted m).
Proof.
  unfold PaymentAccepted_decode. case_bool_decide; [by eexists|].
  destruct (index_ok data 0) as (t & -> & _); [lia|]. cbn [outcome_bind].
  split_if; [by eexists|]. run_be. split_if; [by eexists|]. bprop.
  run_be. eexists. split; [done|]. intros m [= <-]. unfold wf_accepted. cbn.
  apply be_field_range; lia.
Qed.

(** ** Round trips *)

Lemma from_to_be2 z : u16_range z -> from_be (to_be 2 z) = z.
Proof. apply (from_to_be 2). Qed.

Lemma from_to_be8 z : u64_range z -> from_be (to_be 8 z) = z.
Proof. apply (from_to_be 8). Qed.

(** The payload after the three bytes of type and length. *)
Lemma sub_payload (t : byte) n (p : bytes) l :
  l = length ([t] ++ to_be 2 n ++ p) -> sub ([t] ++ to_be 2 n ++ p) 3 l = p.
Proof. intros ->. rewrite sub_full_drop, app_assoc. by apply drop_app_length'. Qed.

Ltac tlv_header :=
  rewrite bool_decide_eq_false_2 by (len; lia);
  erewrite index_sub by (cbn [Nat.add]; field; reflexivity); cbn [outcome_bind];
  rewrite u8_of_u8, Z.eqb_refl by (vm_compute; split; [discriminate|reflexivity]); cbn [negb];
  rewrite be16_at_ok by (len; lia); cbn [outcome_bind Nat.add]; field;
  rewrite from_to_be2 by (vm_compute; split; [discriminate|reflexivity]).

Lemma PaymentRequired_round_trip m t :
  wf_required m -> PaymentRequired_decode (PaymentRequired_encode m ++ t) = Ret (Some m).
Proof.
  intros (Ha & Hd & Hc & Hn & Hr & Hu). unfold PaymentRequired_decode, PaymentRequired_encode.
  rewrite <- !app_assoc. tlv_header.
  rewrite !bool_decide_eq_false_2 by (len; lia). cbn [orb].
  rewrite slice_ok by (len; lia). cbn [outcome_bind]. rewrite sub_payload by done.
  run_be. field. rewrite !from_to_be8 by done. by destruct m.
Qed.

Lemma PaymentSubmit_round_trip m t :
  wf_submit m -> PaymentSubmit_decode (PaymentSubmit_encode m ++ t) = Ret (Some m).
Proof.
  intros (Hv & Ha & Hb & Hf & Hto & Hn & Hr & Hs). unfold PaymentSubmit_decode, PaymentSubmit_encode.
  rewrite <- !app_assoc. tlv_header.
  rewrite !bool_decide_eq_false_2 by (len; lia). cbn [orb].
  rewrite slice_ok by (len; lia). cbn [outcome_bind]. rewrite sub_payload by done.
  run_be. erewrite (index_sub _ 96) by (cbn [Nat.add]; field; reflexivity).
  run_be. field. rewrite !from_to_be8 by done. by destruct m.
Qed.

Lemma PaymentAccepted_round_trip m t :
  wf_accepted m -> PaymentAccepted_decode (PaymentAccepted_encode m ++ t) = Ret (Some m).
Proof.
  intros Hq. unfold PaymentAccepted_decode, PaymentAccepted_encode.
  rewrite <- !app_assoc. tlv_header.
  rewrite !bool_decide_eq_false_2 by (len; lia). cbn [orb].
  run_be. field. rewrite from_to_be8 by done. by destruct m.
Qed.

(** ** The header checksum *)

Definition sum_words (header : bytes) : Z := foldr Z.add 0 (header_words header).

Lemma header_words_range header : Forall (fun w => 0 <= w <= 65535) (header_words header).
Proof.
  assert (forall h l, 0 <= from_be [h; l] <= 65535) as Hw.
  { intros h l. pose proof (from_be_range [h; l]) as [H1 H2]. cbn in H2. lia. }
  assert (forall n (l : bytes), (length l <= n)%nat ->
    Forall (fun w => 0 <= w <= 65535) (header_words l)) as Hn; [|by eapply Hn].
  induction n as [|n IH]; intros [|h [|l r]] Hl; cbn [header_words length] in *; try lia;
    repeat constructor; try apply Hw; apply IH; lia.
Qed.

Lemma length_header_words header : (length (header_words header) <= length header)%nat.
Proof.
  assert (forall n (l : bytes), (length l <= n)%nat -> (length (header_words l) <= length l)%nat)
    as Hn; [|by eapply Hn].
  induction n as [|n IH]; intros [|h [|l r]] Hl; cbn [header_words length] in *; try lia.
  specialize (IH r). lia.
Qed.

Lemma sum_words_bound header : 0 <= sum_words header <= 65535 * Z.of_nat (length header).
Proof.
  unfold sum_words. pose proof (length_header_words header).
  assert (0 <= foldr Z.add 0 (header_words header) <= 65535 * Z.of_nat (length (header_words header)));
    [|lia].
  generalize (header_words_range header). generalize (header_words header). intros ws.
  induction 1; cbn [foldr length]; lia.
Qed.

Lemma foldl_wrapping ws s :
  Forall (fun w => 0 <= w <= 65535) ws -> 0 <= s -> s + foldr Z.add 0 ws < 2 ^ 32 ->
  foldl (fun s w => wrap 32 (s + w)) s ws = s + foldr Z.add 0 ws.
Proof.
  intros Hw. revert s. induction Hw as [|w ws Hw Hws IH]; intros s Hs Hb; cbn [foldl foldr] in *;
    [lia|].
  assert (0 <= foldr Z.add 0 ws) by (clear -Hws; induction Hws; cbn; lia).
  rewrite wrap_small by (unfold in_width; lia). rewrite IH; lia.
Qed.

Lemma fold_carry_eq s : 0 <= s -> fold_carry s = s - 65535 * (s / 65536).
Proof.
  intros. unfold fold_carry. change 65535 with (Z.ones 16) at 1.
  rewrite (Z.land_ones s 16), Z.shiftr_div_pow2 by lia.
  change (2 ^ 16) with 65536. rewrite Z.mod_eq by lia. lia.
Qed.

Lemma has_carry_eq s : 0 <= s -> has_carry s = (65536 <=? s).
Proof.
  intros. unfold has_carry. rewrite Z.shiftr_div_pow2 by lia. change (2 ^ 16) with 65536.
  destruct (Z.leb_spec 65536 s), (Z.eqb_spec (s / 65536) 0); try done; exfalso.
  - pose proof (Z.div_le_mono 65536 s 65536 ltac:(lia) ltac:(lia)) as Hd.
    rewrite Z.div_same in Hd; lia.
  - apply n. apply Z.div_small. lia.
Qed.

(** Three rounds of folding are enough for a 32-bit sum: the loop has ended, and
    the result is the sum modulo 65535. *)
Lemma folded s :
  0 <= s < 2 ^ 32 ->
  exists k, while 3 has_carry fold_carry s = s - 65535 * k
            /\ 0 <= s - 65535 * k < 65536 /\ (0 < s -> 0 < s - 65535 * k).
Proof.
  intros Hs. cbn [while].
  rewrite has_carry_eq by lia. destruct (Z.leb_spec 65536 s); [|exists 0; lia].
  rewrite (fold_carry_eq s) by lia.
  pose proof (Z.div_mod s 65536 ltac:(lia)). pose proof (Z.mod_pos_bound s 65536 ltac:(lia)).
  set (a := s / 65536) in *. assert (1 <= a < 65536) by lia. clearbody a.
  rewrite has_carry_eq by lia. destruct (Z.leb_spec 65536 (s - 65535 * a)); [|exists a; lia].
  rewrite fold_carry_eq by lia.
  assert ((s - 65535 * a) / 65536 = 1) as ->
    by (symmetry; apply (Z.div_unique _ _ _ (s - 65535 * a - 65536)); lia).
  rewrite has_carry_eq by lia. destruct (Z.leb_spec 65536 (s - 65535 * a - 65535 * 1)); [lia|].
  exists (a + 1). lia.
Qed.

Lemma ip_checksum_eq header :
  Z.of_nat (length header) <= 65536 ->
  exists k, ip_checksum header = 65535 - (sum_words header - 65535 * k)
            /\ 0 <= sum_words header - 65535 * k < 65536
            /\ (0 < sum_words header -> 0 < sum_words header - 65535 * k).
Proof.
  intros Hl. pose proof (sum_words_bound header). unfold ip_checksum.
  assert (0 <= sum_words header < 2 ^ 32) as Hs by lia.
  rewrite foldl_wrapping by (apply header_words_range || unfold sum_words in *; lia).
  destruct (folded _ Hs) as (k & Hk & Hr & Hp). unfold sum_words in *.
  rewrite Z.add_0_l, Hk. exists k. rewrite wrap_small by done. done.
Qed.

(** ** The packet layout *)

Definition signal_layout (total udp c : Z) (src dst payload : bytes) : bytes :=
  [of_u8 69; x00] ++ to_be 2 total ++ [x00; x00; of_u8 64; x00; of_u8 64; of_u8 17]
  ++ to_be 2 c ++ src ++ dst
  ++ to_be 2 PAYMENT_PORT ++ to_be 2 PAYMENT_PORT ++ to_be 2 udp ++ [x00; x00] ++ payload.

Lemma length2 (l : bytes) : length l = 2%nat -> exists a b, l = [a; b].
Proof. intros H. destruct l as [|a [|b [|]]]; try discriminate H. eauto. Qed.

Lemma length4 (l : bytes) : length l = 4%nat -> exists a b c d, l = [a; b; c; d].
Proof. intros H. destruct l as [|a [|b [|c [|d [|]]]]]; try discriminate H. eauto. Qed.

Lemma zeros_28 n : zeros (28 + n) = replicate 28 x00 ++ zeros n.
Proof. rewrite zeros_add. reflexivity. Qed.

(** The header with its checksum field still zero. *)
Definition bare_header (total : Z) (src dst : bytes) : bytes :=
  [of_u8 69; x00] ++ to_be 2 total ++ [x00; x00; of_u8 64; x00; of_u8 64; of_u8 17; x00; x00]
  ++ src ++ dst.

(** Evaluate a write into a buffer whose first bytes are written out. *)
Ltac do_copy :=
  unfold copy_at at 1; rewrite bool_decide_eq_true_2 by (cbn [length]; lia);
  cbn [outcome_bind take drop length app Nat.add].

Lemma build_layout src dst payload :
  length src = 4%nat -> length dst = 4%nat -> 28 + Z.of_nat (length payload) <= 65535 ->
  let total := 28 + Z.of_nat (length payload) in
  build_signal_packet src dst payload
  = Ret (signal_layout total (8 + Z.of_nat (length payload))
           (ip_checksum (bare_header total src dst)) src dst payload).
Proof.
  intros Hs Hd Hp total. unfold build_signal_packet, signal_layout, bare_header.
  destruct (length4 src Hs) as (s0 & s1 & s2 & s3 & ->), (length4 dst Hd) as (d0 & d1 & d2 & d3 & ->).
  replace (Z.of_nat (20 + (8 + length payload))) with total by lia.
  replace (Z.of_nat (8 + length payload)) with (8 + Z.of_nat (length payload)) by lia.
  change (20 + (8 + length payload))%nat with (28 + length payload)%nat. rewrite zeros_28.
  rewrite (proj2 (Z.leb_le total 65535)) by lia. cbn [require outcome_bind replicate app].
  destruct (length2 (to_be 2 total)) as (t1 & t0 & ->); [apply length_to_be|].
  destruct (length2 (to_be 2 PAYMENT_PORT)) as (p1 & p0 & ->); [apply length_to_be|].
  destruct (length2 (to_be 2 (8 + Z.of_nat (length payload)))) as (u1 & u0 & ->);
    [apply length_to_be|].
  do 7 do_copy. rewrite slice_ok by (cbn [length]; lia).
  unfold sub. cbn [Nat.sub take drop outcome_bind].
  match goal with |- context [ip_checksum ?h] => set (c := ip_checksum h) end.
  destruct (length2 (to_be 2 c)) as (c1 & c0 & ->); [apply length_to_be|].
  do 4 do_copy. unfold copy_at. rewrite bool_decide_eq_true_2 by (cbn [length]; len; lia).
  cbn [take drop app Nat.add]. by rewrite drop_ge, app_nil_r by len.
Qed.

(** The bytes of a well-formed packet, one by one. *)
Lemma layout_bytes total udp c src dst payload :
  length src = 4%nat -> length dst = 4%nat ->
  exists t1 t0 c1 c0 p1 p0 u1 u0,
    to_be 2 total = [t1; t0] /\ to_be 2 c = [c1; c0] /\ to_be 2 udp = [u1; u0]
    /\ signal_layout total udp c src dst payload
       = [of_u8 69; x00; t1; t0; x00; x00; of_u8 64; x00; of_u8 64; of_u8 17; c1; c0]
         ++ src ++ dst ++ [p1; p0; p1; p0; u1; u0; x00; x00] ++ payload.
Proof.
  intros Hs Hd. unfold signal_layout.
  destruct (length2 (to_be 2 total)) as (t1 & t0 & ->); [apply length_to_be|].
  destruct (length2 (to_be 2 c)) as (c1 & c0 & ->); [apply length_to_be|].
  destruct (length2 (to_be 2 PAYMENT_PORT)) as (p1 & p0 & ->); [apply length_to_be|].
  destruct (length2 (to_be 2 udp)) as (u1 & u0 & ->); [apply length_to_be|].
  exists t1, t0, c1, c0, p1, p0, u1, u0. done.
Qed.

Lemma read_layout total udp c src dst payload :
  length src = 4%nat -> length dst = 4%nat ->
  udp = 8 + Z.of_nat (length payload) -> udp <= 65535 ->
  let packet := signal_layout total udp c src dst payload in
  is_payment_signal packet
    = Ret (bool_decide (src = PAYMENT_GATEWAY_IP) || bool_decide (dst = PAYMENT_GATEWAY_IP))
  /\ extract_signal_payload packet = Ret (Some payload)
  /\ src_ipv4 packet = Ret (Some src) /\ dst_ipv4 packet = Ret (Some dst).
Proof.
  intros Hs Hd Hu Hb packet. subst packet.
  destruct (layout_bytes total udp c src dst payload Hs Hd)
    as (t1 & t0 & c1 & c0 & p1 & p0 & u1 & u0 & _ & _ & Hudp & ->).
  destruct (length4 src Hs) as (s0 & s1 & s2 & s3 & ->), (length4 dst Hd) as (d0 & d1 & d2 & d3 & ->).
  cbn [app].
  unfold is_payment_signal, extract_signal_payload, src_ipv4, dst_ipv4.
  rewrite bool_decide_eq_false_2 by (cbn [length]; lia).
  rewrite !slice_ok by (cbn [length]; lia). split_and!; [done| |done|done].
  rewrite (index_sub _ 0 (of_u8 69)), (index_sub _ 9 (of_u8 17)) by done. cbn [outcome_bind].
  change (Z.to_nat (Z.land (u8 (of_u8 69)) 15) * 4)%nat with 20%nat.
  change (u8 (of_u8 17) =? 17) with true. cbn [negb].
  rewrite bool_decide_eq_false_2 by (cbn [length Nat.add]; lia).
  change (be16_at _ (20 + 4)) with (Ret (Z.to_nat (from_be [u1; u0]))).
  rewrite <- Hudp, from_to_be2 by (unfold in_width; lia). cbn [outcome_bind].
  replace (Z.to_nat udp) with (8 + length payload)%nat by lia.
  rewrite !bool_decide_eq_false_2 by (cbn [length Nat.add]; lia). cbn [orb].
  rewrite slice_ok by (cbn [length]; lia). unfold sub. cbn [outcome_bind Nat.add drop].
  rewrite drop_0, take_ge by lia. done.
Qed.

(** Adding the checksum makes the header sum to a multiple of 65535. *)
Lemma layout_checksum total udp src dst payload :
  length src = 4%nat -> length dst = 4%nat ->
  ip_checksum (take 20 (signal_layout total udp (ip_checksum (bare_header total src dst)) src dst payload))
  = 0.
Proof.
  intros Hs Hd. set (c := ip_checksum (bare_header total src dst)).
  destruct (ip_checksum_eq (bare_header total src dst)) as (k & Hk & Hr & Hp).
  { unfold bare_header. len. }
  fold c in Hk. clearbody c.
  destruct (layout_bytes total udp c src dst payload Hs Hd)
    as (t1 & t0 & c1 & c0 & p1 & p0 & u1 & u0 & Ht & Hc & _ & ->).
  destruct (length4 src Hs) as (s0 & s1 & s2 & s3 & ->), (length4 dst Hd) as (d0 & d1 & d2 & d3 & ->).
  unfold bare_header in *. rewrite Ht in *. cbn [app take] in *.
  match goal with |- ip_checksum ?h = 0 => destruct (ip_checksum_eq h) as (k' & -> & Hr' & Hp') end.
  { cbn [length]. lia. }
  unfold sum_words in *. cbn [header_words foldr] in *.
  assert (from_be [c1; c0] = c) as Hcc
    by (rewrite <- Hc; apply from_to_be2; unfold in_width; lia).
  rewrite Hcc in *.
  assert (from_be [x00; x00] = 0) as E0 by (vm_compute; reflexivity).
  assert (0 < from_be [of_u8 69; x00]) as E1 by (vm_compute; reflexivity).
  assert (forall a b, 0 <= from_be [a; b]) as E2 by (intros a b; apply (from_be_range [a; b])).
  rewrite E0 in *.
  repeat match goal with |- context [from_be [?a; ?b]] =>
    let x := fresh "w" in pose proof (E2 a b); set (x := from_be [a; b]) in *; clearbody x end.
  lia.
Qed.

(** ** Correctness *)

Lemma is_payment_signal_total packet : exists b, is_payment_signal packet = Ret b.
Proof.
  unfold is_payment_signal. case_bool_decide; [by eexists|].
  destruct (index_ok packet 0) as (b & -> & _); [lia|]. cbn [outcome_bind].
  split_if; [by eexists|]. run_be. by eexists.
Qed.

Lemma extract_total packet :
  exists r, extract_signal_payload packet = Ret r
            /\ (forall p, r = Some p -> exists i, p = sub packet i (i + length p)
                                                  /\ (i + length p <= length packet)%nat).
Proof.
  unfold extract_signal_payload. case_bool_decide; [by eexists|].
  destruct (index_ok packet 0) as (b & -> & _); [lia|].
  destruct (index_ok packet 9) as (b9 & -> & _); [lia|]. cbn [outcome_bind].
  set (ihl := (Z.to_nat _ * 4)%nat). clearbody ihl.
  split_if; [by eexists|]. case_bool_decide; [by eexists|]. run_be.
  set (u := Z.to_nat (from_be _)). clearbody u. split_if; [by eexists|]. bprop.
  run_be. eexists. split; [done|]. intros p [= <-]. exists (ihl + 8)%nat.
  rewrite length_sub by lia. split; [f_equal|]; lia.
Qed.

(** C32. The parsers of payment traffic never panic, whatever a peer sends inside
    the tunnel. Each decoder of a TLV message returns for every byte string and
    yields only messages whose fields have their machine widths and array lengths;
    the signal test and the payload extraction return for every packet, and an
    extracted payload is a part of the packet. *)
Theorem payment_parsers_total (data : bytes) :
  (exists r, PaymentRequired_decode data = Ret r /\ (forall m, r = Some m -> wf_required m))
  /\ (exists r, PaymentSubmit_decode data = Ret r /\ (forall m, r = Some m -> wf_submit m))
  /\ (exists r, PaymentAccepted_decode data = Ret r /\ (forall m, r = Some m -> wf_accepted m))
  /\ (exists b, is_payment_signal data = Ret b)
  /\ (exists r, extract_signal_payload data = Ret r
        /\ (forall p, r = Some p -> exists i, p = sub data i (i + length p)
                                              /\ (i + length p <= length data)%nat)).
Proof.
  split_and!; [apply PaymentRequired_decode_total|apply PaymentSubmit_decode_total
              |apply PaymentAccepted_decode_total|apply is_payment_signal_total|apply extract_total].
Qed.

(** What a payment message becomes on the wire: its TLV in a carrier packet. *)
Definition carries (src dst tlv packet : bytes) : Prop :=
  build_signal_packet src dst tlv = Ret packet
  /\ length packet = (28 + length tlv)%nat
  /\ is_payment_signal packet
     = Ret (bool_decide (src = PAYMENT_GATEWAY_IP) || bool_decide (dst = PAYMENT_GATEWAY_IP))
  /\ extract_signal_payload packet = Ret (Some tlv)
  /\ src_ipv4 packet = Ret (Some src) /\ dst_ipv4 packet = Ret (Some dst)
  /\ ip_checksum (take 20 packet) = 0.

Lemma build_carries src dst tlv :
  length src = 4%nat -> length dst = 4%nat -> 28 + Z.of_nat (length tlv) <= 65535 ->
  exists packet, carries src dst tlv packet.
Proof.
  intros Hs Hd Hl. eexists. split; [by apply build_layout|].
  split; [unfold signal_layout; len|].
  destruct (read_layout (28 + Z.of_nat (length tlv)) (8 + Z.of_nat (length tlv))
              (ip_checksum (bare_header (28 + Z.of_nat (length tlv)) src dst)) src dst tlv)
    as (H1 & H2 & H3 & H4); try done; [lia|].
  split_and!; try done. by apply layout_checksum.
Qed.

(** Payment signalling round trip. A payload put into a carrier packet by
    [build_signal_packet] is recognised as a payment signal exactly when one
    address is the gateway's, its header passes the Internet checksum, and the
    receiver reads back both addresses and the payload; decoding that payload, with
    any bytes after it, gives the message that was encoded, for each of the three
    messages. A payload too large for IPv4 panics instead of being truncated. *)
Theorem payment_signal_round_trip (src dst tlv t : bytes)
    (Hsrc : length src = 4%nat) (Hdst : length dst = 4%nat) :
  (28 + Z.of_nat (length tlv) <= 65535 -> exists packet, carries src dst tlv packet)
  /\ (65535 < 28 + Z.of_nat (length tlv) -> build_signal_packet src dst tlv = Panic)
  /\ (forall m, wf_required m -> PaymentRequired_decode (PaymentRequired_encode m ++ t) = Ret (Some m))
  /\ (forall m, wf_submit m -> PaymentSubmit_decode (PaymentSubmit_encode m ++ t) = Ret (Some m))
  /\ (forall m, wf_accepted m -> PaymentAccepted_decode (PaymentAccepted_encode m ++ t) = Ret (Some m)).
Proof.
  split_and!.
  - by apply build_carries.
  - intros Hl. unfold build_signal_packet. rewrite (proj2 (Z.leb_gt _ _)) by lia. done.
  - intros m. apply PaymentRequired_round_trip.
  - intros m. apply PaymentSubmit_round_trip.
  - intros m. apply PaymentAccepted_round_trip.
Qed.

Lemma payment_signal_round_trip_witness :
  exists packet, carries PAYMENT_GATEWAY_IP [x0a; x00; x00; x02]
    (PaymentAccepted_encode (mkAccepted 10485760)) packet.
Proof.
  refine (proj1 (payment_signal_round_trip PAYMENT_GATEWAY_IP [x0a; x00; x00; x02]
    (PaymentAccepted_encode (mkAccepted 10485760)) [] _ _) _); ground.
Defined.
