(* ===== verification/RustText.v ===== *)
(** * Text: decimal numbers, splitting, prefixes

    The parts of the standard library that the configuration, the control socket
    and the settlement requests use on strings, which are byte strings here:
    [to_string] of an unsigned integer, [str::parse] for unsigned integers of a
    given width, [split], [strip_prefix], [trim_end_matches]. The crate [hex] is
    the class [Hex]. *)

From Stdlib Require Import ZArith Lia.
From Stdlib Require Strings.String.
From stdpp Require Import base numbers list option.
From S2P Require Import Prelude.

Import Stdlib.Strings.String.StringSyntax.

Definition str (s : String.string) : bytes := String.list_byte_of_string s.
Arguments str _%_string_scope.

Definition ch (z : Z) : byte := of_u8 z.

(** ** Decimal numbers *)

Definition digit (d : Z) : byte := of_u8 (if d <? 10 then 48 + d else 87 + d).

(** The digits of [z] in base [radix], least significant last. *)
Fixpoint digits (radix : Z) (fuel : nat) (z : Z) (acc : bytes) : bytes :=
  match fuel with
  | O => acc
  | S fuel =>
      let acc := digit (z mod radix) :: acc in
      if z <? radix then acc else digits radix fuel (z / radix) acc
  end.

(** [z.to_string()] for an unsigned integer of at most 128 bits, which has at most
    40 digits, and [format!("{:x}", z)], which has at most 32. *)
Definition show_uint (z : Z) : bytes := digits 10 40 z [].
Definition show_hex (z : Z) : bytes := digits 16 32 z [].

Definition digit_value (b : byte) : option Z :=
  if (48 <=? u8 b) && (u8 b <=? 57) then Some (u8 b - 48) else None.

(** Horner's rule with the overflow check of [from_str]. *)
Fixpoint parse_digits (width : Z) (s : bytes) (acc : Z) : option Z :=
  match s with
  | [] => Some acc
  | b :: s =>
      match digit_value b with
      | None => None
      | Some d =>
          let acc := acc * 10 + d in
          if acc <? 2 ^ width then parse_digits width s acc else None
      end
  end.

(** [s.parse::<uN>()]: an optional plus sign, then at least one digit. *)
Definition parse_uint (width : Z) (s : bytes) : option Z :=
  let s := match s with b :: r => if u8 b =? 43 then r else s | [] => s end in
  match s with
  | [] => None
  | _ => parse_digits width s 0
  end.

Lemma digit_value_digit d : 0 <= d < 10 -> digit_value (digit d) = Some d.
Proof.
  intros Hd. unfold digit_value, digit. rewrite (proj2 (Z.ltb_lt d 10)) by lia. rewrite u8_of_u8 by lia.
  destruct (Z.leb_spec 48 (48 + d)), (Z.leb_spec (48 + d) 57); cbn [andb]; try lia.
  f_equal. lia.
Qed.

Lemma digits_app radix fuel z acc : digits radix fuel z acc = digits radix fuel z [] ++ acc.
Proof.
  revert z acc. induction fuel as [|fuel IH]; intros z acc; [done|]. cbn [digits].
  destruct (z <? radix); [done|]. rewrite IH. rewrite (IH _ [_]), <- app_assoc. done.
Qed.

(** A property of printed numbers follows the digits from the most significant
    one. *)
Lemma digits_ind radix (P : Z -> bytes -> Prop) :
  1 < radix ->
  (forall d, 0 <= d < radix -> P d [digit d]) ->
  (forall z d s, 0 < z -> 0 <= d < radix -> P z s -> P (z * radix + d) (s ++ [digit d])) ->
  forall fuel z, 0 <= z < radix ^ Z.of_nat fuel -> (0 < fuel)%nat -> P z (digits radix fuel z []).
Proof.
  intros Hr H1 H2. induction fuel as [|fuel IH]; intros z Hz H0; [lia|]. cbn [digits].
  pose proof (Z.mod_pos_bound z radix ltac:(lia)) as Hm.
  pose proof (Z.div_mod z radix ltac:(lia)) as Hd.
  destruct (Z.ltb_spec z radix) as [Hs|Hs].
  - rewrite Z.mod_small by lia. apply H1. lia.
  - rewrite digits_app. rewrite Hd at 1. rewrite (Z.mul_comm radix). apply H2; [|done|].
    + apply Z.div_str_pos. lia.
    + rewrite Nat2Z.inj_succ, Z.pow_succ_r in Hz by lia. apply IH.
      * split; [apply Z.div_pos; lia|]. apply Z.div_lt_upper_bound; lia.
      * destruct fuel; [change (radix ^ Z.of_nat 0) with 1 in Hz; lia|lia].
Qed.

Lemma parse_digits_app width s t acc :
  parse_digits width (s ++ t) acc = parse_digits width s acc ≫= parse_digits width t.
Proof.
  revert acc. induction s as [|b s IH]; intros acc; [done|]. cbn [app parse_digits].
  destruct (digit_value b); [|done]. by destruct (_ <? _).
Qed.

Lemma parse_digits_print fuel width z :
  0 <= z < 2 ^ width -> z < 10 ^ Z.of_nat fuel -> (0 < fuel)%nat ->
  parse_digits width (digits 10 fuel z []) 0 = Some z.
Proof.
  intros Hz Hf H0.
  apply (digits_ind 10 (fun z s => z < 2 ^ width -> parse_digits width s 0 = Some z)); try lia.
  - intros d Hd Hw. cbn [parse_digits]. rewrite digit_value_digit by done.
    by rewrite (proj2 (Z.ltb_lt _ _)) by lia.
  - intros y d s Hy Hd IH Hw. rewrite parse_digits_app, IH by lia. cbn.
    rewrite digit_value_digit by done. by rewrite (proj2 (Z.ltb_lt _ _)) by lia.
Qed.

(** The first digit is zero for zero only. *)
Lemma digits_head radix fuel z :
  1 < radix -> 0 <= z < radix ^ Z.of_nat fuel -> (0 < fuel)%nat ->
  exists d r, 0 <= d < radix /\ digits radix fuel z [] = digit d :: r /\ (d = 0 -> z = 0 /\ r = []).
Proof.
  intros Hr Hz H0. revert fuel z Hz H0.
  apply (digits_ind radix (fun z s => exists d r, 0 <= d < radix /\ s = digit d :: r /\ (d = 0 -> z = 0 /\ r = [])));
    [done| |].
  - intros d Hd. by exists d, [].
  - intros z d s Hz Hd (e & r & He & -> & H). exists e, (r ++ [digit d]). split_and!; try done; try lia;
      intros He0; destruct (H He0); lia.
Qed.

Lemma digits_length radix fuel z k :
  1 < radix -> 0 <= z < radix ^ Z.of_nat fuel -> (0 < fuel)%nat ->
  z < radix ^ Z.of_nat k -> (0 < k)%nat -> (1 <= length (digits radix fuel z []) <= k)%nat.
Proof.
  intros Hr Hz H0. revert k. revert fuel z Hz H0.
  apply (digits_ind radix (fun z s => forall k, z < radix ^ Z.of_nat k -> (0 < k)%nat -> (1 <= length s <= k)%nat));
    [done| |].
  - intros d Hd k _ Hk. cbn. lia.
  - intros z d s Hz Hd IH k Hlt Hk. rewrite length_app. cbn [length].
    destruct k as [|[|k]]; [lia|change (radix ^ Z.of_nat 1) with (radix ^ 1) in Hlt; nia|].
    assert (1 <= length s <= S k)%nat; [|lia]. apply IH; [|lia].
    rewrite (Nat2Z.inj_succ (S k)), Z.pow_succ_r in Hlt by lia. nia.
Qed.

Lemma parse_show width z :
  0 <= width <= 128 -> in_width width z -> parse_uint width (show_uint z) = Some z.
Proof.
  intros Hw [Hz Hz2]. unfold parse_uint, show_uint.
  assert (z < 10 ^ Z.of_nat 40).
  { eapply Z.lt_le_trans; [exact Hz2|]. etrans; [apply (Z.pow_le_mono_r 2 width 128); lia|].
    by vm_compute. }
  destruct (digits_head 10 40 z) as (d & r & Hd & E & _); [lia|done|lia|]. rewrite E.
  rewrite (proj2 (Z.eqb_neq (u8 (digit d)) 43))
    by (unfold digit; rewrite (proj2 (Z.ltb_lt d 10)), u8_of_u8 by lia; lia).
  rewrite <- E. apply parse_digits_print; (done || lia).
Qed.

(** ** Prefixes, suffixes and pieces *)

Definition strip_prefix (p s : bytes) : option bytes :=
  if bool_decide (take (length p) s = p) then Some (drop (length p) s) else None.

(** [s.trim_end_matches(c)] *)
Definition trim_end_matches (c : byte) (s : bytes) : bytes :=
  reverse ((fix go (l : bytes) := match l with
                                  | b :: r => if bool_decide (b = c) then go r else l
                                  | [] => []
                                  end) (reverse s)).

(** [s.split(c)] *)
Fixpoint split_on (c : byte) (s : bytes) : list bytes :=
  match s with
  | [] => [[]]
  | b :: r =>
      match split_on c r with
      | piece :: pieces => if bool_decide (b = c) then [] :: piece :: pieces
                           else (b :: piece) :: pieces
      | [] => [[b]]
      end
  end.

(** [s.eq_ignore_ascii_case(t)] *)
Definition to_lower (b : byte) : byte :=
  if (65 <=? u8 b) && (u8 b <=? 90) then of_u8 (u8 b + 32) else b.
Definition eq_ignore_ascii_case (s t : bytes) : bool :=
  bool_decide (to_lower <$> s = to_lower <$> t).

(** ** The crate [hex] *)

Class Hex := {
  hex_encode : bytes -> bytes;
  hex_decode : bytes -> option bytes;
}.

Class HexLaws (H : Hex) : Prop := {
  hex_decode_encode : forall b, hex_decode (hex_encode b) = Some b;
  hex_encode_length : forall b, length (hex_encode b) = (2 * length b)%nat;
  hex_decode_length : forall s b, hex_decode s = Some b -> length s = (2 * length b)%nat;
  (** lower-case digits, high half first *)
  hex_encode_nil : hex_encode [] = [];
  hex_encode_cons : forall x r, hex_encode (x :: r) = digit (u8 x / 16) :: digit (u8 x mod 16) :: hex_encode r;
}.

(** ** An executable instance: lower-case digits, either case accepted *)

Definition nibble_value (b : byte) : option Z :=
  let z := u8 b in
  if (48 <=? z) && (z <=? 57) then Some (z - 48)
  else if (97 <=? z) && (z <=? 102) then Some (z - 87)
  else if (65 <=? z) && (z <=? 70) then Some (z - 55)
  else None.

Fixpoint toy_hex_encode (b : bytes) : bytes :=
  match b with
  | [] => []
  | x :: r => digit (u8 x / 16) :: digit (u8 x mod 16) :: toy_hex_encode r
  end.

Fixpoint toy_hex_decode (s : bytes) : option bytes :=
  match s with
  | [] => Some []
  | h :: l :: r =>
      match nibble_value h, nibble_value l, toy_hex_decode r with
      | Some h, Some l, Some r => Some (of_u8 (h * 16 + l) :: r)
      | _, _, _ => None
      end
  | _ => None
  end.

Definition toy_hex : Hex := {| hex_encode := toy_hex_encode; hex_decode := toy_hex_decode |}.

Lemma nibble_value_digit n : 0 <= n < 16 -> nibble_value (digit n) = Some n.
Proof.
  intros Hn. assert (n ∈ (Z.of_nat <$> seq 0 16)) as Hin.
  { apply list_elem_of_fmap. exists (Z.to_nat n). split; [lia|]. apply elem_of_seq. lia. }
  assert (Forall (fun n => nibble_value (digit n) = Some n) (Z.of_nat <$> seq 0 16)) as Hf
    by (repeat apply Forall_cons_2; try apply Forall_nil_2; vm_compute; reflexivity).
  rewrite List.Forall_forall in Hf. by apply Hf, list_elem_of_In.
Qed.

Lemma toy_hex_laws : HexLaws toy_hex.
Proof.
  split; cbn [toy_hex hex_encode hex_decode].
  - induction b as [|x r IH]; [done|]. cbn [toy_hex_encode toy_hex_decode].
    pose proof (byte.unsigned_range x) as Hx.
    pose proof (Z.mod_pos_bound (u8 x) 16 ltac:(lia)).
    assert (0 <= u8 x / 16 < 16).
    { split; [apply Z.div_pos; lia|]. apply Z.div_lt_upper_bound; lia. }
    rewrite !nibble_value_digit, IH by lia. do 2 f_equal.
    replace (u8 x / 16 * 16 + u8 x mod 16) with (u8 x).
    + apply byte.of_Z_unsigned.
    + rewrite (Z.div_mod (u8 x) 16) at 1 by lia. lia.
  - induction b as [|x r IH]; [done|]. cbn [toy_hex_encode length]. lia.
  - assert (forall n s b, (length s <= n)%nat -> toy_hex_decode s = Some b ->
      length s = (2 * length b)%nat) as Hn; [|eauto].
    induction n as [|n IH]; intros [|h [|l r]] b Hl; cbn [toy_hex_decode length] in *;
      try done; try lia; try (intros [= <-]; done).
    destruct (nibble_value h), (nibble_value l), (toy_hex_decode r) as [b'|] eqn:E; try done.
    intros <-%(inj Some). cbn [length]. specialize (IH r b' ltac:(lia) E). lia.
  - done.
  - done.
Qed.
