(* ===== verification/Utf8.v ===== *)
(** * Strings in UTF-8 ([str], [String])

    Validity, characters and their boundaries, slices, white space, and the lossy
    conversion from bytes. *)

From Stdlib Require Import ZArith Lia.
From Stdlib Require Strings.String.
From stdpp Require Import base numbers list option.
From S2P Require Import Prelude RustText.

Import Stdlib.Strings.String.StringSyntax.

(** The ranges of the bytes that must follow a lead byte: the table of well-formed
    byte sequences. *)
Definition follow (b : byte) : option (list (Z * Z)) :=
  let z := u8 b in
  let tail := (128, 191) in
  if z <=? 127 then Some []
  else if (194 <=? z) && (z <=? 223) then Some [tail]
  else if z =? 224 then Some [(160, 191); tail]
  else if z =? 237 then Some [(128, 159); tail]
  else if (225 <=? z) && (z <=? 239) then Some [tail; tail]
  else if z =? 240 then Some [(144, 191); tail; tail]
  else if (241 <=? z) && (z <=? 243) then Some [tail; tail; tail]
  else if z =? 244 then Some [(128, 143); tail; tail]
  else None.

Fixpoint utf8_from (pending : list (Z * Z)) (s : bytes) : bool :=
  match s with
  | [] => bool_decide (pending = [])
  | b :: s =>
      match pending with
      | (lo, hi) :: pending => (lo <=? u8 b) && (u8 b <=? hi) && utf8_from pending s
      | [] => match follow b with Some pending => utf8_from pending s | None => false end
      end
  end.

Definition is_utf8 : bytes -> bool := utf8_from [].

Definition is_continuation (b : byte) : bool := (128 <=? u8 b) && (u8 b <=? 191).

(** [s.is_char_boundary(i)] *)
Definition is_char_boundary (s : bytes) (i : nat) : bool :=
  match i with
  | O => true
  | _ => match s !! i with
         | Some b => negb (is_continuation b)
         | None => bool_decide (i = length s)
         end
  end.

(** [&s[a..b]] *)
Definition str_slice (s : bytes) (a b : nat) : outcome bytes :=
  let! _ := require (bool_decide (a <= b)%nat && is_char_boundary s a && is_char_boundary s b) in
  Ret (take (b - a) (drop a s)).

(** [s.pop()]: without its last character. *)
Fixpoint pop_rev (r : bytes) : bytes :=
  match r with
  | [] => []
  | b :: r => if is_continuation b then pop_rev r else r
  end.

Definition str_pop (s : bytes) : bytes := reverse (pop_rev (reverse s)).

(** The characters of [char::is_whitespace] in UTF-8, by length. *)
Definition white1 (a : byte) : bool := ((9 <=? u8 a) && (u8 a <=? 13)) || (u8 a =? 32).
Definition white2 (a b : byte) : bool := (u8 a =? 194) && ((u8 b =? 133) || (u8 b =? 160)).
Definition white3 (a b c : byte) : bool :=
  ((u8 a =? 225) && (u8 b =? 154) && (u8 c =? 128))
  || ((u8 a =? 226) && (u8 b =? 128)
      && (((128 <=? u8 c) && (u8 c <=? 138)) || (u8 c =? 168) || (u8 c =? 169) || (u8 c =? 175)))
  || ((u8 a =? 226) && (u8 b =? 129) && (u8 c =? 159))
  || ((u8 a =? 227) && (u8 b =? 128) && (u8 c =? 128)).

Fixpoint trim_start (s : bytes) : bytes :=
  match s with
  | a :: ((b :: ((c :: r3) as r2)) as r1) =>
      if white1 a then trim_start r1
      else if white2 a b then trim_start r2
      else if white3 a b c then trim_start r3
      else s
  | [a; b] => if white1 a then (if white1 b then [] else [b]) else if white2 a b then [] else s
  | [a] => if white1 a then [] else s
  | [] => []
  end.

(** The same from the end, on the reversed string. *)
Fixpoint trim_rev (s : bytes) : bytes :=
  match s with
  | a :: ((b :: ((c :: r3) as r2)) as r1) =>
      if white1 a then trim_rev r1
      else if white2 b a then trim_rev r2
      else if white3 c b a then trim_rev r3
      else s
  | [a; b] => if white1 a then (if white1 b then [] else [b]) else if white2 b a then [] else s
  | [a] => if white1 a then [] else s
  | [] => []
  end.

(** [s.trim()] *)
Definition trim (s : bytes) : bytes := reverse (trim_rev (reverse (trim_start s))).

Definition replacement : bytes := [ch 239; ch 191; ch 189].

(** [String::from_utf8_lossy]: a maximal prefix of a character that goes wrong is
    replaced; [acc] is what has been read of the current character. *)
Fixpoint lossy_from (acc : bytes) (pending : list (Z * Z)) (s : bytes) : bytes :=
  match s with
  | [] => match pending with [] => [] | _ => replacement end
  | b :: r =>
      let start := match follow b with
                   | Some [] => b :: lossy_from [] [] r
                   | Some p => lossy_from [b] p r
                   | None => replacement ++ lossy_from [] [] r
                   end in
      match pending with
      | [] => start
      | (lo, hi) :: p =>
          if (lo <=? u8 b) && (u8 b <=? hi) then
            match p with
            | [] => acc ++ [b] ++ lossy_from [] [] r
            | _ => lossy_from (acc ++ [b]) p r
            end
          else replacement ++ start
      end
  end.

Definition from_utf8_lossy : bytes -> bytes := lossy_from [] [].

(** ** Characters *)

Definition is_ascii (b : byte) : Prop := u8 b < 128.

Lemma ascii_not_continuation b : is_ascii b -> is_continuation b = false.
Proof.
  unfold is_ascii, is_continuation. intros Hb. destruct (Z.leb_spec 128 (u8 b)); [lia|done].
Qed.

Lemma ascii_boundary s i : Forall is_ascii s -> (i <= length s)%nat -> is_char_boundary s i = true.
Proof.
  intros Hs Hi. destruct i as [|i]; [done|]. cbn [is_char_boundary].
  destruct (s !! S i) as [b|] eqn:E.
  - rewrite ascii_not_continuation; [done|]. by eapply Forall_lookup_1.
  - apply lookup_ge_None in E. apply bool_decide_eq_true. lia.
Qed.

Lemma ascii_slice s a b :
  Forall is_ascii s -> (a <= b <= length s)%nat -> str_slice s a b = Ret (take (b - a) (drop a s)).
Proof.
  intros Hs Hab. unfold str_slice. rewrite !ascii_boundary by (done || lia).
  by rewrite bool_decide_eq_true_2 by lia.
Qed.

Lemma pop_ascii s b : is_ascii b -> str_pop (s ++ [b]) = s.
Proof.
  intros Hb. unfold str_pop. rewrite reverse_app. cbn [reverse app rev_append pop_rev].
  change (reverse [b]) with [b]. cbn [app pop_rev]. rewrite ascii_not_continuation by done. apply reverse_involutive.
Qed.

Lemma utf8_ascii s : Forall is_ascii s -> is_utf8 s = true.
Proof.
  unfold is_utf8. induction 1 as [|b s Hb _ IH]; [done|]. cbn [utf8_from]. unfold follow.
  unfold is_ascii in Hb. by rewrite (proj2 (Z.leb_le (u8 b) 127)) by lia.
Qed.

(** Text without white space is its own trim. *)
Lemma trim_visible s : Forall (fun b => 32 < u8 b < 128) s -> trim s = s.
Proof.
  assert (forall b, 32 < u8 b < 128 -> white1 b = false /\ (u8 b =? 194) = false /\ (128 <=? u8 b) = false
            /\ (forall z, 128 <= z -> (u8 b =? z) = false)) as Hb.
  { intros b Hb. unfold white1. repeat match goal with |- context [?x =? ?y] => destruct (Z.eqb_spec x y) end;
      repeat match goal with |- context [?x <=? ?y] => destruct (Z.leb_spec x y) end; cbn; try lia;
      split_and!; try done; intros z Hz; apply Z.eqb_neq; lia. }
  assert (forall a b, 32 < u8 a < 128 -> 32 < u8 b < 128 -> white2 a b = false) as H2.
  { intros a b Ha _. unfold white2. by destruct (Hb a Ha) as (_ & -> & _). }
  assert (forall a b c, 32 < u8 a < 128 -> white3 a b c = false) as H3.
  { intros a b c Ha. unfold white3. destruct (Hb a Ha) as (_ & _ & _ & Hz). by rewrite !Hz by lia. }
  intros Hs. assert (trim_start s = s) as Hst.
  { destruct Hs as [|a s Ha Hs]; [done|]. destruct Hs as [|b s Hb1 Hs]; cbn; [by destruct (Hb a Ha) as (-> & _)|].
    destruct Hs as [|c s Hc Hs]; cbn; destruct (Hb a Ha) as (-> & _); rewrite H2 by done; [done|].
    by rewrite H3. }
  unfold trim. rewrite Hst. apply Forall_reverse in Hs. rewrite <- (reverse_involutive s) at 2. f_equal.
  destruct Hs as [|a r Ha Hs]; [done|]. destruct Hs as [|b r Hb1 Hs]; cbn; [by destruct (Hb a Ha) as (-> & _)|].
  destruct Hs as [|c r Hc Hs]; cbn; destruct (Hb a Ha) as (-> & _); rewrite H2 by done; [done|].
  by rewrite H3.
Qed.

(** Valid text is not changed by the lossy conversion. *)
Lemma lossy_valid s : is_utf8 s = true -> from_utf8_lossy s = s.
Proof.
  unfold is_utf8, from_utf8_lossy.
  assert (forall s p acc, (p = [] -> acc = []) -> utf8_from p s = true -> lossy_from acc p s = acc ++ s) as Hgen.
  { clear s. induction s as [|b s IH]; intros p acc Hp Hs; cbn [lossy_from utf8_from] in *.
    - destruct p; [by rewrite Hp|done].
    - destruct p as [|[lo hi] p].
      + rewrite Hp by done. destruct (follow b) as [[|q p]|]; [|by rewrite IH|done]. by rewrite IH.
      + destruct ((lo <=? u8 b) && (u8 b <=? hi)); [|done].
        destruct p as [|q p]; rewrite IH by done; by rewrite <- ?app_assoc. }
  intros Hs. by rewrite (Hgen s [] []).
Qed.
