(* ===== verification/Json.v ===== *)
(** * JSON values ([serde_json])

    The values of the crate and the accessors that the program uses on them. The
    parser and the printer are the class [Json]. *)

From stdpp Require Import base list option.
From S2P Require Import Prelude RustText.

Inductive Value :=
| VNull
| VBool (b : bool)
| VNumber (text : bytes)
| VString (s : bytes)
| VArray (l : list Value)
| VObject (m : list (bytes * Value)).

Fixpoint assoc {A} (k : bytes) (m : list (bytes * A)) : option A :=
  match m with
  | [] => None
  | (k', v) :: m => if bool_decide (k = k') then Some v else assoc k m
  end.

(** [value.get(key)]; the keys of an object are distinct. *)
Definition value_get (k : bytes) (v : Value) : option Value :=
  match v with VObject m => assoc k m | _ => None end.

(** [value[key]], which is [Null] where there is nothing. *)
Definition value_at (k : bytes) (v : Value) : Value := default VNull (value_get k v).

Definition as_str (v : Value) : option bytes := match v with VString s => Some s | _ => None end.
Definition as_bool (v : Value) : option bool := match v with VBool b => Some b | _ => None end.
Definition as_array (v : Value) : option (list Value) := match v with VArray l => Some l | _ => None end.
Definition is_null (v : Value) : bool := match v with VNull => true | _ => false end.

(** [serde_json::from_str], with the text of its error, and [Value::to_string]. *)
Class Json := {
  json_from_str : bytes -> result bytes Value;
  json_to_string : Value -> bytes;
}.
