(* ===== verification/NetText.v ===== *)
(** * Text of network addresses ([std::net])

    [FromStr] and [Display] of [IpAddr] and [SocketAddr], which the control socket
    reads and prints. The parser of the standard library works on bytes; a reader
    takes the input and returns what it read with the rest, or nothing and has
    consumed nothing. *)

From Stdlib Require Import ZArith Lia.
From Stdlib Require Strings.String.
From stdpp Require Import base numbers list option.
From S2P Require Import Prelude Packet RustText.

Import Stdlib.Strings.String.StringSyntax.

(** A socket address; the flow label and scope are zero for IPv4. *)
Record SocketAddr := mkSocketAddr { sa_ip : IpAddr; sa_port : Z; sa_flowinfo : Z; sa_scope_id : Z }.

#[global] Instance SocketAddr_eq_dec : EqDecision SocketAddr.
Proof. solve_decision. Defined.

(** ** Readers *)

Definition reader (A : Type) : Type := bytes -> option (A * bytes).

(** [char::to_digit(radix)], for radix 10 and 16 *)
Definition to_digit (radix : Z) (b : byte) : option Z :=
  let z := u8 b in
  let d := if (48 <=? z) && (z <=? 57) then z - 48
           else if (97 <=? z) && (z <=? 102) then z - 87
           else if (65 <=? z) && (z <=? 70) then z - 55
           else 36 in
  if d <? radix then Some d else None.

Definition read_given_char (c : byte) : reader unit := fun s =>
  match s with
  | b :: r => if bool_decide (b = c) then Some (tt, r) else None
  | [] => None
  end.

(** The loop of [read_number]: the checked accumulation, with the digits read so
    far. *)
Fixpoint read_digits (radix width : Z) (max_digits : option nat) (s : bytes) (acc : Z) (count : nat)
    : option (Z * nat * bytes) :=
  match s with
  | [] => Some (acc, count, s)
  | b :: r =>
      match to_digit radix b with
      | None => Some (acc, count, s)
      | Some d =>
          let acc := acc * radix + d in
          if acc <? 2 ^ width then
            if match max_digits with Some m => bool_decide (m < S count)%nat | None => false end
            then None
            else read_digits radix width max_digits r acc (S count)
          else None
      end
  end.

Definition read_number (radix width : Z) (max_digits : option nat) (allow_zero_prefix : bool)
    : reader Z := fun s =>
  let has_leading_zero := match s with b :: _ => u8 b =? 48 | [] => false end in
  match read_digits radix width max_digits s 0 0 with
  | None => None
  | Some (result, digit_count, r) =>
      if bool_decide (digit_count = 0%nat) then None
      else if negb allow_zero_prefix && has_leading_zero && bool_decide (1 < digit_count)%nat then None
      else Some (result, r)
  end.

(** [read_separator]: the separator before every element but the first. *)
Definition read_separator {A} (sep : byte) (i : nat) (inner : reader A) : reader A := fun s =>
  match i with
  | O => inner s
  | S _ => match read_given_char sep s with Some (_, r) => inner r | None => None end
  end.

Definition dot : byte := ch 46.
Definition colon : byte := ch 58.

(** ** IPv4 *)

Fixpoint read_octets (n i : nat) : reader bytes := fun s =>
  match n with
  | O => Some ([], s)
  | S n =>
      match read_separator dot i (read_number 10 8 (Some 3%nat) false) s with
      | None => None
      | Some (o, r) =>
          match read_octets n (S i) r with
          | None => None
          | Some (os, r) => Some (of_u8 o :: os, r)
          end
      end
  end.

Definition read_ipv4_addr : reader bytes := read_octets 4 0.

(** ** IPv6 *)

(** [u16::from_be_bytes([hi, lo])] *)
Definition group_of (hi lo : byte) : Z := from_be [hi; lo].

(** [read_groups] for the slots [i ..] of [limit]: the groups, and whether the
    last two are an embedded IPv4 address. *)
Fixpoint read_groups (n i limit : nat) (s : bytes) : list Z * bool * bytes :=
  match n with
  | O => ([], false, s)
  | S n =>
      let v4 := if bool_decide (i < limit - 1)%nat
                then read_separator colon i read_ipv4_addr s else None in
      match v4 with
      | Some ([a; b; c; d], r) => ([group_of a b; group_of c d], true, r)
      | _ =>
          match read_separator colon i (read_number 16 16 (Some 4%nat) true) s with
          | None => ([], false, s)
          | Some (g, r) =>
              let '(gs, emb, r) := read_groups n (S i) limit r in (g :: gs, emb, r)
          end
      end
  end.

Definition octets_of (gs : list Z) : bytes := concat (to_be 2 <$> gs).

Definition read_ipv6_addr : reader bytes := fun s =>
  let '(head, head_ipv4, r) := read_groups 8 0 8 s in
  if bool_decide (length head = 8%nat) then Some (octets_of head, r)
  else if head_ipv4 then None
  else
    match read_given_char colon r with
    | None => None
    | Some (_, r) =>
        match read_given_char colon r with
        | None => None
        | Some (_, r) =>
            let limit := (8 - (length head + 1))%nat in
            let '(tail, _, r) := read_groups limit 0 limit r in
            Some (octets_of (head ++ replicate (8 - length head - length tail) 0 ++ tail), r)
        end
    end.

(** ** Addresses and sockets *)

Definition read_ip_addr : reader IpAddr := fun s =>
  match read_ipv4_addr s with
  | Some (a, r) => Some (V4 a, r)
  | None => match read_ipv6_addr s with Some (a, r) => Some (V6 a, r) | None => None end
  end.

Definition read_port : reader Z := fun s =>
  match read_given_char colon s with
  | Some (_, r) => read_number 10 16 None true r
  | None => None
  end.

Definition read_scope_id : reader Z := fun s =>
  match read_given_char (ch 37) s with
  | Some (_, r) => read_number 10 32 None true r
  | None => None
  end.

Definition read_socket_addr_v4 : reader SocketAddr := fun s =>
  match read_ipv4_addr s with
  | None => None
  | Some (a, r) =>
      match read_port r with
      | None => None
      | Some (p, r) => Some (mkSocketAddr (V4 a) p 0 0, r)
      end
  end.

Definition read_socket_addr_v6 : reader SocketAddr := fun s =>
  match read_given_char (ch 91) s with
  | None => None
  | Some (_, r) =>
      match read_ipv6_addr r with
      | None => None
      | Some (a, r) =>
          let '(scope, r) := match read_scope_id r with Some (z, r') => (z, r') | None => (0, r) end in
          match read_given_char (ch 93) r with
          | None => None
          | Some (_, r) =>
              match read_port r with
              | None => None
              | Some (p, r) => Some (mkSocketAddr (V6 a) p 0 scope, r)
              end
          end
      end
  end.

Definition read_socket_addr : reader SocketAddr := fun s =>
  match read_socket_addr_v4 s with
  | Some x => Some x
  | None => read_socket_addr_v6 s
  end.

(** [parse_with]: the whole input is read. *)
Definition parse_with {A} (p : reader A) (s : bytes) : option A :=
  match p s with Some (a, []) => Some a | _ => None end.

Definition parse_ip_addr : bytes -> option IpAddr := parse_with read_ip_addr.
Definition parse_socket_addr : bytes -> option SocketAddr := parse_with read_socket_addr.

(** ** Printing *)

Fixpoint join (sep : bytes) (l : list bytes) : bytes :=
  match l with
  | [] => []
  | [x] => x
  | x :: r => x ++ sep ++ join sep r
  end.

Definition show_ipv4 (o : bytes) : bytes := join [dot] ((fun b => show_uint (u8 b)) <$> o).

(** The groups of an IPv6 address. *)
Fixpoint groups_of (o : bytes) : list Z :=
  match o with
  | hi :: lo :: r => group_of hi lo :: groups_of r
  | _ => []
  end.

(** The first of the longest runs of zero groups, as [(start, len)]. *)
Fixpoint longest_zeroes (i : nat) (gs : list Z) (longest current : nat * nat) : nat * nat :=
  match gs with
  | [] => longest
  | g :: gs =>
      if g =? 0 then
        let current := (if bool_decide (current.2 = 0%nat) then i else current.1, S current.2) in
        longest_zeroes (S i) gs (if bool_decide (longest.2 < current.2)%nat then current else longest)
          current
      else longest_zeroes (S i) gs longest (0%nat, 0%nat)
  end.

Definition fmt_groups (gs : list Z) : bytes := join [colon] (show_hex <$> gs).

Definition show_ipv6 (o : bytes) : bytes :=
  let gs := groups_of o in
  if bool_decide (take 6 gs = [0; 0; 0; 0; 0; 65535])
  then str "::ffff:" ++ show_ipv4 (drop 12 o)
  else
    let '(start, len) := longest_zeroes 0 gs (0%nat, 0%nat) (0%nat, 0%nat) in
    if bool_decide (1 < len)%nat
    then fmt_groups (take start gs) ++ [colon; colon] ++ fmt_groups (drop (start + len) gs)
    else fmt_groups gs.

Definition show_ip_addr (a : IpAddr) : bytes :=
  match a with V4 o => show_ipv4 o | V6 o => show_ipv6 o end.

Definition show_socket_addr (a : SocketAddr) : bytes :=
  match sa_ip a with
  | V4 o => show_ipv4 o ++ [colon] ++ show_uint (sa_port a)
  | V6 o =>
      [ch 91] ++ show_ipv6 o
      ++ (if sa_scope_id a =? 0 then [] else ch 37 :: show_uint (sa_scope_id a))
      ++ [ch 93; colon] ++ show_uint (sa_port a)
  end.

(** ** Reading printed numbers *)

(** The rest of an input does not continue a number. *)
Definition stops (radix : Z) (s : bytes) : Prop :=
  match s with b :: _ => to_digit radix b = None | [] => True end.

Lemma to_digit_digit radix d : 0 <= d < radix -> radix <= 16 -> to_digit radix (digit d) = Some d.
Proof.
  intros Hd Hr. unfold to_digit, digit.
  destruct (Z.ltb_spec d 10); rewrite u8_of_u8 by lia;
    repeat (match goal with |- context [?a <=? ?b] => destruct (Z.leb_spec a b); try lia end); cbn [andb];
    (rewrite (proj2 (Z.ltb_lt _ _)) by lia; f_equal; lia).
Qed.

Lemma read_digits_app radix width m s t acc count :
  read_digits radix width m (s ++ t) acc count
  = match read_digits radix width m s acc count with
    | Some (acc', count', []) => read_digits radix width m t acc' count'
    | Some (acc', count', r) => Some (acc', count', r ++ t)
    | None => None
    end.
Proof.
  revert acc count. induction s as [|b s IH]; intros acc count; [done|]. cbn [app read_digits].
  destruct (to_digit radix b); [|done]. destruct (_ <? _); [|done].
  destruct (match m with Some _ => _ | None => _ end); [done|]. apply IH.
Qed.

Lemma read_given c s : read_given_char c (c :: s) = Some (tt, s).
Proof. cbn. by rewrite bool_decide_eq_true_2. Qed.

Lemma read_given_other c b s : b <> c -> read_given_char c (b :: s) = None.
Proof. intros H. cbn. by rewrite bool_decide_eq_false_2. Qed.

Definition room (m : option nat) (n : nat) : Prop := match m with Some k => (n <= k)%nat | None => True end.

Lemma read_digits_print radix width m fuel z :
  1 < radix <= 16 -> 0 <= z < radix ^ Z.of_nat fuel -> (0 < fuel)%nat -> z < 2 ^ width ->
  room m (length (digits radix fuel z [])) ->
  read_digits radix width m (digits radix fuel z []) 0 0
  = Some (z, length (digits radix fuel z []), []).
Proof.
  intros Hr Hz H0. revert fuel z Hz H0.
  apply (digits_ind radix (fun z s => z < 2 ^ width -> room m (length s) ->
    read_digits radix width m s 0 0 = Some (z, length s, []))); [lia| |].
  - intros d Hd Hw Hm. cbn [read_digits length]. rewrite to_digit_digit by lia.
    rewrite Z.mul_0_l, Z.add_0_l, (proj2 (Z.ltb_lt d _)) by lia.
    destruct m as [k|]; [|done]. cbn in Hm. rewrite bool_decide_eq_false_2 by lia. done.
  - intros z d s Hz Hd IH Hw Hm. rewrite length_app in Hm |- *. cbn [length] in Hm |- *.
    rewrite read_digits_app, IH; [|nia|by destruct m; cbn in *; lia].
    cbn [read_digits]. rewrite to_digit_digit, (proj2 (Z.ltb_lt _ _)) by lia.
    rewrite Nat.add_1_r. destruct m as [k|]; [|done]. cbn in Hm.
    rewrite bool_decide_eq_false_2 by lia. done.
Qed.

Lemma read_number_print radix width m azp fuel z t :
  1 < radix <= 16 -> 0 <= z < radix ^ Z.of_nat fuel -> (0 < fuel)%nat -> z < 2 ^ width ->
  room m (length (digits radix fuel z [])) -> stops radix t ->
  read_number radix width m azp (digits radix fuel z [] ++ t) = Some (z, t).
Proof.
  intros Hr Hz H0 Hw Hm Ht. unfold read_number.
  rewrite read_digits_app, read_digits_print by done.
  assert (read_digits radix width m t z (length (digits radix fuel z []))
          = Some (z, length (digits radix fuel z []), t)) as ->.
  { destruct t as [|b t]; [done|]. cbn [read_digits]. by rewrite Ht. }
  destruct (digits_head radix fuel z) as (d & r & Hd & E & Hz0); [lia|done|done|].
  rewrite E. cbn [app length]. rewrite bool_decide_eq_false_2 by lia.
  assert ((u8 (digit d) =? 48) && bool_decide (1 < S (length r))%nat = false) as Hlz.
  { destruct (Z.eqb_spec (u8 (digit d)) 48) as [Hd0|]; [|done]. cbn [andb].
    assert (d = 0) as Hd0'.
    { unfold digit in Hd0. destruct (Z.ltb_spec d 10); rewrite u8_of_u8 in Hd0; lia. }
    destruct (Hz0 Hd0') as [_ ->]. by rewrite bool_decide_eq_false_2 by (cbn; lia). }
  rewrite <- andb_assoc, Hlz, andb_false_r. done.
Qed.

(** ** IPv4 addresses are read back *)

Definition after (sep : bytes) (l : list bytes) : bytes := concat ((fun x => sep ++ x) <$> l).

Lemma join_after sep x l : join sep (x :: l) = x ++ after sep l.
Proof.
  revert x. induction l as [|y l IH]; intros x; [by rewrite app_nil_r|].
  change (join sep (x :: y :: l)) with (x ++ sep ++ join sep (y :: l)). rewrite IH.
  unfold after. cbn. by rewrite <- !app_assoc.
Qed.

Lemma after_cons sep x l : after sep (x :: l) = sep ++ x ++ after sep l.
Proof. unfold after. cbn. by rewrite <- app_assoc. Qed.

Lemma stops_after radix c l t :
  to_digit radix c = None -> stops radix t -> stops radix (after [c] l ++ t).
Proof. intros Hc Ht. destruct l as [|x l]; [done|]. rewrite after_cons. exact Hc. Qed.

Lemma octet_fits (b : byte) : 0 <= u8 b < 256.
Proof. apply byte.unsigned_range. Qed.

Lemma read_octet b t :
  stops 10 t -> read_number 10 8 (Some 3%nat) false (show_uint (u8 b) ++ t) = Some (u8 b, t).
Proof.
  intros Ht. pose proof (octet_fits b). apply read_number_print; try lia; [|done].
  apply (digits_length 10 40 (u8 b) 3); lia.
Qed.

Lemma read_octets_after o i t :
  stops 10 t ->
  read_octets (length o) (S i) (after [dot] ((fun b => show_uint (u8 b)) <$> o) ++ t) = Some (o, t).
Proof.
  intros Ht. revert i. induction o as [|b o IH]; intros i; [done|].
  rewrite fmap_cons, after_cons. cbn [length read_octets read_separator read_given_char app].
  rewrite bool_decide_eq_true_2 by done. rewrite <- app_assoc, read_octet by (by apply stops_after).
  rewrite IH. by rewrite byte.of_Z_unsigned.
Qed.

Lemma read_show_ipv4 o t :
  length o = 4%nat -> stops 10 t -> read_ipv4_addr (show_ipv4 o ++ t) = Some (o, t).
Proof.
  intros Hl Ht. destruct o as [|b o]; [done|]. unfold read_ipv4_addr, show_ipv4. rewrite <- Hl.
  rewrite fmap_cons, join_after, <- app_assoc. cbn [length read_octets read_separator].
  rewrite read_octet by (by apply stops_after). rewrite read_octets_after by done.
  by rewrite byte.of_Z_unsigned.
Qed.

(** ** IPv6 addresses are read back *)

Definition is_group (g : Z) : Prop := 0 <= g < 65536.

Lemma read_group g t :
  is_group g -> stops 16 t -> read_number 16 16 (Some 4%nat) true (show_hex g ++ t) = Some (g, t).
Proof.
  intros [H1 H2] Ht. apply read_number_print; try lia; [|done].
  apply (digits_length 16 32 g 4); lia.
Qed.

Lemma stops_weaken t : stops 16 t -> stops 10 t.
Proof.
  destruct t as [|b t]; [done|]. cbn. unfold to_digit. intros Hs.
  match goal with |- context [?d <? 10] => set (x := d) in * end.
  destruct (Z.ltb_spec x 16); [done|]. by rewrite (proj2 (Z.ltb_ge x 10)) by lia.
Qed.

(** A group is not taken for the start of an embedded IPv4 address. *)
Lemma read_digits_no_dot w m s t acc c z k r :
  Forall (fun b => b <> dot) s -> head t <> Some dot -> stops 10 t ->
  read_digits 10 w m (s ++ t) acc c = Some (z, k, r) -> head r <> Some dot.
Proof.
  intros Hs Hd Ht. revert acc c. induction Hs as [|b s Hb Hs IH]; intros acc c; cbn [app].
  - destruct t as [|b t]; cbn [read_digits]; [by intros [= <- <- <-]|].
    cbn in Ht. rewrite Ht. by intros [= <- <- <-].
  - cbn [read_digits]. destruct (to_digit 10 b); [|intros [= <- <- <-]; cbn; congruence].
    destruct (_ <? _); [|done]. destruct (match m with Some _ => _ | None => _ end); [done|]. apply IH.
Qed.

Lemma show_hex_no_dot g : is_group g -> Forall (fun b => b <> dot) (show_hex g).
Proof.
  intros Hg. revert g Hg. assert (forall d, 0 <= d < 16 -> digit d <> dot) as Hd.
  { intros d Hd Heq. apply (f_equal byte.unsigned) in Heq. revert Heq. unfold digit, dot, ch.
    destruct (Z.ltb_spec d 10); rewrite !u8_of_u8; lia. }
  intros g Hg. apply (digits_ind 16 (fun _ s => Forall (fun b => b <> dot) s)); try lia.
  - intros d Hdd. constructor; [by apply Hd|done].
  - intros z d s _ Hdd Hs. apply Forall_app. split; [done|]. constructor; [by apply Hd|done].
  - unfold is_group in Hg. lia.
Qed.

Lemma group_not_ipv4 g t :
  is_group g -> head t <> Some dot -> stops 16 t -> read_ipv4_addr (show_hex g ++ t) = None.
Proof.
  intros Hg Hd Ht. unfold read_ipv4_addr. cbn [read_octets read_separator]. unfold read_number at 1.
  destruct (read_digits _ _ _ _ _ _) as [[[z k] r]|] eqn:Er; [|done].
  apply read_digits_no_dot in Er; [|by apply show_hex_no_dot|done|by apply stops_weaken].
  destruct (bool_decide _); [done|]. destruct (_ && _); [done|].
  destruct r as [|b r]; [done|]. cbn [read_given_char].
  rewrite bool_decide_eq_false_2; [done|]. intros ->. done.
Qed.

(** What may follow the groups: nothing that continues them. *)
Definition ends_groups (t : bytes) : Prop :=
  stops 16 t /\ head t <> Some dot /\ forall r, t = colon :: r -> stops 16 r.

Lemma to_digit_colon : to_digit 16 colon = None.
Proof. done. Qed.

Lemma colon_continues gs t : ends_groups t -> stops 16 (after [colon] (show_hex <$> gs) ++ t)
  /\ head (after [colon] (show_hex <$> gs) ++ t) <> Some dot.
Proof.
  intros (H1 & H2 & _). destruct gs; [by split|]. rewrite fmap_cons, after_cons. by split.
Qed.

Lemma nothing_read radix w m azp t : stops radix t -> read_number radix w m azp t = None.
Proof.
  intros Ht. unfold read_number. destruct t as [|b t]; [done|]. cbn [read_digits]. cbn in Ht. by rewrite Ht.
Qed.

Lemma read_groups_end n i limit t : ends_groups t -> read_groups n (S i) limit t = ([], false, t).
Proof.
  intros (H1 & H2 & H3). destruct n as [|n]; [done|]. cbn [read_groups].
  assert (forall A (p : reader A), (forall r, stops 16 r -> p r = None) -> read_separator colon (S i) p t = None)
    as Hsep.
  { intros A p Hp. cbn [read_separator]. destruct t as [|b t]; [done|]. cbn [read_given_char].
    case_bool_decide as Hb; [subst b|done]. apply Hp. by apply H3. }
  rewrite (Hsep _ (read_number 16 16 (Some 4%nat) true)) by (intros; by apply nothing_read).
  rewrite (Hsep _ read_ipv4_addr); [by destruct (bool_decide _)|].
  intros r Hr. unfold read_ipv4_addr. cbn [read_octets read_separator].
  by rewrite nothing_read by (by apply stops_weaken).
Qed.

Lemma read_groups_after gs n i limit t :
  Forall is_group gs -> (length gs <= n)%nat -> ends_groups t ->
  read_groups n (S i) limit (after [colon] (show_hex <$> gs) ++ t) = (gs, false, t).
Proof.
  intros Hgs. revert n i. induction Hgs as [|g gs Hg Hgs IH]; intros n i Hn Ht.
  - by apply read_groups_end.
  - destruct n as [|n]; [cbn in Hn; lia|]. rewrite fmap_cons, after_cons.
    cbn [read_groups read_separator read_given_char app].
    rewrite (bool_decide_eq_true_2 (colon = colon)), <- app_assoc by done. destruct (colon_continues gs t Ht) as [Hs Hd].
    rewrite group_not_ipv4 by done. rewrite read_group by done.
    rewrite IH by (cbn in Hn; lia || done). by destruct (bool_decide _).
Qed.

Lemma read_groups_print gs n limit t :
  Forall is_group gs -> (length gs <= n)%nat -> ends_groups t -> gs <> [] ->
  read_groups n 0 limit (fmt_groups gs ++ t) = (gs, false, t).
Proof.
  intros Hgs Hn Ht Hne. destruct gs as [|g gs]; [done|]. apply Forall_cons_1 in Hgs as [Hg Hgs].
  destruct n as [|n]; [cbn in Hn; lia|]. unfold fmt_groups. rewrite fmap_cons, join_after, <- app_assoc.
  cbn [read_groups read_separator]. destruct (colon_continues gs t Ht) as [Hs Hd].
  rewrite group_not_ipv4 by done. rewrite read_group by done.
  rewrite read_groups_after by (cbn in Hn; lia || done). by destruct (bool_decide _).
Qed.

(** No group is read where none can start. *)
Lemma read_groups_none n limit t :
  stops 16 t -> read_groups n 0 limit t = ([], false, t).
Proof.
  intros Ht. destruct n as [|n]; [done|]. cbn [read_groups read_separator].
  rewrite nothing_read by done. unfold read_ipv4_addr. cbn [read_octets read_separator].
  rewrite nothing_read by (by apply stops_weaken). by destruct (bool_decide _).
Qed.

Lemma read_groups_fmt gs n limit t :
  Forall is_group gs -> (length gs <= n)%nat -> ends_groups t ->
  read_groups n 0 limit (fmt_groups gs ++ t) = (gs, false, t).
Proof.
  intros Hgs Hn Ht. destruct gs as [|g gs]; [by apply read_groups_none; destruct Ht|].
  by apply read_groups_print.
Qed.

Lemma groups_of_ok o :
  Nat.Even (length o) ->
  Forall is_group (groups_of o) /\ length o = (2 * length (groups_of o))%nat /\ octets_of (groups_of o) = o.
Proof.
  intros [n Hn]. revert o Hn. induction n as [|n IH]; intros o Hn.
  - destruct o; [by split_and!; constructor|cbn in Hn; lia].
  - destruct o as [|hi [|lo o]]; cbn in Hn; try lia. destruct (IH o) as (H1 & H2 & H3); [lia|].
    cbn [groups_of length]. split_and!; [|lia|].
    + constructor; [|done]. exact (from_be_range [hi; lo]).
    + unfold octets_of in *. rewrite fmap_cons. cbn [concat]. rewrite H3. unfold group_of.
      by rewrite to_from_be.
Qed.

(** A run of zero groups within [gs]. *)
Definition zero_run (gs : list Z) (span : nat * nat) : Prop :=
  (span.1 + span.2 <= length gs)%nat /\ take span.2 (drop span.1 gs) = replicate span.2 0.

Lemma zero_run_app gs hs span : zero_run gs span -> zero_run (gs ++ hs) span.
Proof.
  intros [H1 H2]. split; [rewrite length_app; lia|].
  rewrite drop_app_le by lia. by rewrite take_app_le by (rewrite length_drop; lia).
Qed.

Lemma zero_run_snoc gs start len :
  zero_run gs (start, len) -> (start + len = length gs)%nat -> zero_run (gs ++ [0]) (start, S len).
Proof.
  intros [H1 H2] Hl. cbn in *. split; cbn; [rewrite length_app; cbn; lia|].
  rewrite drop_app_le by lia. rewrite take_ge in H2 by (rewrite length_drop; lia). rewrite H2.
  rewrite take_ge by (rewrite length_app, length_replicate; cbn; lia). symmetry. apply (replicate_S_end len 0).
Qed.

Lemma longest_zeroes_run ps gs longest current :
  zero_run ps longest -> zero_run ps current -> (current.2 <> 0 -> current.1 + current.2 = length ps)%nat ->
  zero_run (ps ++ gs) (longest_zeroes (length ps) gs longest current).
Proof.
  revert ps longest current. induction gs as [|g gs IH]; intros ps longest current Hl Hc He;
    cbn [longest_zeroes]; [by apply zero_run_app|].
  replace (ps ++ g :: gs) with ((ps ++ [g]) ++ gs) by (by rewrite <- app_assoc).
  replace (S (length ps)) with (length (ps ++ [g])) by (rewrite length_app; cbn; lia).
  destruct (Z.eqb_spec g 0) as [->|].
  - destruct current as [c k]. cbn [fst snd] in *.
    assert (zero_run (ps ++ [0]) (if bool_decide (k = 0%nat) then length ps else c, S k)) as Hrun.
    { case_bool_decide as Hk; [subst k|apply zero_run_snoc; auto].
      apply zero_run_snoc; cbn; [|lia]. by split; cbn; [lia|]. }
    apply IH.
    + destruct (bool_decide (longest.2 < S k)%nat); [exact Hrun|by apply zero_run_app].
    + exact Hrun.
    + intros _. cbn. rewrite length_app. cbn. case_bool_decide; [subst k; lia|]. specialize (He H). lia.
  - apply IH; [by apply zero_run_app|by split; cbn; [lia|]|done].
Qed.

Lemma zero_run_split gs start len :
  zero_run gs (start, len) -> gs = take start gs ++ replicate len 0 ++ drop (start + len) gs.
Proof.
  intros [H1 H2]. cbn in *. rewrite <- H2.
  rewrite <- (drop_drop gs len start), take_drop. by rewrite take_drop.
Qed.

Lemma ends_colons s : ends_groups ([colon; colon] ++ s).
Proof. split_and!; [done|done|]. by intros r [= <-]. Qed.

Lemma read_compressed gs tail emb s t :
  Forall is_group gs -> (length gs < 8)%nat ->
  read_groups (7 - length gs) 0 (7 - length gs) s = (tail, emb, t) ->
  read_ipv6_addr (fmt_groups gs ++ [colon; colon] ++ s)
  = Some (octets_of (gs ++ replicate (8 - length gs - length tail) 0 ++ tail), t).
Proof.
  intros Hgs Hl Hs. unfold read_ipv6_addr. rewrite read_groups_fmt by (lia || done || apply ends_colons).
  rewrite bool_decide_eq_false_2 by lia. cbn [app].
  rewrite !read_given. cbv zeta. replace (8 - (length gs + 1))%nat with (7 - length gs)%nat by lia. by rewrite Hs.
Qed.

Lemma read_first_group g n limit t :
  is_group g -> head t <> Some dot -> stops 16 t ->
  read_groups (S n) 0 limit (show_hex g ++ t)
  = let '(gs, emb, r) := read_groups n 1 limit t in (g :: gs, emb, r).
Proof.
  intros Hg Hd Ht. cbn [read_groups read_separator].
  rewrite group_not_ipv4 by done. rewrite read_group by done. by destruct (bool_decide _).
Qed.

Lemma read_embedded a b c d n i limit t :
  (S i < limit - 1)%nat -> stops 10 t ->
  read_groups (S n) (S i) limit (colon :: show_ipv4 [a; b; c; d] ++ t)
  = ([group_of a b; group_of c d], true, t).
Proof.
  intros Hi Ht. cbn [read_groups read_separator read_given_char].
  rewrite (bool_decide_eq_true_2 _ Hi), (bool_decide_eq_true_2 (colon = colon)) by done.
  by rewrite read_show_ipv4.
Qed.

Lemma read_mapped o t :
  length o = 4%nat -> ends_groups t ->
  read_ipv6_addr (str "::ffff:" ++ show_ipv4 o ++ t)
  = Some (octets_of [0; 0; 0; 0; 0; 65535] ++ o, t).
Proof.
  intros Hl (Ht & _ & _). destruct o as [|a [|b [|c [|d [|]]]]]; try discriminate.
  assert (str "::ffff:" = fmt_groups [] ++ [colon; colon] ++ show_hex 65535 ++ [colon]) as ->
    by (vm_compute; reflexivity).
  rewrite <- !app_assoc, (read_compressed [] [65535; group_of a b; group_of c d] true _ t).
  - f_equal. f_equal. unfold octets_of, group_of.
    cbn [length app replicate fmap list_fmap concat Nat.sub].
    by rewrite !(to_from_be 2 [_; _]) by reflexivity.
  - constructor.
  - cbn. lia.
  - cbn [length Nat.sub]. rewrite read_first_group by done. cbn [app].
    by rewrite read_embedded by (lia || by apply stops_weaken).
Qed.

Lemma octets_of_take n gs : take (2 * n) (octets_of gs) = octets_of (take n gs).
Proof.
  revert n. induction gs as [|g gs IH]; intros n; [unfold octets_of; cbn; by rewrite !take_nil|].
  destruct n as [|n]; [done|]. unfold octets_of in *. cbn [take]. rewrite !fmap_cons. cbn [concat].
  rewrite take_app_ge, length_to_be by (rewrite length_to_be; lia).
  f_equal. rewrite <- IH. f_equal. lia.
Qed.

Lemma show_read_ipv6 o t :
  length o = 16%nat -> ends_groups t -> read_ipv6_addr (show_ipv6 o ++ t) = Some (o, t).
Proof.
  intros Hl Ht. destruct (groups_of_ok o) as (Hg & Hn & Ho); [exists 8%nat; lia|].
  unfold show_ipv6. case_bool_decide as Hm.
  - rewrite <- app_assoc, read_mapped by (done || (rewrite length_drop; lia)). f_equal. f_equal.
    rewrite <- Hm. transitivity (take 12 o ++ drop 12 o); [f_equal|by rewrite take_drop].
    rewrite <- (octets_of_take 6). by rewrite Ho.
  - pose proof (longest_zeroes_run [] (groups_of o) (0, 0)%nat (0, 0)%nat) as Hz.
    cbn [app length] in Hz. destruct (longest_zeroes _ _ _ _) as [start len].
    destruct Hz as [H1 H2]; [by split|by split|done|]. cbn [fst snd] in *. case_bool_decide as Hlen.
    + rewrite <- !app_assoc, (read_compressed _ (drop (start + len) (groups_of o)) false _ t).
      * rewrite length_take, length_drop, Nat.min_l by lia.
        replace (8 - start - (length (groups_of o) - (start + len)))%nat with len by lia.
        by rewrite <- zero_run_split, Ho by done.
      * by apply Forall_take.
      * rewrite length_take. lia.
      * rewrite read_groups_fmt; [done|by apply Forall_drop| |done].
        rewrite length_drop, length_take. lia.
    + unfold read_ipv6_addr. rewrite read_groups_fmt by (done || lia).
      rewrite bool_decide_eq_true_2 by lia. by rewrite Ho.
Qed.

Lemma show_ipv6_not_ipv4 o t :
  length o = 16%nat -> ends_groups t -> read_ipv4_addr (show_ipv6 o ++ t) = None.
Proof.
  intros Hl Ht. destruct (groups_of_ok o) as (Hg & _ & _); [exists 8%nat; lia|].
  assert (Hf : forall gs s, Forall is_group gs -> ends_groups s -> read_ipv4_addr (fmt_groups gs ++ s) = None).
  { intros gs s Hgs Hs. destruct gs as [|g gs].
    - unfold read_ipv4_addr. cbn [read_octets read_separator fmt_groups fmap list_fmap join app].
      rewrite nothing_read; [done|]. by apply stops_weaken; destruct Hs.
    - apply Forall_cons_1 in Hgs as [Hg1 _]. unfold fmt_groups. rewrite fmap_cons, join_after, <- app_assoc.
      destruct (colon_continues gs s Hs). by apply group_not_ipv4. }
  unfold show_ipv6. case_bool_decide.
  - rewrite <- app_assoc. done.
  - destruct (longest_zeroes _ _ _ _) as [start len]. case_bool_decide; [|by apply Hf].
    rewrite <- !app_assoc. apply Hf; [by apply Forall_take|apply ends_colons].
Qed.

(** An address of its family's length. *)
Definition ip_ok (a : IpAddr) : Prop :=
  match a with V4 o => length o = 4%nat | V6 o => length o = 16%nat end.

Lemma show_read_ip_addr a t :
  ip_ok a -> ends_groups t -> read_ip_addr (show_ip_addr a ++ t) = Some (a, t).
Proof.
  intros Ha Ht. destruct a as [o|o]; cbn in Ha; unfold read_ip_addr; cbn [show_ip_addr].
  - rewrite read_show_ipv4; [done|done|]. by apply stops_weaken; destruct Ht.
  - by rewrite show_ipv6_not_ipv4, show_read_ipv6.
Qed.

Lemma ends_groups_nil : ends_groups [].
Proof. by split_and!. Qed.

Lemma parse_show_ip_addr a : ip_ok a -> parse_ip_addr (show_ip_addr a) = Some a.
Proof.
  intros Ha. unfold parse_ip_addr, parse_with.
  rewrite <- (app_nil_r (show_ip_addr a)), show_read_ip_addr by (done || apply ends_groups_nil). done.
Qed.

(** ** Socket addresses are read back *)

(** A socket address the program handles: the flow label is always zero. *)
Definition sockaddr_ok (a : SocketAddr) : Prop :=
  ip_ok (sa_ip a) /\ in_width 16 (sa_port a) /\ in_width 32 (sa_scope_id a) /\ sa_flowinfo a = 0
  /\ match sa_ip a with V4 _ => sa_scope_id a = 0 | V6 _ => True end.

Lemma read_uint w z t :
  in_width w z -> w <= 64 -> stops 10 t -> read_number 10 w None true (show_uint z ++ t) = Some (z, t).
Proof.
  intros [H1 H2] Hw Ht. apply read_number_print; try done; try lia.
  split; [done|]. assert (2 ^ w <= 2 ^ 64) by (apply Z.pow_le_mono_r; lia).
  change (Z.of_nat 40) with 40. lia.
Qed.

Lemma read_port_print p : in_width 16 p -> read_port (colon :: show_uint p) = Some (p, []).
Proof.
  intros Hp. unfold read_port. rewrite read_given.
  rewrite <- (app_nil_r (show_uint p)). by apply read_uint.
Qed.

Lemma parse_show_socket_addr a : sockaddr_ok a -> parse_socket_addr (show_socket_addr a) = Some a.
Proof.
  destruct a as [[o|o] p f z]; intros (Hi & Hp & Hz & Hf & Hs);
    cbn [sa_ip ip_ok sa_port sa_scope_id sa_flowinfo] in *; subst.
  - unfold parse_socket_addr, parse_with, read_socket_addr, read_socket_addr_v4, show_socket_addr. cbn [sa_ip sa_port].
    rewrite read_show_ipv4 by done. cbn [app]. by rewrite read_port_print.
  - unfold parse_socket_addr, parse_with, read_socket_addr, show_socket_addr. cbn [sa_ip sa_port sa_scope_id app].
    assert (forall s, read_socket_addr_v4 (ch 91 :: s) = None) as -> by done.
    unfold read_socket_addr_v6. rewrite read_given.
    destruct (Z.eqb_spec z 0) as [->|Hz0]; rewrite show_read_ipv6 by (done || by split_and!);
      unfold read_scope_id; cbn [app].
    + rewrite read_given_other, read_given, read_port_print by done. done.
    + rewrite read_given, read_uint, read_given, read_port_print by done. done.
Qed.
