(* ===== verification/Eip3009.v ===== *)
(** * Payment wallet and transfer authorisations ([payment/wallet.rs],
    [payment/eip3009.rs], the configuration of [payment/mod.rs])

    The hash and the elliptic-curve operations come from the crates [sha3], [hkdf]
    and [k256]; they are the class [Ethereum], with what those crates document as
    the class [EthereumLaws]. No property assumes the hash to be free of
    collisions: where that matters the statement exhibits the collision. *)

From Stdlib Require Import ZArith Lia.
From Stdlib Require Strings.String.
From stdpp Require Import base numbers list option.
From S2P Require Import Prelude Crypto RustText.

Import Stdlib.Strings.String.StringSyntax.

(** ** The crates *)

Class Ethereum := {
  keccak256 : bytes -> bytes;
  (** [Hkdf::<Sha256>::new(Some(salt), ikm).expand(info, out)] *)
  hkdf_sha256 : bytes -> bytes -> bytes -> nat -> option bytes;
  SigningKey : Type;
  signing_key_from_bytes : bytes -> option SigningKey;
  (** [VerifyingKey::from(key).to_encoded_point(false)] *)
  verifying_point : SigningKey -> bytes;
  (** Signature bytes [r || s] and recovery id. *)
  sign_prehash_recoverable : SigningKey -> bytes -> option (bytes * Z);
  recovery_id_from_byte : Z -> option Z;
  Signature : Type;
  signature_from_bytes : bytes -> option Signature;
  (** The encoded point of the recovered key. *)
  recover_from_prehash : bytes -> Signature -> Z -> option bytes;
}.

Class EthereumLaws (Eth : Ethereum) : Prop := {
  keccak256_length : forall d, length (keccak256 d) = 32%nat;
  hkdf_length : forall salt ikm info n,
    (n <= 255 * 32)%nat -> exists k, hkdf_sha256 salt ikm info n = Some k /\ length k = n;
  point_length : forall k, length (verifying_point k) = 65%nat;
  recover_length : forall d s rid p, recover_from_prehash d s rid = Some p -> length p = 65%nat;
  (** Signing a 32-byte digest succeeds; the signature is accepted and recovers
      the signer's key. *)
  sign_recover : forall k d, length d = 32%nat ->
    exists sig rid s, sign_prehash_recoverable k d = Some (sig, rid)
      /\ length sig = 64%nat /\ 0 <= rid < 4 /\ recovery_id_from_byte rid = Some rid
      /\ signature_from_bytes sig = Some s
      /\ recover_from_prehash d s rid = Some (verifying_point k);
}.

Section Wallet.
Context `{Eth : Ethereum}.

(** ** [PaymentWallet] *)

Record PaymentWallet := mkWallet { signing_key : SigningKey; ethereum_address : bytes }.

Definition HKDF_SALT : bytes := str "boringtun-payment-v1".
Definition HKDF_INFO : bytes := str "secp256k1-signing-key".

(** The last 20 bytes of the hash of [x || y]. *)
Definition address_of_point (pubkey_bytes : bytes) : outcome bytes :=
  let! xy := slice pubkey_bytes 1 (length pubkey_bytes) in
  let hash := keccak256 xy in
  let! a := slice hash 12 (length hash) in
  let! _ := require (bool_decide (length a = 20%nat)) in
  Ret a.

Definition compute_address (k : SigningKey) : outcome bytes := address_of_point (verifying_point k).

Definition from_wireguard_key (x25519_private_bytes : bytes) : outcome PaymentWallet :=
  let! derived := unwrap (hkdf_sha256 HKDF_SALT x25519_private_bytes HKDF_INFO 32) in
  let! k := unwrap (signing_key_from_bytes derived) in
  let! a := compute_address k in
  Ret (mkWallet k a).

Definition sign_digest (w : PaymentWallet) (digest : bytes) : outcome (byte * bytes * bytes) :=
  let! (sig_bytes, recovery_id) := unwrap (sign_prehash_recoverable (signing_key w) digest) in
  let! r := slice sig_bytes 0 32 in
  let! s := slice sig_bytes 32 (length sig_bytes) in
  let! _ := require (bool_decide (length s = 32%nat)) in
  Ret (of_u8 (recovery_id + 27), r, s).

Definition recover_address (digest : bytes) (v : byte) (r s : bytes) : outcome (option bytes) :=
  if u8 v <? 27 then Ret None
  else
    match recovery_id_from_byte (u8 v - 27) with
    | None => Ret None
    | Some recovery_id =>
        match signature_from_bytes (r ++ s) with
        | None => Ret None
        | Some signature =>
            match recover_from_prehash digest signature recovery_id with
            | None => Ret None
            | Some p => let! a := address_of_point p in Ret (Some a)
            end
        end
    end.

(** ** EIP-712 and EIP-3009 *)

Record Eip712Domain := mkDomain {
  domain_name : bytes;
  domain_version : bytes;
  domain_chain_id : Z;
  verifying_contract : bytes;
}.

Record TransferAuthorization := mkAuth {
  auth_from : bytes;
  auth_to : bytes;
  auth_value : Z;
  auth_valid_after : Z;
  auth_valid_before : Z;
  auth_nonce : bytes;
}.

Record SignedAuthorization := mkSigned {
  signed_auth : TransferAuthorization;
  signed_v : byte;
  signed_r : bytes;
  signed_s : bytes;
}.

Definition eip712_domain_type_hash : bytes :=
  keccak256 (str "EIP712Domain(string name,string version,uint256 chainId,address verifyingContract)").

Definition transfer_authorization_type_hash : bytes :=
  keccak256 (str "TransferWithAuthorization(address from,address to,uint256 value,uint256 validAfter,uint256 validBefore,bytes32 nonce)").

(** Addresses have 20 bytes and words 32: the copies cannot fail. *)
Definition abi_encode_address (addr : bytes) : bytes := zeros 12 ++ addr.
Definition abi_encode_u256 (value : Z) : bytes := zeros 16 ++ to_be 16 value.

(** The buffers [data] of the three hashes. *)
Definition domain_data (d : Eip712Domain) : bytes :=
  eip712_domain_type_hash ++ keccak256 (domain_name d) ++ keccak256 (domain_version d)
  ++ abi_encode_u256 (domain_chain_id d) ++ abi_encode_address (verifying_contract d).

Definition compute_domain_separator (d : Eip712Domain) : bytes := keccak256 (domain_data d).

Definition struct_data (a : TransferAuthorization) : bytes :=
  transfer_authorization_type_hash
  ++ abi_encode_address (auth_from a) ++ abi_encode_address (auth_to a)
  ++ abi_encode_u256 (auth_value a) ++ abi_encode_u256 (auth_valid_after a)
  ++ abi_encode_u256 (auth_valid_before a) ++ auth_nonce a.

Definition compute_struct_hash (a : TransferAuthorization) : bytes := keccak256 (struct_data a).

Definition digest_data (d : Eip712Domain) (a : TransferAuthorization) : bytes :=
  [x19; x01] ++ compute_domain_separator d ++ compute_struct_hash a.

Definition compute_eip712_digest (d : Eip712Domain) (a : TransferAuthorization) : bytes :=
  keccak256 (digest_data d a).

Definition sign_authorization (w : PaymentWallet) (d : Eip712Domain) (a : TransferAuthorization)
    : outcome SignedAuthorization :=
  let digest := compute_eip712_digest d a in
  let! (v, r, s) := sign_digest w digest in
  Ret (mkSigned a v r s).

Definition verify_authorization (d : Eip712Domain) (signed : SignedAuthorization)
    : outcome (option bytes) :=
  let digest := compute_eip712_digest d (signed_auth signed) in
  recover_address digest (signed_v signed) (signed_r signed) (signed_s signed).
End Wallet.

(** ** Lemmas *)

Definition wf_auth (a : TransferAuthorization) : Prop :=
  length (auth_from a) = 20%nat /\ length (auth_to a) = 20%nat /\ length (auth_nonce a) = 32%nat
  /\ u64_range (auth_value a) /\ u64_range (auth_valid_after a) /\ u64_range (auth_valid_before a).

Definition wf_domain (d : Eip712Domain) : Prop :=
  length (verifying_contract d) = 20%nat /\ u64_range (domain_chain_id d).

Section Laws.
Context `{Eth : Ethereum} `{EL : !EthereumLaws Eth}.

Lemma address_of_point_ok p :
  length p = 65%nat ->
  exists a, address_of_point p = Ret a /\ length a = 20%nat
            /\ a = drop 12 (keccak256 (drop 1 p)).
Proof.
  intros Hp. unfold address_of_point. rewrite slice_ok by lia. cbn [outcome_bind].
  rewrite slice_ok by (rewrite ?keccak256_length; lia). cbn [outcome_bind].
  rewrite !sub_full_drop, bool_decide_eq_true_2 by (rewrite length_drop, keccak256_length; lia).
  eexists. split; [done|]. rewrite length_drop, keccak256_length. done.
Qed.

(** A wallet as [from_wireguard_key] makes them. *)
Definition wallet_ok (w : PaymentWallet) : Prop :=
  compute_address (signing_key w) = Ret (ethereum_address w).

Lemma from_wireguard_key_ok k w : from_wireguard_key k = Ret w -> wallet_ok w.
Proof.
  unfold from_wireguard_key, wallet_ok.
  destruct (hkdf_sha256 _ _ _ _) as [d|]; cbn [unwrap outcome_bind]; [|done].
  destruct (signing_key_from_bytes d) as [sk|]; cbn [unwrap outcome_bind]; [|done].
  destruct (compute_address sk) as [a|] eqn:E; cbn [outcome_bind]; [|done].
  by intros <-%(inj Ret).
Qed.

Lemma wallet_address_length w : wallet_ok w -> length (ethereum_address w) = 20%nat.
Proof.
  unfold wallet_ok, compute_address. destruct (address_of_point_ok (verifying_point (signing_key w)))
    as (a & -> & Hl & _); [apply point_length|]. by intros <-%(inj Ret).
Qed.

Lemma digest_length d a : length (compute_eip712_digest d a) = 32%nat.
Proof. apply keccak256_length. Qed.

Lemma sign_digest_ok w digest :
  length digest = 32%nat -> wallet_ok w ->
  exists v r s, sign_digest w digest = Ret (v, r, s) /\ length r = 32%nat /\ length s = 32%nat
    /\ recover_address digest v r s = Ret (Some (ethereum_address w)).
Proof.
  intros Hd Hw. destruct (sign_recover (signing_key w) digest Hd)
    as (sg & rid & sgn & Hsign & Hlen & Hrid & Hid & Hparse & Hrec).
  unfold sign_digest. rewrite Hsign. cbn [unwrap outcome_bind].
  rewrite !slice_ok by lia. cbn [outcome_bind]. rewrite !length_sub by lia.
  rewrite Hlen. cbn [Nat.sub]. rewrite bool_decide_eq_true_2 by done. cbn [require outcome_bind].
  do 3 eexists. split; [done|]. rewrite !length_sub by lia. split_and!; [done|done|].
  unfold recover_address. rewrite byte.unsigned_of_Z. unfold byte.wrap.
  rewrite Z.mod_small by lia. destruct (Z.ltb_spec (rid + 27) 27); [lia|].
  replace (rid + 27 - 27) with rid by lia. rewrite Hid.
  replace (sub sg 0 32 ++ sub sg 32 64) with sg.
  - rewrite Hparse, Hrec. unfold wallet_ok, compute_address in Hw. by rewrite Hw.
  - unfold sub. cbn [Nat.sub]. rewrite drop_0. rewrite <- (take_drop 32 sg) at 1. f_equal.
    symmetry. apply take_ge. rewrite length_drop. lia.
Qed.

Lemma recover_address_total digest v r s :
  exists o, recover_address digest v r s = Ret o /\ (forall a, o = Some a -> length a = 20%nat).
Proof.
  unfold recover_address. split_if; [by eexists|].
  destruct (recovery_id_from_byte _) as [rid|]; [|by eexists].
  destruct (signature_from_bytes _) as [sg|]; [|by eexists].
  destruct (recover_from_prehash digest sg rid) as [p|] eqn:E; [|by eexists].
  destruct (address_of_point_ok p) as (a & -> & Hl & _); [by eapply recover_length|].
  eexists. split; [done|]. by intros ? [= <-].
Qed.

(** ** What a digest commits to *)

Lemma abi_encode_u256_inj a b :
  u64_range a -> u64_range b -> abi_encode_u256 a = abi_encode_u256 b -> a = b.
Proof.
  intros [Ha1 Ha2] [Hb1 Hb2] H%app_inv_head.
  by apply to_be_inj in H; try (split; [done|]; eapply Z.lt_trans; [eassumption|reflexivity]).
Qed.

Lemma length_u256 v : length (abi_encode_u256 v) = 32%nat.
Proof. unfold abi_encode_u256. len. Qed.

Lemma length_abi_address a : length a = 20%nat -> length (abi_encode_address a) = 32%nat.
Proof. intros. unfold abi_encode_address. len. Qed.

Lemma domain_data_inj d d' :
  wf_domain d -> wf_domain d' -> domain_data d = domain_data d' ->
  keccak256 (domain_name d) = keccak256 (domain_name d')
  /\ keccak256 (domain_version d) = keccak256 (domain_version d')
  /\ domain_chain_id d = domain_chain_id d' /\ verifying_contract d = verifying_contract d'.
Proof.
  intros [Hl Hc] [Hl' Hc'] H%app_inv_head.
  apply app_inj_1 in H as [Hn H]; [|by rewrite !keccak256_length].
  apply app_inj_1 in H as [Hv H]; [|by rewrite !keccak256_length].
  apply app_inj_1 in H as [Hid H]; [|by rewrite !length_u256].
  apply app_inv_head in H. apply abi_encode_u256_inj in Hid; done.
Qed.

Lemma struct_data_inj a a' : wf_auth a -> wf_auth a' -> struct_data a = struct_data a' -> a = a'.
Proof.
  intros (Hf & Ht & Hn & Hv & Ha & Hb) (Hf' & Ht' & Hn' & Hv' & Ha' & Hb') H%app_inv_head.
  apply app_inj_1 in H as [E1 H]; [|by rewrite !length_abi_address].
  apply app_inj_1 in H as [E2 H]; [|by rewrite !length_abi_address].
  apply app_inj_1 in H as [E3 H]; [|by rewrite !length_u256].
  apply app_inj_1 in H as [E4 H]; [|by rewrite !length_u256].
  apply app_inj_1 in H as [E5 H]; [|by rewrite !length_u256].
  apply app_inv_head in E1, E2. apply abi_encode_u256_inj in E3, E4, E5; try done.
  destruct a, a'; cbn in *. by subst.
Qed.

(** The strings hashed for a digest. *)
Definition hashed (d : Eip712Domain) (a : TransferAuthorization) : list bytes :=
  [digest_data d a; domain_data d; struct_data a; domain_name d; domain_version d].

Lemma digest_inj d a d' a' :
  wf_domain d -> wf_domain d' -> wf_auth a -> wf_auth a' ->
  (forall x y, x ∈ hashed d a -> y ∈ hashed d' a' -> keccak256 x = keccak256 y -> x = y) ->
  compute_eip712_digest d a = compute_eip712_digest d' a' -> d = d' /\ a = a'.
Proof.
  intros Hd Hd' Ha Ha' Hinj H. unfold hashed in Hinj.
  apply Hinj in H; [|by repeat constructor..]. apply app_inv_head in H.
  apply app_inj_1 in H as [Hs Ht]; [|unfold compute_domain_separator; by rewrite !keccak256_length].
  apply Hinj in Hs; [|by repeat constructor..]. apply Hinj in Ht; [|by repeat constructor..].
  apply struct_data_inj in Ht; try done.
  apply domain_data_inj in Hs as (Hn & Hv & Hid & Hc); try done.
  apply Hinj in Hn; [|by repeat constructor..]. apply Hinj in Hv; [|by repeat constructor..].
  split; [|done]. destruct d, d'; cbn in *. by subst.
Qed.
End Laws.

(** ** An executable instance *)

Definition toy_ethereum : Ethereum := {|
  keccak256 := fun d => to_le 32 (from_le d mod toy_modulus);
  hkdf_sha256 := fun salt ikm info n => Some (toy_digest n (salt ++ ikm ++ info));
  SigningKey := Z;
  signing_key_from_bytes := fun b => Some (from_be b);
  verifying_point := fun k => [x04] ++ zeros 32 ++ to_be 32 k;
  sign_prehash_recoverable := fun k d => Some (d ++ to_be 32 k, 0);
  recovery_id_from_byte := fun b => if b <? 4 then Some b else None;
  Signature := bytes;
  signature_from_bytes := fun b => Some b;
  recover_from_prehash := fun d s rid =>
    if bool_decide (length s = 64%nat /\ take 32 s = d) then Some ([x04] ++ zeros 32 ++ drop 32 s)
    else None;
|}.
#[local] Existing Instance toy_ethereum.

Lemma toy_ethereum_laws : EthereumLaws toy_ethereum.
Proof.
  split; cbn [toy_ethereum keccak256 hkdf_sha256 verifying_point recover_from_prehash
              sign_prehash_recoverable recovery_id_from_byte signature_from_bytes].
  - intros. apply length_to_le.
  - intros. eexists. split; [done|]. apply length_to_le.
  - intros. len.
  - intros d s rid p. case_bool_decide as E; [|done]. intros <-%(inj Some).
    destruct E as [E _]. len. rewrite length_drop. lia.
  - intros k d Hd. do 3 eexists. split; [done|]. split; [len|]. split_and!; try done.
    rewrite bool_decide_eq_true_2 by (split; [len|by apply take_app_length']).
    by rewrite drop_app_length'.
Qed.

Lemma toy_wallet k : exists w, from_wireguard_key k = Ret w.
Proof.
  unfold from_wireguard_key. cbn [hkdf_sha256 signing_key_from_bytes toy_ethereum unwrap outcome_bind].
  unfold compute_address. edestruct (address_of_point_ok (EL := toy_ethereum_laws)) as (a & -> & _);
    [apply toy_ethereum_laws|]. by eexists.
Qed.

(** ** Correctness *)

(** An authorisation signed by a wallet verifies. For any domain and transfer,
    [sign_authorization] succeeds, leaves the transfer as it is, and
    [verify_authorization] under the same domain recovers the wallet's address. *)
Theorem authorization_sign_verify `{Eth : Ethereum} `{EL : !EthereumLaws Eth}
    (w : PaymentWallet) (d : Eip712Domain) (a : TransferAuthorization) (Hw : wallet_ok w) :
  exists signed, sign_authorization w d a = Ret signed /\ signed_auth signed = a
    /\ verify_authorization d signed = Ret (Some (ethereum_address w)).
Proof.
  unfold sign_authorization, verify_authorization.
  destruct (sign_digest_ok w (compute_eip712_digest d a)) as (v & r & s & -> & _ & _ & Hrec);
    [apply digest_length|done|].
  by eexists.
Qed.

(** A decision procedure for the absence of collisions between two lists. *)
Definition no_collision `{Ethereum} (l l' : list bytes) : bool :=
  let hs := (fun x => (x, keccak256 x)) <$> l in
  let hs' := (fun x => (x, keccak256 x)) <$> l' in
  forallb (fun p => forallb (fun q =>
    bool_decide (fst p = fst q) || negb (bool_decide (snd p = snd q))) hs') hs.

Lemma no_collision_ok `{Ethereum} l l' :
  no_collision l l' = true ->
  forall x y, x ∈ l -> y ∈ l' -> keccak256 x = keccak256 y -> x = y.
Proof.
  unfold no_collision. rewrite forallb_forall. intros Hf x y Hx Hy He.
  assert (Hf1 := Hf (x, keccak256 x)). rewrite forallb_forall in Hf1.
  assert (Hf2 := fun Hx => Hf1 Hx (y, keccak256 y)). cbn [fst snd] in Hf2.
  rewrite (bool_decide_eq_true_2 _ He), orb_false_r, bool_decide_eq_true in Hf2.
  apply Hf2; apply list_elem_of_In, list_elem_of_fmap; eauto.
Qed.

Definition example_domain : Eip712Domain :=
  mkDomain (str "GatewayWalletBatched") (str "1") 5042002 (replicate 20 x07).
Definition example_auth : TransferAuthorization :=
  mkAuth (replicate 20 x0a) (replicate 20 x0b) 10000 0 1000000000 (replicate 32 x07).

Lemma authorization_sign_verify_witness :
  exists w signed, from_wireguard_key (replicate 32 x2a) = Ret w
    /\ sign_authorization w example_domain example_auth = Ret signed
    /\ signed_auth signed = example_auth
    /\ verify_authorization example_domain signed = Ret (Some (ethereum_address w)).
Proof.
  destruct (toy_wallet (replicate 32 x2a)) as (w & E).
  destruct (authorization_sign_verify (EL := toy_ethereum_laws) w example_domain example_auth)
    as (signed & H1 & H2 & H3).
  { exact (from_wireguard_key_ok _ _ E). }
  exists w, signed. split_and!; assumption.
Defined.

(** C31. The digest commits to every field. Unless the hash collides on the strings
    hashed for the two digests, authorisations that differ in payer, recipient,
    amount, validity or nonce, or domains that differ in name, version, chain or
    contract, have different digests: a signature is not valid for another
    transfer, contract or chain. *)
Theorem authorization_binding `{Eth : Ethereum} `{EL : !EthereumLaws Eth}
    (d d' : Eip712Domain) (a a' : TransferAuthorization)
    (Hd : wf_domain d) (Hd' : wf_domain d') (Ha : wf_auth a) (Ha' : wf_auth a')
    (Hcoll : forall x y, x ∈ hashed d a -> y ∈ hashed d' a' -> keccak256 x = keccak256 y -> x = y)
    (Hne : (d, a) <> (d', a')) :
  compute_eip712_digest d a <> compute_eip712_digest d' a'.
Proof. intros H. apply Hne. apply digest_inj in H as [-> ->]; done. Qed.

Lemma authorization_binding_witness :
  let a' := mkAuth (replicate 20 x0a) (replicate 20 x0b) 1 0 1000000000 (replicate 32 x07) in
  compute_eip712_digest example_domain example_auth <> compute_eip712_digest example_domain a'.
Proof.
  intros a'. refine (authorization_binding (EL := toy_ethereum_laws)
    example_domain example_domain example_auth a' _ _ _ _ _ _).
  1-4: repeat split; ground.
  - apply no_collision_ok. vm_compute. reflexivity.
  - intros [= H].
Defined.
