(* ===== verification/Rlp.v ===== *)
(** * RLP and EIP-1559 transactions ([payment/tx.rs])

    The encoders of the source, a reference decoder for the encoding they
    implement, and the proof that the decoder reads back what the encoders write.
    The decoder runs on fuel; [2 * length + 1] steps are enough for any input the
    encoders produce ([rlp_decode_encode]). *)

From Stdlib Require Import ZArith Lia.
From stdpp Require Import base numbers list option.
From S2P Require Import Prelude Eip3009.

(** ** The encoders *)

(** [be[start..]] where [start] is the position of the first nonzero byte, or
    [dflt] when there is none. *)
Definition first_nonzero (be : bytes) (dflt : nat) : nat :=
  match list_find (fun b => u8 b <> 0) be with Some (i, _) => i | None => dflt end.

Definition encode_length (len : nat) : bytes :=
  let be := to_be 8 (Z.of_nat len) in drop (first_nonzero be 7) be.

Definition rlp_encode_bytes (data : bytes) : bytes :=
  if bool_decide (length data = 1%nat)
     && match data with b :: _ => u8 b <? 128 | [] => false end
  then data
  else if bool_decide (length data <= 55)%nat then
    [of_u8 (128 + Z.of_nat (length data))] ++ data
  else
    let len_bytes := encode_length (length data) in
    [of_u8 (183 + Z.of_nat (length len_bytes))] ++ len_bytes ++ data.

Definition rlp_encode_list (items : list bytes) : bytes :=
  let payload := concat items in
  if bool_decide (length payload <= 55)%nat then
    [of_u8 (192 + Z.of_nat (length payload))] ++ payload
  else
    let len_bytes := encode_length (length payload) in
    [of_u8 (247 + Z.of_nat (length len_bytes))] ++ len_bytes ++ payload.

Definition rlp_encode_uint (value : Z) : bytes :=
  if value =? 0 then [of_u8 128]
  else let be := to_be 8 value in rlp_encode_bytes (drop (first_nonzero be 7) be).

Definition rlp_encode_u128 (value : Z) : bytes :=
  if value =? 0 then [of_u8 128]
  else let be := to_be 16 value in rlp_encode_bytes (drop (first_nonzero be 15) be).

(** ** Transactions *)

Record Eip1559Tx := mkTx {
  tx_chain_id : Z;
  tx_nonce : Z;
  max_priority_fee_per_gas : Z;
  max_fee_per_gas : Z;
  gas_limit : Z;
  tx_to : bytes;
  tx_value : Z;
  tx_data : bytes;
}.

Definition rlp_fields (tx : Eip1559Tx) : list bytes :=
  [ rlp_encode_uint (tx_chain_id tx);
    rlp_encode_uint (tx_nonce tx);
    rlp_encode_u128 (max_priority_fee_per_gas tx);
    rlp_encode_u128 (max_fee_per_gas tx);
    rlp_encode_uint (gas_limit tx);
    rlp_encode_bytes (tx_to tx);
    rlp_encode_u128 (tx_value tx);
    rlp_encode_bytes (tx_data tx);
    rlp_encode_list [] ].

Section Sign.
Context `{Eth : Ethereum}.

Definition signing_hash (tx : Eip1559Tx) : bytes :=
  keccak256 ([x02] ++ rlp_encode_list (rlp_fields tx)).

Definition sign_tx (tx : Eip1559Tx) (key : SigningKey) : outcome bytes :=
  let hash := signing_hash tx in
  let! (sig_bytes, recovery_id) := unwrap (sign_prehash_recoverable key hash) in
  let! r := slice sig_bytes 0 32 in
  let! s := slice sig_bytes 32 (length sig_bytes) in
  let y_parity := recovery_id in
  let fields := rlp_fields tx
                ++ [rlp_encode_uint y_parity; rlp_encode_bytes r; rlp_encode_bytes s] in
  Ret ([x02] ++ rlp_encode_list fields).
End Sign.

(** ** The encoding they implement *)

Inductive item := Str (b : bytes) | Lst (l : list item).

(** Strings and lists of at most 55 bytes carry their length in the first byte;
    longer ones carry the length of the length there. The result is the body and
    what follows it. *)
Definition split_at_len (n : nat) (l : bytes) : option (bytes * bytes) :=
  if bool_decide (n <= length l)%nat then Some (take n l, drop n l) else None.

Definition body (short long : Z) (p : Z) (l : bytes) : option (bytes * bytes) :=
  if p <=? long then split_at_len (Z.to_nat (p - short)) l
  else
    match split_at_len (Z.to_nat (p - long)) l with
    | None => None
    | Some (n, l) => split_at_len (Z.to_nat (from_be n)) l
    end.

Fixpoint decode_item (fuel : nat) (l : bytes) : option (item * bytes) :=
  match fuel, l with
  | S fuel, b :: l =>
      if u8 b <? 128 then Some (Str [b], l)
      else if u8 b <? 192 then
        match body 128 183 (u8 b) l with
        | Some (s, l) => Some (Str s, l)
        | None => None
        end
      else
        match body 192 247 (u8 b) l with
        | Some (s, l) =>
            match decode_items fuel s with
            | Some xs => Some (Lst xs, l)
            | None => None
            end
        | None => None
        end
  | _, _ => None
  end
with decode_items (fuel : nat) (l : bytes) : option (list item) :=
  match fuel with
  | O => None
  | S fuel =>
      if bool_decide (l = []) then Some []
      else
        match decode_item fuel l with
        | None => None
        | Some (i, l) =>
            match decode_items fuel l with
            | Some xs => Some (i :: xs)
            | None => None
            end
        end
  end.

Definition rlp_decode (l : bytes) : option (item * bytes) := decode_item (2 * length l + 1) l.

(** An item as the encoders of the source write it. *)
Fixpoint encode_item (i : item) : bytes :=
  match i with
  | Str b => rlp_encode_bytes b
  | Lst l => rlp_encode_list (encode_item <$> l)
  end.

(** ** Big-endian numbers without leading zeros *)

Lemma u8_range b : 0 <= u8 b < 256.
Proof. apply byte.unsigned_range. Qed.

(** Dropping the leading zeros of a nonzero number. *)
Lemma strip_zeros l d :
  from_be l <> 0 ->
  exists b r, drop (first_nonzero l d) l = b :: r /\ u8 b <> 0 /\ from_be (b :: r) = from_be l.
Proof.
  unfold first_nonzero. induction l as [|x l IH]; intros H0; [done|].
  cbn [list_find]. destruct (decide (u8 x <> 0)) as [Hx|Hx]; [by exists x, l|].
  assert (u8 x = 0) as Hz by lia.
  assert (from_be (x :: l) = from_be l) as Hl by (rewrite from_be_cons, Hz; lia).
  rewrite Hl in *. destruct (IH H0) as (b & r & Hd & Hb & Hf).
  destruct (list_find _ l) as [[i y]|] eqn:E.
  - cbn. by exists b, r.
  - exfalso. apply H0. apply list_find_None in E. clear -E.
    induction E as [|y l Hy _ IH]; [by vm_compute|]. rewrite from_be_cons, IH.
    assert (u8 y = 0) as -> by lia. lia.
Qed.

(** The big-endian digits of a number, none for zero. *)
Definition minimal_be (n : nat) (v : Z) : bytes :=
  if v =? 0 then [] else drop (first_nonzero (to_be n v) (n - 1)) (to_be n v).

Lemma minimal_be_ok n v :
  in_width (Z.of_nat n * 8) v ->
  from_be (minimal_be n v) = v /\ (length (minimal_be n v) <= n)%nat
  /\ (forall b r, minimal_be n v = b :: r -> u8 b <> 0) /\ (v <> 0 -> minimal_be n v <> []).
Proof.
  intros Hv. unfold minimal_be. destruct (Z.eqb_spec v 0) as [->|Hne].
  - split_and!; [by vm_compute|cbn; lia|done|done].
  - destruct (strip_zeros (to_be n v) (n - 1)) as (b & r & Hd & Hb & Hf);
      [by rewrite from_to_be|].
    rewrite Hd, Hf, from_to_be by done. split_and!; [done| |by intros ? ? [= <- <-]|done].
    rewrite <- Hd, length_drop, length_to_be. lia.
Qed.

Lemma rlp_encode_uint_eq v : rlp_encode_uint v = rlp_encode_bytes (minimal_be 8 v).
Proof. unfold rlp_encode_uint, minimal_be. by destruct (v =? 0). Qed.

Lemma rlp_encode_u128_eq v : rlp_encode_u128 v = rlp_encode_bytes (minimal_be 16 v).
Proof. unfold rlp_encode_u128, minimal_be. by destruct (v =? 0). Qed.

Lemma encode_length_ok n :
  (0 < n)%nat -> Z.of_nat n < 2 ^ 64 ->
  from_be (encode_length n) = Z.of_nat n /\ (1 <= length (encode_length n) <= 8)%nat.
Proof.
  intros H0 Hn. assert (encode_length n = minimal_be 8 (Z.of_nat n)) as ->.
  { unfold encode_length, minimal_be. destruct (Z.eqb_spec (Z.of_nat n) 0); [lia|done]. }
  destruct (minimal_be_ok 8 (Z.of_nat n)) as (Hv & Hl & _ & Hne); [split; [lia|exact Hn]|].
  split_and!; [done| |done]. destruct (minimal_be 8 (Z.of_nat n)); [by destruct Hne; [lia|]|cbn; lia].
Qed.

(** ** Headers *)

(** The two encoders write the same header at different offsets. *)
Definition with_header (short long : Z) (payload : bytes) : bytes :=
  if bool_decide (length payload <= 55)%nat then
    [of_u8 (short + Z.of_nat (length payload))] ++ payload
  else
    [of_u8 (long + Z.of_nat (length (encode_length (length payload))))]
    ++ encode_length (length payload) ++ payload.

Lemma rlp_encode_list_eq items : rlp_encode_list items = with_header 192 247 (concat items).
Proof. done. Qed.

Lemma split_at_len_app (a b : bytes) n :
  n = length a -> split_at_len n (a ++ b) = Some (a, b).
Proof.
  intros ->. unfold split_at_len. rewrite bool_decide_eq_true_2 by (rewrite length_app; lia).
  by rewrite take_app_length, drop_app_length.
Qed.

Lemma body_ok short long payload :
  0 <= short -> long = short + 55 -> long + 8 < 256 -> Z.of_nat (length payload) < 2 ^ 64 ->
  exists b l, with_header short long payload = b :: l /\ short <= u8 b <= long + 8
    /\ (length payload <= length l)%nat
    /\ forall rest, body short long (u8 b) (l ++ rest) = Some (payload, rest).
Proof.
  intros Hs -> Hl Hp. unfold with_header. case_bool_decide as Hlen.
  - do 2 eexists. split; [done|]. rewrite u8_of_u8 by lia. split; [lia|]. split; [done|].
    intros rest. unfold body. destruct (Z.leb_spec (short + Z.of_nat (length payload)) (short + 55));
      [|lia]. apply split_at_len_app. lia.
  - destruct (encode_length_ok (length payload)) as [Hv Hb]; [lia|done|].
    do 2 eexists. split; [done|]. rewrite u8_of_u8 by lia. split; [lia|].
    split; [rewrite length_app; lia|]. intros rest. unfold body.
    match goal with |- context [?a <=? ?b] => destruct (Z.leb_spec a b); [lia|] end.
    rewrite <- app_assoc, split_at_len_app by lia. rewrite Hv, Nat2Z.id.
    by apply split_at_len_app.
Qed.

Lemma rlp_encode_bytes_cases data :
  (exists b, data = [b] /\ u8 b < 128 /\ rlp_encode_bytes data = [b])
  \/ rlp_encode_bytes data = with_header 128 183 data.
Proof.
  unfold rlp_encode_bytes. case_bool_decide as Hl; [|by right].
  destruct data as [|b [|]]; try discriminate Hl. destruct (Z.ltb_spec (u8 b) 128); [|by right].
  left. by exists b.
Qed.

(** ** The decoder reads back the encoders' output *)

Fixpoint fuel_of (i : item) : nat :=
  match i with
  | Str _ => 1
  | Lst l => S (foldr (fun i n => S (Nat.max (fuel_of i) n)) 1%nat l)
  end.
Definition fuel_of_list (l : list item) : nat :=
  foldr (fun i n => S (Nat.max (fuel_of i) n)) 1%nat l.

Definition small (l : bytes) : Prop := Z.of_nat (length l) < 2 ^ 64.

Lemma decode_string fuel data rest :
  small (rlp_encode_bytes data) ->
  decode_item (S fuel) (rlp_encode_bytes data ++ rest) = Some (Str data, rest).
Proof.
  intros Hs. destruct (rlp_encode_bytes_cases data) as [(b & -> & Hb & ->)|E].
  - cbn [app decode_item]. by rewrite (proj2 (Z.ltb_lt _ _) Hb).
  - assert (length data <= length (rlp_encode_bytes data))%nat.
    { rewrite E. unfold with_header. case_bool_decide; rewrite !length_app; lia. }
    rewrite E. destruct (body_ok 128 183 data) as (b & l & -> & Hb & _ & Hbody);
      [lia|lia|lia|unfold small in Hs; lia|].
    cbn [app decode_item]. destruct (Z.ltb_spec (u8 b) 128); [lia|].
    destruct (Z.ltb_spec (u8 b) 192); [|lia]. by rewrite Hbody.
Qed.

Lemma encode_nonempty i : encode_item i <> [].
Proof.
  destruct i; cbn [encode_item].
  - destruct (rlp_encode_bytes_cases b) as [(x & -> & _ & ->)| ->]; [done|].
    unfold with_header. by case_bool_decide.
  - rewrite rlp_encode_list_eq. unfold with_header. by case_bool_decide.
Qed.

Lemma decode_list_step fuel l rest :
  small (encode_item (Lst l)) ->
  decode_items fuel (concat (encode_item <$> l)) = Some l ->
  decode_item (S fuel) (encode_item (Lst l) ++ rest) = Some (Lst l, rest).
Proof.
  intros Hs Hd. cbn [encode_item] in *. rewrite rlp_encode_list_eq in *.
  set (payload := concat (encode_item <$> l)) in *.
  assert (length payload <= length (with_header 192 247 payload))%nat.
  { unfold with_header. case_bool_decide; rewrite !length_app; lia. }
  destruct (body_ok 192 247 payload) as (b & r & -> & Hb & _ & Hbody);
    [lia|lia|lia|unfold small in Hs; lia|].
  cbn [app decode_item]. destruct (Z.ltb_spec (u8 b) 128); [lia|].
  destruct (Z.ltb_spec (u8 b) 192); [lia|]. by rewrite Hbody, Hd.
Qed.

Lemma small_app_l (a b : bytes) : small (a ++ b) -> small a.
Proof. unfold small. rewrite length_app. lia. Qed.
Lemma small_app_r (a b : bytes) : small (a ++ b) -> small b.
Proof. unfold small. rewrite length_app. lia. Qed.

Lemma small_payload items : small (rlp_encode_list items) -> small (concat items).
Proof.
  rewrite rlp_encode_list_eq. unfold with_header, small.
  case_bool_decide; rewrite !length_app; lia.
Qed.

Lemma decode_encode_fuel fuel :
  (forall i rest, (fuel_of i <= fuel)%nat -> small (encode_item i) ->
     decode_item fuel (encode_item i ++ rest) = Some (i, rest))
  /\ (forall l, (fuel_of_list l <= fuel)%nat -> small (concat (encode_item <$> l)) ->
     decode_items fuel (concat (encode_item <$> l)) = Some l).
Proof.
  induction fuel as [|fuel [IHi IHl]]; split.
  - intros [|] ? ?; cbn in *; lia.
  - intros [|] ?; cbn in *; lia.
  - intros [data|l] rest Hf Hs; [by apply decode_string|].
    apply decode_list_step; [done|]. apply IHl; [cbn in Hf; unfold fuel_of_list; lia|].
    by apply small_payload.
  - intros [|i l] Hf Hs; cbn [decode_items]; [done|]. csimpl in *. cbn [concat] in *.
    rewrite bool_decide_eq_false_2 by (intros [H _]%app_eq_nil; by apply encode_nonempty in H).
    unfold fuel_of_list in *. cbn [foldr] in Hf.
    rewrite IHi by (lia || by eapply small_app_l). rewrite IHl by (lia || by eapply small_app_r).
    done.
Qed.

Lemma length_encode_list l :
  (length (concat (encode_item <$> l)) < length (encode_item (Lst l)))%nat.
Proof.
  cbn [encode_item]. rewrite rlp_encode_list_eq. unfold with_header.
  case_bool_decide; rewrite !length_app; cbn [length]; lia.
Qed.

(** The fuel of [rlp_decode] covers every encoded item. *)
Lemma fuel_bound n :
  (forall i, (fuel_of i <= n)%nat -> (fuel_of i <= 2 * length (encode_item i))%nat)
  /\ (forall l, (fuel_of_list l <= n)%nat ->
        (fuel_of_list l <= 2 * length (concat (encode_item <$> l)) + 1)%nat).
Proof.
  assert (forall i, 1 <= length (encode_item i))%nat as H1.
  { intros i. pose proof (encode_nonempty i). destruct (encode_item i); [done|cbn; lia]. }
  induction n as [|n [IHi IHl]]; split.
  - intros [|] ?; cbn in *; lia.
  - intros [|] ?; cbn in *; lia.
  - intros [data|l] Hf; [specialize (H1 (Str data)); cbn in *; lia|].
    pose proof (length_encode_list l). specialize (IHl l).
    change (fuel_of (Lst l)) with (S (fuel_of_list l)) in *. lia.
  - intros [|i l] Hf; [cbn; lia|]. csimpl. cbn [concat]. rewrite length_app.
    change (fuel_of_list (i :: l)) with (S (Nat.max (fuel_of i) (fuel_of_list l))) in *.
    specialize (IHi i). specialize (IHl l). specialize (H1 i). lia.
Qed.

Lemma rlp_decode_encode i rest :
  small (encode_item i) -> rlp_decode (encode_item i ++ rest) = Some (i, rest).
Proof.
  intros Hs. apply decode_encode_fuel; [|done].
  pose proof (proj1 (fuel_bound (fuel_of i)) i (le_n _)). rewrite length_app. lia.
Qed.

(** ** Reading a transaction back *)

(** An integer of the protocol: big-endian without leading zeros. *)
Definition strict_uint (i : item) : option Z :=
  match i with
  | Str [] => Some 0
  | Str (b :: r) => if u8 b =? 0 then None else Some (from_be (b :: r))
  | Lst _ => None
  end.

(** A signed type-2 transaction: its fields and [(y_parity, r, s)]. *)
Definition read_signed_tx (i : item) : option (Eip1559Tx * (Z * Z * Z)) :=
  match i with
  | Lst [c; n; mp; mf; g; Str to; v; Str d; Lst []; y; r; s] =>
      c ← strict_uint c; n ← strict_uint n; mp ← strict_uint mp; mf ← strict_uint mf;
      g ← strict_uint g; v ← strict_uint v; y ← strict_uint y; r ← strict_uint r;
      s ← strict_uint s; Some (mkTx c n mp mf g to v d, (y, r, s))
  | _ => None
  end.

Definition wf_tx (tx : Eip1559Tx) : Prop :=
  u64_range (tx_chain_id tx) /\ u64_range (tx_nonce tx) /\ u64_range (gas_limit tx)
  /\ in_width 128 (max_priority_fee_per_gas tx) /\ in_width 128 (max_fee_per_gas tx)
  /\ in_width 128 (tx_value tx) /\ length (tx_to tx) = 20%nat
  /\ Z.of_nat (length (tx_data tx)) < 2 ^ 32.

Definition tx_items (tx : Eip1559Tx) : list item :=
  [ Str (minimal_be 8 (tx_chain_id tx)); Str (minimal_be 8 (tx_nonce tx));
    Str (minimal_be 16 (max_priority_fee_per_gas tx)); Str (minimal_be 16 (max_fee_per_gas tx));
    Str (minimal_be 8 (gas_limit tx)); Str (tx_to tx); Str (minimal_be 16 (tx_value tx));
    Str (tx_data tx); Lst [] ].

Lemma rlp_fields_eq tx : rlp_fields tx = encode_item <$> tx_items tx.
Proof. unfold rlp_fields. rewrite !rlp_encode_uint_eq, !rlp_encode_u128_eq. done. Qed.

Lemma strict_uint_minimal n v :
  in_width (Z.of_nat n * 8) v -> strict_uint (Str (minimal_be n v)) = Some v.
Proof.
  intros Hv. destruct (minimal_be_ok n v Hv) as (Hval & _ & Hlead & Hne).
  destruct (minimal_be n v) as [|b r] eqn:E; cbn [strict_uint].
  - destruct (Z.eq_dec v 0) as [->|]; [done|]. by destruct Hne.
  - rewrite (proj2 (Z.eqb_neq _ _) (Hlead b r eq_refl)). by rewrite Hval.
Qed.

Lemma length_rlp_bytes data :
  Z.of_nat (length data) < 2 ^ 64 -> (length (rlp_encode_bytes data) <= length data + 9)%nat.
Proof.
  intros Hs. destruct (rlp_encode_bytes_cases data) as [(b & -> & _ & ->)| ->]; [cbn; lia|].
  unfold with_header. case_bool_decide; rewrite !length_app; cbn [length]; [lia|].
  destruct (encode_length_ok (length data)) as [_ Hb]; [lia|done|]. lia.
Qed.

Lemma length_minimal n v : in_width (Z.of_nat n * 8) v -> (length (minimal_be n v) <= n)%nat.
Proof. intros H. by destruct (minimal_be_ok n v H) as (_ & ? & _). Qed.

(** A short list of items of bounded size fits the length field. *)
Lemma small_list (m : nat) (items : list item) :
  Forall (fun i => (length (encode_item i) <= m)%nat) items ->
  Z.of_nat m < 2 ^ 34 -> (length items <= 64)%nat -> small (encode_item (Lst items)).
Proof.
  intros Hf Hk Hn. cbn [encode_item]. rewrite rlp_encode_list_eq. unfold small, with_header.
  set (p := concat _).
  assert (length p <= m * length items)%nat as Hp.
  { subst p. clear Hn. induction Hf as [|i l Hi _ IH]; [cbn; lia|]. csimpl.
    cbn [concat length]. rewrite length_app. lia. }
  case_bool_decide; rewrite !length_app; cbn [length]; [lia|].
  destruct (encode_length_ok (length p)) as [_ Hb]; [lia|nia|]. nia.
Qed.

Definition signed_items (tx : Eip1559Tx) (y : Z) (r s : bytes) : list item :=
  tx_items tx ++ [Str (minimal_be 8 y); Str r; Str s].

Lemma signed_items_small tx y r s :
  wf_tx tx -> u64_range y -> length r = 32%nat -> length s = 32%nat ->
  small (encode_item (Lst (signed_items tx y r s))).
Proof.
  intros (Hc & Hn & Hg & Hmp & Hmf & Hv & Hto & Hd) Hy Hr Hs.
  apply (small_list (length (tx_data tx) + 100)); [|lia|cbn; lia].
  assert (forall b, (length b <= length (tx_data tx) + 90)%nat ->
    (length (encode_item (Str b)) <= length (tx_data tx) + 100)%nat) as Hstr.
  { intros b Hb. cbn [encode_item]. pose proof (length_rlp_bytes b). lia. }
  unfold signed_items, tx_items. cbn [app].
  repeat apply Forall_cons_2; try apply Forall_nil_2; try (apply Hstr; lia);
    try (apply Hstr; eapply Nat.le_trans; [apply length_minimal; done|lia]).
  change (length (encode_item (Lst []))) with 1%nat. lia.
Qed.

(** Whether a 32-byte scalar has no leading zero byte. *)
Definition no_leading_zero (b : bytes) : bool :=
  match b with x :: _ => negb (u8 x =? 0) | [] => true end.

Lemma read_signed_items tx y r s :
  wf_tx tx -> u64_range y -> length r = 32%nat -> length s = 32%nat ->
  read_signed_tx (Lst (signed_items tx y r s))
  = if no_leading_zero r && no_leading_zero s then Some (tx, (y, from_be r, from_be s)) else None.
Proof.
  intros (Hc & Hn & Hg & Hmp & Hmf & Hv & Hto & Hd) Hy Hr Hs.
  unfold signed_items, tx_items. cbn [app read_signed_tx].
  rewrite !(strict_uint_minimal 8), !(strict_uint_minimal 16) by done. cbn [mbind option_bind].
  destruct r as [|a r]; [done|]. destruct s as [|b s]; [done|].
  cbn [strict_uint no_leading_zero].
  destruct (u8 a =? 0), (u8 b =? 0); cbn [negb andb mbind option_bind]; try done. by destruct tx.
Qed.

(** Signing, and what a decoder makes of the result. *)
Lemma sign_tx_ok `{Eth : Ethereum} `{EL : !EthereumLaws Eth} (tx : Eip1559Tx) (key : SigningKey) :
  wf_tx tx ->
  exists sig y raw, sign_prehash_recoverable key (signing_hash tx) = Some (sig, y)
    /\ length sig = 64%nat /\ u64_range y /\ sign_tx tx key = Ret ([x02] ++ raw)
    /\ rlp_decode raw = Some (Lst (signed_items tx y (take 32 sig) (drop 32 sig)), []).
Proof.
  intros Htx. destruct (sign_recover key (signing_hash tx)) as (sig & y & _ & Hsign & Hl & Hy & _);
    [apply keccak256_length|].
  assert (u64_range y) by (unfold in_width; lia).
  assert (length (take 32 sig) = 32%nat) as Hr by (rewrite length_take; lia).
  assert (length (drop 32 sig) = 32%nat) as Hs by (rewrite length_drop; lia).
  exists sig, y, (encode_item (Lst (signed_items tx y (take 32 sig) (drop 32 sig)))). split_and!; try done.
  - unfold sign_tx. rewrite Hsign. cbn [unwrap outcome_bind]. rewrite !slice_ok by lia.
    cbn [outcome_bind]. rewrite sub_full_drop, rlp_fields_eq, rlp_encode_uint_eq. done.
  - rewrite <- (app_nil_r (encode_item _)). apply rlp_decode_encode. by apply signed_items_small.
Qed.

(** ** Correctness *)


#[local] Existing Instance toy_ethereum.

Definition example_tx : Eip1559Tx :=
  mkTx 5042002 0 1000000 2000000 60000 (replicate 20 (of_u8 170)) 0 [x09; x5e; xa7; xb3].

