(* ===== verification/Settlement.v ===== *)
(** * Payment configuration and settlement ([payment/mod.rs], [payment/settlement.rs])

    The configuration read from the environment, and the request with which a
    node redeems a payment at the gateway. The HTTP client and the JSON parser are
    arguments of [settle]. Strings are byte strings. *)

From Stdlib Require Import ZArith Lia.
From Stdlib Require Strings.String.
From stdpp Require Import base numbers list option.
From S2P Require Import Prelude RustText Eip3009 PaymentProtocol.

Import Stdlib.Strings.String.StringSyntax.

(** ** [PaymentConfig] *)

Record PaymentConfig := mkConfig {
  cfg_chain_id : Z;
  usdc_contract : bytes;
  amount_per_quota : Z;
  quota_bytes : Z;
  usdc_name : bytes;
  usdc_version : bytes;
  gateway_wallet : bytes;
  gateway_name : bytes;
  gateway_version : bytes;
  gateway_api_url : bytes;
  rpc_url : bytes;
  is_server : bool;
}.

Definition usdc_domain (c : PaymentConfig) : Eip712Domain :=
  mkDomain (usdc_name c) (usdc_version c) (cfg_chain_id c) (usdc_contract c).

Definition gateway_domain (c : PaymentConfig) : Eip712Domain :=
  mkDomain (gateway_name c) (gateway_version c) (cfg_chain_id c) (gateway_wallet c).

Section Config.
Context `{H : Hex}.
(** [std::env::var(key).ok()] *)
Context (env_var : bytes -> option bytes).

Definition env_or (key dflt : bytes) : bytes := default dflt (env_var key).

Definition hex_to_address (s : bytes) : outcome bytes :=
  let s := default s (strip_prefix (str "0x") s) in
  let! b := unwrap (hex_decode s) in
  let! _ := require (bool_decide (length b = 20%nat)) in
  Ret b.

Definition config_default : outcome PaymentConfig :=
  let is_server :=
    match env_var (str "BT_PAYMENT_SERVER") with
    | Some v => bool_decide (v = str "1") || eq_ignore_ascii_case v (str "true")
    | None => false
    end in
  let chain_id := default 5042002 (parse_uint 64 (env_or (str "BT_CHAIN_ID") (str "5042002"))) in
  let! usdc_contract := hex_to_address
    (env_or (str "BT_USDC_CONTRACT") (str "3600000000000000000000000000000000000000")) in
  let! gateway_wallet := hex_to_address
    (env_or (str "BT_GATEWAY_WALLET") (str "0077777d7EBA4688BDeF3E311b846F25870A19B9")) in
  let quota_mb := default 10 (parse_uint 64 (env_or (str "BT_QUOTA_MB") (str "10"))) in
  let amount := default 10000 (parse_uint 64 (env_or (str "BT_PAYMENT_AMOUNT") (str "10000"))) in
  Ret (mkConfig chain_id usdc_contract amount (wrap 64 (quota_mb * 1024 * 1024))
         (str "USDC") (str "2") gateway_wallet (str "GatewayWalletBatched") (str "1")
         (env_or (str "BT_GATEWAY_API") (str "https://gateway-api-testnet.circle.com"))
         (env_or (str "BT_RPC_URL") (str "https://rpc.testnet.arc.network"))
         is_server).
End Config.

(** ** Settlement requests *)

Inductive SettlementError :=
| SettleHttp (e : bytes)
| SettleJson (e : bytes)
| SettleApi (reason message : bytes).

Record GatewayExtra := mkExtra {
  extra_name : bytes;
  extra_version : bytes;
  extra_verifying_contract : bytes;
}.

Record PaymentRequirements := mkRequirements {
  scheme : bytes;
  network : bytes;
  asset : bytes;
  amount : bytes;
  pay_to : bytes;
  max_timeout_seconds : Z;
  extra : GatewayExtra;
}.

Record AuthorizationData := mkAuthData {
  ad_from : bytes;
  ad_to : bytes;
  ad_value : bytes;
  ad_valid_after : bytes;
  ad_valid_before : bytes;
  ad_nonce : bytes;
}.

Record PayloadData := mkPayloadData { signature : bytes; authorization : AuthorizationData }.

Record ResourceInfo := mkResource { url : bytes; description : bytes; mime_type : bytes }.

Record PaymentPayload := mkPayload {
  payload_version : Z;
  resource : option ResourceInfo;
  accepted_requirements : PaymentRequirements;
  payload : PayloadData;
}.

Record SettleRequest := mkSettleRequest {
  x402_version : Z;
  payment_payload : PaymentPayload;
  payment_requirements : PaymentRequirements;
}.

Record SettleResponse := mkSettleResponse {
  success : bool;
  payer : option bytes;
  transaction : option bytes;
  resp_network : option bytes;
  error_reason : option bytes;
  error_message : option bytes;
  resp_message : option bytes;
  resp_error : option bytes;
}.

Section Settle.
Context `{H : Hex}.

Definition hex0x (b : bytes) : bytes := str "0x" ++ hex_encode b.

Definition build_settle_request (config : PaymentConfig) (submit : PaymentSubmit)
    (server_address : bytes) : SettleRequest :=
  let network := str "eip155:" ++ show_uint (cfg_chain_id config) in
  let asset := hex0x (usdc_contract config) in
  let pay_to := hex0x server_address in
  let extra := mkExtra (gateway_name config) (gateway_version config)
                       (hex0x (gateway_wallet config)) in
  let requirements := mkRequirements (str "exact") network asset (show_uint (sub_value submit))
                        pay_to 345600 extra in
  let signature := hex0x (sub_r submit ++ sub_s submit ++ [sub_v submit]) in
  let authorization :=
    mkAuthData (hex0x (sub_from submit)) (hex0x (sub_to submit)) (show_uint (sub_value submit))
      (show_uint (sub_valid_after submit)) (show_uint (sub_valid_before submit))
      (hex0x (sub_nonce submit)) in
  mkSettleRequest 2
    (mkPayload 2
       (Some (mkResource (str "boringtun-vpn://bandwidth") (str "VPN bandwidth quota")
                         (str "application/octet-stream")))
       requirements (mkPayloadData signature authorization))
    requirements.

Record SettlementClient := mkSettlementClient { base_url : bytes }.

Definition settlement_client_new (base : bytes) : SettlementClient :=
  mkSettlementClient (trim_end_matches (of_u8 47) base).

(** [post] sends the request and reads the body; [from_json] parses it. *)
Definition settle (post : bytes -> SettleRequest -> result bytes bytes)
    (from_json : bytes -> result bytes SettleResponse)
    (c : SettlementClient) (request : SettleRequest) : result SettlementError SettleResponse :=
  let url := base_url c ++ str "/v1/x402/settle" in
  match post url request with
  | Err e => Err (SettleHttp e)
  | Ok raw_body =>
      match from_json raw_body with
      | Err e => Err (SettleJson e)
      | Ok body => Ok body
      end
  end.

(** ** What the gateway reads *)

Definition read_hex0x (s : bytes) : option bytes := strip_prefix (str "0x") s ≫= hex_decode.

(** The submitted payment as the gateway reads it out of a request. *)
Definition read_request (r : SettleRequest) : option PaymentSubmit :=
  let a := authorization (payload (payment_payload r)) in
  from ← read_hex0x (ad_from a); to ← read_hex0x (ad_to a);
  value ← parse_uint 64 (ad_value a); after ← parse_uint 64 (ad_valid_after a);
  before ← parse_uint 64 (ad_valid_before a); nonce ← read_hex0x (ad_nonce a);
  sig ← read_hex0x (signature (payload (payment_payload r)));
  v ← sig !! 64%nat;
  Some (mkSubmit from to value after before nonce v (sub sig 0 32) (sub sig 32 64)).

Context `{HL : !HexLaws H}.

Lemma read_hex0x_ok b : read_hex0x (hex0x b) = Some b.
Proof.
  unfold read_hex0x, hex0x, strip_prefix.
  rewrite take_app_length, bool_decide_eq_true_2, drop_app_length by done.
  cbn. apply hex_decode_encode.
Qed.
End Settle.

(** The settlement request says what was verified. For every well-formed
    submission, reading the request back gives the submission itself, the
    requirements repeat its amount, and they name the node's own address, the
    configured token and the configured gateway contract. *)
Theorem settle_request_faithful `{H : Hex} `{HL : !HexLaws H}
    (config : PaymentConfig) (submit : PaymentSubmit) (server : bytes) (Hwf : wf_submit submit) :
  let r := build_settle_request config submit server in
  let req := payment_requirements r in
  read_request r = Some submit
  /\ parse_uint 64 (amount req) = Some (sub_value submit)
  /\ read_hex0x (pay_to req) = Some server
  /\ read_hex0x (asset req) = Some (usdc_contract config)
  /\ read_hex0x (extra_verifying_contract (extra req)) = Some (gateway_wallet config)
  /\ accepted_requirements (payment_payload r) = req.
Proof.
  destruct Hwf as (Hv & Ha & Hb & _ & _ & _ & Hr & Hs).
  unfold build_settle_request, read_request.
  cbn [payment_requirements payment_payload payload authorization ad_from ad_to ad_value
       ad_valid_after ad_valid_before ad_nonce signature amount pay_to asset extra
       extra_verifying_contract accepted_requirements].
  rewrite !read_hex0x_ok, !parse_show by (done || lia). cbn [mbind option_bind].
  rewrite app_assoc, lookup_app_r, length_app, Hr, Hs by (rewrite length_app; lia). cbn.
  rewrite <- app_assoc. field. split_and!; try done. by destruct submit.
Qed.

#[local] Existing Instance toy_hex.

Definition example_submit : PaymentSubmit :=
  mkSubmit (replicate 20 x0a) (replicate 20 x0b) 10000 0 1000000000 (replicate 32 x07)
           x1b (replicate 32 x11) (replicate 32 x22).
Definition example_config : PaymentConfig :=
  mkConfig 5042002 (replicate 20 x36) 10000 10485760 (str "USDC") (str "2") (replicate 20 x77)
           (str "GatewayWalletBatched") (str "1") (str "https://gateway") (str "https://rpc") true.

Lemma settle_request_faithful_witness :
  read_request (build_settle_request example_config example_submit (replicate 20 x0b))
  = Some example_submit.
Proof.
  refine (proj1 (settle_request_faithful (HL := toy_hex_laws) example_config example_submit
    (replicate 20 x0b) _)).
  split_and!; ground.
Defined.
