(* ===== verification/AllowedIps.v ===== *)
(** * Allowed IPs ([device/allowed_ips.rs])

    The routing table of a device and of each peer. The networks and the
    longest-prefix table come from the crates [ip_network] and
    [ip_network_table]: the class [IpCrates], with what they document as
    [IpLaws]. *)

From Stdlib Require Import ZArith Lia.
From stdpp Require Import base numbers list option.
From S2P Require Import Prelude Packet.

(** ** The crates *)

Definition addr_width (a : IpAddr) : Z := match a with V4 _ => 32 | V6 _ => 128 end.
Definition addr_value (a : IpAddr) : Z := match a with V4 o | V6 o => from_be o end.
Definition same_family (a b : IpAddr) : bool :=
  match a, b with V4 _, V4 _ | V6 _, V6 _ => true | _, _ => false end.

(** The first [c] bits of two addresses of one family agree. *)
Definition same_prefix (c : Z) (a b : IpAddr) : bool :=
  same_family a b
  && (Z.shiftr (addr_value a) (addr_width a - c) =? Z.shiftr (addr_value b) (addr_width b - c)).

Class IpCrates := {
  IpNetwork : Type;
  #[global] IpNetwork_eq_dec :: EqDecision IpNetwork;
  new_truncate : IpAddr -> Z -> option IpNetwork;
  network_address : IpNetwork -> IpAddr;
  netmask : IpNetwork -> Z;
  net_contains : IpNetwork -> IpAddr -> bool;
  IpNetworkTable : Type -> Type;
  table_new : forall {D}, IpNetworkTable D;
  table_insert : forall {D}, IpNetwork -> D -> IpNetworkTable D -> IpNetworkTable D;
  table_longest_match : forall {D}, IpAddr -> IpNetworkTable D -> option (IpNetwork * D);
  table_retain : forall {D}, (IpNetwork -> D -> bool) -> IpNetworkTable D -> IpNetworkTable D;
  table_iter : forall {D}, IpNetworkTable D -> list (IpNetwork * D);
}.

Class IpLaws (I : IpCrates) : Prop := {
  truncate_some : forall a c, 0 <= c -> is_Some (new_truncate a c) <-> c <= addr_width a;
  truncate_mask : forall a c n, new_truncate a c = Some n -> netmask n = c;
  truncate_contains : forall a c n b, new_truncate a c = Some n -> net_contains n b = same_prefix c a b;
  address_octets : forall n, match network_address n with
                             | V4 o => length o = 4%nat
                             | V6 o => length o = 16%nat
                             end;
  contains_mask : forall n a, net_contains n a = true -> netmask n <= addr_width a;
  (** Networks of one length that share an address are equal. *)
  network_ext : forall n n' a, net_contains n a = true -> net_contains n' a = true ->
    netmask n = netmask n' -> n = n';
  iter_new : forall D, table_iter (@table_new I D) = [];
  iter_nodup : forall D (t : IpNetworkTable D), NoDup (fst <$> table_iter t);
  iter_insert : forall D n (d : D) t n' d', (n', d') ∈ table_iter (table_insert n d t)
    <-> (n' = n /\ d' = d) \/ (n' <> n /\ (n', d') ∈ table_iter t);
  iter_retain : forall D f (t : IpNetworkTable D) n d,
    (n, d) ∈ table_iter (table_retain f t) <-> f n d = true /\ (n, d) ∈ table_iter t;
  longest_match_some : forall D a (t : IpNetworkTable D) n d,
    table_longest_match a t = Some (n, d) ->
    (n, d) ∈ table_iter t /\ net_contains n a = true
    /\ forall n' d', (n', d') ∈ table_iter t -> net_contains n' a = true -> netmask n' <= netmask n;
  longest_match_none : forall D a (t : IpNetworkTable D),
    table_longest_match a t = None ->
    forall n d, (n, d) ∈ table_iter t -> net_contains n a = false;
}.

(** ** [AllowedIps] *)

Record AllowedIP := mkAllowedIP { addr : IpAddr; cidr : Z }.

Section AllowedIps.
Context `{I : IpCrates}.

Definition AllowedIps (D : Type) : Type := IpNetworkTable D.

Definition allowed_ips_new {D} : AllowedIps D := table_new.

Definition allowed_ips_clear {D} (_ : AllowedIps D) : AllowedIps D := table_new.

Definition allowed_ips_insert {D} (key : IpAddr) (c : Z) (data : D) (ips : AllowedIps D)
    : outcome (AllowedIps D) :=
  let! n := unwrap (new_truncate key (wrap 8 c)) in
  Ret (table_insert n data ips).

Definition allowed_ips_find {D} (key : IpAddr) (ips : AllowedIps D) : option D :=
  snd <$> table_longest_match key ips.

Definition allowed_ips_remove {D} (predicate : D -> bool) (ips : AllowedIps D) : AllowedIps D :=
  table_retain (fun _ v => negb (predicate v)) ips.

Definition allowed_ips_iter {D} (ips : AllowedIps D) : list (D * IpAddr * Z) :=
  (fun '(ipa, d) => (d, network_address ipa, netmask ipa)) <$> table_iter ips.

(** Insert the pairs of a list, in order. *)
Fixpoint insert_all {D} (l : list (AllowedIP * D)) (ips : AllowedIps D) : outcome (AllowedIps D) :=
  match l with
  | [] => Ret ips
  | (ip, data) :: l =>
      let! ips := allowed_ips_insert (addr ip) (cidr ip) data ips in
      insert_all l ips
  end.

Definition allowed_ips_from_iter {D} (l : list (AllowedIP * D)) : outcome (AllowedIps D) :=
  insert_all l allowed_ips_new.
End AllowedIps.

(** ** The reference: last inserted among the longest matching prefixes *)

Definition wf_allowed_ip (ip : AllowedIP) : Prop := 0 <= cidr ip <= addr_width (addr ip).
Definition matches (ip : AllowedIP) (key : IpAddr) : bool := same_prefix (cidr ip) (addr ip) key.

Definition better {D} (key : IpAddr) (best : option (AllowedIP * D)) (e : AllowedIP * D)
    : option (AllowedIP * D) :=
  if matches (fst e) key
     && match best with None => true | Some b => cidr (fst b) <=? cidr (fst e) end
  then Some e else best.

Definition best_match {D} (l : list (AllowedIP * D)) (key : IpAddr) : option (AllowedIP * D) :=
  foldl (better key) None l.

Section Laws.
Context `{I : IpCrates} `{IL : !IpLaws I} {D : Type}.
Implicit Types (l : list (AllowedIP * D)) (t : AllowedIps D).

Lemma insert_valid ip (d : D) t :
  wf_allowed_ip ip ->
  exists n, new_truncate (addr ip) (cidr ip) = Some n
            /\ allowed_ips_insert (addr ip) (cidr ip) d t = Ret (table_insert n d t).
Proof.
  intros [H0 H1]. destruct (proj2 (truncate_some (addr ip) (cidr ip) H0) H1) as [n Hn].
  exists n. split; [done|]. unfold allowed_ips_insert.
  rewrite wrap_small; [by rewrite Hn|].
  split; [done|]. destruct (addr ip); cbn in H1; change (2 ^ 8) with 256; lia.
Qed.

(** The best match of [l] is in the table and no longer match is. *)
Definition represents l t : Prop :=
  forall key,
    match best_match l key with
    | None => forall n d, (n, d) ∈ table_iter t -> net_contains n key = false
    | Some (ip, d) =>
        matches ip key = true
        /\ (exists n, new_truncate (addr ip) (cidr ip) = Some n /\ (n, d) ∈ table_iter t)
        /\ forall n' d', (n', d') ∈ table_iter t -> net_contains n' key = true -> netmask n' <= cidr ip
    end.

Lemma represents_new : represents [] allowed_ips_new.
Proof.
  intros key. cbn. intros n d Hin. unfold allowed_ips_new in Hin. rewrite iter_new in Hin.
  by apply elem_of_nil in Hin.
Qed.

Lemma represents_insert l t ip d n :
  represents l t -> new_truncate (addr ip) (cidr ip) = Some n ->
  represents (l ++ [(ip, d)]) (table_insert n d t).
Proof.
  intros Hr Hn key. specialize (Hr key). unfold best_match in *. rewrite foldl_app. cbn [foldl].
  pose proof (truncate_mask _ _ _ Hn) as Hm.
  pose proof (fun b => truncate_contains _ _ _ b Hn) as Hc.
  unfold better at 1. cbn [fst]. change (matches ip key) with (same_prefix (cidr ip) (addr ip) key).
  rewrite <- Hc. destruct (net_contains n key) eqn:Ek; cbn [andb].
  - destruct (foldl (better key) None l) as [[b db]|] eqn:Eb.
    + destruct Hr as (Hmb & (nb & Hnb & Hin) & Hmax). cbn [fst].
      destruct (Z.leb_spec (cidr b) (cidr ip)).
      * split; [unfold matches; by rewrite <- Hc|]. split.
        { exists n. split; [done|]. apply iter_insert. auto. }
        intros n' d' [[-> ->]|[Hne Hi]]%iter_insert Hk; [lia|].
        specialize (Hmax n' d' Hi Hk). lia.
      * split; [done|]. split.
        { exists nb. split; [done|]. apply iter_insert. right. split; [|done].
          intros ->. pose proof (truncate_mask _ _ _ Hnb). lia. }
        intros n' d' [[-> ->]|[Hne Hi]]%iter_insert Hk; [lia|]. by eapply Hmax.
    + split; [unfold matches; by rewrite <- Hc|]. split.
      { exists n. split; [done|]. apply iter_insert. auto. }
      intros n' d' [[-> ->]|[Hne Hi]]%iter_insert Hk; [lia|].
      by rewrite (Hr n' d' Hi) in Hk.
  - destruct (foldl (better key) None l) as [[b db]|] eqn:Eb.
    + destruct Hr as (Hmb & (nb & Hnb & Hin) & Hmax). split; [done|]. split.
      { exists nb. split; [done|]. apply iter_insert. right. split; [|done].
        intros ->. rewrite (truncate_contains _ _ _ key Hnb) in Ek. unfold matches in Hmb. congruence. }
      intros n' d' [[-> ->]|[Hne Hi]]%iter_insert Hk; [congruence|]. by eapply Hmax.
    + intros n' d' [[-> ->]|[Hne Hi]]%iter_insert; [done|]. by eapply Hr.
Qed.

Lemma insert_all_represents l0 l t :
  Forall (fun e => wf_allowed_ip (fst e)) l -> represents l0 t ->
  exists t', insert_all l t = Ret t' /\ represents (l0 ++ l) t'.
Proof.
  intros Hf. revert l0 t. induction Hf as [|[ip d] l Hip _ IH]; intros l0 t Hr; cbn [insert_all].
  - exists t. by rewrite app_nil_r.
  - destruct (insert_valid ip d t Hip) as (n & Hn & ->). cbn [outcome_bind].
    destruct (IH (l0 ++ [(ip, d)]) (table_insert n d t)) as (t' & Ht' & Hr');
      [by apply represents_insert|].
    exists t'. split; [done|]. by rewrite <- app_assoc in Hr'.
Qed.

Lemma iter_functional t n d d' : (n, d) ∈ table_iter t -> (n, d') ∈ table_iter t -> d = d'.
Proof.
  intros [i Hi]%list_elem_of_lookup [j Hj]%list_elem_of_lookup.
  pose proof (iter_nodup D t) as Hnd. rewrite NoDup_alt in Hnd.
  assert (i = j) as ->; [|congruence].
  apply (Hnd i j n); by rewrite list_lookup_fmap, ?Hi, ?Hj.
Qed.

Lemma find_represents l t key :
  represents l t -> allowed_ips_find key t = snd <$> best_match l key.
Proof.
  intros Hr. specialize (Hr key). unfold allowed_ips_find.
  destruct (table_longest_match key t) as [[n d]|] eqn:E.
  - apply longest_match_some in E as (Hin & Hk & Hmax).
    destruct (best_match l key) as [[ip d']|]; [|by rewrite (Hr n d Hin) in Hk].
    destruct Hr as (Hm & (n' & Hn' & Hin') & Hmax'). cbn. f_equal.
    pose proof (truncate_mask _ _ _ Hn'). pose proof (truncate_contains _ _ _ key Hn') as Hc'.
    unfold matches in Hm. rewrite Hm in Hc'.
    specialize (Hmax n' d' Hin' Hc'). specialize (Hmax' n d Hin Hk).
    assert (n = n') as -> by (apply (network_ext n n' key); (done || lia)).
    by eapply iter_functional.
  - pose proof (longest_match_none _ _ _ E) as Hnone.
    destruct (best_match l key) as [[ip d']|]; [|done].
    destruct Hr as (Hm & (n' & Hn' & Hin') & _). specialize (Hnone n' d' Hin').
    rewrite (truncate_contains _ _ _ key Hn') in Hnone. unfold matches in Hm. congruence.
Qed.

(** A host route wins over everything else. *)
Lemma host_route a c n (d : D) t :
  new_truncate a c = Some n -> c = addr_width a -> allowed_ips_find a (table_insert n d t) = Some d.
Proof.
  intros Hn Hc. pose proof (truncate_mask _ _ _ Hn) as Hm.
  assert (net_contains n a = true) as Ha.
  { rewrite (truncate_contains _ _ _ a Hn). unfold same_prefix. rewrite Z.eqb_refl. by destruct a. }
  assert ((n, d) ∈ table_iter (table_insert n d t)) as Hin by (apply iter_insert; auto).
  unfold allowed_ips_find. destruct (table_longest_match a _) as [[n' d']|] eqn:E.
  - apply longest_match_some in E as (Hin' & Ha' & Hmax). specialize (Hmax n d Hin Ha).
    pose proof (contains_mask _ _ Ha'). assert (n' = n) as -> by (apply (network_ext n' n a); (done || lia)).
    cbn. f_equal. by eapply iter_functional.
  - by rewrite (longest_match_none _ _ _ E n d Hin) in Ha.
Qed.
End Laws.

(** ** An executable instance: a list of networks, first entry first *)

Definition ToyNet : Type := bool * Z * Z.
Definition toy_contains (n : ToyNet) (a : IpAddr) : bool :=
  let '(v6, p, c) := n in
  Bool.eqb v6 (match a with V4 _ => false | V6 _ => true end)
  && (Z.shiftr (addr_value a) (addr_width a - c) =? p) && (c <=? addr_width a).
Definition toy_mask (n : ToyNet) : Z := snd n.
Definition toy_truncate (a : IpAddr) (c : Z) : option ToyNet :=
  if c <=? addr_width a then
    Some (match a with V4 _ => false | V6 _ => true end,
          Z.shiftr (addr_value a) (addr_width a - c), c)
  else None.
Definition toy_address (n : ToyNet) : IpAddr :=
  let '(v6, p, c) := n in
  if v6 then V6 (to_be 16 (Z.shiftl p (128 - c))) else V4 (to_be 4 (Z.shiftl p (32 - c))).

Fixpoint toy_iter {D} (t : list (ToyNet * D)) : list (ToyNet * D) :=
  match t with
  | [] => []
  | e :: t => e :: filter (fun e' => fst e' <> fst e) (toy_iter t)
  end.
Definition toy_longest {D} (a : IpAddr) (t : list (ToyNet * D)) : option (ToyNet * D) :=
  foldr (fun e best =>
    if toy_contains (fst e) a
       && match best with None => true | Some b => toy_mask (fst b) <=? toy_mask (fst e) end
    then Some e else best) None (toy_iter t).

Definition toy_ip : IpCrates := {|
  IpNetwork := ToyNet;
  new_truncate := toy_truncate;
  network_address := toy_address;
  netmask := toy_mask;
  net_contains := toy_contains;
  IpNetworkTable := fun D => list (ToyNet * D);
  table_new := fun D => [];
  table_insert := fun D n d t => (n, d) :: t;
  table_longest_match := @toy_longest;
  table_retain := fun D f t => filter (fun e => f (fst e) (snd e) = true) (toy_iter t);
  table_iter := @toy_iter;
|}.

Lemma toy_iter_nodup {D} (t : list (ToyNet * D)) : NoDup (fst <$> toy_iter t).
Proof.
  induction t as [|e t IH]; csimpl; constructor.
  - intros (e' & He & [Hne _]%list_elem_of_filter)%list_elem_of_fmap. congruence.
  - apply (sublist_NoDup _ _ IH), fmap_sublist, sublist_filter.
Qed.

Lemma toy_iter_id {D} (t : list (ToyNet * D)) : NoDup (fst <$> t) -> toy_iter t = t.
Proof.
  induction t as [|e t IH]; csimpl; [done|]. intros H.
  pose proof (NoDup_cons_1_1 _ _ H) as Hn. rewrite IH by exact (NoDup_cons_1_2 _ _ H).
  f_equal. clear H IH. induction t as [|e' t IH]; [done|]. csimpl in *.
  rewrite filter_cons_True by (intros Heq; apply Hn; rewrite Heq; constructor).
  f_equal. apply IH. intros ?. apply Hn. by constructor.
Qed.

Lemma toy_longest_spec {D} a (l : list (ToyNet * D)) :
  match foldr (fun e best =>
    if toy_contains (fst e) a
       && match best with None => true | Some b => toy_mask (fst b) <=? toy_mask (fst e) end
    then Some e else best) None l with
  | Some (n, d) => (n, d) ∈ l /\ toy_contains n a = true
      /\ forall n' d', (n', d') ∈ l -> toy_contains n' a = true -> toy_mask n' <= toy_mask n
  | None => forall n d, (n, d) ∈ l -> toy_contains n a = false
  end.
Proof.
  induction l as [|[n d] l IH]; cbn [foldr]; [by intros n d ?%elem_of_nil|]. cbn [fst].
  set (best := foldr _ None l) in *. destruct (toy_contains n a) eqn:Ec; cbn [andb].
  - destruct best as [[nb db]|]; cbn [fst].
    + destruct IH as (Hin & Hcb & Hmax). destruct (Z.leb_spec (toy_mask nb) (toy_mask n)).
      * split; [constructor|]. split; [done|]. intros n' d' [[= -> ->]|Hi]%elem_of_cons Hc; [lia|].
        specialize (Hmax n' d' Hi Hc). lia.
      * split; [by constructor|]. split; [done|].
        intros n' d' [[= -> ->]|Hi]%elem_of_cons Hc; [lia|by eapply Hmax].
    + split; [constructor|]. split; [done|]. intros n' d' [[= -> ->]|Hi]%elem_of_cons Hc; [lia|].
      by rewrite (IH n' d' Hi) in Hc.
  - destruct best as [[nb db]|].
    + destruct IH as (Hin & Hcb & Hmax). split; [by constructor|]. split; [done|].
      intros n' d' [[= -> ->]|Hi]%elem_of_cons Hc; [congruence|by eapply Hmax].
    + intros n' d' [[= -> ->]|Hi]%elem_of_cons; [done|by eapply IH].
Qed.

Lemma toy_ip_laws : IpLaws toy_ip.
Proof.
  split; cbn [toy_ip IpNetwork new_truncate network_address netmask net_contains IpNetworkTable
              table_new table_insert table_longest_match table_retain table_iter].
  - intros a c Hc. unfold toy_truncate. destruct (Z.leb_spec c (addr_width a)); split; intros H';
      try done; try lia.
  - intros a c n. unfold toy_truncate. destruct (c <=? addr_width a); [|done]. by intros [= <-].
  - intros a c n b. unfold toy_truncate. destruct (c <=? addr_width a) eqn:Ew; [|done]. intros [= <-].
    unfold toy_contains, same_prefix.
    destruct a, b; cbn [Bool.eqb same_family andb addr_width] in *; try done; by rewrite Ew, andb_true_r, Z.eqb_sym.
  - intros [[[] p] c]; apply length_to_be.
  - intros [[v6 p] c] a [_ Hm]%andb_true_iff. by apply Z.leb_le.
  - intros [[v6 p] c] [[v6' p'] c'] a [[Hv Hp]%andb_true_iff _]%andb_true_iff
      [[Hv' Hp']%andb_true_iff _]%andb_true_iff. cbn. intros <-.
    apply Bool.eqb_prop in Hv, Hv'. apply Z.eqb_eq in Hp, Hp'. congruence.
  - done.
  - intros D t. apply toy_iter_nodup.
  - intros D n d t n' d'. cbn [toy_iter]. rewrite elem_of_cons, list_elem_of_filter. cbn [fst].
    split; [intros [[= -> ->]|[? ?]]; auto|]. intros [[-> ->]|[? ?]]; auto.
  - intros D f t n d. rewrite toy_iter_id, list_elem_of_filter by
      (apply (sublist_NoDup _ _ (toy_iter_nodup t)), fmap_sublist, sublist_filter). done.
  - intros D a t n d H. pose proof (toy_longest_spec a (toy_iter t)) as Hs.
    unfold toy_longest in H. by rewrite H in Hs.
  - intros D a t H. pose proof (toy_longest_spec a (toy_iter t)) as Hs.
    unfold toy_longest in H. by rewrite H in Hs.
Qed.

(** ** Correctness *)

(** C38. Routing is longest-prefix routing. A table filled from any list of allowed
    IPs with valid lengths is built without panic, and [find] returns the data of
    the last inserted entry among those whose prefix of the address is longest,
    and nothing when no entry covers the address. *)
Theorem allowed_ips_longest_prefix `{I : IpCrates} `{IL : !IpLaws I} {D : Type}
    (l : list (AllowedIP * D)) (Hl : Forall (fun e => wf_allowed_ip (fst e)) l) :
  exists t, allowed_ips_from_iter l = Ret t
    /\ forall key, allowed_ips_find key t = snd <$> best_match l key.
Proof.
  destruct (insert_all_represents [] l allowed_ips_new Hl represents_new) as (t & Ht & Hr).
  exists t. split; [done|]. intros key. by apply find_represents.
Qed.

#[local] Existing Instance toy_ip.

Lemma allowed_ips_longest_prefix_witness :
  let l := [(mkAllowedIP (V4 [x7f; x00; x0f; x01]) 16, 2%nat);
            (mkAllowedIP (V4 [x7f; x00; x00; x01]) 32, 1%nat)] in
  exists t, allowed_ips_from_iter l = Ret t
    /\ forall key, allowed_ips_find key t = snd <$> best_match l key.
Proof.
  refine (allowed_ips_longest_prefix (IL := toy_ip_laws) _ _).
  repeat apply Forall_cons_2; try apply Forall_nil_2; ground.
Defined.
