(* ===== verification/Serialization.v ===== *)
(** * Keys and addresses in text ([serialization.rs], [device/peer.rs])

    The two [FromStr] instances of the program, [KeyBytes] and [AllowedIP], with the
    parsers of numbers and Booleans that they and the control socket use. The crate
    [base64] is the class [Base64]. *)

From Stdlib Require Import ZArith Lia.
From Stdlib Require Strings.String.
From stdpp Require Import base numbers list option.
From S2P Require Import Prelude Packet RustText Utf8 NetText AllowedIps.

Import Stdlib.Strings.String.StringSyntax.

(** ** Parsing *)

(** The loop of [from_str_radix]. *)
Fixpoint radix_digits (radix width : Z) (s : bytes) (acc : Z) : option Z :=
  match s with
  | [] => Some acc
  | b :: s =>
      match to_digit radix b with
      | None => None
      | Some d =>
          let acc := acc * radix + d in
          if acc <? 2 ^ width then radix_digits radix width s acc else None
      end
  end.

(** [uN::from_str_radix(s, radix)] *)
Definition from_str_radix (radix width : Z) (s : bytes) : option Z :=
  let s := match s with b :: r => if u8 b =? 43 then r else s | [] => s end in
  match s with
  | [] => None
  | _ => radix_digits radix width s 0
  end.

(** [s.parse::<bool>()] *)
Definition parse_bool (s : bytes) : option bool :=
  if bool_decide (s = str "true") then Some true
  else if bool_decide (s = str "false") then Some false
  else None.

Class Base64 := {
  base64_encode : bytes -> bytes;
  base64_decode : bytes -> option bytes;
}.

(** What the crate documents of its standard engine: encoding is padded to a
    multiple of four characters, each of the alphabet, and decoding inverts it. *)
Definition base64_char (b : byte) : bool :=
  let z := u8 b in
  ((65 <=? z) && (z <=? 90)) || ((97 <=? z) && (z <=? 122)) || ((48 <=? z) && (z <=? 57))
  || (z =? 43) || (z =? 47) || (z =? 61).

Class Base64Laws (B : Base64) : Prop := {
  base64_decode_encode : forall b, base64_decode (base64_encode b) = Some b;
  base64_encode_length : forall b, length (base64_encode b) = (4 * ((length b + 2) / 3))%nat;
  base64_encode_chars : forall b, forallb base64_char (base64_encode b) = true;
}.

Inductive KeyError := IllegalCharacter | IllegalSize.

Section KeyBytes.
Context `{B : Base64}.

(** The loop over the 32 bytes, from byte [i] on. *)
Fixpoint hex_key (s : bytes) (n i : nat) : outcome (result KeyError bytes) :=
  match n with
  | O => Ret (Ok [])
  | S n =>
      let! two := str_slice s (i * 2) (i * 2 + 2) in
      match from_str_radix 16 8 two with
      | None => Ret (Err IllegalCharacter)
      | Some z => let? r := hex_key s n (S i) in Ret (Ok (of_u8 z :: r))
      end
  end.

(** [KeyBytes::from_str] *)
Definition key_from_str (s : bytes) : outcome (result KeyError bytes) :=
  if bool_decide (length s = 64%nat) then hex_key s 32 0
  else if bool_decide (length s = 43%nat) || bool_decide (length s = 44%nat) then
    match base64_decode s with
    | Some decoded_key =>
        if bool_decide (length decoded_key = 32%nat) then Ret (Ok decoded_key)
        else Ret (Err IllegalCharacter)
    | None => Ret (Ok (zeros 32))
    end
  else Ret (Err IllegalSize).
End KeyBytes.

(** [AllowedIP::from_str] *)
Definition allowed_ip_from_str (s : bytes) : option AllowedIP :=
  match split_on (ch 47) s with
  | [ip; c] =>
      match parse_ip_addr ip, parse_uint 8 c with
      | Some (V4 a), Some c => if c <=? 32 then Some (mkAllowedIP (V4 a) c) else None
      | Some (V6 a), Some c => if c <=? 128 then Some (mkAllowedIP (V6 a) c) else None
      | _, _ => None
      end
  | _ => None
  end.

(** [format!("{}/{}", ip, cidr)] *)
Definition show_allowed_ip (ip : AllowedIP) : bytes :=
  show_ip_addr (addr ip) ++ [ch 47] ++ show_uint (cidr ip).

(** ** Digits *)

Lemma digit_ascii d : 0 <= d < 16 -> is_ascii (digit d).
Proof. intros Hd. unfold is_ascii, digit. destruct (Z.ltb_spec d 10); rewrite u8_of_u8; lia. Qed.

Lemma octet_halves (x : byte) : 0 <= u8 x / 16 < 16 /\ 0 <= u8 x mod 16 < 16.
Proof.
  pose proof (byte.unsigned_range x). split; [|apply Z.mod_pos_bound; lia].
  split; [apply Z.div_pos; lia|apply Z.div_lt_upper_bound; lia].
Qed.

(** ** Keys in hexadecimal are read back *)

Section HexKeys.
Context `{H : Hex} `{HL : !HexLaws H}.

Lemma hex_encode_ascii b : Forall is_ascii (hex_encode b).
Proof.
  induction b as [|x r IH]; [rewrite hex_encode_nil; constructor|]. rewrite hex_encode_cons.
  destruct (octet_halves x). repeat (constructor; [by apply digit_ascii|]). exact IH.
Qed.

Lemma two_digits x : from_str_radix 16 8 [digit (u8 x / 16); digit (u8 x mod 16)] = Some (u8 x).
Proof.
  destruct (octet_halves x) as [Hh Hl]. unfold from_str_radix.
  assert (u8 (digit (u8 x / 16)) <> 43) as Hp.
  { unfold digit. destruct (Z.ltb_spec (u8 x / 16) 10); rewrite u8_of_u8; lia. }
  rewrite (proj2 (Z.eqb_neq _ _) Hp). cbn [radix_digits]. rewrite !to_digit_digit by lia.
  pose proof (byte.unsigned_range x). pose proof (Z.div_mod (u8 x) 16 ltac:(lia)).
  rewrite !(proj2 (Z.ltb_lt _ _)) by lia. f_equal. lia.
Qed.

Lemma hex_key_encoded s b i :
  Forall is_ascii s -> drop (i * 2) s = hex_encode b -> (i * 2 <= length s)%nat ->
  hex_key s (length b) i = Ret (Ok b).
Proof.
  intros Hs. revert i. induction b as [|x r IH]; intros i Hd Hi; [done|]. cbn [length hex_key].
  rewrite hex_encode_cons in Hd.
  assert (length s = i * 2 + 2 + length (hex_encode r))%nat as Hl.
  { apply (f_equal length) in Hd. rewrite length_drop in Hd. cbn in Hd. lia. }
  rewrite ascii_slice by (done || lia). replace (i * 2 + 2 - i * 2)%nat with 2%nat by lia. rewrite Hd.
  cbn [outcome_bind take]. rewrite two_digits, IH; [|..|lia].
  - cbn [fallible_bind]. by rewrite byte.of_Z_unsigned.
  - replace (S i * 2)%nat with (i * 2 + 2)%nat by lia. rewrite <- drop_drop, Hd. done.
Qed.

Lemma key_from_hex `{B : Base64} k : length k = 32%nat -> key_from_str (hex_encode k) = Ret (Ok k).
Proof.
  intros Hk. unfold key_from_str. rewrite hex_encode_length, Hk, bool_decide_eq_true_2 by done.
  rewrite <- Hk. apply (hex_key_encoded _ k 0); [apply hex_encode_ascii|done|lia].
Qed.
End HexKeys.

(** ** Pieces and the text of addresses *)

Lemma split_on_none c s : Forall (fun b => b <> c) s -> split_on c s = [s].
Proof.
  induction 1 as [|b s Hb _ IH]; [done|]. cbn [split_on]. rewrite IH.
  by rewrite bool_decide_eq_false_2.
Qed.

Lemma split_on_app c s t :
  Forall (fun b => b <> c) s -> split_on c (s ++ c :: t) = s :: split_on c t.
Proof.
  induction 1 as [|b s Hb _ IH]; cbn [app split_on].
  - destruct (split_on c t) as [|p ps] eqn:E; [|by rewrite bool_decide_eq_true_2].
    destruct t as [|b t]; [done|]. cbn in E. destruct (split_on c t); [done|]. by destruct (bool_decide _).
  - rewrite IH. by rewrite bool_decide_eq_false_2.
Qed.

(** The bytes of printed addresses and numbers. *)
Definition addr_char (b : byte) : Prop := is_Some (to_digit 16 b) \/ b = dot \/ b = colon.

Lemma digits_addr radix fuel z acc :
  1 < radix <= 16 -> Forall addr_char acc -> Forall addr_char (digits radix fuel z acc).
Proof.
  intros Hr. revert z acc. induction fuel as [|fuel IH]; intros z acc Ha; [done|]. cbn [digits].
  assert (addr_char (digit (z mod radix))) as Hd.
  { left. pose proof (Z.mod_pos_bound z radix ltac:(lia)). rewrite to_digit_digit by lia. eauto. }
  destruct (z <? radix); [by constructor|]. apply IH. by constructor.
Qed.

Lemma join_addr sep l : Forall addr_char sep -> Forall (Forall addr_char) l -> Forall addr_char (join sep l).
Proof.
  intros Hsep. induction 1 as [|x l Hx Hl IH]; [constructor|]. rewrite join_after. apply Forall_app. split; [done|].
  clear IH Hx. induction Hl as [|y l Hy _ IH]; [constructor|]. rewrite after_cons. by rewrite !Forall_app.
Qed.

Lemma show_uint_addr z : Forall addr_char (show_uint z).
Proof. apply digits_addr; [lia|constructor]. Qed.

Lemma show_ipv4_addr o : Forall addr_char (show_ipv4 o).
Proof.
  apply join_addr; [constructor; [by right; left|done]|]. apply Forall_fmap, Forall_true.
  intros b. apply show_uint_addr.
Qed.

Lemma fmt_groups_addr gs : Forall addr_char (fmt_groups gs).
Proof.
  apply join_addr; [constructor; [by right; right|done]|]. apply Forall_fmap, Forall_true.
  intros g. apply digits_addr; [lia|constructor].
Qed.

Lemma show_ip_addr_chars a : Forall addr_char (show_ip_addr a).
Proof.
  destruct a as [o|o]; cbn [show_ip_addr]; [apply show_ipv4_addr|]. unfold show_ipv6.
  assert (Forall addr_char [colon; colon]) by (repeat (constructor; [by right; right|]); done).
  case_bool_decide; [|destruct (longest_zeroes _ _ _ _); case_bool_decide; [|apply fmt_groups_addr]].
  - apply Forall_app. split; [|apply show_ipv4_addr].
    assert (str "::ffff:" = [colon; colon] ++ fmt_groups [65535] ++ [colon]) as -> by (vm_compute; reflexivity).
    rewrite !Forall_app. split_and!; [done|apply fmt_groups_addr|constructor; [by right; right|done]].
  - rewrite !Forall_app. split_and!; [|done|]; apply fmt_groups_addr.
Qed.

Lemma addr_char_range b : addr_char b -> 46 <= u8 b <= 102 /\ u8 b <> 47 /\ u8 b <> 61.
Proof.
  intros [[d Hd]|[->| ->]]; [|by vm_compute..]. unfold to_digit in Hd. cbv zeta in Hd.
  repeat match type of Hd with context [?a <=? ?b] => destruct (Z.leb_spec a b) end;
    cbn [andb] in Hd; match type of Hd with context [?a <? ?b] => destruct (Z.ltb_spec a b) end; try done; lia.
Qed.

Lemma addr_no b s : Forall addr_char s -> u8 b < 46 \/ u8 b = 47 \/ u8 b = 61 \/ 102 < u8 b ->
  Forall (fun c => c <> b) s.
Proof.
  intros Hs Hb. revert s Hs. apply Forall_impl. intros c Hc%addr_char_range ->. lia.
Qed.

(** An allowed address as the routing table holds it is read back. *)
Lemma allowed_ip_read_back ip :
  ip_ok (addr ip) -> wf_allowed_ip ip -> allowed_ip_from_str (show_allowed_ip ip) = Some ip.
Proof.
  destruct ip as [a c]. intros Ha Hw. unfold allowed_ip_from_str, show_allowed_ip. cbn [addr cidr] in *.
  unfold wf_allowed_ip in Hw. cbn [addr cidr] in Hw.
  assert (in_width 8 c) as Hc by (split; cbn; destruct a; cbn in Hw; lia).
  cbn [app]. rewrite split_on_app, split_on_none.
  - rewrite parse_show_ip_addr, (parse_show 8) by (done || lia).
    destruct a as [o|o]; cbn in Hw; by rewrite (proj2 (Z.leb_le _ _)) by lia.
  - apply addr_no; [apply show_uint_addr|]. right. left. by vm_compute.
  - apply addr_no; [apply show_ip_addr_chars|]. right. left. by vm_compute.
Qed.

(** ** An executable instance of [Base64] *)

Definition b64_char (n : Z) : byte :=
  ch (if n <? 26 then 65 + n else if n <? 52 then 71 + n else if n <? 62 then n - 4
      else if n =? 62 then 43 else 47).

Definition b64_value (b : byte) : option Z :=
  let z := u8 b in
  if (65 <=? z) && (z <=? 90) then Some (z - 65)
  else if (97 <=? z) && (z <=? 122) then Some (z - 71)
  else if (48 <=? z) && (z <=? 57) then Some (z + 4)
  else if z =? 43 then Some 62
  else if z =? 47 then Some 63
  else None.

Definition pad : byte := ch 61.

Fixpoint toy_base64_encode (b : bytes) : bytes :=
  match b with
  | x :: y :: z :: r =>
      b64_char (u8 x / 4) :: b64_char (u8 x mod 4 * 16 + u8 y / 16)
      :: b64_char (u8 y mod 16 * 4 + u8 z / 64) :: b64_char (u8 z mod 64) :: toy_base64_encode r
  | [x; y] =>
      [b64_char (u8 x / 4); b64_char (u8 x mod 4 * 16 + u8 y / 16); b64_char (u8 y mod 16 * 4); pad]
  | [x] => [b64_char (u8 x / 4); b64_char (u8 x mod 4 * 16); pad; pad]
  | [] => []
  end.

Fixpoint toy_base64_decode (s : bytes) : option bytes :=
  match s with
  | [] => Some []
  | a :: b :: c :: d :: r =>
      match b64_value a, b64_value b with
      | Some a, Some b =>
          let x := of_u8 (a * 4 + b / 16) in
          match b64_value c, b64_value d with
          | Some c, Some d =>
              match toy_base64_decode r with
              | Some r => Some (x :: of_u8 (b mod 16 * 16 + c / 4) :: of_u8 (c mod 4 * 64 + d) :: r)
              | None => None
              end
          | Some c', None =>
              if bool_decide (d = pad) && bool_decide (r = []) then Some [x; of_u8 (b mod 16 * 16 + c' / 4)]
              else None
          | None, _ =>
              if bool_decide (c = pad) && bool_decide (d = pad) && bool_decide (r = []) then Some [x] else None
          end
      | _, _ => None
      end
  | _ => None
  end.

Definition toy_base64 : Base64 := {| base64_encode := toy_base64_encode; base64_decode := toy_base64_decode |}.

Lemma b64_table n : 0 <= n < 64 -> b64_value (b64_char n) = Some n /\ base64_char (b64_char n) = true.
Proof.
  intros Hn. assert (Forall (fun n => b64_value (b64_char n) = Some n /\ base64_char (b64_char n) = true)
                       (Z.of_nat <$> seq 0 64)) as Hf
    by (repeat apply Forall_cons_2; try apply Forall_nil_2; by vm_compute).
  rewrite List.Forall_forall in Hf. apply Hf, list_elem_of_In, list_elem_of_fmap.
  exists (Z.to_nat n). split; [lia|]. apply elem_of_seq. lia.
Qed.

Lemma b64_read n : 0 <= n < 64 -> b64_value (b64_char n) = Some n.
Proof. apply b64_table. Qed.

Lemma b64_alphabet n : 0 <= n < 64 -> base64_char (b64_char n) = true.
Proof. apply b64_table. Qed.

(** By groups of three bytes. *)
Lemma triples_ind (P : bytes -> Prop) :
  P [] -> (forall x, P [x]) -> (forall x y, P [x; y]) -> (forall x y z r, P r -> P (x :: y :: z :: r)) ->
  forall b, P b.
Proof.
  intros H0 H1 H2 H3 b. assert (forall n b, (length b <= n)%nat -> P b) as Hn; [|eauto].
  induction n as [|n IH]; intros [|x [|y [|z r]]] Hl; try done; cbn in Hl; try lia.
  apply H3, IH. lia.
Qed.

Ltac div_lia := Z.to_euclidean_division_equations; lia.

Lemma of_u8_eq z (b : byte) : z = u8 b -> of_u8 z = b.
Proof. intros ->. apply byte.of_Z_unsigned. Qed.

Lemma toy_base64_laws : Base64Laws toy_base64.
Proof.
  split; cbn [toy_base64 base64_encode base64_decode].
  - apply triples_ind; [done|..].
    + intros x. pose proof (byte.unsigned_range x). cbn [toy_base64_encode toy_base64_decode].
      rewrite !b64_read by div_lia. cbn [b64_value pad]. cbn. f_equal. f_equal.
      apply of_u8_eq. div_lia.
    + intros x y. pose proof (byte.unsigned_range x). pose proof (byte.unsigned_range y).
      cbn [toy_base64_encode toy_base64_decode]. rewrite !b64_read by div_lia. cbn. do 2 f_equal.
      * apply of_u8_eq. div_lia.
      * f_equal. apply of_u8_eq. div_lia.
    + intros x y z r IH. pose proof (byte.unsigned_range x). pose proof (byte.unsigned_range y).
      pose proof (byte.unsigned_range z).
      cbn [toy_base64_encode toy_base64_decode]. rewrite !b64_read by div_lia. rewrite IH. f_equal.
      f_equal; [|f_equal; [|f_equal]]; apply of_u8_eq; div_lia.
  - apply triples_ind; [done..|]. intros x y z r IH. cbn [toy_base64_encode length]. rewrite IH.
    replace (S (S (S (length r))) + 2)%nat with (length r + 2 + 1 * 3)%nat by lia.
    rewrite Nat.div_add by lia. lia.
  - apply triples_ind; [done|..].
    + intros x. pose proof (byte.unsigned_range x). cbn [toy_base64_encode forallb].
      by rewrite !b64_alphabet by div_lia.
    + intros x y. pose proof (byte.unsigned_range x). pose proof (byte.unsigned_range y).
      cbn [toy_base64_encode forallb]. by rewrite !b64_alphabet by div_lia.
    + intros x y z r IH. pose proof (byte.unsigned_range x). pose proof (byte.unsigned_range y).
      pose proof (byte.unsigned_range z). cbn [toy_base64_encode forallb].
      by rewrite !b64_alphabet, IH by div_lia.
Qed.
