(* ===== verification/Deposit.v ===== *)
(** * Deposits into the gateway ([payment/rpc.rs], [payment/deposit.rs])

    At start a client moves its tokens into the gateway contract: it asks a node of the
    chain for two balances and the parameters of a transaction, signs an authorisation
    and the transaction that carries it, sends it and waits for the receipt. The node
    is the class [Rpc], with its state [C] at the other end of the connection; what
    is sent is read back with the decoder of Rlp and one for the call of the contract. *)

From Stdlib Require Import ZArith Lia.
From Stdlib Require Strings.String.
From stdpp Require Import base numbers list option.
From S2P Require Import Prelude Clock RustText Json NetText Eip3009 Rlp PaymentProtocol Settlement Utf8 Serialization.

Import Stdlib.Strings.String.StringSyntax.

(** ** The node *)

(** [client.post(url).json(&body).send()] and [resp.json()]; the text of a failure is
    that of the two [map_err]. *)
Class Rpc (C : Type) := { rpc_exchange : bytes -> Value -> action C bytes Value }.

(** Why [from_str_radix] refuses a text that is not empty. *)
Fixpoint radix_error (radix width : Z) (s : bytes) (acc : Z) : bytes :=
  match s with
  | [] => str "invalid digit found in string"
  | b :: s =>
      match to_digit radix b with
      | None => str "invalid digit found in string"
      | Some d =>
          let acc := acc * radix + d in
          if acc <? 2 ^ width then radix_error radix width s acc
          else str "number too large to fit in target type"
      end
  end.

(** The text of the error of [uN::from_str_radix(s, radix)]. *)
Definition parse_int_error (radix width : Z) (s : bytes) : bytes :=
  let s := match s with b :: _ :: _ => if u8 b =? 43 then tail s else s | _ => s end in
  radix_error radix width s 0.

Section Client.
Context {C : Type} `{R : Rpc C} `{J : Json} `{H : Hex}.
(** The text of the error of [hex::decode]. *)
Context (hex_error : bytes -> bytes).

Definition strip_0x (s : bytes) : bytes := default s (strip_prefix (str "0x") s).

Definition decode_hex (s : bytes) : result bytes bytes :=
  let s := strip_0x s in
  if bool_decide (s = []) then Ok []
  else match hex_decode s with
       | Some b => Ok b
       | None => Err (str "hex decode: " ++ hex_error s)
       end.

(** [parse_hex_u64] and [parse_hex_u128], with their width and its name. *)
Definition parse_hex (width : Z) (name s : bytes) : result bytes Z :=
  let s := strip_0x s in
  if bool_decide (s = []) then Ok 0
  else match from_str_radix 16 width s with
       | Some v => Ok v
       | None => Err (str "parse " ++ name ++ str ": " ++ parse_int_error 16 width s)
       end.
Definition parse_hex_u64 : bytes -> result bytes Z := parse_hex 64 (str "u64").
Definition parse_hex_u128 : bytes -> result bytes Z := parse_hex 128 (str "u128").

(** The low 128 bits of the last word. *)
Definition parse_u256_result (data : bytes) : Z :=
  if bool_decide (length data < 32)%nat then 0 else from_be (drop (length data - 16) data).

Record RpcClient := mkRpcClient { rpc_client_url : bytes }.

Definition rpc_request (method : bytes) (params : Value) : Value :=
  VObject [(str "jsonrpc", VString (str "2.0")); (str "method", VString method);
           (str "params", params); (str "id", VNumber (str "1"))].

Definition rpc_call (c : RpcClient) (method : bytes) (params : Value) : action C bytes Value :=
  let* json := rpc_exchange (rpc_client_url c) (rpc_request method params) in
  match value_get (str "error") json with
  | Some err => act_fail (str "RPC error: " ++ json_to_string err)
  | None => act_ret (value_at (str "result") json)
  end.

Definition of_result {A} (r : result bytes A) : action C bytes A := fun s => (r, s).

Definition eth_call (c : RpcClient) (to data : bytes) : action C bytes bytes :=
  let* result := rpc_call c (str "eth_call")
    (VArray [VObject [(str "to", VString (hex0x to)); (str "data", VString (hex0x data))];
             VString (str "latest")]) in
  match as_str result with
  | None => act_fail (str "eth_call result not a string")
  | Some hex_str => of_result (decode_hex hex_str)
  end.

Definition get_nonce (c : RpcClient) (addr : bytes) : action C bytes Z :=
  let* result := rpc_call c (str "eth_getTransactionCount")
    (VArray [VString (hex0x addr); VString (str "latest")]) in
  of_result (parse_hex_u64 (default (str "0x0") (as_str result))).

Definition gas_price (c : RpcClient) : action C bytes Z :=
  let* result := rpc_call c (str "eth_gasPrice") (VArray []) in
  of_result (parse_hex_u128 (default (str "0x0") (as_str result))).

Definition max_priority_fee (c : RpcClient) : action C bytes Z :=
  let* result := rpc_call c (str "eth_maxPriorityFeePerGas") (VArray []) in
  of_result (parse_hex_u128 (default (str "0x0") (as_str result))).

Definition estimate_gas (c : RpcClient) (from to data : bytes) : action C bytes Z :=
  let* result := rpc_call c (str "eth_estimateGas")
    (VArray [VObject [(str "from", VString (hex0x from)); (str "to", VString (hex0x to));
                      (str "data", VString (hex0x data))]]) in
  of_result (parse_hex_u64 (default (str "0x0") (as_str result))).

Definition SEND_RAW_TX : bytes := str "eth_sendRawTransaction".

Definition send_raw_tx (c : RpcClient) (raw_tx : bytes) : action C bytes bytes :=
  let* result := rpc_call c SEND_RAW_TX (VArray [VString (hex0x raw_tx)]) in
  match as_str result with
  | Some s => act_ret s
  | None => act_fail (str "no tx hash in response")
  end.

Definition get_receipt (c : RpcClient) (tx_hash : bytes) : action C bytes (option Value) :=
  let* result := rpc_call c (str "eth_getTransactionReceipt") (VArray [VString tx_hash]) in
  act_ret (if is_null result then None else Some result).

(** The loop over the attempts, with a pause of two seconds after each. *)
Fixpoint wait_for_receipt (c : RpcClient) (tx_hash : bytes) (max_attempts : nat) : action C bytes bool :=
  match max_attempts with
  | O => act_fail (str "timeout waiting for receipt")
  | S n =>
      let* receipt := get_receipt c tx_hash in
      match receipt with
      | Some receipt =>
          let status := default (str "0x0") (as_str (value_at (str "status") receipt)) in
          act_ret (bool_decide (status = str "0x1"))
      | None => wait_for_receipt c tx_hash n
      end
  end.

(** ** The deposit *)

Definition SEL_BALANCE_OF : bytes := of_u8 <$> [112; 160; 130; 49].
Definition SEL_AVAILABLE_BALANCE : bytes := of_u8 <$> [60; 203; 100; 174].
Definition SEL_DEPOSIT_WITH_AUTH : bytes := of_u8 <$> [138; 148; 212; 252].
Definition GAS_RESERVE : Z := 100000.

(** The file has copies of the ABI encoders of [eip3009.rs]. *)
Definition deposit_encode_address (addr : bytes) : bytes := zeros 12 ++ addr.
Definition deposit_encode_u256 (value : Z) : bytes := zeros 16 ++ to_be 16 value.

Definition query_balance (c : RpcClient) (token addr : bytes) : action C bytes Z :=
  let* result := eth_call c token (SEL_BALANCE_OF ++ deposit_encode_address addr) in
  act_ret (parse_u256_result result).

Definition query_gateway_balance (c : RpcClient) (gateway token addr : bytes) : action C bytes Z :=
  let* result := eth_call c gateway
    (SEL_AVAILABLE_BALANCE ++ deposit_encode_address token ++ deposit_encode_address addr) in
  act_ret (parse_u256_result result).
End Client.

Section Deposit.
Context {C : Type} `{R : Rpc C} `{J : Json} `{H : Hex} `{Eth : Ethereum} `{E : Env}.
Context (hex_error : bytes -> bytes).

Definition deposit_domain_separator (domain : Eip712Domain) : bytes :=
  keccak256 (keccak256 (str "EIP712Domain(string name,string version,uint256 chainId,address verifyingContract)")
             ++ keccak256 (domain_name domain) ++ keccak256 (domain_version domain)
             ++ deposit_encode_u256 (domain_chain_id domain)
             ++ deposit_encode_address (verifying_contract domain)).

Definition receive_type_hash : bytes :=
  keccak256 (str "ReceiveWithAuthorization(address from,address to,uint256 value,uint256 validAfter,uint256 validBefore,bytes32 nonce)").

(** The digest that is signed: [struct_hash] and [digest]. *)
Definition receive_digest (config : PaymentConfig) (addr : bytes) (amount valid_after valid_before : Z)
    (nonce : bytes) : bytes :=
  let struct_hash := keccak256 (receive_type_hash ++ deposit_encode_address addr
                                ++ deposit_encode_address (gateway_wallet config)
                                ++ deposit_encode_u256 amount ++ deposit_encode_u256 valid_after
                                ++ deposit_encode_u256 valid_before ++ nonce) in
  keccak256 ([x19; x01] ++ deposit_domain_separator (usdc_domain config) ++ struct_hash).

(** The signed authorisation as the call of the contract that uses it. *)
Definition deposit_calldata (wallet : PaymentWallet) (config : PaymentConfig) (amount : Z) (w : World)
    : outcome (bytes * World) :=
  let addr := ethereum_address wallet in
  let '(nonce, w) := fill_bytes 32 w in
  let! (now, w) := unix_secs w in
  let valid_after := 0 in
  let valid_before := wrap 64 (now + 600) in
  let! (v, r, s) := sign_digest wallet (receive_digest config addr amount valid_after valid_before nonce) in
  Ret (SEL_DEPOSIT_WITH_AUTH ++ deposit_encode_address (usdc_contract config)
       ++ deposit_encode_address addr ++ deposit_encode_u256 amount ++ deposit_encode_u256 valid_after
       ++ deposit_encode_u256 valid_before ++ nonce ++ deposit_encode_u256 (u8 v) ++ r ++ s, w).

(** [x.unwrap_or(dflt)] on the outcome of a request. *)
Definition or_default {A} (dflt : A) (m : action C bytes A) : action C bytes A := fun s =>
  match m s with
  | (Ok a, s) => (Ok a, s)
  | (Err _, s) => (Ok dflt, s)
  end.

(** The transaction, with the parameters that the node suggests. *)
Definition deposit_tx (c : RpcClient) (addr : bytes) (config : PaymentConfig) (calldata : bytes)
    : action C bytes Eip1559Tx :=
  let* tx_nonce := get_nonce c addr in
  let* priority_fee := or_default 1000000 (max_priority_fee c) in
  let* base_fee := gas_price c in
  let max_fee := Z.min (base_fee + priority_fee) (2 ^ 128 - 1) in
  let* gas_limit := or_default 200000
    (let* g := estimate_gas c addr (gateway_wallet config) calldata in act_ret (wrap 64 (g * 130) / 100)) in
  act_ret (mkTx (cfg_chain_id config) tx_nonce priority_fee max_fee gas_limit (gateway_wallet config) 0 calldata).

Definition deposit_with_authorization (wallet : PaymentWallet) (config : PaymentConfig) (c : RpcClient)
    (amount : Z) (s : C) (w : World) : outcome (result bytes bytes * C * World) :=
  let! (calldata, w) := deposit_calldata wallet config amount w in
  match deposit_tx c (ethereum_address wallet) config calldata s with
  | (Err e, s) => Ret (Err e, s, w)
  | (Ok tx, s) =>
      let! raw := sign_tx tx (signing_key wallet) in
      let '(r, s) := send_raw_tx c raw s in
      Ret (r, s, w)
  end.

(** The two balances, token first. *)
Definition query_balances (c : RpcClient) (config : PaymentConfig) (addr : bytes) : action C bytes (Z * Z) :=
  let* usdc_balance := query_balance hex_error c (usdc_contract config) addr in
  let* gw_balance := query_gateway_balance hex_error c (gateway_wallet config) (usdc_contract config) addr in
  act_ret (usdc_balance, gw_balance).

Definition already_deposited : bytes := str "already_deposited".

Definition auto_deposit (wallet : PaymentWallet) (config : PaymentConfig) (s : C) (w : World)
    : outcome (result bytes bytes * C * World) :=
  let rpc := mkRpcClient (rpc_url config) in
  let addr := ethereum_address wallet in
  match query_balances rpc config addr s with
  | (Err e, s) => Ret (Err e, s, w)
  | (Ok (usdc_balance, gw_balance), s) =>
      if (usdc_balance =? 0) && (gw_balance =? 0)
      then Ret (Err (str "No USDC available. Fund wallet with USDC on Arc testnet: " ++ hex0x addr), s, w)
      else if usdc_balance =? 0 then Ret (Ok already_deposited, s, w)
      else
        let deposit_amount := Z.max 0 (usdc_balance - GAS_RESERVE) in
        if deposit_amount =? 0
        then Ret (Err (str "USDC balance too low to deposit (need >1 USDC for gas reserve)"), s, w)
        else
          let! (r, s, w) := deposit_with_authorization wallet config rpc deposit_amount s w in
          match r with
          | Err e => Ret (Err e, s, w)
          | Ok tx_hash =>
              match wait_for_receipt rpc tx_hash 30 s with
              | (Err e, s) => Ret (Err e, s, w)
              | (Ok true, s) => Ret (Ok tx_hash, s, w)
              | (Ok false, s) => Ret (Err (str "Deposit tx reverted: " ++ tx_hash), s, w)
              end
          end
  end.
End Deposit.

(** ** What the contract reads *)

(** A call of [depositWithAuthorization]. *)
Record DepositCall := mkDepositCall {
  dep_token : bytes;
  dep_from : bytes;
  dep_value : Z;
  dep_valid_after : Z;
  dep_valid_before : Z;
  dep_nonce : bytes;
  dep_v : byte;
  dep_r : bytes;
  dep_s : bytes;
}.

(** The [i]-th word of the arguments. *)
Definition abi_word (i : nat) (d : bytes) : bytes := sub d (4 + 32 * i) (4 + 32 * (i + 1)).

Definition abi_address (word : bytes) : option bytes :=
  if bool_decide (take 12 word = zeros 12) then Some (drop 12 word) else None.

Definition abi_uint8 (word : bytes) : option byte :=
  if from_be word <? 256 then Some (of_u8 (from_be word)) else None.

Definition read_deposit (d : bytes) : option DepositCall :=
  if bool_decide (length d = 292%nat /\ take 4 d = SEL_DEPOSIT_WITH_AUTH) then
    token ← abi_address (abi_word 0 d); from ← abi_address (abi_word 1 d); v ← abi_uint8 (abi_word 6 d);
    Some (mkDepositCall token from (from_be (abi_word 2 d)) (from_be (abi_word 3 d)) (from_be (abi_word 4 d))
            (abi_word 5 d) v (abi_word 7 d) (abi_word 8 d))
  else None.

(** ** What is sent *)

(** The node, with a record of the requests it has seen. *)
#[local] Instance recording {C} `{R : Rpc C} : Rpc (list Value * C) := {|
  rpc_exchange url body x := let '(r, s) := rpc_exchange url body x.2 in (r, (x.1 ++ [body], s))
|}.

(** The transactions among the requests. *)
Definition sent_by (request : Value) : list Value :=
  if bool_decide (as_str (value_at (str "method") request) = Some SEND_RAW_TX)
  then default [] (as_array (value_at (str "params") request)) else [].
Definition sent (log : list Value) : list Value := concat (sent_by <$> log).

Lemma sent_app l l' : sent (l ++ l') = sent l ++ sent l'.
Proof. unfold sent. by rewrite fmap_app, concat_app. Qed.

(** An action that sends no transaction: with the record it does what it does
    without, [plain], and no transaction is added. *)
Definition quiet {C A} `{R : Rpc C} (m : action (list Value * C) bytes A) (plain : action C bytes A) : Prop :=
  forall log s, exists log', m (log, s) = ((plain s).1, (log', (plain s).2)) /\ sent log' = sent log.

Section Quiet.
Context {C : Type} `{R : Rpc C} `{J : Json}.

Lemma quiet_bind {A B} (m : action (list Value * C) bytes A) m' (k : A -> action (list Value * C) bytes B) k' :
  quiet m m' -> (forall a, quiet (k a) (k' a)) -> quiet (act_bind m k) (act_bind m' k').
Proof.
  intros Hm Hk log s. unfold act_bind. destruct (Hm log s) as (l1 & -> & E1).
  destruct (m' s) as [[a|e] s1]; cbn [fst snd]; [|by eexists].
  destruct (Hk a l1 s1) as (l2 & -> & E2). eexists. split; [done|]. by rewrite E2.
Qed.

Lemma quiet_result {A} (r : result bytes A) : quiet (R := R) (of_result r) (of_result r).
Proof. intros log s. by eexists. Qed.

Lemma quiet_ret {A} (a : A) : quiet (R := R) (act_ret a) (act_ret a).
Proof. intros log s. by eexists. Qed.

Lemma quiet_fail {A} (e : bytes) : quiet (A := A) (R := R) (act_fail e) (act_fail e).
Proof. intros log s. by eexists. Qed.

Lemma quiet_or_default {A} (a : A) m m' : quiet (R := R) m m' -> quiet (R := R) (or_default a m) (or_default a m').
Proof.
  intros Hm log s. unfold or_default. destruct (Hm log s) as (l1 & -> & E1). destruct (m' s) as [[b|e] s1]; by eexists.
Qed.

Lemma quiet_call c method params :
  method <> SEND_RAW_TX -> quiet (rpc_call c method params) (rpc_call c method params).
Proof.
  intros Hm. apply quiet_bind.
  - intros log s. cbn [rpc_exchange recording fst snd]. destruct (rpc_exchange _ _ s) as [r s'].
    eexists. split; [done|]. rewrite sent_app. unfold sent at 2. cbn [fmap list_fmap concat].
    unfold sent_by. rewrite bool_decide_eq_false_2; [by rewrite !app_nil_r|]. cbn. intros [= E]. done.
  - intros json. destruct (value_get _ json); [apply quiet_fail|apply quiet_ret].
Qed.
End Quiet.

(** Every request but the one that sends. *)
Ltac quiet_steps :=
  repeat first
    [ apply quiet_ret | apply quiet_fail | apply quiet_result
    | apply quiet_call; discriminate
    | apply quiet_or_default | apply quiet_bind; [|intros ?]
    | match goal with |- quiet (match ?x with _ => _ end) _ => destruct x end ].

Lemma or_default_inv {C A} (a b : A) (m : action C bytes A) x x' :
  or_default a m x = (Ok b, x') -> b = a \/ exists y z, m y = (Ok b, z).
Proof. unfold or_default. destruct (m x) as [[c|e] z] eqn:Em; intros [= <- <-]; eauto. Qed.

(** ** Values *)

Lemma to_digit_range radix b d : to_digit radix b = Some d -> 0 <= d.
Proof.
  unfold to_digit. pose proof (u8_range b).
  repeat match goal with |- context [?x <=? ?y] => destruct (Z.leb_spec x y) end; cbn;
    try destruct (_ <? _); intros [= <-]; lia.
Qed.

Lemma radix_digits_range radix width s acc v :
  1 < radix -> in_width width acc -> radix_digits radix width s acc = Some v -> in_width width v.
Proof.
  intros Hr. revert acc. induction s as [|b s IH]; intros acc Ha; cbn; [by intros [= <-]|].
  destruct (to_digit radix b) as [d|] eqn:Ed; [|done]. destruct (Z.ltb_spec (acc * radix + d) (2 ^ width)); [|done].
  apply IH. split; [|done]. pose proof (to_digit_range _ _ _ Ed). destruct Ha. nia.
Qed.

Lemma parse_hex_range width name s v :
  0 < width -> parse_hex width name s = Ok v -> in_width width v.
Proof.
  intros Hw. assert (in_width width 0) as H0 by (split; [lia|apply Z.pow_pos_nonneg; lia]).
  unfold parse_hex. case_bool_decide; [by intros [= <-]|].
  destruct (from_str_radix 16 width (strip_0x s)) as [x|] eqn:E; [|done]. intros [= <-].
  unfold from_str_radix in E. destruct (match strip_0x s with [] => _ | _ => _ end); [done|].
  by eapply radix_digits_range; [| |exact E].
Qed.

Lemma ranged {C} `{R : Rpc C} (m : action C bytes Value) width name k x v x' :
  0 < width ->
  (let* result := m in of_result (parse_hex width name (k result))) x = (Ok v, x') -> in_width width v.
Proof. intros Hw (a & x1 & _ & Hv)%act_bind_inv. injection Hv as Hv _. by eapply parse_hex_range. Qed.

(** The words of a call. *)
Lemma abi_word_ok sel ws i x :
  length sel = 4%nat -> Forall (fun b => length b = 32%nat) ws -> ws !! i = Some x ->
  abi_word i (sel ++ concat ws) = x.
Proof.
  intros Hs Hw Hi. unfold abi_word, sub.
  rewrite drop_app_ge by lia. replace (4 + 32 * i - length sel)%nat with (32 * i)%nat by lia.
  replace (4 + 32 * (i + 1) - (4 + 32 * i))%nat with 32%nat by lia. clear Hs.
  revert i Hi. induction Hw as [|b ws Hb Hw IH]; intros [|i] Hi; try done; cbn [concat].
  - injection Hi as ->. by rewrite drop_0, take_app_length'.
  - rewrite drop_app_ge by lia. replace (32 * S i - length b)%nat with (32 * i)%nat by lia. by apply IH.
Qed.

Lemma length_words (ws : list bytes) : Forall (fun b => length b = 32%nat) ws -> length (concat ws) = (32 * length ws)%nat.
Proof. induction 1; [done|]. cbn [concat length]. rewrite length_app. lia. Qed.

Lemma from_be_u256 v : in_width 128 v -> from_be (deposit_encode_u256 v) = v.
Proof. intros Hv. unfold deposit_encode_u256. rewrite from_be_zeros. by apply from_to_be. Qed.

Lemma abi_address_ok a : abi_address (deposit_encode_address a) = Some a.
Proof.
  unfold abi_address, deposit_encode_address. rewrite take_app_length', drop_app_length' by len.
  by rewrite bool_decide_eq_true_2.
Qed.

Lemma abi_uint8_ok v : abi_uint8 (deposit_encode_u256 (u8 v)) = Some v.
Proof.
  pose proof (u8_range v). unfold abi_uint8.
  rewrite from_be_u256 by (split; [lia|]; eapply Z.lt_trans; [apply u8_range|reflexivity]).
  rewrite (proj2 (Z.ltb_lt _ _)) by lia. by rewrite byte.of_Z_unsigned.
Qed.

Lemma parse_u256_range d : in_width 128 (parse_u256_result d).
Proof.
  unfold parse_u256_result. case_bool_decide; [by split|].
  pose proof (from_be_range (drop (length d - 16) d)) as Hr. rewrite length_drop in Hr.
  replace (length d - (length d - 16))%nat with 16%nat in Hr by lia. exact Hr.
Qed.

Lemma balance_range {C} `{R : Rpc C} `{J : Json} `{H : Hex} hex_error c config addr s b g s' :
  query_balances hex_error c config addr s = (Ok (b, g), s') -> in_width 128 b.
Proof.
  intros (b' & s1 & Hb & Hx)%act_bind_inv. apply act_bind_inv in Hx as (g' & s2 & _ & Hx).
  injection Hx as <- _ _. apply act_bind_inv in Hb as (d & s3 & _ & Hb). injection Hb as <- _.
  apply parse_u256_range.
Qed.

Section Faithful.
Context {C : Type} `{R : Rpc C} `{J : Json} `{H : Hex} `{Eth : Ethereum} `{EL : !EthereumLaws Eth}.
Context `{E : Env} `{EC : !EpochClock E}.
Context (hex_error : bytes -> bytes).

(** What reading a deposit of [amount] out of a signed transaction means: the node
    finds a call of the gateway, signed by the wallet, without value; the gateway
    finds an authorisation of the wallet to move [amount] tokens to the gateway. *)
Definition deposits (wallet : PaymentWallet) (config : PaymentConfig) (amount : Z) (raw : bytes) : Prop :=
  exists tx y r s enc call,
    raw = [x02] ++ enc /\ rlp_decode enc = Some (Lst (signed_items tx y r s), [])
    /\ recover_address (signing_hash tx) (of_u8 (y + 27)) r s = Ret (Some (ethereum_address wallet))
    /\ tx_chain_id tx = cfg_chain_id config /\ tx_to tx = gateway_wallet config /\ tx_value tx = 0
    /\ read_deposit (tx_data tx) = Some call
    /\ dep_token call = usdc_contract config /\ dep_from call = ethereum_address wallet
    /\ dep_value call = amount /\ dep_valid_after call = 0
    /\ recover_address
         (receive_digest config (ethereum_address wallet) amount 0 (dep_valid_before call) (dep_nonce call))
         (dep_v call) (dep_r call) (dep_s call) = Ret (Some (ethereum_address wallet)).

Definition config_addresses (config : PaymentConfig) : Prop :=
  length (usdc_contract config) = 20%nat /\ length (gateway_wallet config) = 20%nat
  /\ u64_range (cfg_chain_id config).

Lemma calldata_ok wallet config amount w :
  wallet_ok wallet -> config_addresses config -> in_width 128 amount ->
  exists cd w' call, deposit_calldata wallet config amount w = Ret (cd, w') /\ length cd = 292%nat
    /\ read_deposit cd = Some call
    /\ dep_token call = usdc_contract config /\ dep_from call = ethereum_address wallet
    /\ dep_value call = amount /\ dep_valid_after call = 0
    /\ recover_address
         (receive_digest config (ethereum_address wallet) amount 0 (dep_valid_before call) (dep_nonce call))
         (dep_v call) (dep_r call) (dep_s call) = Ret (Some (ethereum_address wallet)).
Proof.
  intros Hw (Hu & Hg & _) Ha. pose proof (wallet_address_length _ Hw) as Hl. unfold deposit_calldata.
  pose proof (length_fill_bytes 32 w) as Hn. destruct (fill_bytes 32 w) as [nonce w1]. cbn [fst] in Hn.
  destruct (unix_secs_ok w1) as (now & w2 & -> & _). cbn [outcome_bind].
  set (vb := wrap 64 (now + 600)).
  destruct (sign_digest_ok wallet (receive_digest config (ethereum_address wallet) amount 0 vb nonce))
    as (v & r & s & -> & Hr & Hs & Hrec); [apply keccak256_length|done|]. cbn [outcome_bind].
  set (ws := [deposit_encode_address (usdc_contract config); deposit_encode_address (ethereum_address wallet);
              deposit_encode_u256 amount; deposit_encode_u256 0; deposit_encode_u256 vb; nonce;
              deposit_encode_u256 (u8 v); r; s]).
  exists (SEL_DEPOSIT_WITH_AUTH ++ concat ws), w2,
    (mkDepositCall (usdc_contract config) (ethereum_address wallet) amount 0 vb nonce v r s).
  assert (Forall (fun b => length b = 32%nat) ws) as Hws.
  { repeat apply Forall_cons_2; try apply Forall_nil_2; try done;
      unfold deposit_encode_address, deposit_encode_u256; len. }
  assert (in_width 128 vb) as Hvb.
  { destruct (wrap_in_width 64 (now + 600)); [lia|]. split; [done|]. eapply Z.lt_trans; [eassumption|reflexivity]. }
  assert (in_width 128 (u8 v)) as Hv by (pose proof (u8_range v); split; [lia|]; eapply Z.lt_trans; [apply u8_range|reflexivity]).
  split_and!; [by cbn [concat ws]; rewrite app_nil_r|by rewrite length_app, (length_words ws)| |done..].
  unfold read_deposit. rewrite bool_decide_eq_true_2
    by (split; [by rewrite length_app, (length_words ws)|by rewrite take_app_length']).
  assert (forall i x, ws !! i = Some x -> abi_word i (SEL_DEPOSIT_WITH_AUTH ++ concat ws) = x) as Hword
    by (intros i x; by apply abi_word_ok).
  rewrite (Hword 0%nat _ eq_refl), (Hword 1%nat _ eq_refl), (Hword 2%nat _ eq_refl), (Hword 3%nat _ eq_refl),
    (Hword 4%nat _ eq_refl), (Hword 5%nat _ eq_refl), (Hword 6%nat _ eq_refl), (Hword 7%nat _ eq_refl),
    (Hword 8%nat _ eq_refl).
  rewrite !abi_address_ok. cbn [mbind option_bind]. rewrite abi_uint8_ok. cbn [mbind option_bind].
  by rewrite !from_be_u256.
Qed.

(** The parameters of the transaction are in range whatever the node answers. *)
Lemma deposit_tx_ok c addr config calldata :
  config_addresses config -> Z.of_nat (length calldata) < 2 ^ 32 ->
  quiet (deposit_tx c addr config calldata) (deposit_tx c addr config calldata)
  /\ forall x tx x', deposit_tx (C := list Value * C) c addr config calldata x = (Ok tx, x') ->
       wf_tx tx /\ tx_chain_id tx = cfg_chain_id config /\ tx_to tx = gateway_wallet config
       /\ tx_value tx = 0 /\ tx_data tx = calldata.
Proof.
  intros (Hu & Hg & Hc) Hd. split; [quiet_steps|]. intros x tx x' Hx.
  apply act_bind_inv in Hx as (n & x1 & Hn & Hx). apply act_bind_inv in Hx as (pf & x2 & Hpf & Hx).
  apply act_bind_inv in Hx as (bf & x3 & Hbf & Hx). apply act_bind_inv in Hx as (g & x4 & Hgl & Hx).
  injection Hx as <- _. apply (ranged _ 64) in Hn; [|lia]. apply (ranged _ 128) in Hbf; [|lia].
  assert (in_width 128 pf) as Hpf'.
  { apply or_default_inv in Hpf as [->|(y & z & Hpf)]; [by split|]. by apply (ranged _ 128) in Hpf. }
  assert (u64_range g) as Hg'.
  { apply or_default_inv in Hgl as [->|(y & z & Hgl)]; [by split|].
    apply act_bind_inv in Hgl as (g0 & z1 & _ & Hgl). injection Hgl as <- _.
    destruct (wrap_in_width 64 (g0 * 130)); [lia|]. split; [by apply Z.div_pos|].
    apply Z.div_lt_upper_bound; lia. }
  assert (in_width 128 (Z.min (bf + pf) (2 ^ 128 - 1))) as Hmf.
  { destruct Hbf, Hpf'. split; [apply Z.min_glb; lia|]. eapply Z.le_lt_trans; [apply Z.le_min_r|reflexivity]. }
  assert (in_width 128 0) by by split. unfold wf_tx.
  cbn [tx_chain_id tx_nonce max_priority_fee_per_gas max_fee_per_gas Rlp.gas_limit tx_to tx_value tx_data]. tauto.
Qed.

(** At most one transaction is sent, and it is the deposit. *)
Lemma deposit_sends wallet config c amount log s w :
  wallet_ok wallet -> config_addresses config -> in_width 128 amount ->
  exists r log' s' w',
    deposit_with_authorization (C := list Value * C) wallet config c amount (log, s) w = Ret (r, (log', s'), w')
    /\ ((sent log' = sent log /\ is_ok r = false)
        \/ exists raw, sent log' = sent log ++ [VString (hex0x raw)] /\ deposits wallet config amount raw).
Proof.
  intros Hw Hcfg Ha. unfold deposit_with_authorization.
  destruct (calldata_ok wallet config amount w Hw Hcfg Ha) as (cd & w1 & call & -> & Hl & Hread & Hcall).
  cbn [outcome_bind].
  destruct (deposit_tx_ok c (ethereum_address wallet) config cd Hcfg) as [Hq Htx]; [by rewrite Hl|].
  destruct (Hq log s) as (log1 & E1 & Es1). rewrite E1 in *.
  destruct (deposit_tx c (ethereum_address wallet) config cd s) as [r1 s1]. cbn [fst snd] in *.
  destruct r1 as [tx|e]; [|eexists _, _, _, _; split; [done|]; by left].
  destruct (Htx _ _ _ E1) as (Hwf & Hid & Hto & Hval & Hdata).
  destruct (sign_tx_ok tx (signing_key wallet) Hwf) as (sig & y & raw & Hsign & Hsl & Hy & -> & Hdec).
  cbn [outcome_bind]. unfold send_raw_tx, rpc_call, act_bind. cbn [rpc_exchange recording fst snd].
  destruct (rpc_exchange _ _ s1) as [r2 s2].
  assert (forall r : result bytes bytes, exists r' log' s' w', Ret (r, (log1 ++ [rpc_request SEND_RAW_TX (VArray [VString (hex0x ([x02] ++ raw))])], s2), w1) = Ret (r', (log', s'), w')
    /\ ((sent log' = sent log /\ is_ok r' = false) \/ exists raw, sent log' = sent log ++ [VString (hex0x raw)] /\ deposits wallet config amount raw)) as Hend.
  { intros r. eexists _, _, _, _. split; [done|]. right. exists ([x02] ++ raw).
    split; [by rewrite sent_app, Es1|]. exists tx, y, (take 32 sig), (drop 32 sig), raw, call.
    rewrite Hdata. split_and!; try done; try apply Hcall.
    destruct (sign_digest_ok wallet (signing_hash tx)) as (v & r1 & s3 & Hd & _ & _ & Hrec); [apply keccak256_length|done|].
    unfold sign_digest in Hd. rewrite Hsign in Hd. cbn [unwrap outcome_bind] in Hd.
    rewrite !slice_ok in Hd by lia. cbn [outcome_bind] in Hd. rewrite sub_full_drop in Hd.
    destruct (require _); cbn [outcome_bind] in Hd; [|done]. apply (inj Ret) in Hd. injection Hd as <- <- <-. exact Hrec. }
  destruct r2 as [json|e]; [|apply Hend]. destruct (value_get _ json); [apply Hend|].
  cbn. destruct (as_str _); apply Hend.
Qed.

Lemma quiet_wait c h n : quiet (wait_for_receipt c h n) (wait_for_receipt c h n).
Proof.
  induction n as [|n IH]; cbn [wait_for_receipt]; [apply quiet_fail|].
  apply quiet_bind; [quiet_steps|]. intros [receipt|]; [apply quiet_ret|apply IH].
Qed.

(** The receipt that a wait ends with. *)
Lemma wait_confirmed c h n s s' :
  wait_for_receipt (R := R) c h n s = (Ok true, s') ->
  exists s1 s2 receipt, get_receipt c h s1 = (Ok (Some receipt), s2)
    /\ as_str (value_at (str "status") receipt) = Some (str "0x1").
Proof.
  revert s. induction n as [|n IH]; intros s; cbn [wait_for_receipt]; [discriminate|].
  intros ([receipt|] & s1 & Hr & Hk)%act_bind_inv; [|by eapply IH].
  exists s, s1, receipt. split; [done|]. injection Hk as Hk _. apply bool_decide_eq_true in Hk.
  destruct (as_str _); cbn in Hk; [by rewrite Hk|done].
Qed.

(** What the two balances allow: [log] are the requests made, [r] is the answer. *)
Definition deposit_outcome (wallet : PaymentWallet) (config : PaymentConfig) (b g : Z) (log : list Value)
    (r : result bytes bytes) : Prop :=
  if b =? 0 then sent log = [] /\ is_ok r = negb (g =? 0)
  else if b <=? GAS_RESERVE then sent log = [] /\ is_ok r = false
  else (sent log = [] /\ is_ok r = false)
       \/ exists raw, sent log = [VString (hex0x raw)] /\ deposits wallet config (b - GAS_RESERVE) raw
            /\ forall h, r = Ok h -> exists s1 s2 receipt,
                 get_receipt (mkRpcClient (rpc_url config)) h s1 = (Ok (Some receipt), s2)
                 /\ as_str (value_at (str "status") receipt) = Some (str "0x1").

End Faithful.

(** ** Example: a node that confirms everything *)

(** Each request is answered by its place: two balances, nonce, fees, gas, hash, receipt. *)
Definition example_answers : list Value :=
  let hex s := VObject [(str "result", VString s)] in
  [hex (str "0x00000000000000000000000000000000000000000000000000000000000f4240");
   hex (str "0x0000000000000000000000000000000000000000000000000000000000000000");
   hex (str "0x5"); hex (str "0x3b9aca00"); hex (str "0x77359400"); hex (str "0x186a0"); hex (str "0xabcd");
   VObject [(str "result", VObject [(str "status", VString (str "0x1"))])]].

#[local] Instance example_rpc : Rpc nat := {|
  rpc_exchange _ _ n := (match example_answers !! n with Some v => Ok v | None => Err (str "RPC request failed") end, S n)
|}.

#[local] Instance example_json : Json := {| json_from_str _ := Err []; json_to_string _ := [] |}.
#[local] Existing Instance toy_hex.
#[local] Existing Instance toy_ethereum.
#[local] Existing Instance toy_ethereum_laws.
#[local] Existing Instance example_env.

Definition example_config : PaymentConfig :=
  mkConfig 5042002 (replicate 20 x36) 10000 10485760 (str "USDC") (str "2") (replicate 20 x77)
    (str "GatewayWalletBatched") (str "1") [] (str "https://rpc.testnet.arc.network") false.

