(* ===== verification/Ens.v ===== *)
(** * Finding a node by its name ([client/src-tauri/src/ens.rs])

    The client looks up a node in the name service of the chain: it encodes a call of
    the resolver for each text record of the name, and decodes the nested ABI values of
    the answer. The HTTP client with the JSON parser is the function [post]; whether
    log messages are formatted is [log_enabled]. *)

From Stdlib Require Import ZArith Lia.
From Stdlib Require Strings.String.
From stdpp Require Import base numbers list option.
From S2P Require Import Prelude RustText Utf8 Json Eip3009 Rlp PaymentProtocol Settlement Serialization.

Import Stdlib.Strings.String.StringSyntax.

(** ** Encoding *)

Definition uint256 (val : nat) : bytes := zeros 24 ++ to_be 8 (Z.of_nat val).

Definition ceil32 (n : nat) : nat := ((n + 31) / 32 * 32)%nat.

Definition pad32_vec (buf : bytes) : bytes :=
  let rem := (length buf mod 32)%nat in
  if bool_decide (rem = 0%nat) then buf else buf ++ zeros (32 - rem).

Definition dns_encode (name : bytes) : bytes :=
  concat ((fun label => of_u8 (Z.of_nat (length label)) :: label) <$> split_on (ch 46) name) ++ [x00].

Section Ens.
Context `{Eth : Ethereum} `{H : Hex}.

(** The labels from the right. *)
Definition namehash (name : bytes) : bytes :=
  if bool_decide (name = []) then zeros 32
  else foldl (fun node label => keccak256 (node ++ keccak256 label)) (zeros 32)
         (reverse (split_on (ch 46) name)).

(** [text_call]: [text(bytes32,string)]. *)
Definition text_call (name key : bytes) : bytes :=
  pad32_vec ((of_u8 <$> [89; 209; 212; 60]) ++ namehash name ++ uint256 64 ++ uint256 (length key) ++ key).

(** [calldata]: [resolve(bytes,bytes)]. *)
Definition resolve_call (name key : bytes) : bytes :=
  let dns_name := dns_encode name in
  let text_call := text_call name key in
  let dns_len := length dns_name in
  let dns_padded := ceil32 dns_len in
  let text_len := length text_call in
  let text_padded := ceil32 text_len in
  let first_offset := 64%nat in
  let second_offset := (first_offset + 32 + dns_padded)%nat in
  (of_u8 <$> [144; 97; 185; 35]) ++ uint256 first_offset ++ uint256 second_offset
  ++ uint256 dns_len ++ dns_name ++ zeros (dns_padded - dns_len)
  ++ uint256 text_len ++ text_call ++ zeros (text_padded - text_len).

Definition ENS_UNIVERSAL_RESOLVER : bytes := str "0xeeeeeeee14d718c2b47d9923deab1335e144eeee".

Definition eth_call_body (data_hex : bytes) : Value :=
  VObject [(str "jsonrpc", VString (str "2.0")); (str "method", VString (str "eth_call"));
           (str "params", VArray [VObject [(str "to", VString ENS_UNIVERSAL_RESOLVER);
                                           (str "data", VString data_hex)];
                                  VString (str "latest")]);
           (str "id", VNumber (str "1"))].

Definition resolve_body (name key : bytes) : Value := eth_call_body (hex0x (resolve_call name key)).

(** ** Decoding *)

(** The low 64 bits of a word. *)
Definition read_usize (b : bytes) : Z :=
  if bool_decide (length b < 32)%nat then 0 else from_be (sub b 24 32).

(** [&b[i..j]] for [usize] bounds. *)
Definition usize_slice (b : bytes) (i j : Z) : outcome bytes :=
  if (i <=? j) && (j <=? Z.of_nat (length b)) then Ret (sub b (Z.to_nat i) (Z.to_nat j)) else Panic.

(** One level: the data at the offset that the first word gives, [None] being the
    early returns with an empty string. *)
Definition read_dynamic (b : bytes) : outcome (option bytes) :=
  if bool_decide (length b < 64)%nat then Ret None
  else
    let len := Z.of_nat (length b) in
    let offset := read_usize (sub b 0 32) in
    if len <? add64 offset 32 then Ret None
    else
      let! word := usize_slice b offset (add64 offset 32) in
      let data_len := read_usize word in
      if (data_len =? 0) || (len <? add64 (add64 offset 32) data_len) then Ret None
      else
        let! data := usize_slice b (add64 offset 32) (add64 (add64 offset 32) data_len) in
        Ret (Some data).

Definition decode_resolve_text_result (b : bytes) : outcome (result bytes bytes) :=
  let! inner := read_dynamic b in
  match inner with
  | None => Ret (Ok [])
  | Some inner =>
      let! text := read_dynamic inner in
      match text with
      | None => Ret (Ok [])
      | Some text => Ret (Ok (from_utf8_lossy text))
      end
  end.

Context (post : Value -> result bytes Value).
Context (log_enabled : bool).

Definition get_ens_text (name key : bytes) : outcome (result bytes bytes) :=
  match post (resolve_body name key) with
  | Err e => Ret (Err e)
  | Ok resp =>
      match value_get (str "error") resp with
      | Some _ => Ret (Ok [])
      | None =>
          let result_hex := default (str "0x") (as_str (value_at (str "result") resp)) in
          let! _ := if log_enabled then str_slice result_hex 0 (Nat.min (length result_hex) 100) else Ret [] in
          if bool_decide (result_hex = str "0x") || bool_decide (length result_hex < 10)%nat then Ret (Ok [])
          else
            match hex_decode (default result_hex (strip_prefix (str "0x") result_hex)) with
            | None => Ret (Err (str "hex decode failed"))
            | Some b => decode_resolve_text_result b
            end
      end
  end.

Record VpnNodeInfo := mkNodeInfo {
  ens_name : bytes;
  is_human : bool;
  node_endpoint : bytes;
  node_http : bytes;
  node_public_key : bytes;
  node_metadata : bytes;
}.

(** [result.unwrap_or_else(|e| String::new())] *)
Definition record_of (name key : bytes) : outcome bytes :=
  let! r := get_ens_text name key in
  Ret (match r with Ok t => t | Err _ => [] end).

Definition resolve_vpn_node (name : bytes) : outcome (result bytes VpnNodeInfo) :=
  let! human := record_of name (str "vpn.ishuman") in
  let! public_key := record_of name (str "vpn.publickey") in
  let! endpoint := record_of name (str "vpn.endpoint") in
  let! http := record_of name (str "vpn.http") in
  let! metadata := record_of name (str "vpn.metadata") in
  if bool_decide (endpoint = []) && bool_decide (http = [])
  then Ret (Err (str "No VPN records found for " ++ name))
  else Ret (Ok (mkNodeInfo name (bool_decide (human = str "true") || bool_decide (human = str "1"))
                  endpoint http public_key metadata)).
End Ens.

(** ** The other side

    The ABI as the resolver reads calls and writes results. *)

Definition abi_dynamic (d : bytes) : bytes := uint256 (length d) ++ d ++ zeros (ceil32 (length d) - length d).

(** The result of [resolve]: bytes and the address of the resolver; in them the
    result of [text]. *)
Definition resolve_result (resolver text : bytes) : bytes :=
  uint256 64 ++ resolver ++ abi_dynamic (uint256 32 ++ abi_dynamic text).

(** Argument [i] of a call, of type [bytes] or [string]. *)
Definition abi_bytes_at (args : bytes) (i : nat) : option bytes :=
  let off := Z.to_nat (from_be (sub args (32 * i) (32 * i + 32))) in
  let len := Z.to_nat (from_be (sub args off (off + 32))) in
  if bool_decide (off + 32 + len <= length args)%nat then Some (sub args (off + 32) (off + 32 + len)) else None.

Definition read_resolve (d : bytes) : option (bytes * bytes) :=
  if bool_decide (take 4 d = of_u8 <$> [144; 97; 185; 35]) then
    dns ← abi_bytes_at (drop 4 d) 0; call ← abi_bytes_at (drop 4 d) 1; Some (dns, call)
  else None.

Definition read_text (d : bytes) : option (bytes * bytes) :=
  if bool_decide (take 4 d = of_u8 <$> [89; 209; 212; 60]) then
    key ← abi_bytes_at (drop 4 d) 1; Some (sub d 4 36, key)
  else None.

(** The labels of a name in wire format. *)
Fixpoint read_labels (fuel : nat) (d : bytes) : option (list bytes) :=
  match fuel, d with
  | S fuel, b :: d =>
      let n := Z.to_nat (u8 b) in
      if bool_decide (n = 0%nat) then (if bool_decide (d = []) then Some [] else None)
      else if bool_decide (n <= length d)%nat then
        ls ← read_labels fuel (drop n d); Some (take n d :: ls)
      else None
  | _, _ => None
  end.

Definition request_data (body : Value) : option bytes :=
  params ← as_array (value_at (str "params") body); call ← head params; as_str (value_at (str "data") call).

(** The labels, node and key that a request asks for. *)
Definition read_request `{H : Hex} (body : Value) : option (list bytes * bytes * bytes) :=
  data ← request_data body;
  d ← read_hex0x data;
  '(dns, text) ← read_resolve d;
  labels ← read_labels (length dns) dns;
  '(node, key) ← read_text text;
  Some (labels, node, key).

(** A node of the chain with the records of the name service. *)
Definition honest `{H : Hex} (records : list bytes -> bytes -> bytes -> bytes) (resolver : bytes) (body : Value)
    : result bytes Value :=
  match read_request body with
  | Some (labels, node, key) =>
      Ok (VObject [(str "result", VString (hex0x (resolve_result resolver (records labels node key))))])
  | None => Ok (VObject [(str "error", VString (str "execution reverted"))])
  end.

(** ** Lemmas *)

Lemma length_uint256 n : length (uint256 n) = 32%nat.
Proof. unfold uint256. len. Qed.

Definition fits (n : nat) : Prop := Z.of_nat n < 2 ^ 62.

Lemma from_be_uint256 n : fits n -> from_be (uint256 n) = Z.of_nat n.
Proof.
  intros Hn. unfold uint256. rewrite from_be_zeros, from_to_be; [done|].
  split; [lia|]. eapply Z.lt_trans; [exact Hn|reflexivity].
Qed.

Lemma read_usize_uint256 n : fits n -> read_usize (uint256 n) = Z.of_nat n.
Proof.
  intros Hn. unfold read_usize. rewrite bool_decide_eq_false_2 by (rewrite length_uint256; lia).
  unfold uint256, sub. rewrite drop_app_length', take_ge by len.
  rewrite from_to_be; [done|]. split; [lia|]. eapply Z.lt_trans; [exact Hn|reflexivity].
Qed.

(** A part of a string, by what is before it. *)
Lemma sub_middle (a b c : bytes) i j :
  i = length a -> j = (length a + length b)%nat -> sub (a ++ b ++ c) i j = b.
Proof.
  intros -> ->. unfold sub. rewrite drop_app_length. replace (_ + _ - _)%nat with (length b) by lia.
  apply take_app_length.
Qed.

Lemma add64_fits n m : fits (n + m) -> add64 (Z.of_nat n) (Z.of_nat m) = Z.of_nat (n + m).
Proof.
  intros Hn. rewrite add64_small; [lia|]. unfold fits in Hn. split; [lia|]. rewrite <- Nat2Z.inj_add.
  eapply Z.lt_trans; [exact Hn|reflexivity].
Qed.

Lemma usize_slice_middle (a b c : bytes) i j :
  i = Z.of_nat (length a) -> j = Z.of_nat (length a + length b) -> usize_slice (a ++ b ++ c) i j = Ret b.
Proof.
  intros -> ->. unfold usize_slice. rewrite (proj2 (Z.leb_le _ _)) by lia.
  rewrite (proj2 (Z.leb_le _ _)) by (rewrite !length_app; lia). cbn [andb]. rewrite !Nat2Z.id.
  by rewrite sub_middle.
Qed.

(** The decoder on a well-formed value: a head that begins with its own length, and
    the data. *)
Lemma read_dynamic_ok (rest d : bytes) :
  fits (64 + length rest + 2 * length d) ->
  read_dynamic (uint256 (32 + length rest) ++ rest ++ abi_dynamic d)
  = Ret (if bool_decide (d = []) then None else Some d).
Proof.
  intros Hf. unfold fits in *. set (off := (32 + length rest)%nat). unfold read_dynamic, abi_dynamic.
  set (pad := zeros (ceil32 (length d) - length d)).
  set (b := uint256 off ++ rest ++ uint256 (length d) ++ d ++ pad).
  assert (length b = 64 + length rest + length d + length pad)%nat as Hl
    by (unfold b; rewrite !length_app, !length_uint256; lia).
  rewrite bool_decide_eq_false_2 by lia. assert (sub b 0 32 = uint256 off) as -> by (apply sub_app_head; by rewrite length_uint256).
  rewrite read_usize_uint256 by (unfold fits, off; lia).
  replace (add64 (Z.of_nat off) 32) with (Z.of_nat (off + 32)) by (symmetry; apply (add64_fits off 32); unfold fits, off; lia).
  rewrite (proj2 (Z.ltb_ge _ _)) by (unfold off; lia).
  assert (b = (uint256 off ++ rest) ++ uint256 (length d) ++ d ++ pad) as Hb by (unfold b; by rewrite <- app_assoc).
  rewrite Hb at 1. rewrite usize_slice_middle
    by (rewrite ?length_app, !length_uint256; unfold off; lia).
  cbn [outcome_bind]. rewrite read_usize_uint256 by (unfold fits; lia).
  rewrite add64_fits by (unfold fits, off; lia).
  destruct d as [|x d]; [done|]. rewrite (proj2 (Z.eqb_neq _ 0)) by (cbn; lia). cbn [orb].
  rewrite (proj2 (Z.ltb_ge _ _)) by (unfold off; lia). rewrite bool_decide_eq_false_2 by done.
  assert (b = (uint256 off ++ rest ++ uint256 (length (x :: d))) ++ (x :: d) ++ pad) as Hb2
    by (unfold b; by rewrite <- !app_assoc).
  rewrite Hb2 at 1. rewrite usize_slice_middle by (rewrite ?length_app, !length_uint256; unfold off; lia).
  done.
Qed.

Lemma decode_result resolver text :
  length resolver = 32%nat -> Z.of_nat (length text) < 2 ^ 32 -> is_utf8 text = true ->
  decode_resolve_text_result (resolve_result resolver text) = Ret (Ok text).
Proof.
  intros Hr Ht Hu. unfold decode_resolve_text_result, resolve_result.
  assert (length (abi_dynamic text) <= 64 + length text)%nat as Hl.
  { unfold abi_dynamic, ceil32. rewrite !length_app, length_uint256, length_zeros.
    pose proof (Nat.div_mod_eq (length text + 31) 32). pose proof (Nat.mod_upper_bound (length text + 31) 32). lia. }
  pose proof (read_dynamic_ok resolver (uint256 32 ++ abi_dynamic text)) as Houter. rewrite Hr in Houter.
  change (32 + 32)%nat with 64%nat in Houter.
  rewrite Houter by (unfold fits; rewrite length_app, length_uint256; lia).
  rewrite bool_decide_eq_false_2 by (intros He; apply (f_equal length) in He; rewrite length_app, length_uint256 in He; cbn in He; lia).
  cbn [outcome_bind]. pose proof (read_dynamic_ok [] text) as Hinner. cbn [length app] in Hinner.
  change (32 + 0)%nat with 32%nat in Hinner.
  rewrite Hinner by (unfold fits; lia). cbn [outcome_bind].
  case_bool_decide as He; [by rewrite He|]. by rewrite lossy_valid.
Qed.

(** An argument that its head word points to. *)
Lemma abi_bytes_at_ok (pre d post : bytes) i :
  fits (length pre) -> fits (length d) -> sub (pre ++ uint256 (length d) ++ d ++ post) (32 * i) (32 * i + 32) = uint256 (length pre) ->
  abi_bytes_at (pre ++ uint256 (length d) ++ d ++ post) i = Some d.
Proof.
  intros Hp Hd Hw. unfold abi_bytes_at. rewrite Hw, from_be_uint256, Nat2Z.id by done.
  rewrite (sub_middle pre (uint256 (length d))) by (rewrite ?length_uint256; done).
  rewrite from_be_uint256, Nat2Z.id by done.
  rewrite bool_decide_eq_true_2 by (rewrite !length_app, length_uint256; lia). f_equal.
  rewrite (app_assoc pre). apply sub_middle; rewrite length_app, length_uint256; lia.
Qed.

Lemma ceil32_ge n : (n <= ceil32 n <= n + 31)%nat.
Proof. unfold ceil32. pose proof (Nat.div_mod_eq (n + 31) 32). pose proof (Nat.mod_upper_bound (n + 31) 32). lia. Qed.

Section Requests.
Context `{Eth : Ethereum} `{EL : !EthereumLaws Eth} `{H : Hex} `{HL : !HexLaws H}.

Lemma length_namehash name : length (namehash name) = 32%nat.
Proof.
  unfold namehash. case_bool_decide; [apply length_zeros|].
  assert (forall ls node, length node = 32%nat ->
    length (foldl (fun node label => keccak256 (node ++ keccak256 label)) node ls) = 32%nat) as Hgen.
  { induction ls as [|l ls IH]; intros node Hn; [done|]. apply IH, keccak256_length. }
  apply Hgen, length_zeros.
Qed.

Lemma pad32_app buf : exists z, pad32_vec buf = buf ++ z /\ (length z < 32)%nat.
Proof.
  unfold pad32_vec. case_bool_decide; [exists []; by rewrite app_nil_r; split; [|cbn; lia]|].
  eexists. split; [done|]. rewrite length_zeros. lia.
Qed.

Lemma read_text_ok name key :
  fits (length key) -> read_text (text_call name key) = Some (namehash name, key).
Proof.
  intros Hk. unfold text_call. set (sel := of_u8 <$> [89; 209; 212; 60]).
  destruct (pad32_app (sel ++ namehash name ++ uint256 64 ++ uint256 (length key) ++ key)) as (z & -> & _).
  unfold read_text. rewrite <- !app_assoc. rewrite (take_app_length' sel) by done. rewrite bool_decide_eq_true_2 by done.
  rewrite (drop_app_length' sel) by done.
  pose proof (length_namehash name) as Hn.
  pose proof (abi_bytes_at_ok (namehash name ++ uint256 64) key z 1) as Hat. rewrite <- !app_assoc in Hat.
  rewrite Hat.
  - cbn [mbind option_bind]. f_equal. f_equal. apply sub_middle; [done|]. by rewrite Hn.
  - unfold fits. by rewrite length_app, Hn, length_uint256.
  - done.
  - rewrite length_app, Hn, length_uint256. change (32 + 32)%nat with 64%nat.
    apply sub_middle; [by rewrite Hn|]. by rewrite Hn, length_uint256.
Qed.

Lemma read_resolve_ok name key :
  fits (256 + 2 * length (dns_encode name)) -> fits (length (text_call name key)) ->
  read_resolve (resolve_call name key) = Some (dns_encode name, text_call name key).
Proof.
  intros Hd Ht. unfold resolve_call, read_resolve. set (dns := dns_encode name) in *. set (call := text_call name key) in *.
  set (sel := of_u8 <$> [144; 97; 185; 35]).
  rewrite (take_app_length' sel) by done. rewrite bool_decide_eq_true_2, (drop_app_length' sel) by done.
  pose proof (ceil32_ge (length dns)) as Hc. unfold fits in *.
  set (second := (64 + 32 + ceil32 (length dns))%nat).
  set (pad1 := zeros (ceil32 (length dns) - length dns)). set (pad2 := zeros (ceil32 (length call) - length call)).
  pose proof (abi_bytes_at_ok (uint256 64 ++ uint256 second) dns (pad1 ++ uint256 (length call) ++ call ++ pad2) 0) as H0.
  pose proof (abi_bytes_at_ok (uint256 64 ++ uint256 second ++ uint256 (length dns) ++ dns ++ pad1) call pad2 1) as H1.
  assert (length (uint256 64 ++ uint256 second) = 64%nat) as L0 by (by rewrite length_app, !length_uint256).
  assert (length (uint256 64 ++ uint256 second ++ uint256 (length dns) ++ dns ++ pad1) = second) as L1.
  { rewrite !length_app, !length_uint256. unfold pad1, second. rewrite length_zeros. lia. }
  rewrite L0 in H0. rewrite L1 in H1.
  repeat rewrite <- app_assoc in H0. repeat rewrite <- app_assoc in H1.
  rewrite H0 by (unfold fits; try lia; apply sub_app_head; by rewrite length_uint256). cbn [mbind option_bind].
  rewrite H1; [done|unfold fits, second; lia|done|].
  apply sub_middle; by rewrite !length_uint256.
Qed.

Definition label_ok (l : bytes) : Prop := (0 < length l < 256)%nat.

Lemma read_labels_ok ls fuel :
  Forall label_ok ls -> (length ls < fuel)%nat ->
  read_labels fuel (concat ((fun label => of_u8 (Z.of_nat (length label)) :: label) <$> ls) ++ [x00]) = Some ls.
Proof.
  intros Hls. revert fuel. induction Hls as [|l ls [Hl1 Hl2] _ IH]; intros [|fuel] Hf; try (cbn in Hf; lia); [done|].
  cbn [fmap list_fmap concat app read_labels]. rewrite u8_of_u8, Nat2Z.id by lia.
  rewrite bool_decide_eq_false_2 by lia. rewrite <- app_assoc, bool_decide_eq_true_2 by (rewrite length_app; lia).
  rewrite drop_app_length, take_app_length. change (list_fmap _ _ ?f ls) with (f <$> ls).
  by rewrite IH by (cbn in Hf; lia).
Qed.

Lemma length_dns ls :
  Forall label_ok ls ->
  (length ls <= length (concat ((fun label : bytes => of_u8 (Z.of_nat (length label)) :: label) <$> ls)))%nat.
Proof. induction 1 as [|l ls Hl _ IH]; [done|]. cbn. rewrite length_app. cbn in IH. lia. Qed.

Lemma split_length c s : (length (concat (split_on c s)) + length (split_on c s) = length s + 1)%nat.
Proof.
  induction s as [|b s IH]; [done|]. cbn [split_on].
  destruct (split_on c s) as [|p ps]; [cbn in *; lia|]. cbn [concat length] in IH. rewrite length_app in IH.
  destruct (bool_decide (b = c)); cbn [concat length app]; rewrite length_app; cbn [length]; lia.
Qed.

Lemma length_dns_encode name : length (dns_encode name) = (length name + 2)%nat.
Proof.
  unfold dns_encode. rewrite length_app. cbn [length]. pose proof (split_length (ch 46) name) as Hs.
  assert (forall ls : list bytes, length (concat ((fun l : bytes => of_u8 (Z.of_nat (length l)) :: l) <$> ls))
            = length (concat ls) + length ls)%nat as Hc.
  { induction ls as [|l ls IH]; [done|]. csimpl. cbn [concat app length]. rewrite !length_app, IH. lia. }
  rewrite Hc. lia.
Qed.

Lemma length_text_call name key : (length (text_call name key) < 132 + length key)%nat.
Proof.
  unfold text_call. match goal with |- context [pad32_vec ?b] => destruct (pad32_app b) as (z & -> & Hz) end.
  rewrite !length_app, length_namehash, !length_uint256. cbn [length fmap list_fmap]. lia.
Qed.

Lemma request_data_ok d : request_data (eth_call_body d) = Some d.
Proof. reflexivity. Qed.

Lemma bind_step {A B} (m : option A) (k : A -> option B) a r : m = Some a -> k a = r -> m ≫= k = r.
Proof. by intros -> <-. Qed.

Lemma read_request_ok name key :
  Forall label_ok (split_on (ch 46) name) -> Z.of_nat (length name) < 2 ^ 32 -> Z.of_nat (length key) < 2 ^ 32 ->
  read_request (resolve_body name key) = Some (split_on (ch 46) name, namehash name, key).
Proof.
  intros Hls Hn Hk. pose proof (length_dns_encode name) as Hd. pose proof (length_text_call name key) as Ht.
  unfold read_request. eapply bind_step; [apply request_data_ok|]. eapply bind_step; [apply read_hex0x_ok|].
  eapply bind_step; [apply read_resolve_ok; unfold fits; lia|]. cbv beta iota.
  eapply bind_step; [|eapply bind_step; [apply read_text_ok; unfold fits; lia|reflexivity]].
  apply read_labels_ok; [done|]. unfold dns_encode. rewrite length_app. pose proof (length_dns _ Hls). cbn [length]. lia.
Qed.

(** What the client makes of a result. *)
Lemma get_text_result post log name key b :
  post (resolve_body name key) = Ok (VObject [(str "result", VString (hex0x b))]) -> (4 <= length b)%nat ->
  get_ens_text post log name key = decode_resolve_text_result b.
Proof.
  intros Hp Hb. unfold get_ens_text. rewrite Hp.
  assert (forall v, value_get (str "error") (VObject [(str "result", v)]) = None) as -> by reflexivity.
  assert (forall v, as_str (value_at (str "result") (VObject [(str "result", VString v)])) = Some v) as -> by reflexivity.
  cbn [default from_option id]. pose proof (hex_encode_length b) as Hl.
  assert (length (hex0x b) = 2 + 2 * length b)%nat as Hlen by (unfold hex0x; rewrite length_app, Hl; reflexivity).
  assert (Forall is_ascii (hex0x b)) as Ha.
  { unfold hex0x. apply Forall_app. split; [by repeat constructor|]. apply hex_encode_ascii. }
  assert ((if log then str_slice (hex0x b) 0 (Nat.min (length (hex0x b)) 100) else Ret []) <> Panic) as Hlog.
  { destruct log; [|done]. by rewrite ascii_slice by (done || lia). }
  destruct (if log then _ else _); [|done]. cbn [outcome_bind].
  assert (hex0x b <> str "0x") as Hne by (intros He; rewrite He in Hlen; cbn in Hlen; lia).
  rewrite (bool_decide_eq_false_2 _ Hne).
  rewrite bool_decide_eq_false_2 by (rewrite Hlen; lia).
  cbn [orb]. assert (strip_prefix (str "0x") (hex0x b) = Some (hex_encode b)) as ->.
  { unfold hex0x, strip_prefix. by rewrite take_app_length, bool_decide_eq_true_2, drop_app_length. }
  cbn [default from_option id]. by rewrite hex_decode_encode.
Qed.
End Requests.

(** ** Correctness *)

(** Only the records of the name are asked for. *)
Lemma resolve_reads `{Eth : Ethereum} `{EL : !EthereumLaws Eth} `{H : Hex} `{HL : !HexLaws H}
    (records : list bytes -> bytes -> bytes -> bytes) (resolver name : bytes) (log_enabled : bool)
    (Hlabels : Forall label_ok (split_on (ch 46) name)) (Hname : Z.of_nat (length name) < 2 ^ 32)
    (Hresolver : length resolver = 32%nat)
    (text := records (split_on (ch 46) name) (namehash name))
    (Hrecords : forall key, is_utf8 (text key) = true /\ Z.of_nat (length (text key)) < 2 ^ 32) :
  resolve_vpn_node (honest records resolver) log_enabled name
  = Ret (if bool_decide (text (str "vpn.endpoint") = []) && bool_decide (text (str "vpn.http") = [])
         then Err (str "No VPN records found for " ++ name)
         else Ok (mkNodeInfo name
                    (bool_decide (text (str "vpn.ishuman") = str "true") || bool_decide (text (str "vpn.ishuman") = str "1"))
                    (text (str "vpn.endpoint")) (text (str "vpn.http")) (text (str "vpn.publickey")) (text (str "vpn.metadata")))).
Proof.
  assert (forall key, Z.of_nat (length key) < 2 ^ 32 ->
    record_of (honest records resolver) log_enabled name key
    = Ret (text key)) as Hget.
  { intros key Hk. destruct (Hrecords key) as [Hu Hl].
    unfold record_of. erewrite get_text_result.
    - rewrite decode_result by done. done.
    - unfold honest. by rewrite read_request_ok.
    - unfold resolve_result. rewrite length_app, length_uint256. lia. }
  unfold resolve_vpn_node. rewrite !Hget by reflexivity. cbn [outcome_bind]. by destruct (bool_decide _ && bool_decide _).
Qed.

(** C37. Looking up a node finds its records: against a node of the chain that decodes
    the request by the rules of the ABI and answers with the encoded text record, every
    name with labels of 1 to 255 bytes resolves to exactly its five records, and to an
    error when it has neither an endpoint nor an HTTP address. *)
Theorem resolve_reads_records `{Eth : Ethereum} `{EL : !EthereumLaws Eth} `{H : Hex} `{HL : !HexLaws H}
    (records : list bytes -> bytes -> bytes -> bytes) (resolver name : bytes) (log_enabled : bool)
    (Hlabels : Forall label_ok (split_on (ch 46) name)) (Hname : Z.of_nat (length name) < 2 ^ 32)
    (Hresolver : length resolver = 32%nat)
    (Hrecords : forall ls node key, is_utf8 (records ls node key) = true
                                    /\ Z.of_nat (length (records ls node key)) < 2 ^ 32) :
  let text key := records (split_on (ch 46) name) (namehash name) key in
  resolve_vpn_node (honest records resolver) log_enabled name
  = Ret (if bool_decide (text (str "vpn.endpoint") = []) && bool_decide (text (str "vpn.http") = [])
         then Err (str "No VPN records found for " ++ name)
         else Ok (mkNodeInfo name
                    (bool_decide (text (str "vpn.ishuman") = str "true") || bool_decide (text (str "vpn.ishuman") = str "1"))
                    (text (str "vpn.endpoint")) (text (str "vpn.http")) (text (str "vpn.publickey")) (text (str "vpn.metadata")))).
Proof. intros text. apply resolve_reads; auto. Qed.

(** A hostile answer crashes the client: a result whose first word is within 32 of
    the largest [usize] passes the bounds check, since the sum wraps, and the slice
    that follows panics, whatever comes after it. *)
Theorem hostile_result_panics `{Eth : Ethereum} `{H : Hex} `{HL : !HexLaws H}
    (name key rest : bytes) (log_enabled : bool) (offset : Z)
    (Hoffset : 2 ^ 64 - 32 <= offset < 2 ^ 64) (Hrest : (32 <= length rest)%nat) :
  get_ens_text (fun _ => Ok (VObject [(str "result", VString (hex0x (zeros 24 ++ to_be 8 offset ++ rest)))]))
    log_enabled name key = Panic.
Proof.
  erewrite get_text_result; [|reflexivity|rewrite !length_app, length_to_be; lia].
  unfold decode_resolve_text_result, read_dynamic. set (b := zeros 24 ++ to_be 8 offset ++ rest).
  assert (length b = 32 + length rest)%nat as Hl by (unfold b; rewrite !length_app, length_zeros, length_to_be; lia).
  rewrite bool_decide_eq_false_2 by lia.
  assert (sub b 0 32 = zeros 24 ++ to_be 8 offset) as ->.
  { unfold b. rewrite app_assoc. apply sub_app_head. by rewrite length_app, length_zeros, length_to_be. }
  assert (read_usize (zeros 24 ++ to_be 8 offset) = offset) as ->.
  { unfold read_usize. rewrite bool_decide_eq_false_2 by (rewrite length_app, length_zeros, length_to_be; lia).
    unfold sub. rewrite drop_app_length', take_ge by len. rewrite from_to_be; [done|]. split; [|apply Hoffset].
    eapply Z.le_trans; [|apply Hoffset]. by vm_compute. }
  assert (add64 offset 32 = offset - (2 ^ 64 - 32)) as Hadd.
  { unfold add64, wrap. symmetry. apply (Z.mod_unique _ _ 1); lia. }
  rewrite Hadd, (proj2 (Z.ltb_ge _ _)) by lia. unfold usize_slice.
  by rewrite (proj2 (Z.leb_gt offset _)) by lia.
Qed.

(** ** Examples *)

#[local] Existing Instance toy_ethereum.
#[local] Existing Instance toy_ethereum_laws.
#[local] Existing Instance toy_hex.
#[local] Existing Instance toy_hex_laws.

Definition example_records (ls : list bytes) (_ key : bytes) : bytes :=
  if bool_decide (ls = [str "node"; str "eth"] /\ key = str "vpn.endpoint") then str "203.0.113.1:51820" else [].

Lemma resolve_reads_records_witness :
  resolve_vpn_node (honest example_records (zeros 32)) true (str "node.eth")
  = Ret (Ok (mkNodeInfo (str "node.eth") false (str "203.0.113.1:51820") [] [] [])).
Proof.
  refine (resolve_reads_records example_records (zeros 32) (str "node.eth") true _ _ _ _).
  - repeat apply Forall_cons_2; try apply Forall_nil_2; split; cbn; lia.
  - reflexivity.
  - reflexivity.
  - intros ls node key. unfold example_records. by case_bool_decide.
Defined.

Lemma hostile_result_panics_witness :
  get_ens_text (fun _ => Ok (VObject [(str "result", VString (hex0x (zeros 24 ++ to_be 8 (2 ^ 64 - 1) ++ zeros 32)))]))
    false (str "node.eth") (str "vpn.http") = Panic.
Proof.
  refine (hostile_result_panics (str "node.eth") (str "vpn.http") (zeros 32) false (2 ^ 64 - 1) _ _).
  - split; [by vm_compute|reflexivity].
  - rewrite length_zeros. lia.
Defined.
