(* ===== verification/Contracts.v ===== *)
(** * The contracts of the name service and of the attestations ([contracts/src])

    The records of a node are texts of the public resolver ([resolvers/PublicResolver.sol]
    with [ResolverBase.sol], [profiles/TextResolver.sol] and [Multicallable.sol]), which
    asks the registry ([registry/ENSRegistry.sol]) who may change them; attestations of
    nodes are kept by [tee/TEEAttestationRegistry.sol]. A transaction that reverts changes
    nothing. The owners that the name wrapper reports and the check of the origin by the
    precompile come with a transaction and are arbitrary. Addresses are numbers, nodes and
    labels bytes. *)

From Stdlib Require Import ZArith Lia.
From Stdlib Require Strings.String.
From stdpp Require Import base numbers list option gmap.
From S2P Require Import Prelude RustText Utf8 Eip3009 Serialization Ens.

Import Stdlib.Strings.String.StringSyntax.

Local Open Scope Z_scope.

(** ** The registry *)

Record EnsRecord := mkEnsRecord { rec_owner : Z; rec_resolver : Z; rec_ttl : Z }.

Definition no_record : EnsRecord := mkEnsRecord 0 0 0.

Record Registry := mkRegistry { ens_records : gmap bytes EnsRecord; ens_operators : gset (Z * Z) }.

Definition ens_record (r : Registry) (node : bytes) : EnsRecord := default no_record (ens_records r !! node).

(** [modifier authorised] *)
Definition ens_authorised (r : Registry) (sender : Z) (node : bytes) : bool :=
  let owner := rec_owner (ens_record r node) in
  bool_decide (owner = sender) || bool_decide ((owner, sender) ∈ ens_operators r).

Definition registry_new (sender : Z) : Registry := mkRegistry {[zeros 32 := mkEnsRecord sender 0 0]} ∅.

Definition put_record (r : Registry) (node : bytes) (e : EnsRecord) : Registry :=
  mkRegistry (<[node := e]> (ens_records r)) (ens_operators r).

Definition _setOwner (r : Registry) (node : bytes) (owner : Z) : Registry :=
  let e := ens_record r node in put_record r node (mkEnsRecord owner (rec_resolver e) (rec_ttl e)).

Definition _setResolverAndTTL (r : Registry) (node : bytes) (resolver ttl : Z) : Registry :=
  let e := ens_record r node in
  let r := if bool_decide (resolver <> rec_resolver e) then put_record r node (mkEnsRecord (rec_owner e) resolver (rec_ttl e)) else r in
  let e := ens_record r node in
  if bool_decide (ttl <> rec_ttl e) then put_record r node (mkEnsRecord (rec_owner e) (rec_resolver e) ttl) else r.

Definition setOwner (sender : Z) (node : bytes) (owner : Z) (r : Registry) : option Registry :=
  if ens_authorised r sender node then Some (_setOwner r node owner) else None.

Definition setRecord (sender : Z) (node : bytes) (owner resolver ttl : Z) (r : Registry) : option Registry :=
  match setOwner sender node owner r with
  | Some r => Some (_setResolverAndTTL r node resolver ttl)
  | None => None
  end.

Definition setResolver (sender : Z) (node : bytes) (resolver : Z) (r : Registry) : option Registry :=
  if ens_authorised r sender node
  then let e := ens_record r node in Some (put_record r node (mkEnsRecord (rec_owner e) resolver (rec_ttl e)))
  else None.

Definition setTTL (sender : Z) (node : bytes) (ttl : Z) (r : Registry) : option Registry :=
  if ens_authorised r sender node
  then let e := ens_record r node in Some (put_record r node (mkEnsRecord (rec_owner e) (rec_resolver e) ttl))
  else None.

Definition ens_setApprovalForAll (sender operator : Z) (approved : bool) (r : Registry) : Registry :=
  mkRegistry (ens_records r)
    (if approved then {[(sender, operator)]} ∪ ens_operators r else ens_operators r ∖ {[(sender, operator)]}).

(** [owner]: the registry itself counts as nobody. *)
Definition ens_owner (this : Z) (r : Registry) (node : bytes) : Z :=
  let addr := rec_owner (ens_record r node) in if bool_decide (addr = this) then 0 else addr.

Definition ens_resolver (r : Registry) (node : bytes) : Z := rec_resolver (ens_record r node).
Definition ens_ttl (r : Registry) (node : bytes) : Z := rec_ttl (ens_record r node).
Definition recordExists (r : Registry) (node : bytes) : bool := bool_decide (rec_owner (ens_record r node) <> 0).
Definition ens_isApprovedForAll (r : Registry) (owner operator : Z) : bool := bool_decide ((owner, operator) ∈ ens_operators r).

Section Subnodes.
Context `{Eth : Ethereum}.

Definition subnode (node label : bytes) : bytes := keccak256 (node ++ label).

Definition setSubnodeOwner (sender : Z) (node label : bytes) (owner : Z) (r : Registry) : option (bytes * Registry) :=
  if ens_authorised r sender node then Some (subnode node label, _setOwner r (subnode node label) owner) else None.

Definition setSubnodeRecord (sender : Z) (node label : bytes) (owner resolver ttl : Z) (r : Registry) : option Registry :=
  match setSubnodeOwner sender node label owner r with
  | Some (sub, r) => Some (_setResolverAndTTL r sub resolver ttl)
  | None => None
  end.

Inductive EnsCall :=
| CSetOwner (node : bytes) (owner : Z)
| CSetRecord (node : bytes) (owner resolver ttl : Z)
| CSetResolver (node : bytes) (resolver : Z)
| CSetTTL (node : bytes) (ttl : Z)
| CSetSubnodeOwner (node label : bytes) (owner : Z)
| CSetSubnodeRecord (node label : bytes) (owner resolver ttl : Z)
| CEnsApproval (operator : Z) (approved : bool).

Definition ens_call (sender : Z) (c : EnsCall) (r : Registry) : option Registry :=
  match c with
  | CSetOwner node owner => setOwner sender node owner r
  | CSetRecord node owner resolver ttl => setRecord sender node owner resolver ttl r
  | CSetResolver node resolver => setResolver sender node resolver r
  | CSetTTL node ttl => setTTL sender node ttl r
  | CSetSubnodeOwner node label owner => snd <$> setSubnodeOwner sender node label owner r
  | CSetSubnodeRecord node label owner resolver ttl => setSubnodeRecord sender node label owner resolver ttl r
  | CEnsApproval operator approved => Some (ens_setApprovalForAll sender operator approved r)
  end.
End Subnodes.

(** ** The resolver *)

(** [recordVersions], [versionable_texts], [_operatorApprovals] and [_tokenApprovals]. *)
Record PublicResolver := mkResolver {
  record_versions : gmap bytes Z;
  versionable_texts : gmap (Z * bytes * bytes) bytes;
  operator_approvals : gset (Z * Z);
  token_approvals : gset (Z * bytes * Z);
}.

Definition resolver_new : PublicResolver := mkResolver ∅ ∅ ∅ ∅.

Definition record_version (p : PublicResolver) (node : bytes) : Z := default 0 (record_versions p !! node).

Definition text (p : PublicResolver) (node key : bytes) : bytes :=
  default [] (versionable_texts p !! (record_version p node, node, key)).

(** The addresses that are set when the contracts are deployed. *)
Record Deployment := mkDeployment { ens_address : Z; name_wrapper : Z; trusted_eth_controller : Z; trusted_reverse_registrar : Z }.

(** What a call sees: its sender, the registry, and [nameWrapper.ownerOf]. *)
Record Msg := mkMsg { sender : Z; msg_ens : Registry; wrapper_owner : bytes -> Z }.

Definition node_owner (dep : Deployment) (m : Msg) (node : bytes) : Z :=
  let owner := ens_owner (ens_address dep) (msg_ens m) node in
  if bool_decide (owner = name_wrapper dep) then wrapper_owner m node else owner.

Definition isAuthorised (dep : Deployment) (m : Msg) (p : PublicResolver) (node : bytes) : bool :=
  if bool_decide (sender m = trusted_eth_controller dep) || bool_decide (sender m = trusted_reverse_registrar dep) then true
  else
    let owner := node_owner dep m node in
    bool_decide (owner = sender m) || bool_decide ((owner, sender m) ∈ operator_approvals p)
    || bool_decide ((owner, node, sender m) ∈ token_approvals p).

Inductive ResolverCall :=
| CSetText (node key value : bytes)
| CClearRecords (node : bytes)
| CApprovalForAll (operator : Z) (approved : bool)
| CApprove (node : bytes) (delegate : Z) (approved : bool)
| CMulticall (calls : list ResolverCall)
| CMulticallWithNodeCheck (nodehash : bytes) (calls : list ResolverCall).

Definition setText (dep : Deployment) (m : Msg) (node key value : bytes) (p : PublicResolver) : option PublicResolver :=
  if isAuthorised dep m p node
  then Some (mkResolver (record_versions p) (<[(record_version p node, node, key) := value]> (versionable_texts p))
               (operator_approvals p) (token_approvals p))
  else None.

(** The version is a [uint64] with checked arithmetic. *)
Definition clearRecords (dep : Deployment) (m : Msg) (node : bytes) (p : PublicResolver) : option PublicResolver :=
  if isAuthorised dep m p node
  then if record_version p node <? 2 ^ 64 - 1
       then Some (mkResolver (<[node := record_version p node + 1]> (record_versions p)) (versionable_texts p)
                    (operator_approvals p) (token_approvals p))
       else None
  else None.

Definition member {A} `{Countable A} (x : A) (present : bool) (s : gset A) : gset A := if present then {[x]} ∪ s else s ∖ {[x]}.

Definition setApprovalForAll (m : Msg) (operator : Z) (approved : bool) (p : PublicResolver) : option PublicResolver :=
  if bool_decide (sender m <> operator)
  then Some (mkResolver (record_versions p) (versionable_texts p) (member (sender m, operator) approved (operator_approvals p)) (token_approvals p))
  else None.

Definition approve (m : Msg) (node : bytes) (delegate : Z) (approved : bool) (p : PublicResolver) : option PublicResolver :=
  if bool_decide (sender m <> delegate)
  then Some (mkResolver (record_versions p) (versionable_texts p) (operator_approvals p) (member (sender m, node, delegate) approved (token_approvals p)))
  else None.

(** The first argument of an encoded call; that of [multicall] is an offset. *)
Definition first_word (c : ResolverCall) : bytes :=
  match c with
  | CSetText node _ _ | CClearRecords node | CApprove node _ _ | CMulticallWithNodeCheck node _ => node
  | CApprovalForAll operator _ => to_be 32 operator
  | CMulticall _ => to_be 32 32
  end.

(** [_multicall] delegates each call to the contract itself, with the same sender; all of
    them succeed or nothing is changed. *)
Definition matches_node (nodehash : bytes) (c : ResolverCall) : bool :=
  bool_decide (nodehash = zeros 32) || bool_decide (first_word c = nodehash).

Fixpoint resolver_call (dep : Deployment) (m : Msg) (c : ResolverCall) (p : PublicResolver) : option PublicResolver :=
  let fix _multicall (nodehash : bytes) (calls : list ResolverCall) (p : PublicResolver) : option PublicResolver :=
    match calls with
    | [] => Some p
    | c :: calls =>
        if matches_node nodehash c
        then match resolver_call dep m c p with Some p => _multicall nodehash calls p | None => None end
        else None
    end in
  match c with
  | CSetText node key value => setText dep m node key value p
  | CClearRecords node => clearRecords dep m node p
  | CApprovalForAll operator approved => setApprovalForAll m operator approved p
  | CApprove node delegate approved => approve m node delegate approved p
  | CMulticall calls => _multicall (zeros 32) calls p
  | CMulticallWithNodeCheck nodehash calls => _multicall nodehash calls p
  end.

(** ** Attestations *)

Record Attestation := mkAttestation { attester : Z; att_label : bytes; att_timestamp : Z }.

Record TeeRegistry := mkTee {
  rofl_app_id : bytes;
  attestations : gmap bytes Attestation;
  subname_nodes : list bytes;
  tee_registered : gset bytes;
}.

Definition tee_new (app : bytes) : TeeRegistry := mkTee app ∅ [] ∅.

(** [authorized_origin] is what [Subcall.roflEnsureAuthorizedOrigin] checks. *)
Definition tee_register (authorized_origin : bytes -> bool) (sender timestamp : Z) (node label : bytes) (t : TeeRegistry) : option TeeRegistry :=
  if authorized_origin (rofl_app_id t)
  then
    let atts := <[node := mkAttestation sender label timestamp]> (attestations t) in
    Some (if bool_decide (node ∈ tee_registered t) then mkTee (rofl_app_id t) atts (subname_nodes t) (tee_registered t)
          else mkTee (rofl_app_id t) atts (subname_nodes t ++ [node]) ({[node]} ∪ tee_registered t))
  else None.

Definition getAttestation (t : TeeRegistry) (node : bytes) : Attestation := default (mkAttestation 0 [] 0) (attestations t !! node).
Definition getSubnames (t : TeeRegistry) : list bytes := subname_nodes t.
Definition isAttested (t : TeeRegistry) (node : bytes) : bool := bool_decide (node ∈ tee_registered t).

(** ** Transactions *)

Record Chain := mkChain { ch_ens : Registry; ch_resolver : PublicResolver; ch_tee : TeeRegistry }.

Inductive ChainCall := ToRegistry (c : EnsCall) | ToResolver (c : ResolverCall) | ToTee (node label : bytes).

Record Tx := mkTx { tx_sender : Z; tx_time : Z; tx_wrapper : bytes -> Z; tx_origin : bytes -> bool; tx_call : ChainCall }.

Definition tx_msg (s : Chain) (tx : Tx) : Msg := mkMsg (tx_sender tx) (ch_ens s) (tx_wrapper tx).

Section Chain.
Context `{Eth : Ethereum} (dep : Deployment).

Definition exec_tx (s : Chain) (tx : Tx) : Chain :=
  match tx_call tx with
  | ToRegistry c => mkChain (default (ch_ens s) (ens_call (tx_sender tx) c (ch_ens s))) (ch_resolver s) (ch_tee s)
  | ToResolver c => mkChain (ch_ens s) (default (ch_resolver s) (resolver_call dep (tx_msg s tx) c (ch_resolver s))) (ch_tee s)
  | ToTee node label =>
      mkChain (ch_ens s) (ch_resolver s) (default (ch_tee s) (tee_register (tx_origin tx) (tx_sender tx) (tx_time tx) node label (ch_tee s)))
  end.

Definition exec_all (s : Chain) (txs : list Tx) : Chain := foldl exec_tx s txs.

(** A change between two states of a run is made by one of its transactions. *)
Lemma change_made {A} (f : Chain -> A) (may : Chain -> Tx -> bool) :
  (forall s tx, may s tx = false -> f (exec_tx s tx) = f s) ->
  forall txs s, f (exec_all s txs) <> f s ->
  exists pre tx post, txs = pre ++ tx :: post /\ may (exec_all s pre) tx = true.
Proof.
  intros Hstep txs. induction txs as [|tx txs IH]; intros s Hne; [done|]. destruct (may s tx) eqn:E.
  - by exists [], tx, txs.
  - destruct (IH (exec_tx s tx)) as (pre & tx' & post & -> & Hm); [by rewrite (Hstep _ _ E)|]. by exists (tx :: pre), tx', post.
Qed.

(** *** Owners *)

Lemma record_put_ne r node node' e : node <> node' -> ens_record (put_record r node e) node' = ens_record r node'.
Proof. intros Hne. unfold ens_record. cbn. by rewrite lookup_insert_ne. Qed.

Lemma record_put r node e : ens_record (put_record r node e) node = e.
Proof. unfold ens_record. cbn. by rewrite lookup_insert_eq. Qed.

(** Setting the resolver and the time to live leaves owners alone. *)
Lemma owner_kept r node resolver ttl node' :
  rec_owner (ens_record (_setResolverAndTTL r node resolver ttl) node') = rec_owner (ens_record r node').
Proof.
  assert (forall r res t, rec_owner (ens_record (put_record r node (mkEnsRecord (rec_owner (ens_record r node)) res t)) node')
    = rec_owner (ens_record r node')) as Hp.
  { intros r' res t. destruct (decide (node = node')) as [<-|Hne]; [by rewrite record_put|by rewrite record_put_ne]. }
  unfold _setResolverAndTTL. repeat case_bool_decide; by rewrite ?Hp.
Qed.

(** The sender owns the node, or a node it is a child of. *)
Definition owner_call (r : Registry) (sender : Z) (c : EnsCall) (node : bytes) : bool :=
  match c with
  | CSetOwner n _ | CSetRecord n _ _ _ => bool_decide (n = node) && ens_authorised r sender n
  | CSetSubnodeOwner n label _ | CSetSubnodeRecord n label _ _ _ => bool_decide (subnode n label = node) && ens_authorised r sender n
  | _ => false
  end.

Lemma ens_call_owner r sender c node r' :
  ens_call sender c r = Some r' -> owner_call r sender c node = false -> rec_owner (ens_record r' node) = rec_owner (ens_record r node).
Proof.
  assert (forall n o, bool_decide (n = node) && true = false -> rec_owner (ens_record (_setOwner r n o) node) = rec_owner (ens_record r node)) as Hset.
  { intros n o Hn. rewrite andb_true_r in Hn. apply bool_decide_eq_false in Hn. unfold _setOwner. by rewrite record_put_ne. }
  assert (forall n res t, rec_owner (ens_record (put_record r n (mkEnsRecord (rec_owner (ens_record r n)) res t)) node) = rec_owner (ens_record r node)) as Hput.
  { intros n res t. destruct (decide (n = node)) as [->|Hne]; [by rewrite record_put|by rewrite record_put_ne]. }
  destruct c; cbn; unfold setRecord, setSubnodeRecord, setSubnodeOwner, setOwner, setResolver, setTTL;
    try (destruct (ens_authorised r sender _) eqn:E; cbn; [|done]); intros [= <-] Ho; rewrite ?owner_kept; auto.
Qed.

(** Names change hands only by their owners. Whatever transactions are executed, the owner of a
    node in the registry is changed only by the owner of the node or of a node it is a child
    of, or by an operator one of them has approved. *)
Theorem owner_protected s txs node :
  rec_owner (ens_record (ch_ens (exec_all s txs)) node) <> rec_owner (ens_record (ch_ens s) node) ->
  exists pre tx post c, txs = pre ++ tx :: post /\ tx_call tx = ToRegistry c
    /\ owner_call (ch_ens (exec_all s pre)) (tx_sender tx) c node = true.
Proof.
  intros Hne. destruct (change_made (fun s => rec_owner (ens_record (ch_ens s) node))
    (fun s tx => match tx_call tx with ToRegistry c => owner_call (ch_ens s) (tx_sender tx) c node | _ => false end)) with (txs := txs) (s := s)
    as (pre & tx & post & Htxs & Hm); [|done|].
  - intros s' tx Hm. unfold exec_tx. destruct (tx_call tx) as [c|c|n l]; [|done|done]. cbn.
    destruct (ens_call (tx_sender tx) c (ch_ens s')) as [r'|] eqn:E; [|done]. by apply (ens_call_owner _ _ _ _ _ E).
  - destruct (tx_call tx) as [c| |] eqn:E; [|done|done]. by exists pre, tx, post, c.
Qed.

(** *** Records *)

(** A property of calls that holds of a list when it holds of its members. *)
Lemma ResolverCall_nested (P : ResolverCall -> Prop) :
  (forall node key value, P (CSetText node key value)) -> (forall node, P (CClearRecords node)) ->
  (forall operator approved, P (CApprovalForAll operator approved)) -> (forall node delegate approved, P (CApprove node delegate approved)) ->
  (forall calls, Forall P calls -> P (CMulticall calls)) -> (forall nodehash calls, Forall P calls -> P (CMulticallWithNodeCheck nodehash calls)) ->
  forall c, P c.
Proof.
  intros H1 H2 H3 H4 H5 H6. fix IH 1. intros [| | | |calls|nodehash calls]; [auto..| |].
  - apply H5. induction calls as [|c calls IHc]; [constructor|by constructor].
  - apply H6. induction calls as [|c calls IHc]; [constructor|by constructor].
Qed.

(** A call by somebody who is not authorised leaves the records of the node, and does not
    make its sender authorised, since nobody approves themselves. *)
Definition powerless (m : Msg) (node : bytes) (p p' : PublicResolver) : Prop :=
  isAuthorised dep m p' node = false /\ forall key, text p' node key = text p node key.

Lemma member_ne {A} `{Countable A} (x y : A) present (X : gset A) : x <> y -> x ∈ member y present X <-> x ∈ X.
Proof. intros Hne. unfold member. destruct present; set_solver. Qed.

Lemma unauthorised_facts m p node : isAuthorised dep m p node = false ->
  node_owner dep m node <> sender m /\ (node_owner dep m node, sender m) ∉ operator_approvals p
  /\ (node_owner dep m node, node, sender m) ∉ token_approvals p.
Proof.
  unfold isAuthorised. destruct (_ || _); [done|]. intros [[H1 H2]%orb_false_iff H3]%orb_false_iff.
  by apply bool_decide_eq_false in H1, H2, H3.
Qed.

(** Approvals of the sender do not concern what the sender may do. *)
Lemma authorised_same m p p' node :
  isAuthorised dep m p node = false ->
  ((node_owner dep m node, sender m) ∈ operator_approvals p' -> (node_owner dep m node, sender m) ∈ operator_approvals p) ->
  ((node_owner dep m node, node, sender m) ∈ token_approvals p' -> (node_owner dep m node, node, sender m) ∈ token_approvals p) ->
  isAuthorised dep m p' node = false.
Proof.
  intros Hu H1 H2. destruct (unauthorised_facts _ _ _ Hu) as (F1 & F2 & F3). unfold isAuthorised in *. destruct (_ || _); [done|].
  apply orb_false_iff. split; [apply orb_false_iff; split|]; apply bool_decide_eq_false; auto.
Qed.

Lemma call_powerless m node c p p' :
  isAuthorised dep m p node = false -> resolver_call dep m c p = Some p' -> powerless m node p p'.
Proof.
  revert p p'. induction c as [n key value|n|operator approved|n delegate approved|calls IH|nodehash calls IH] using ResolverCall_nested;
    intros p p' Hu; cbn.
  5,6: revert p Hu; induction IH as [|c calls Hc Hcs IHcs]; intros p Hu; cbn; [by intros [= <-]|]; destruct (matches_node _ _); [|done];
    destruct (resolver_call dep m c p) as [p1|] eqn:E; [|done]; destruct (Hc p p1 Hu E) as [U1 T1]; intros H2;
    destruct (IHcs p1 U1 H2) as [U2 T2]; split; [done|]; intros k; by rewrite T2.
  - unfold setText. destruct (isAuthorised dep m p n) eqn:E; [|done]. intros [= <-]. split; [by apply (authorised_same _ p)|].
    intros k. unfold text, record_version. cbn. rewrite lookup_insert_ne; [done|]. intros [= _ -> _]. congruence.
  - unfold clearRecords. destruct (isAuthorised dep m p n) eqn:E; [|done]. destruct (_ <? _); [|done]. intros [= <-].
    split; [by apply (authorised_same _ p)|]. intros k. unfold text, record_version. cbn. rewrite lookup_insert_ne; [done|]. congruence.
  - unfold setApprovalForAll. destruct (bool_decide _); [|done]. intros [= <-]. destruct (unauthorised_facts _ _ _ Hu) as [F1 _].
    split; [|done]. apply (authorised_same _ p); [done| |done]. cbn. rewrite member_ne; [done|congruence].
  - unfold approve. destruct (bool_decide _); [|done]. intros [= <-]. destruct (unauthorised_facts _ _ _ Hu) as [F1 _].
    split; [|done]. apply (authorised_same _ p); [done|done|]. cbn. rewrite member_ne; [done|congruence].
Qed.

(** Who may change the records of a node in a state. *)
Definition may_change (node : bytes) (s : Chain) (tx : Tx) : bool := isAuthorised dep (tx_msg s tx) (ch_resolver s) node.

Lemma exec_text node key s tx : may_change node s tx = false -> text (ch_resolver (exec_tx s tx)) node key = text (ch_resolver s) node key.
Proof.
  intros Hm. unfold exec_tx. destruct (tx_call tx) as [c|c|n l]; [done| |done]. cbn.
  destruct (resolver_call dep (tx_msg s tx) c (ch_resolver s)) as [p'|] eqn:E; [|done]. by apply (call_powerless _ _ _ _ _ Hm E).
Qed.

(** No text is stored for a version that is still to come. *)
Definition versions_ok (p : PublicResolver) : Prop :=
  forall v node key, is_Some (versionable_texts p !! (v, node, key)) -> v <= record_version p node.

Lemma resolver_call_versions m c p p' : versions_ok p -> resolver_call dep m c p = Some p' -> versions_ok p'.
Proof.
  revert p p'. induction c as [n key value|n|operator approved|n delegate approved|calls IH|nodehash calls IH] using ResolverCall_nested;
    intros p p' Hp; cbn.
  5,6: revert p Hp; induction IH as [|c calls Hc Hcs IHcs]; intros p Hp; cbn; [by intros [= <-]|]; destruct (matches_node _ _); [|done];
    destruct (resolver_call dep m c p) as [p1|] eqn:E; [|done]; by apply IHcs, (Hc p).
  - unfold setText. destruct (isAuthorised _ _ _ _); [|done]. intros [= <-] v node k. unfold record_version. cbn.
    destruct (decide ((record_version p n, n, key) = (v, node, k))) as [[= <- <- <-]|Hne]; [done|]. rewrite lookup_insert_ne by done. apply Hp.
  - unfold clearRecords. destruct (isAuthorised _ _ _ _); [|done]. destruct (_ <? _); [|done]. intros [= <-] v node k Hs. apply Hp in Hs.
    unfold record_version in *. cbn. destruct (decide (n = node)) as [<-|Hne]; [rewrite lookup_insert_eq; cbn; lia|by rewrite lookup_insert_ne].
  - unfold setApprovalForAll. destruct (bool_decide _); [|done]. by intros [= <-].
  - unfold approve. destruct (bool_decide _); [|done]. by intros [= <-].
Qed.

Lemma exec_all_versions s txs : versions_ok (ch_resolver s) -> versions_ok (ch_resolver (exec_all s txs)).
Proof.
  revert s. induction txs as [|tx txs IH]; intros s Hs; [done|]. apply IH. unfold exec_tx. destruct (tx_call tx) as [c|c|n l]; [done| |done]. cbn.
  destruct (resolver_call dep (tx_msg s tx) c (ch_resolver s)) as [p'|] eqn:E; [|done]. by apply (resolver_call_versions _ _ _ _ Hs E).
Qed.

(** The owner of a node, or whoever may act for it, can change its records: a text that is
    set is read back, and after the records are cleared every text is empty. *)
Theorem records_written s txs tx node key value :
  versions_ok (ch_resolver s) -> let s' := exec_all s txs in may_change node s' tx = true ->
  (tx_call tx = ToResolver (CSetText node key value) -> text (ch_resolver (exec_tx s' tx)) node key = value)
  /\ (tx_call tx = ToResolver (CClearRecords node) -> record_version (ch_resolver s') node < 2 ^ 64 - 1 ->
      forall k, text (ch_resolver (exec_tx s' tx)) node k = []).
Proof.
  intros Hs s' Hm. pose proof (exec_all_versions s txs Hs) as Hv. fold s' in Hv. unfold exec_tx. split.
  - intros ->. cbn. unfold setText. unfold may_change in Hm. rewrite Hm. cbn. unfold text, record_version. cbn. by rewrite lookup_insert_eq.
  - intros -> Hlt k. cbn. unfold clearRecords. unfold may_change in Hm. rewrite Hm. apply Z.ltb_lt in Hlt. rewrite Hlt. cbn.
    unfold text. replace (record_version _ node) with (record_version (ch_resolver s') node + 1)
      by (unfold record_version; cbn; by rewrite lookup_insert_eq). cbn.
    destruct (versionable_texts (ch_resolver s') !! (record_version (ch_resolver s') node + 1, node, k)) as [t|] eqn:E; [|done].
    pose proof (Hv (record_version (ch_resolver s') node + 1) node k ltac:(by rewrite E)). lia.
Qed.

(** ** Attestations *)

(** The attestations of a node that transactions make, in their order. *)
Definition attests (app node : bytes) (tx : Tx) : option Attestation :=
  match tx_call tx with
  | ToTee n label => if bool_decide (n = node) && tx_origin tx app then Some (mkAttestation (tx_sender tx) label (tx_time tx)) else None
  | _ => None
  end.

Record tee_ok (app : bytes) (txs : list Tx) (t : TeeRegistry) : Prop := mkTeeOk {
  tee_app : rofl_app_id t = app;
  tee_nodup : NoDup (subname_nodes t);
  tee_listed : forall node, node ∈ subname_nodes t <-> node ∈ tee_registered t;
  tee_marked : forall node, node ∈ tee_registered t <-> is_Some (attestations t !! node);
  tee_last : forall node, attestations t !! node = last (omap (attests app node) txs);
}.

Lemma tee_step app txs t s tx : ch_tee s = t -> tee_ok app txs t -> tee_ok app (txs ++ [tx]) (ch_tee (exec_tx s tx)).
Proof.
  intros Ht [H1 H2 H3 H4 H5]. assert (forall node, omap (attests app node) (txs ++ [tx]) = omap (attests app node) txs ++ option_list (attests app node tx)) as Happ.
  { intros node. by rewrite omap_app. }
  assert ((forall node, attests app node tx = None) -> tee_ok app (txs ++ [tx]) t) as Hsame.
  { intros Hno. split; try done. intros node. rewrite Happ, Hno, H5. cbn. by rewrite app_nil_r. }
  unfold exec_tx, attests in *. destruct (tx_call tx) as [c|c|n label]; [cbn; rewrite Ht; by apply Hsame|cbn; rewrite Ht; by apply Hsame|]. cbn. rewrite Ht.
  unfold tee_register. rewrite H1. destruct (tx_origin tx app) eqn:Eo; [|cbn; apply Hsame; intros node; by rewrite andb_false_r].
  set (a := mkAttestation (tx_sender tx) label (tx_time tx)) in *.
  assert (forall node, <[n := a]> (attestations t) !! node = last (omap (attests app node) (txs ++ [tx]))) as Hlast.
  { intros node. unfold attests at 1. rewrite Happ, andb_true_r. case_bool_decide as En.
    - subst n. cbn. by rewrite lookup_insert_eq, last_snoc.
    - cbn. rewrite app_nil_r, lookup_insert_ne by done. apply H5. }
  assert (forall node, is_Some (<[n := a]> (attestations t) !! node) <-> node = n \/ is_Some (attestations t !! node)) as Hsome.
  { intros node. rewrite lookup_insert_is_Some'. naive_solver. }
  cbn. case_bool_decide as Ein; split; cbn; try done.
  - intros node. rewrite Hsome, H4. split; [auto|]. intros [->|?]; [by apply H4|done].
  - apply NoDup_app. split_and!; [done| |by apply NoDup_singleton]. intros x Hx. rewrite list_elem_of_singleton. intros ->. by apply H3 in Hx.
  - intros node. rewrite elem_of_app, list_elem_of_singleton, H3. set_solver.
  - intros node. rewrite Hsome, elem_of_union, elem_of_singleton, H4. done.
Qed.

Lemma tee_runs app txs s0 : ch_tee s0 = tee_new app -> tee_ok app txs (ch_tee (exec_all s0 txs)).
Proof.
  intros H0. induction txs as [|tx txs IH] using rev_ind.
  - cbn. rewrite H0. split; try done; [constructor|..]; cbn; intros node.
    + split; [intros H; by apply not_elem_of_nil in H|set_solver].
    + rewrite lookup_empty. split; [set_solver|by intros []].
  - unfold exec_all. rewrite foldl_app. cbn. by apply (tee_step app txs (ch_tee (exec_all s0 txs))).
Qed.

(** The attestations are those of authorised origins. After any transactions a node is attested
    exactly when one of them, with an origin that the precompile accepts for the application,
    registered it; the attestation is that of the last of these, and every attested node is
    listed once. *)
Theorem attestations_faithful app s0 txs node :
  ch_tee s0 = tee_new app ->
  let t := ch_tee (exec_all s0 txs) in
  let made := omap (attests app node) txs in
  (isAttested t node = true <-> made <> []) /\ getAttestation t node = default (mkAttestation 0 [] 0) (last made)
  /\ NoDup (getSubnames t) /\ (node ∈ getSubnames t <-> made <> []).
Proof.
  intros H0 t made. destruct (tee_runs app txs s0 H0) as [_ T2 T3 T4 T5]. fold t in T2, T3, T4, T5.
  assert (is_Some (last made) <-> made <> []) as Hlast.
  { destruct made as [|a l] using rev_ind; [split; [by intros []|done]|]. rewrite last_snoc. split; [|by eexists]. by destruct l. }
  unfold isAttested, getAttestation, getSubnames. rewrite bool_decide_eq_true, T3, T4, T5. fold made. by split_and!.
Qed.

(** ** What the client reads *)

(** A label below a name is the node that the registry gives it. *)
Theorem namehash_subnode label parent :
  Forall (fun b => b <> ch 46) label -> parent <> [] ->
  namehash (label ++ [ch 46] ++ parent) = subnode (namehash parent) (keccak256 label).
Proof.
  intros Hdot Hp. unfold namehash, subnode. rewrite !bool_decide_eq_false_2; [|done|by destruct label].
  cbn [app]. rewrite split_on_app by done. rewrite reverse_cons, foldl_app. done.
Qed.

Section Lookup.
Context `{EL : !EthereumLaws Eth} `{HX : Hex} `{HL : !HexLaws HX}.

(** A node of the chain that answers from the resolver. *)
Definition chain_node (s : Chain) (resolver : bytes) := honest (fun _ node key => text (ch_resolver s) node key) resolver.

(** Texts that can be returned: UTF-8, and not longer than a transaction. *)
Definition texts_ok (s : Chain) (node : bytes) : Prop :=
  forall key, is_utf8 (text (ch_resolver s) node key) = true /\ Z.of_nat (length (text (ch_resolver s) node key)) < 2 ^ 32.

Definition vpn_keys : list bytes := [str "vpn.endpoint"; str "vpn.http"; str "vpn.ishuman"; str "vpn.publickey"; str "vpn.metadata"].

End Lookup.
End Chain.

(** ** An example *)

#[local] Existing Instances toy_ethereum toy_ethereum_laws toy_hex toy_hex_laws.

Definition toy_dep : Deployment := mkDeployment 1 2 3 4.

(** Account 7 has been given the node of the name and sets its address; account 9 cannot. *)
Definition toy_chain (node : bytes) : Chain :=
  mkChain (mkRegistry {[node := mkEnsRecord 7 5 0]} ∅) resolver_new (tee_new (str "app")).
Definition toy_set_endpoint (node : bytes) (by_ : Z) (value : bytes) : Tx :=
  mkTx by_ 100 (fun _ => 0) (fun _ => false) (ToResolver (CSetText node (str "vpn.endpoint") value)).
Definition toy_txs (node : bytes) : list Tx := [toy_set_endpoint node 9 (str "198.51.100.9:1"); toy_set_endpoint node 7 (str "203.0.113.1:51820")].

Lemma toy_may_write node by_ p :
  operator_approvals p = ∅ -> token_approvals p = ∅ -> by_ <> 3 -> by_ <> 4 ->
  isAuthorised toy_dep (mkMsg by_ (mkRegistry {[node := mkEnsRecord 7 5 0]} ∅) (fun _ => 0)) p node = bool_decide (7 = by_).
Proof.
  intros H1 H2 H3 H4. unfold isAuthorised, node_owner, ens_owner, ens_record. cbn. rewrite lookup_singleton_eq, H1, H2. cbn.
  rewrite !(bool_decide_eq_false_2 (by_ = _)) by done. cbn. rewrite !bool_decide_eq_false_2 with (P := _ ∈ _) by set_solver. by rewrite !orb_false_r.
Qed.

Lemma toy_text_after node key :
  text (ch_resolver (exec_all toy_dep (toy_chain node) (toy_txs node))) node key
  = if bool_decide (key = str "vpn.endpoint") then str "203.0.113.1:51820" else [].
Proof.
  unfold exec_all, toy_txs. cbn [foldl]. unfold exec_tx, toy_set_endpoint. cbn [tx_call tx_sender resolver_call]. unfold setText, tx_msg.
  cbn [toy_chain ch_ens ch_resolver tx_sender tx_wrapper]. rewrite !toy_may_write by done.
  change (bool_decide (7 = 9)) with false. change (bool_decide (7 = 7)) with true. cbn [default from_option id ch_resolver].
  unfold text, record_version. cbn [record_versions versionable_texts resolver_new]. rewrite lookup_empty. cbn [default from_option].
  case_bool_decide as Hk; [by rewrite Hk, lookup_insert_eq|]. rewrite lookup_insert_ne by congruence. done.
Qed.

Abbreviation toy_node := (namehash (str "node.eth")).


Definition toy_attest (origin : bool) : Tx := mkTx 7 100 (fun _ => 0) (fun _ => origin) (ToTee (str "node") (str "label")).

Lemma attestations_faithful_witness : isAttested (ch_tee (exec_all toy_dep (toy_chain []) [toy_attest false; toy_attest true])) (str "node") = true.
Proof.
  apply (attestations_faithful toy_dep (str "app") (toy_chain []) [toy_attest false; toy_attest true] (str "node")); [reflexivity|]. by vm_compute.
Defined.

Lemma owner_protected_witness : exists pre tx post c,
  [mkTx 7 100 (fun _ => 0) (fun _ => false) (ToRegistry (CSetOwner [] 8))] = pre ++ tx :: post /\ tx_call tx = ToRegistry c
  /\ owner_call (ch_ens (exec_all toy_dep (toy_chain []) pre)) (tx_sender tx) c [] = true.
Proof. apply owner_protected. by vm_compute. Defined.
