(* ===== verification/Effects.v ===== *)
(** * Effects

    A component that acts on the machine or on the network does so through operations with
    answers, an [Op] and an [answer] for each: the class [Machine] performs them on a state
    that the component does not see. With a record of what was done, [wp] speaks of the
    operations that a part of the component performs, whatever they answer. [run] is for code
    that handles raw pointers. *)

From stdpp Require Import base list option.
From S2P Require Import Prelude.

Class Machine {Op : Type} (answer : Op -> Type) (M : Type) := { perform : forall op, M -> answer op * M }.

(** [let _ = ...] *)
Definition ignore {M A} (m : M -> A * M) (s : M) : M := (m s).2.

Definition Event {Op : Type} (answer : Op -> Type) : Type := {op : Op & answer op}.

(** What was done, without the answers. *)
Definition ops {Op : Type} {answer : Op -> Type} (es : list (Event answer)) : list Op := (fun ev => projT1 ev) <$> es.

(** The machine with a record of what was done to it. *)
#[export] Instance recording {Op : Type} {answer : Op -> Type} {M} `{Y : Machine Op answer M} :
    Machine answer (list (Event answer) * M) := {|
  perform op x := let '(a, s) := perform op x.2 in (a, (x.1 ++ [existT op a], s))
|}.

(** ** Reasoning about records

    [wp m Q]: with the record, [m] adds the events [es] and returns [a] with [Q a es]. *)

Section Wp.
Context {Op : Type} {answer : Op -> Type} {M : Type} `{Y : Machine Op answer M}.

Abbreviation Recorded := (list (Event answer) * M)%type.

Definition wp {A} (m : Recorded -> A * Recorded) (Q : A -> list (Event answer) -> Prop) : Prop :=
  forall log s, exists a es s', m (log, s) = (a, (log ++ es, s')) /\ Q a es.

Lemma wp_mono {A} m (Q R : A -> list (Event answer) -> Prop) : wp m Q -> (forall a es, Q a es -> R a es) -> wp m R.
Proof. intros Hm HQ log s. destruct (Hm log s) as (a & es & s' & E & HR). eauto 10. Qed.

Lemma wp_perform op (Q : answer op -> list (Event answer) -> Prop) : (forall a, Q a [existT op a]) -> wp (perform op) Q.
Proof. intros HQ log s. cbn. destruct (perform op s) as [a s']. eauto. Qed.

Lemma wp_pure {A} (a : A) (Q : A -> list (Event answer) -> Prop) : Q a [] -> wp (fun x => (a, x)) Q.
Proof. intros HQ log s. exists a, [], s. by rewrite app_nil_r. Qed.

(** [let '(a, s) := m s in k a s] *)
Lemma wp_let {A B} m (k : A -> Recorded -> B * Recorded) Q :
  wp m (fun a es => wp (k a) (fun b es' => Q b (es ++ es'))) ->
  wp (fun x => let '(a, x) := m x in k a x) Q.
Proof.
  intros Hm log s. destruct (Hm log s) as (a & es & s' & -> & Hk).
  destruct (Hk (log ++ es) s') as (b & es' & s'' & -> & HQ). exists b, (es ++ es'), s''. by rewrite app_assoc.
Qed.

Lemma wp_bind {E A B} (m : action Recorded E A) (k : A -> action Recorded E B) Q :
  wp m (fun r es => match r with
                    | Ok a => wp (k a) (fun b es' => Q b (es ++ es'))
                    | Err e => Q (Err e) es
                    end) ->
  wp (act_bind m k) Q.
Proof.
  intros Hm log s. unfold act_bind. destruct (Hm log s) as (r & es & s' & -> & Hk).
  destruct r as [a|e]; [|by exists (Err e), es, s'].
  destruct (Hk (log ++ es) s') as (b & es' & s'' & -> & HQ). exists b, (es ++ es'), s''. by rewrite app_assoc.
Qed.

(** [let s := ignore m s in k s] *)
Lemma wp_ignore {A B} (m : Recorded -> A * Recorded) (k : Recorded -> B * Recorded) Q :
  wp m (fun _ es => wp k (fun b es' => Q b (es ++ es'))) -> wp (fun x => k (ignore m x)) Q.
Proof.
  intros Hm log s. destruct (Hm log s) as (a & es & s' & Er & Hk). unfold ignore. rewrite Er. cbn [snd].
  destruct (Hk (log ++ es) s') as (b & es' & s'' & -> & HQ). exists b, (es ++ es'), s''. by rewrite app_assoc.
Qed.
End Wp.

(** ** Computations that can go wrong

    A panic, or a use of memory that the language leaves undefined. *)

Inductive run (A : Type) := Runs (a : A) | Panics | Faults.
Arguments Runs {A} a.
Arguments Panics {A}.
Arguments Faults {A}.

Definition run_bind {A B} (m : run A) (f : A -> run B) : run B :=
  match m with Runs a => f a | Panics => Panics | Faults => Faults end.
Notation "'let^' x := m 'in' k" := (run_bind m (fun x => k)) (at level 200, x name, k at level 200).

(** A result, if there is no panic, and no undefined use of memory. *)
Definition fine {A} (m : run A) (Q : A -> Prop) : Prop :=
  match m with Runs a => Q a | Panics => True | Faults => False end.

Lemma fine_bind {A B} (m : run A) (f : A -> run B) P Q : fine m P -> (forall a, P a -> fine (f a) Q) -> fine (run_bind m f) Q.
Proof. destruct m; cbn; auto. Qed.

(** ** What threads hold

    Guards are given up in any order. *)

Definition remove_nth {A} (i : nat) (l : list A) : list A := take i l ++ drop (S i) l.

Lemma lookup_remove_nth {A} i j (l : list A) a :
  remove_nth i l !! j = Some a -> l !! (if (j <? i)%nat then j else S j) = Some a.
Proof.
  unfold remove_nth. intros Hj. destruct (Nat.ltb_spec j i) as [Hl|Hl].
  - destruct (decide (i <= length l)%nat) as [Hi|Hi].
    + rewrite lookup_app_l in Hj by (rewrite length_take; lia). by rewrite lookup_take_lt in Hj by lia.
    + rewrite take_ge, drop_ge, app_nil_r in Hj by lia. done.
  - destruct (decide (i <= length l)%nat) as [Hi|Hi].
    + rewrite lookup_app_r in Hj by (rewrite length_take; lia). rewrite length_take, lookup_drop in Hj.
      rewrite <- Hj. f_equal. lia.
    + rewrite take_ge, drop_ge, app_nil_r in Hj by lia. apply lookup_lt_Some in Hj. lia.
Qed.

Lemma elem_of_remove_nth {A} i (l : list A) a : a ∈ remove_nth i l -> a ∈ l.
Proof. intros [j Hj]%list_elem_of_lookup. apply lookup_remove_nth in Hj. by eapply list_elem_of_lookup_2. Qed.

Lemma remove_last {A} (l : list A) a : remove_nth (length l) (l ++ [a]) = l.
Proof. unfold remove_nth. rewrite take_app_length. rewrite drop_ge by (rewrite length_app; cbn; lia). apply app_nil_r. Qed.
