(* ===== verification/Vpn.v ===== *)
(** * The connection of the desktop client ([client/src-tauri/src/vpn.rs])

    Connecting is a sequence of steps on the machine: registering with the node,
    starting the tunnel process, configuring interface, routes and name resolution; a
    step that fails rolls back those before it. The machine is a [Machine]: every
    operation on it, a command, a file or an HTTP request, is an [Op] with an answer.
    What the source selects at compile time is selected by a [Platform]. *)

From Stdlib Require Import ZArith Lia.
From Stdlib Require Strings.String.
From stdpp Require Import base numbers list option.
From S2P Require Import Prelude Effects Clock Crypto RustText Utf8 Json NetText Eip3009 PaymentProtocol Settlement Serialization.

Import Stdlib.Strings.String.StringSyntax.

(** ** The machine *)

Record Output := mkOutput { output_success : bool; output_stdout : bytes; output_stderr : bytes }.

Record HttpResponse := mkHttpResponse {
  http_status : Z;
  http_status_text : bytes;          (* as the status prints *)
  http_body : result bytes bytes;    (* the body, or the error of reading it *)
}.

Inductive Op :=
| OpRun (args : list bytes)                 (* [Command], to its end *)
| OpSpawn (args : list bytes)               (* [Command::spawn], output to the log file *)
| OpPipe (args : list bytes) (input : bytes)(* [Command::spawn] with [input] on its standard input *)
| OpKill                                    (* [Child::kill] *)
| OpTryWait                                 (* [Child::try_wait]: whether it is still running *)
| OpExists (path : bytes)
| OpRead (path : bytes)
| OpWrite (path contents : bytes)
| OpCreate (path : bytes)                   (* [File::create] and [try_clone] *)
| OpCreateDir (path : bytes)
| OpRemove (path : bytes)
| OpPost (url : bytes) (body : Value)
| OpNow                                     (* [Instant::now()] in nanoseconds *)
| OpWall                                    (* seconds since the epoch, [None] before it *)
| OpSleep (millis : Z).

(** What an operation answers. The texts of errors are those of the [map_err] at the
    call, without the prefix. *)
Definition answer (op : Op) : Type :=
  match op with
  | OpRun _ => result bytes Output
  | OpSpawn _ | OpPipe _ _ | OpWrite _ _ | OpCreate _ | OpCreateDir _ | OpRemove _ => result bytes unit
  | OpRead _ => result bytes bytes
  | OpPost _ _ => result bytes HttpResponse
  | OpKill | OpSleep _ => unit
  | OpTryWait | OpExists _ => bool
  | OpNow => Z
  | OpWall => option Z
  end.

Abbreviation System := (Machine answer).
Abbreviation perform := (@Effects.perform Op answer _ _).

(** A command line, split at the blanks. *)
Definition words (s : String.string) : list bytes := split_on (ch 32) (str s).
Arguments words _%_string_scope.

(** [s.split_whitespace()]: [acc] is the piece that is being read. *)
Definition flush_piece (acc : bytes) (l : list bytes) : list bytes := if bool_decide (acc = []) then l else acc :: l.

Fixpoint split_whitespace_from (acc s : bytes) : list bytes :=
  match s with
  | a :: ((b :: ((c :: r3) as r2)) as r1) =>
      if white1 a then flush_piece acc (split_whitespace_from [] r1)
      else if white2 a b then flush_piece acc (split_whitespace_from [] r2)
      else if white3 a b c then flush_piece acc (split_whitespace_from [] r3)
      else split_whitespace_from (acc ++ [a]) r1
  | [a; b] =>
      if white1 a then flush_piece acc (if white1 b then [] else [[b]])
      else if white2 a b then flush_piece acc []
      else if white1 b then [acc ++ [a]] else [acc ++ [a; b]]
  | [a] => if white1 a then flush_piece acc [] else [acc ++ [a]]
  | [] => flush_piece acc []
  end.
Definition split_whitespace : bytes -> list bytes := split_whitespace_from [].

(** [s.lines()]: a carriage return goes with the line feed that follows it. *)
Definition strip_cr (l : bytes) : bytes :=
  match reverse l with a :: r => if bool_decide (a = ch 13) then reverse r else l | [] => l end.

Fixpoint lines_of_pieces (ps : list bytes) : list bytes :=
  match ps with
  | [] => []
  | [l] => flush_piece l []
  | l :: ps => strip_cr l :: lines_of_pieces ps
  end.
Definition str_lines (s : bytes) : list bytes := lines_of_pieces (split_on (ch 10) s).

(** [s.contains(t)] *)
Fixpoint str_contains (t s : bytes) : bool :=
  bool_decide (take (length t) s = t) || match s with [] => false | _ :: s => str_contains t s end.

(** ** Data *)

Record RegisterResponse := mkRegister { reg_public_key : bytes; reg_endpoint : bytes; reg_assigned_ip : bytes }.

Record ConnectedInfo := mkConnectedInfo {
  info_assigned_ip : bytes;
  server_endpoint : bytes;
  wallet_address : bytes;
  gateway_balance : bytes;
}.

Inductive VpnStatus := Disconnected | Connecting | Connected | Disconnecting | StatusError.

Record HealthEvent := mkHealth { connected : bool; process_alive : bool; handshake_age_secs : option Z }.

(** The targets that the source distinguishes. *)
Inductive Platform := MacOS | Linux | OtherOS.

(** [OriginalDns], a different structure for each target. *)
Inductive OriginalDns :=
| MacDns (service : bytes) (servers : list bytes)
| LinuxDns (resolv_conf_backup : bytes)
| OtherDns.

(** The saved state of the machine. The handle of the process is the one that [OpKill]
    and [OpTryWait] act on. *)
Record ConnectionContext := mkContext {
  ctx_iface : bytes;
  original_gateway : bytes;
  original_phys_iface : bytes;
  original_dns : OriginalDns;
  ctx_server_ip : bytes;
}.

Record VpnManager := mkManager { ctx : option ConnectionContext }.

Definition vpn_manager_new : VpnManager := mkManager None.
Definition is_connected (m : VpnManager) : bool := bool_decide (is_Some (ctx m)).
Definition vpn_status (m : VpnManager) : VpnStatus := if is_connected m then Connected else Disconnected.

(** The steps to undo. *)
Inductive CleanupStep :=
| KillBoringtun
| TeardownInterface (iface : bytes)
| TeardownRoutes (iface server_ip original_gw : bytes)
| RestoreDns.

Record Cleanup := mkCleanup { cleanup_steps : list CleanupStep; armed : bool }.

Definition cleanup_new : Cleanup := mkCleanup [] true.
Definition cleanup_push (step : CleanupStep) (c : Cleanup) : Cleanup :=
  mkCleanup (cleanup_steps c ++ [step]) (armed c).
Definition cleanup_disarm (c : Cleanup) : Cleanup := mkCleanup (cleanup_steps c) false.

(** ** Commands *)

Section Client.
Context (os : Platform).
Context {M : Type} `{Y : System M} `{J : Json} `{B64 : Base64} `{C : Crypto} `{Eth : Ethereum} `{H : Hex} `{E : Env}.
(** The text of [{:?}] of a list of strings. *)
Context (debug_args : list bytes -> bytes).
(** [std::env::var], [dirs::home_dir()]. *)
Context (env_var : bytes -> option bytes) (home : option bytes).
(** [resp.json::<RegisterResponse>()] and [resp.json::<Value>()] on a body. *)
Context (register_from_json : bytes -> result bytes RegisterResponse).

Definition run_sudo (args : list bytes) : action M bytes unit := fun s =>
  match perform (OpRun (str "sudo" :: args)) s with
  | (Err e, s) => (Err (str "Failed to run sudo " ++ debug_args args ++ str ": " ++ e), s)
  | (Ok output, s) =>
      if output_success output then (Ok tt, s)
      else (Err (str "Command failed: sudo " ++ join (str " ") args ++ str " — "
                 ++ trim (from_utf8_lossy (output_stderr output))), s)
  end.

(** [x.map_err(|e| format!("..{e}"))?] *)
Definition attempt {A} (m : M -> result bytes A * M) (prefix : bytes) : action M bytes A := fun s =>
  match m s with
  | (Ok a, s) => (Ok a, s)
  | (Err e, s) => (Err (prefix ++ e), s)
  end.

Definition pkill : list bytes := words "sudo pkill -f boringtun-cli".

Definition kill_stale_boringtun (s : M) : M :=
  ignore (perform (OpSleep 300)) (ignore (perform (OpRun pkill)) s).

Definition configure_wireguard (iface priv_key server_pub endpoint : bytes) : action M bytes unit :=
  let key_file := str "/tmp/vpntee_" ++ iface ++ str ".key" in
  let* _ := attempt (perform (OpWrite key_file priv_key)) (str "Failed to write key file: ") in
  fun s =>
    let '(result, s) :=
      run_sudo (words "wg set" ++ [iface; str "private-key"; key_file; str "peer"; server_pub]
                ++ words "allowed-ips 0.0.0.0/0 endpoint" ++ [endpoint]
                ++ words "persistent-keepalive 25") s in
    (result, ignore (perform (OpRemove key_file)) s).

Definition unsupported {A} : action M bytes A := act_fail (str "Unsupported platform").

Definition configure_interface_ip (iface ip_bare assigned_ip : bytes) : action M bytes unit :=
  match os with
  | MacOS => run_sudo [str "ifconfig"; iface; ip_bare; ip_bare; str "up"]
  | Linux =>
      let ip_cidr := if bool_decide (ch 47 ∈ assigned_ip) then assigned_ip else assigned_ip ++ str "/32" in
      let* _ := run_sudo (words "ip addr add" ++ [ip_cidr; str "dev"; iface]) in
      run_sudo (words "ip link set" ++ [iface; str "up"])
  | OtherOS => unsupported
  end.

(** The value after [label] in the first line of the output that begins with it. *)
Definition labelled (label : bytes) (text : bytes) : option bytes :=
  head (omap (fun line => trim <$> strip_prefix label (trim line)) (str_lines text)).

Definition route_get_default : Op := OpRun (words "route -n get default").

Definition macos_get_default_gateway : action M bytes bytes :=
  let* output := attempt (perform route_get_default) (str "route -n get default failed: ") in
  match labelled (str "gateway:") (from_utf8_lossy (output_stdout output)) with
  | Some gw => act_ret gw
  | None => act_fail (str "Could not determine default gateway")
  end.

Definition get_default_interface : action M bytes bytes :=
  let* output := attempt (perform route_get_default) (str "route -n get default failed: ") in
  match labelled (str "interface:") (from_utf8_lossy (output_stdout output)) with
  | Some i => act_ret i
  | None => act_fail (str "Could not determine default interface")
  end.

Definition linux_get_default_gateway : action M bytes bytes :=
  let* output := attempt (perform (OpRun (words "ip route show default")))
                   (str "ip route show default failed: ") in
  match split_whitespace (from_utf8_lossy (output_stdout output)) with
  | a :: b :: gw :: _ =>
      if bool_decide (a = str "default") && bool_decide (b = str "via") then act_ret gw
      else act_fail (str "Could not determine default gateway")
  | _ => act_fail (str "Could not determine default gateway")
  end.

Definition get_default_gateway : action M bytes bytes :=
  match os with MacOS => macos_get_default_gateway | Linux => linux_get_default_gateway | OtherOS => unsupported end.

(** [r.unwrap_or_else(|_| default)] *)
Definition or_else {A} (m : action M bytes A) (dflt : A) (s : M) : A * M :=
  let '(r, s) := m s in (match r with Ok a => a | Err _ => dflt end, s).

(** The physical interface is looked up and not used on macOS. *)
Definition configure_full_tunnel (iface server_ip original_gw : bytes) : action M bytes unit :=
  match os with
  | MacOS => fun s =>
      let '(_, s) := or_else get_default_interface (str "en0") s in
      (let* _ := run_sudo (words "route add -host" ++ [server_ip; original_gw]) in
       let* _ := run_sudo (words "route add -net 0.0.0.0/1 -interface" ++ [iface]) in
       let* _ := run_sudo (words "route add -net 128.0.0.0/1 -interface" ++ [iface]) in
       act_ret tt) s
  | Linux =>
      let* _ := run_sudo (words "wg set" ++ [iface] ++ words "fwmark 51820") in
      let* _ := run_sudo (words "ip rule add not fwmark 51820 table 51820") in
      let* _ := run_sudo (words "ip route add default dev" ++ [iface] ++ words "table 51820") in
      let* _ := run_sudo (words "ip rule add table main suppress_prefixlength 0") in
      act_ret tt
  | OtherOS => unsupported
  end.

Definition teardown_routes (iface server_ip original_gw : bytes) (s : M) : M :=
  match os with
  | MacOS =>
      let s := ignore (run_sudo (words "route delete -net 0.0.0.0/1 -interface" ++ [iface])) s in
      let s := ignore (run_sudo (words "route delete -net 128.0.0.0/1 -interface" ++ [iface])) s in
      ignore (run_sudo (words "route delete -host" ++ [server_ip])) s
  | Linux =>
      let s := ignore (run_sudo (words "ip rule delete not fwmark 51820 table 51820")) s in
      let s := ignore (run_sudo (words "ip rule delete table main suppress_prefixlength 0")) s in
      ignore (run_sudo (words "ip route flush table 51820")) s
  | OtherOS => s
  end.

(** *** Name servers *)

(** The loop over the ports: [current_service] is the last port that was read. *)
Fixpoint service_of (iface current_service : bytes) (lines : list bytes) : option bytes :=
  match lines with
  | [] => None
  | line :: lines =>
      let current_service := default current_service (strip_prefix (str "Hardware Port: ") line) in
      match strip_prefix (str "Device: ") line with
      | Some dev => if bool_decide (trim dev = iface) then Some current_service else service_of iface current_service lines
      | None => service_of iface current_service lines
      end
  end.

Definition get_primary_network_service : action M bytes bytes :=
  let* output := attempt (perform route_get_default) (str "route failed: ") in
  match labelled (str "interface:") (from_utf8_lossy (output_stdout output)) with
  | None => act_fail (str "Could not find default interface")
  | Some iface =>
      let* output := attempt (perform (OpRun (words "networksetup -listallhardwareports"))) (str "networksetup failed: ") in
      act_ret (default (str "Wi-Fi") (service_of iface [] (str_lines (from_utf8_lossy (output_stdout output)))))
  end.

Definition macos_save_original_dns : action M bytes OriginalDns :=
  let* service := get_primary_network_service in
  let* output := attempt (perform (OpRun (words "networksetup -getdnsservers" ++ [service])))
                   (str "networksetup -getdnsservers failed: ") in
  let text := trim (from_utf8_lossy (output_stdout output)) in
  let servers := if str_contains (str "any DNS Servers set") text then [] else trim <$> str_lines text in
  act_ret (MacDns service servers).

Definition macos_set_vpn_dns : action M bytes unit :=
  let* service := get_primary_network_service in
  run_sudo (words "networksetup -setdnsservers" ++ [service] ++ words "1.1.1.1 8.8.8.8").

Definition macos_restore_dns (service : bytes) (servers : list bytes) : action M bytes unit :=
  if bool_decide (servers = []) then run_sudo (words "networksetup -setdnsservers" ++ [service; str "Empty"])
  else run_sudo (words "networksetup -setdnsservers" ++ [service] ++ servers).

Definition macos_restore_dns_best_effort : action M bytes unit := fun s =>
  let '(service, s) := or_else get_primary_network_service (str "Wi-Fi") s in
  run_sudo (words "networksetup -setdnsservers" ++ [service; str "Empty"]) s.

Definition resolv_conf : bytes := str "/etc/resolv.conf".

(** [std::fs::read_to_string] refuses what is not UTF-8. *)
Definition linux_save_original_dns : action M bytes OriginalDns := fun s =>
  match perform (OpRead resolv_conf) s with
  | (Ok content, s) => (Ok (LinuxDns (if is_utf8 content then content else [])), s)
  | (Err _, s) => (Ok (LinuxDns []), s)
  end.

Definition nl1 : bytes := [ch 10].
Definition name_servers : bytes := str "nameserver 1.1.1.1" ++ nl1 ++ str "nameserver 8.8.8.8" ++ nl1.

Definition linux_set_vpn_dns : action M bytes unit := fun s =>
  let '(output, s) := perform (OpRun (words "which resolvconf")) s in
  if match output with Ok o => output_success o | Err _ => false end then
    attempt (perform (OpPipe (words "sudo resolvconf -a tun.vpntee") name_servers))
      (str "resolvconf failed: ") s
  else
    attempt (perform (OpWrite resolv_conf (str "# Set by vpntee" ++ nl1 ++ name_servers)))
      (str "Failed to write resolv.conf: ") s.

Definition linux_restore_dns (backup : bytes) : action M bytes unit := fun s =>
  if bool_decide (backup = []) then (Ok tt, s)
  else attempt (perform (OpWrite resolv_conf backup)) (str "Failed to restore resolv.conf: ") s.

Definition linux_restore_dns_best_effort : action M bytes unit := fun s =>
  (Ok tt, ignore (perform (OpRun (words "sudo resolvconf -d tun.vpntee"))) s).

Definition save_original_dns : action M bytes OriginalDns :=
  match os with MacOS => macos_save_original_dns | Linux => linux_save_original_dns | OtherOS => act_ret OtherDns end.

Definition set_vpn_dns : action M bytes unit :=
  match os with MacOS => macos_set_vpn_dns | Linux => linux_set_vpn_dns | OtherOS => act_ret tt end.

Definition restore_dns (dns : OriginalDns) : action M bytes unit :=
  match dns with
  | MacDns service servers => macos_restore_dns service servers
  | LinuxDns backup => linux_restore_dns backup
  | OtherDns => act_ret tt
  end.

Definition restore_dns_best_effort : action M bytes unit :=
  match os with
  | MacOS => macos_restore_dns_best_effort
  | Linux => linux_restore_dns_best_effort
  | OtherOS => act_ret tt
  end.

Definition teardown_interface (iface : bytes) (s : M) : M :=
  match os with
  | MacOS => ignore (run_sudo [str "ifconfig"; iface; str "destroy"]) (ignore (run_sudo [str "ifconfig"; iface; str "down"]) s)
  | Linux => ignore (run_sudo (words "ip link delete" ++ [iface])) s
  | OtherOS => s
  end.

Definition interface_exists (iface : bytes) (s : M) : bool * M :=
  match os with
  | MacOS =>
      let '(output, s) := perform (OpRun [str "ifconfig"; iface]) s in
      (match output with Ok o => output_success o | Err _ => false end, s)
  | Linux => perform (OpExists (str "/sys/class/net/" ++ iface)) s
  | OtherOS => (false, s)
  end.

(** The polling loop; see [wait_terminates] of VpnRuns for its fuel. *)
Fixpoint poll_interface (fuel : nat) (iface : bytes) (start timeout : Z) : action M bytes unit := fun s =>
  let late := Err (str "Interface " ++ iface ++ str " not ready after " ++ show_uint (timeout / 1000000000) ++ str "s") in
  match fuel with
  | O => (late, s)
  | S fuel =>
      let '(there, s) := interface_exists iface s in
      if there then (Ok tt, s)
      else
        let '(now, s) := perform OpNow s in
        if timeout <? Z.max 0 (now - start) then (late, s)
        else poll_interface fuel iface start timeout (ignore (perform (OpSleep 100)) s)
  end.

Definition POLL_FUEL : nat := 52.

Definition wait_for_interface (iface : bytes) (timeout : Z) : action M bytes unit := fun s =>
  let '(start, s) := perform OpNow s in
  poll_interface POLL_FUEL iface start timeout s.

Fixpoint first_existing (candidates : list bytes) (s : M) : option bytes * M :=
  match candidates with
  | [] => (None, s)
  | path :: candidates =>
      let '(there, s) := perform (OpExists path) s in
      if there then (Some path, s) else first_existing candidates s
  end.

Definition boringtun_binary : action M bytes bytes := fun s =>
  let '(found, s) := first_existing
    (words "./boringtun-cli /usr/local/bin/boringtun-cli /opt/homebrew/bin/boringtun-cli ../../target/release/boringtun-cli ../../../target/release/boringtun-cli") s in
  match found with
  | Some path => (Ok path, s)
  | None =>
      match perform (OpRun (words "which boringtun-cli")) s with
      | (Err _, s) => (Err (str "boringtun-cli not found"), s)
      | (Ok output, s) =>
          if output_success output then (Ok (trim (from_utf8_lossy (output_stdout output))), s)
          else (Err (str "boringtun-cli not found in PATH or known locations"), s)
      end
  end.

(** The first interface name that is not taken. *)
Definition macos_find_available_iface : action M bytes bytes :=
  let* output := attempt (perform (OpRun (words "ifconfig -l"))) (str "ifconfig -l failed: ") in
  let existing := from_utf8_lossy (output_stdout output) in
  match List.find (fun name => bool_decide (name ∉ split_whitespace existing))
          ((fun i => str "utun" ++ show_uint (Z.of_nat i)) <$> seq 9 22) with
  | Some name => act_ret name
  | None => act_fail (str "No available utun interface found")
  end.

Definition linux_find_available_iface : action M bytes bytes :=
  let* output := attempt (perform (OpRun (words "ip link show"))) (str "ip link show failed: ") in
  let existing := from_utf8_lossy (output_stdout output) in
  match List.find (fun name => negb (str_contains (name ++ str ":") existing))
          ((fun i => str "wg" ++ show_uint (Z.of_nat i)) <$> seq 0 21) with
  | Some name => act_ret name
  | None => act_fail (str "No available wg interface found")
  end.

Definition find_available_iface : action M bytes bytes :=
  match os with
  | MacOS => macos_find_available_iface
  | Linux => linux_find_available_iface
  | OtherOS => act_ret (str "wg0")
  end.

(** ** Keys *)

Definition key_dir : bytes := default (str ".") home ++ str "/.veilvpn".

(** The path of the key, whose directory is created. *)
Definition key_path (s : M) : bytes * M :=
  (key_dir ++ str "/client_key", ignore (perform (OpCreateDir key_dir)) s).

Definition load_or_create_key (w : World) (s : M) : result bytes bytes * World * M :=
  let '(path, s) := key_path s in
  let '(there, s) := perform (OpExists path) s in
  if there then
    match attempt (perform (OpRead path)) (str "Failed to read key file: ") s with
    | (Err e, s) => (Err e, w, s)
    | (Ok contents, s) =>
        if negb (bool_decide (length contents = 32%nat))
        then (Err (str "Invalid key file (expected 32 bytes)"), w, s)
        else (Ok contents, w, s)
    end
  else
    let '(secret, w) := fill_bytes 32 w in
    match attempt (perform (OpWrite path secret)) (str "Failed to write key file: ") s with
    | (Err e, s) => (Err e, w, s)
    | (Ok _, s) => (Ok secret, w, s)
    end.

Definition derive_evm_address (x25519_private_bytes : bytes) : outcome bytes :=
  let! derived := unwrap (hkdf_sha256 (str "boringtun-payment-v1") x25519_private_bytes (str "secp256k1-signing-key") 32) in
  let! signing_key := unwrap (signing_key_from_bytes derived) in
  let pubkey_bytes := verifying_point signing_key in
  let! xy := slice pubkey_bytes 1 (length pubkey_bytes) in
  let hash := keccak256 xy in
  let! a := slice hash 12 (length hash) in
  Ret (hex0x a).

Definition get_wallet_address (w : World) (s : M) : outcome (result bytes bytes * World * M) :=
  let '(r, w, s) := load_or_create_key w s in
  match r with
  | Err e => Ret (Err e, w, s)
  | Ok key => let! a := derive_evm_address key in Ret (Ok a, w, s)
  end.

Definition get_pubkey_b64 (w : World) (s : M) : result bytes bytes * World * M :=
  let '(r, w, s) := load_or_create_key w s in
  match r with
  | Err e => (Err e, w, s)
  | Ok private => (Ok (base64_encode (x25519_public private)), w, s)
  end.

(** ** Requests *)

Definition ARC_DOMAIN : Z := 26.

Definition query_gateway_balance_of (wallet_address : bytes) : action M bytes bytes := fun s =>
  let gateway_api := env_or env_var (str "VEIL_GATEWAY_API") (str "https://gateway-api-testnet.circle.com") in
  let body := VObject [(str "token", VString (str "USDC"));
                       (str "sources", VArray [VObject [(str "domain", VNumber (show_uint ARC_DOMAIN));
                                                        (str "depositor", VString wallet_address)]])] in
  match attempt (perform (OpPost (gateway_api ++ str "/v1/balances") body)) (str "Balance request failed: ") s with
  | (Err e, s) => (Err e, s)
  | (Ok resp, s) =>
      match http_body resp with
      | Err e => (Err (str "Balance parse failed: " ++ e), s)
      | Ok text =>
          match json_from_str text with
          | Err e => (Err (str "Balance parse failed: " ++ e), s)
          | Ok resp =>
              (Ok (default (str "0") ((as_array (value_at (str "balances") resp) ≫= head)
                                      ≫= fun b => as_str (value_at (str "balance") b))), s)
          end
      end
  end.

(** Registration with the node. *)
Definition register_client (api_base pub_b64 : bytes) (world_proof : option Value) : action M bytes RegisterResponse := fun s =>
  let body := VObject ((str "public_key", VString pub_b64)
                       :: match world_proof with Some proof => [(str "world_proof", proof)] | None => [] end) in
  match attempt (perform (OpPost (api_base ++ str "/v1/register") body)) (str "Failed to reach server: ") s with
  | (Err e, s) => (Err e, s)
  | (Ok resp, s) =>
      if negb ((200 <=? http_status resp) && (http_status resp <? 300)) then
        let text := match http_body resp with Ok t => t | Err _ => [] end in
        (Err (str "Server returned " ++ http_status_text resp ++ str ": " ++ text), s)
      else
        match http_body resp with
        | Err e => (Err (str "Failed to parse register response: " ++ e), s)
        | Ok text =>
            match register_from_json text with
            | Err e => (Err (str "Failed to parse register response: " ++ e), s)
            | Ok reg => (Ok reg, s)
            end
        end
  end.

(** ** Cleanup *)

Definition run_step (step : CleanupStep) (s : M) : M :=
  match step with
  | KillBoringtun => ignore (perform (OpSleep 200)) (ignore (perform (OpRun pkill)) s)
  | TeardownInterface iface => teardown_interface iface s
  | TeardownRoutes iface server_ip original_gw => teardown_routes iface server_ip original_gw s
  | RestoreDns => ignore restore_dns_best_effort s
  end.

Definition cleanup_run (c : Cleanup) (s : M) : Cleanup * M :=
  if negb (armed c) then (c, s)
  else (mkCleanup [] false, foldl (fun s step => run_step step s) s (reverse (cleanup_steps c))).

(** [Drop for Cleanup] *)
Definition cleanup_drop (c : Cleanup) (s : M) : M := if armed c then (cleanup_run c s).2 else s.

(** [cleanup.run(); return Err(e);] *)
Definition bail {A} (c : Cleanup) (e : bytes) : action M bytes A := fun s =>
  let '(c, s) := cleanup_run c s in (Err e, cleanup_drop c s).

(** A step whose error rolls back what came before. *)
Definition guarded {A} (c : Cleanup) (m : action M bytes A) : action M bytes A := fun s =>
  match m s with
  | (Ok a, s) => (Ok a, s)
  | (Err e, s) => bail c e s
  end.

(** ** [VpnManager] *)

(** [original_phys_iface], which is not used. *)
Definition original_interface : action M bytes bytes := fun s =>
  match os with
  | MacOS => let '(i, s) := or_else get_default_interface (str "en0") s in (Ok i, s)
  | _ => (Ok [], s)
  end.

Definition ip_bare (reg : RegisterResponse) : bytes :=
  default (reg_assigned_ip reg) (head (split_on (ch 47) (reg_assigned_ip reg))).

(** The steps from the start of the process on. *)
Definition establish (iface server_ip priv_b64 : bytes) (reg : RegisterResponse) : action M bytes ConnectionContext :=
  let assigned_ip := reg_assigned_ip reg in
  let cleanup := cleanup_push KillBoringtun cleanup_new in
  let* _ := guarded cleanup (wait_for_interface iface 5000000000) in
  let* _ := guarded cleanup (configure_wireguard iface priv_b64 (reg_public_key reg) (reg_endpoint reg)) in
  let* _ := guarded cleanup (configure_interface_ip iface (ip_bare reg) assigned_ip) in
  let cleanup := cleanup_push (TeardownInterface iface) cleanup in
  let* original_gw := guarded cleanup (attempt get_default_gateway (str "Failed to get default gateway: ")) in
  let* dns := guarded cleanup (attempt save_original_dns (str "Failed to save DNS state: ")) in
  let* phys := original_interface in
  let* _ := guarded cleanup (configure_full_tunnel iface server_ip original_gw) in
  let cleanup := cleanup_push (TeardownRoutes iface server_ip original_gw) cleanup in
  let* _ := guarded cleanup set_vpn_dns in
  let cleanup := cleanup_push RestoreDns cleanup in
  let cleanup := cleanup_disarm cleanup in
  fun s => (Ok (mkContext iface original_gw phys dns server_ip), cleanup_drop cleanup s).

(** The start of the process. *)
Definition launch : action M bytes bytes := fun s =>
  let s := kill_stale_boringtun s in
  (let* iface := find_available_iface in
   let* boringtun_path := boringtun_binary in
   let* _ := attempt (perform (OpCreate (str "/tmp/boringtun.log"))) (str "Failed to create boringtun log: ") in
   let* _ := attempt (perform (OpSpawn ([str "sudo"; boringtun_path; iface]
                                         ++ words "--disable-drop-privileges --foreground")))
               (str "Failed to start boringtun-cli: ") in
   act_ret iface) s.

Definition active_server_ip (server_ip : option bytes) : bytes :=
  default (env_or env_var (str "VEIL_SERVER_IP") (str "204.168.211.96")) server_ip.

Definition vpn_connect (world_proof : option Value) (server_ip : option bytes) (m : VpnManager) (w : World) (s : M)
    : outcome (result bytes ConnectedInfo * VpnManager * World * M) :=
  if is_connected m then Ret (Err (str "Already connected"), m, w, s)
  else
    let active_api_base := str "http://" ++ active_server_ip server_ip ++ str ":8080" in
    let '(key, w, s) := load_or_create_key w s in
    match key with
    | Err e => Ret (Err e, m, w, s)
    | Ok private =>
        let priv_b64 := base64_encode private in
        let pub_b64 := base64_encode (x25519_public private) in
        let! wallet_address := derive_evm_address private in
        let '(r, s) :=
          (let* reg := register_client active_api_base pub_b64 world_proof in
           let* iface := launch in
           let* c := establish iface (active_server_ip server_ip) priv_b64 reg in
           act_ret (reg, c)) s in
        match r with
        | Err e => Ret (Err e, m, w, s)
        | Ok (reg, c) =>
            let '(balance, s) := query_gateway_balance_of wallet_address s in
            let gateway_balance := match balance with Ok b => b | Err _ => str "0.000000" end in
            Ret (Ok (mkConnectedInfo (ip_bare reg) (reg_endpoint reg) wallet_address gateway_balance),
                 mkManager (Some c), w, s)
        end
    end.

Definition vpn_disconnect (m : VpnManager) (s : M) : result bytes unit * VpnManager * M :=
  match ctx m with
  | None => (Err (str "Not connected"), m, s)
  | Some c =>
      let s := ignore (restore_dns (original_dns c)) s in
      let s := teardown_routes (ctx_iface c) (ctx_server_ip c) (original_gateway c) s in
      let s := teardown_interface (ctx_iface c) s in
      let s := ignore (perform OpKill) s in
      let s := ignore (perform (OpRun pkill)) s in
      (Ok tt, mkManager None, s)
  end.

Definition get_handshake_age (iface : bytes) : M -> option Z * M := fun s =>
  match perform (OpRun (words "sudo wg show" ++ [iface; str "latest-handshakes"])) s with
  | (Err _, s) => (None, s)
  | (Ok output, s) =>
      if negb (output_success output) then (None, s)
      else
        match split_whitespace (from_utf8_lossy (output_stdout output)) !! 1%nat ≫= parse_uint 64 with
        | None => (None, s)
        | Some ts =>
            if ts =? 0 then (None, s)
            else
              let '(now, s) := perform OpWall s in
              ((fun now => Z.max 0 (now - ts)) <$> now, s)
        end
  end.

Definition healthy (process_alive : bool) (age : option Z) : HealthEvent :=
  mkHealth (process_alive && match age with Some a => a <? 300 | None => false end) process_alive age.

Definition check_health (m : VpnManager) (s : M) : HealthEvent * M :=
  match ctx m with
  | None => (mkHealth false false None, s)
  | Some c =>
      let '(process_alive, s) := perform OpTryWait s in
      let '(age, s) := get_handshake_age (ctx_iface c) s in
      (healthy process_alive age, s)
  end.

(** One round of [start_health_check]: the event and whether the loop goes on. *)
Definition health_round (iface : bytes) (s : M) : HealthEvent * bool * M :=
  let '(output, s) := perform (OpRun (words "pgrep -f boringtun-cli")) s in
  let process_alive := match output with Ok o => output_success o | Err _ => false end in
  let '(age, s) := get_handshake_age iface s in
  (healthy process_alive age, process_alive, s).
End Client.

