(* ===== verification/VpnRuns.v ===== *)
(** * What a connection does to the machine

    The operations of [Vpn] on a machine that records them: which of them complete a
    step that has to be undone, and that every failure undoes the completed ones. *)

From Stdlib Require Import ZArith Lia.
From Stdlib Require Strings.String.
From stdpp Require Import base numbers list option sets.
From S2P Require Import Prelude Effects Clock Crypto RustText Utf8 Json NetText Eip3009 PaymentProtocol Settlement Serialization Vpn.

Import Stdlib.Strings.String.StringSyntax.

(** ** What is done to the machine *)

Abbreviation Event := (Effects.Event answer).

(** Whether a command or a start succeeded. *)
Definition succeeded (ev : Event) : bool :=
  match ev with
  | existT (OpRun _) (Ok output) => output_success output
  | existT (OpSpawn _) (Ok _) => true
  | _ => false
  end.

(** What undoes the start of the process, the configuration of the interface, the routes. *)
Definition undo_process : list Op := [OpRun pkill; OpSleep 200].

Definition undo_interface (os : Platform) (iface : bytes) : list Op :=
  match os with
  | MacOS => [OpRun [str "sudo"; str "ifconfig"; iface; str "down"]; OpRun [str "sudo"; str "ifconfig"; iface; str "destroy"]]
  | Linux => [OpRun (words "sudo ip link delete" ++ [iface])]
  | OtherOS => []
  end.

Definition undo_routes (os : Platform) (iface server : bytes) : list Op :=
  match os with
  | MacOS => [OpRun (words "sudo route delete -net 0.0.0.0/1 -interface" ++ [iface]);
              OpRun (words "sudo route delete -net 128.0.0.0/1 -interface" ++ [iface]);
              OpRun (words "sudo route delete -host" ++ [server])]
  | Linux => [OpRun (words "sudo ip rule delete not fwmark 51820 table 51820");
              OpRun (words "sudo ip rule delete table main suppress_prefixlength 0");
              OpRun (words "sudo ip route flush table 51820")]
  | OtherOS => []
  end.

(** What undoes the step whose last command this is, if it is one, *)
Definition marker (os : Platform) (server : bytes) (args : list bytes) : list (list Op) :=
  match os, args with
  | Linux, [a; b; c; d; iface; f] =>
      if bool_decide ([a; b; c; d; f] = words "sudo ip link set up") then [undo_interface os iface] else []
  | Linux, args =>
      if bool_decide (args = words "sudo ip rule add table main suppress_prefixlength 0")
      then [undo_routes os [] server] else []
  | MacOS, [a; b; iface; _; _; f] =>
      if bool_decide ([a; b; f] = words "sudo ifconfig up") then [undo_interface os iface] else []
  | MacOS, [a; b; c; d; e; f; iface] =>
      if bool_decide ([a; b; c; d; e; f] = words "sudo route add -net 128.0.0.0/1 -interface")
      then [undo_routes os iface server] else []
  | _, _ => []
  end.

(** or the step that an event completes. *)
Definition completes (os : Platform) (server : bytes) (ev : Event) : list (list Op) :=
  if succeeded ev then
    match projT1 ev with
    | OpSpawn _ => [undo_process]
    | OpRun args => marker os server args
    | _ => []
    end
  else [].
Definition completed (os : Platform) (server : bytes) (es : list Event) : list (list Op) :=
  concat (completes os server <$> es).

(** What a step of the cleanup does; the last one is never run. *)
Definition undo (os : Platform) (step : CleanupStep) : list Op :=
  match step with
  | KillBoringtun => undo_process
  | TeardownInterface iface => undo_interface os iface
  | TeardownRoutes iface server _ => undo_routes os iface server
  | RestoreDns => []
  end.

(** What is saved of the name servers, from the operations that look them up. *)
Definition looked_up (os : Platform) (es : list Event) (dns : OriginalDns) : Prop :=
  match os with
  | Linux => exists a, es = [existT (OpRead resolv_conf) a]
      /\ dns = LinuxDns (match a with Ok content => if is_utf8 content then content else [] | Err _ => [] end)
  | MacOS => exists e1 e2 service output,
      es = [e1; e2; existT (OpRun (words "networksetup -getdnsservers" ++ [service])) (Ok output)]
      /\ dns = MacDns service
           (let text := trim (from_utf8_lossy (output_stdout output)) in
            if str_contains (str "any DNS Servers set") text then [] else trim <$> str_lines text)
  | OtherOS => es = [] /\ dns = OtherDns
  end.

(** ** Reasoning about records *)

Section Wp.
Context {M : Type} `{Y : System M}.

Lemma wp_attempt {A} (m : list Event * M -> result bytes A * (list Event * M)) prefix Q :
  wp m (fun r es => match r with Ok a => Q (Ok a) es | Err e => Q (Err (prefix ++ e)) es end) ->
  wp (attempt m prefix) Q.
Proof.
  intros Hm log s. unfold attempt. destruct (Hm log s) as ([a|e] & es & s' & -> & HQ); eauto.
Qed.

(** One command, which succeeds or not. *)
Lemma wp_run_sudo debug args (Q : result bytes unit -> list Event -> Prop) :
  (forall ev, projT1 ev = OpRun (str "sudo" :: args) -> succeeded ev = true -> Q (Ok tt) [ev]) ->
  (forall e ev, projT1 ev = OpRun (str "sudo" :: args) -> succeeded ev = false -> Q (Err e) [ev]) ->
  wp (run_sudo debug args) Q.
Proof.
  intros Hok Herr log s. unfold run_sudo. cbn [perform recording fst snd].
  destruct (perform (OpRun (str "sudo" :: args)) s) as [a s'].
  set (ev := existT (OpRun (str "sudo" :: args)) a : Event).
  destruct a as [output|e]; [destruct (output_success output) eqn:Eo|].
  - exists (Ok tt), [ev], s'. split; [done|]. by apply Hok.
  - eexists (Err _), [ev], s'. split; [done|]. by apply Herr.
  - eexists (Err _), [ev], s'. split; [done|]. by apply Herr.
Qed.

(** *** Steps that complete nothing, or one step at their end *)

Context (os : Platform) (server : bytes).

Definition silent {A} (m : list Event * M -> A * (list Event * M)) : Prop := wp m (fun _ es => completed os server es = []).
Definition marks {A} (m : action (list Event * M) bytes A) (X : A -> list (list Op)) : Prop :=
  wp m (fun r es => completed os server es = match r with Ok a => X a | Err _ => [] end).

Lemma completed_app es es' : completed os server (es ++ es') = completed os server es ++ completed os server es'.
Proof. unfold completed. by rewrite fmap_app, concat_app. Qed.

(** An operation that completes no step. *)
Definition plain (op : Op) : Prop :=
  match op with OpSpawn _ => False | OpRun args => marker os server args = [] | _ => True end.

Lemma completed_plain ev es : plain (projT1 ev) -> completed os server (ev :: es) = completed os server es.
Proof.
  destruct ev as [op a]. intros Hop. unfold completed. cbn [fmap list_fmap concat]. unfold completes.
  destruct (succeeded _); [|done]. cbn [projT1] in *. destruct op; try done. cbn in Hop. by rewrite Hop.
Qed.

Lemma silent_perform op : plain op -> silent (perform op).
Proof. intros Hop. apply (wp_perform (answer := answer)). intros a. by rewrite completed_plain. Qed.

Lemma silent_pure {A} (a : A) : silent (fun x => (a, x)).
Proof. by apply wp_pure. Qed.

Lemma silent_let {A B} m (k : A -> list Event * M -> B * (list Event * M)) :
  silent m -> (forall a, silent (k a)) -> silent (fun x => let '(a, x) := m x in k a x).
Proof.
  intros Hm Hk. apply wp_let. eapply wp_mono; [exact Hm|]. intros a es He. eapply wp_mono; [apply Hk|].
  intros b es' He'. cbn in *. by rewrite completed_app, He, He'.
Qed.

Lemma silent_bind {A B} (m : action (list Event * M) bytes A) (k : A -> action (list Event * M) bytes B) :
  silent m -> (forall a, silent (k a)) -> silent (act_bind m k).
Proof.
  intros Hm Hk. apply wp_bind. eapply wp_mono; [exact Hm|]. intros [a|e] es He; [|done].
  eapply wp_mono; [apply Hk|]. intros b es' He'. cbn in *. by rewrite completed_app, He, He'.
Qed.

Lemma silent_attempt {A} (m : list Event * M -> result bytes A * (list Event * M)) prefix :
  silent m -> silent (attempt m prefix).
Proof. intros Hm. apply wp_attempt. eapply wp_mono; [exact Hm|]. by intros [a|e] es He. Qed.

Lemma silent_ignore {A B} (m : list Event * M -> A * (list Event * M)) (b : B) : silent m -> silent (fun x => (b, ignore m x)).
Proof.
  intros Hm log s. destruct (Hm log s) as (a & es & s' & Er & He). exists b, es, s'. unfold ignore. by rewrite Er.
Qed.

(** Doing first what completes nothing. *)
Lemma wp_after {A B} (m : list Event * M -> A * (list Event * M)) (k : list Event * M -> B * (list Event * M)) Q :
  silent m -> wp k (fun b es => forall es', completed os server es' = [] -> Q b (es' ++ es)) -> wp (fun x => k (ignore m x)) Q.
Proof.
  intros Hm Hk. apply wp_ignore. eapply wp_mono; [exact Hm|]. intros a es He. eapply wp_mono; [exact Hk|]. auto.
Qed.

Lemma silent_sudo debug args : marker os server (str "sudo" :: args) = [] -> silent (run_sudo debug args).
Proof.
  intros Ha. apply wp_run_sudo; [intros ev Hev Hs|intros e ev Hev Hs]; unfold completed; cbn [fmap list_fmap concat];
    unfold completes; by rewrite Hs, ?Hev, ?Ha.
Qed.

Lemma marks_bind {A B} (m : action (list Event * M) bytes A) (k : A -> action (list Event * M) bytes B) X :
  silent m -> (forall a, marks (k a) X) -> marks (act_bind m k) X.
Proof.
  intros Hm Hk. apply wp_bind. eapply wp_mono; [exact Hm|]. intros [a|e] es He; [|done].
  eapply wp_mono; [apply Hk|]. intros b es' He'. cbn in *. by rewrite completed_app, He, He'.
Qed.

Lemma marks_let {A B} (m : list Event * M -> A * (list Event * M)) (k : A -> action (list Event * M) bytes B) X :
  silent m -> (forall a, marks (k a) X) -> marks (fun x => let '(a, x) := m x in k a x) X.
Proof.
  intros Hm Hk. apply wp_let. eapply wp_mono; [exact Hm|]. intros a es He. eapply wp_mono; [apply Hk|].
  intros b es' He'. cbn in *. by rewrite completed_app, He, He'.
Qed.

Lemma marks_sudo debug args X : marker os server (str "sudo" :: args) = X -> marks (run_sudo debug args) (fun _ => X).
Proof.
  intros Ha. apply wp_run_sudo; [intros ev Hev Hs|intros e ev Hev Hs]; unfold completed; cbn [fmap list_fmap concat];
    unfold completes; rewrite Hs, ?Hev, ?Ha; by rewrite ?app_nil_r.
Qed.

Lemma silent_after {A B} (m : list Event * M -> A * (list Event * M)) (k : list Event * M -> B * (list Event * M)) :
  silent m -> silent k -> silent (fun x => k (ignore m x)).
Proof.
  intros Hm Hk. apply wp_after; [done|]. eapply wp_mono; [exact Hk|]. intros r es He es' He'.
  by rewrite completed_app, He', He.
Qed.

Lemma marks_after {A B} (m : list Event * M -> A * (list Event * M)) (k : action (list Event * M) bytes B) X :
  silent m -> marks k X -> marks (fun x => k (ignore m x)) X.
Proof.
  intros Hm Hk. apply wp_after; [done|]. eapply wp_mono; [exact Hk|]. intros r es He es' He'.
  by rewrite completed_app, He', He.
Qed.

Lemma marks_ret {A B} (m : action (list Event * M) bytes A) X (k : A -> B) :
  marks m (fun _ => X) -> marks (act_bind m (fun a => act_ret (k a))) (fun _ => X).
Proof.
  intros Hm. apply wp_bind. eapply wp_mono; [exact Hm|]. intros [a|e] es He; [|done]. apply wp_pure. by rewrite app_nil_r.
Qed.

Lemma marks_silent {A} (m : action (list Event * M) bytes A) : silent m -> marks m (fun _ => []).
Proof. intros Hm. eapply wp_mono; [exact Hm|]. by intros [a|e] es He. Qed.
End Wp.

(** ** Steps and their undoing *)

Section Steps.
Context {M : Type} `{Y : System M} `{J : Json} `{B64 : Base64} `{C : Crypto} `{Eth : Ethereum} `{H : Hex} `{E : Env}.
Context (os : Platform) (server : bytes).
Context (debug_args : list bytes -> bytes) (env_var : bytes -> option bytes) (home : option bytes).
Context (register_from_json : bytes -> result bytes RegisterResponse).

Abbreviation R := (list Event * M)%type.

(** A part that does these operations, whatever they answer. *)
Definition does (t : R -> R) (os : list Op) : Prop :=
  forall log s, exists es s', t (log, s) = (log ++ es, s') /\ ops es = os.

Lemma does_perform op : does (ignore (perform op)) [op].
Proof. intros log s. unfold ignore. cbn. destruct (perform op s) as [a s']. by eexists _, _. Qed.

Lemma does_sudo args : does (ignore (run_sudo debug_args args)) [OpRun (str "sudo" :: args)].
Proof.
  intros log s. assert (wp (run_sudo debug_args args) (fun _ es => ops es = [OpRun (str "sudo" :: args)])) as Hw.
  { apply wp_run_sudo; [intros ev Hev _|intros e ev Hev _]; unfold ops; cbn; by rewrite Hev. }
  destruct (Hw log s) as (a & es & s' & Er & He). unfold ignore. rewrite Er. by exists es, s'.
Qed.

Lemma does_id : does (fun x => x) [].
Proof. intros log s. exists [], s. by rewrite app_nil_r. Qed.

Lemma does_then t u os1 os2 : does t os1 -> does u os2 -> does (fun x => u (t x)) (os1 ++ os2).
Proof.
  intros Ht Hu log s. destruct (Ht log s) as (es & s1 & -> & He). destruct (Hu (log ++ es) s1) as (es' & s2 & -> & He').
  exists (es ++ es'), s2. rewrite app_assoc. split; [done|]. unfold ops in *. by rewrite fmap_app, He, He'.
Qed.

Lemma does_routes iface server_ip gw : does (teardown_routes os debug_args iface server_ip gw) (undo_routes os iface server_ip).
Proof.
  unfold teardown_routes. destruct os; cbv zeta; [| |exact does_id];
    exact (does_then _ _ _ _ (does_then _ _ _ _ (does_sudo _) (does_sudo _)) (does_sudo _)).
Qed.

Lemma does_interface iface : does (teardown_interface os debug_args iface) (undo_interface os iface).
Proof.
  unfold teardown_interface. destruct os; [|exact (does_sudo _)|exact does_id].
  exact (does_then _ _ _ _ (does_sudo _) (does_sudo _)).
Qed.

Lemma does_step step : step <> RestoreDns -> does (run_step os debug_args step) (undo os step).
Proof.
  destruct step as [|iface|iface server_ip gw|]; intros Hs; [|exact (does_interface iface)|apply does_routes|done].
  exact (does_then _ _ _ _ (does_perform (OpRun pkill)) (does_perform (OpSleep 200))).
Qed.

Lemma does_steps steps : RestoreDns ∉ steps ->
  does (fun x => foldl (fun x step => run_step os debug_args step x) x steps) (concat (undo os <$> steps)).
Proof.
  induction steps as [|step steps IH]; intros Hs; [exact does_id|]. apply not_elem_of_cons in Hs as [H1 H2].
  exact (does_then _ _ _ _ (does_step step (not_eq_sym H1)) (IH H2)).
Qed.

(** A failed step runs the cleanup, once. *)
Lemma wp_guarded {A} done (m : action R bytes A) (Q : result bytes A -> list Event -> Prop) :
  RestoreDns ∉ done ->
  wp m (fun r es => match r with
                    | Ok a => Q (Ok a) es
                    | Err e => forall back, ops back = concat (undo os <$> reverse done) -> Q (Err e) (es ++ back)
                    end) ->
  wp (guarded os debug_args (mkCleanup done true) m) Q.
Proof.
  intros Hd Hm log s. unfold guarded. destruct (Hm log s) as ([a|e] & es & s1 & -> & HQ); [by exists (Ok a), es, s1|].
  unfold bail, cleanup_run. cbn [armed negb cleanup_steps].
  destruct (does_steps (reverse done)) with (log := log ++ es) (s := s1) as (back & s2 & -> & Hb);
    [by rewrite elem_of_reverse|].
  exists (Err e), (es ++ back), s2. rewrite app_assoc. split; [done|]. by apply HQ.
Qed.

(** A part in which every failure rolls back the steps completed in it and before. *)
Definition rolled_back (done : list (list Op)) (es : list Event) : Prop :=
  exists fwd back, es = fwd ++ back /\ ops back = concat (reverse (done ++ completed os server fwd)).

Definition rolls {A} (done : list (list Op)) (m : action R bytes A) (Q : A -> list Event -> Prop) : Prop :=
  wp m (fun r es => match r with Ok a => Q a es | Err _ => rolled_back done es end).

Lemma rolls_after {A} done X es (m : action R bytes A) Q :
  completed os server es = X -> rolls (done ++ X) m (fun a es' => Q a (es ++ es')) ->
  wp m (fun r es' => match r with Ok a => Q a (es ++ es') | Err _ => rolled_back done (es ++ es') end).
Proof.
  intros HX Hm. eapply wp_mono; [exact Hm|]. intros [a|e] es'; cbn; [done|]. intros (fwd & back & -> & Hb).
  exists (es ++ fwd), back. by rewrite app_assoc, completed_app, HX, (app_assoc done).
Qed.

Lemma rolls_step {A B} steps done X (m : action R bytes A) (k : A -> action R bytes B) P Q :
  RestoreDns ∉ steps -> undo os <$> steps = done ->
  wp m P -> (forall r es, P r es -> completed os server es = match r with Ok _ => X | Err _ => [] end) ->
  (forall a es, P (Ok a) es -> rolls (done ++ X) (k a) (fun b es' => Q b (es ++ es'))) ->
  rolls done (act_bind (guarded os debug_args (mkCleanup steps true) m) k) Q.
Proof.
  intros Hd <- Hm HP Hk. apply wp_bind, wp_guarded; [done|]. eapply wp_mono; [exact Hm|]. intros [a|e] es He.
  - apply (rolls_after _ X); [by apply (HP (Ok a))|by apply Hk].
  - intros back Hb. exists es, back. split; [done|]. rewrite (HP _ _ He), app_nil_r, Hb. by rewrite fmap_reverse.
Qed.

Lemma rolls_marks {A B} steps done X (m : action R bytes A) (k : A -> action R bytes B) Q :
  RestoreDns ∉ steps -> undo os <$> steps = done -> marks os server m (fun _ => X) ->
  (forall a es, completed os server es = X -> rolls (done ++ X) (k a) (fun b es' => Q b (es ++ es'))) ->
  rolls done (act_bind (guarded os debug_args (mkCleanup steps true) m) k) Q.
Proof. intros Hd Hu Hm Hk. eapply rolls_step; [done|done|exact Hm|by intros [a|e] es|]. exact Hk. Qed.

(** A step that cannot fail needs no guard. *)
Lemma rolls_free {A B} done (m : action R bytes A) (k : A -> action R bytes B) Q :
  wp m (fun r es => completed os server es = [] /\ exists a, r = Ok a) ->
  (forall a es, completed os server es = [] -> rolls done (k a) (fun b es' => Q b (es ++ es'))) ->
  rolls done (act_bind m k) Q.
Proof.
  intros Hm Hk. apply wp_bind. eapply wp_mono; [exact Hm|]. intros r es (He & a & ->).
  apply (rolls_after _ []); [done|]. rewrite app_nil_r. by apply Hk.
Qed.

(** A start that is not guarded has nothing to undo when it fails. *)
Lemma rolls_start {A B} X (m : action R bytes A) (k : A -> action R bytes B) Q :
  marks os server m (fun _ => X) ->
  (forall a es, completed os server es = X -> rolls X (k a) (fun b es' => Q b (es ++ es'))) ->
  rolls [] (act_bind m k) Q.
Proof.
  intros Hm Hk. apply wp_bind. eapply wp_mono; [exact Hm|]. intros [a|e] es He.
  - apply (rolls_after [] X); [done|]. by apply Hk.
  - exists es, []. by rewrite app_nil_r, He.
Qed.

(** *** The steps of a connection *)

Abbreviation hushed := (silent os server).

(** A command that completes no step on any platform. *)
Ltac unmarked := cbn [projT1]; hnf; match goal with |- marker ?o _ _ = [] => first [vm_compute; reflexivity | destruct o; vm_compute; reflexivity] end.

Ltac silent :=
  repeat first
    [ apply silent_pure
    | match goal with |- silent _ _ (perform ?op) => idtac | |- silent _ _ (fun x => perform ?op x) => idtac end;
      match goal with |- context [perform ?op] =>
        apply (silent_perform _ _ op); first [exact I | unmarked] end
    | apply silent_sudo; unmarked
    | apply silent_attempt
    | apply silent_ignore
    | apply silent_bind; [|intros ?] ].

Lemma silent_first candidates : hushed (first_existing (M := R) candidates).
Proof.
  induction candidates as [|path candidates IH]; cbn [first_existing]; [silent|].
  apply silent_let; [silent|]. by intros [|]; [silent|].
Qed.

Lemma silent_binary : hushed (boringtun_binary (M := R)).
Proof.
  apply silent_let; [apply silent_first|]. intros [path|]; [silent|].
  apply silent_let; [silent|]. intros [output|e]; [destruct (output_success output)|]; silent.
Qed.

Lemma silent_iface : hushed (find_available_iface (M := R) os).
Proof.
  unfold find_available_iface, macos_find_available_iface, linux_find_available_iface.
  destruct os; [| |silent]; silent; destruct (List.find _ _); silent.
Qed.

Lemma silent_exists iface : hushed (interface_exists (M := R) os iface).
Proof. unfold interface_exists. destruct os; [|silent|silent]. apply silent_let; [silent|]. intros r. silent. Qed.

Lemma silent_poll fuel iface start timeout : hushed (poll_interface (M := R) os fuel iface start timeout).
Proof.
  induction fuel as [|fuel IH]; [silent|]. cbn [poll_interface]. apply silent_let; [apply silent_exists|].
  intros [|]; [silent|]. apply silent_let; [silent|]. intros now. destruct (_ <? _); [silent|].
  apply silent_after; [silent|exact IH].
Qed.

Lemma silent_wait iface timeout : hushed (wait_for_interface (M := R) os iface timeout).
Proof. apply silent_let; [silent|]. intros start. apply silent_poll. Qed.

Lemma silent_wireguard iface priv server_pub endpoint : hushed (configure_wireguard (M := R) debug_args iface priv server_pub endpoint).
Proof. unfold configure_wireguard. silent. apply silent_let; [silent|]. intros r. silent. Qed.

Lemma silent_default_interface o : silent o server (get_default_interface (M := R)).
Proof. unfold get_default_interface. silent. destruct (labelled _ _); silent. Qed.

Lemma silent_or_else {A} o (m : action R bytes A) dflt : silent o server m -> silent o server (or_else m dflt).
Proof. intros Hm. apply silent_let; [exact Hm|]. intros r. silent. Qed.

Lemma silent_gateway : hushed (get_default_gateway (M := R) os).
Proof.
  unfold get_default_gateway, macos_get_default_gateway, linux_get_default_gateway. destruct os; [| |silent].
  - silent. destruct (labelled _ _); silent.
  - silent. destruct (split_whitespace _) as [|? [|? [|gw l]]]; [silent..|]. destruct (_ && _); silent.
Qed.

Lemma wp_original :
  wp (original_interface (M := R) os) (fun r es => completed os server es = [] /\ exists i, r = Ok i).
Proof.
  unfold original_interface. destruct os; [|apply wp_pure; by eauto..]. apply wp_let.
  eapply wp_mono; [apply (silent_or_else MacOS), silent_default_interface|]. intros i es He.
  apply wp_pure. rewrite app_nil_r. by eauto.
Qed.

Lemma silent_service o : silent o server (get_primary_network_service (M := R)).
Proof. unfold get_primary_network_service. silent. destruct (labelled _ _); silent. Qed.

Lemma silent_dns : hushed (set_vpn_dns (M := R) os debug_args).
Proof.
  unfold set_vpn_dns, macos_set_vpn_dns. destruct os; [| |silent].
  - apply silent_bind; [apply silent_service|]. intros service. silent.
  - apply silent_let; [silent|]. intros [o|e]; [destruct (output_success o)|]; silent.
Qed.

Lemma silent_register api pub proof : hushed (register_client (M := R) register_from_json api pub proof).
Proof.
  apply silent_let; [silent|]. intros [resp|e]; [|silent]. destruct (negb _); [silent|].
  destruct (http_body resp) as [text|]; [|silent]. destruct (register_from_json text); silent.
Qed.

Lemma silent_balance wallet : hushed (query_gateway_balance_of (M := R) env_var wallet).
Proof.
  apply silent_let; [silent|]. intros [resp|e]; [|silent]. destruct (http_body resp) as [text|]; [|silent].
  destruct (json_from_str text); silent.
Qed.

Lemma marks_interface iface bare ip :
  marks os server (configure_interface_ip (M := R) os debug_args iface bare ip) (fun _ => [undo_interface os iface]).
Proof.
  unfold configure_interface_ip. destruct os; [|apply marks_bind; [silent|]; intros []|]; [..|by apply wp_pure];
    apply marks_sudo; vm_compute; reflexivity.
Qed.

Lemma marks_routes iface gw :
  marks os server (configure_full_tunnel (M := R) os debug_args iface server gw) (fun _ => [undo_routes os iface server]).
Proof.
  unfold configure_full_tunnel. destruct os; [| |by apply wp_pure].
  - apply marks_let; [apply silent_or_else, silent_default_interface|]. intros _.
    do 2 (apply marks_bind; [silent|intros []]). apply marks_ret, marks_sudo. reflexivity.
  - do 3 (apply marks_bind; [silent|intros []]). apply marks_ret, marks_sudo. reflexivity.
Qed.

(** The name of the service is found with two commands. *)
Lemma wp_service o :
  wp (get_primary_network_service (M := R))
    (fun r es => completed o server es = [] /\ match r with Ok _ => exists e1 e2, es = [e1; e2] | Err _ => True end).
Proof.
  unfold get_primary_network_service. apply wp_bind, wp_attempt, (wp_perform (answer := answer) route_get_default).
  intros [out|e]; [|by rewrite completed_plain by unmarked]. destruct (labelled _ _) as [iface|].
  - apply wp_bind, wp_attempt, (wp_perform (answer := answer) (OpRun (words "networksetup -listallhardwareports"))).
    intros [out'|e]; [apply wp_pure|]; cbn [app]; rewrite !completed_plain by unmarked; [|done].
    split; [done|]. by eexists _, _.
  - apply wp_pure. cbn [app]. by rewrite completed_plain by unmarked.
Qed.

Lemma wp_saved prefix :
  wp (attempt (save_original_dns (M := R) os) prefix)
    (fun r es => completed os server es = [] /\ match r with Ok dns => looked_up os es dns | Err _ => True end).
Proof.
  apply wp_attempt. unfold save_original_dns, macos_save_original_dns, looked_up. destruct os; [| |by apply wp_pure].
  - apply wp_bind. eapply wp_mono; [apply (wp_service MacOS)|]. intros [service|e] es [He Hs]; [|done].
    destruct Hs as (e1 & e2 & ->). apply wp_bind, wp_attempt.
    apply (wp_perform (answer := answer) (OpRun (words "networksetup -getdnsservers" ++ [service]))).
    intros [output|e]; [apply wp_pure|]; rewrite ?app_nil_r, completed_app, He, completed_plain by unmarked; [|done].
    split; [done|]. by eexists e1, e2, service, output.
  - apply (wp_let (perform (OpRead resolv_conf)) (fun r x => match r with
      | Ok content => (Ok (LinuxDns (if is_utf8 content then content else [])), x) | Err _ => (Ok (LinuxDns []), x) end)).
    apply (wp_perform (answer := answer) (OpRead resolv_conf)). intros [content|e]; apply wp_pure; cbn [app]; (split; [by rewrite completed_plain|]);
      by eexists.
Qed.

Lemma marks_launch : marks os server (launch (M := R) os) (fun _ => [undo_process]).
Proof.
  apply (marks_after os server (perform (OpRun pkill)) (fun x => _ (ignore (perform (OpSleep 300)) x))); [silent|].
  apply marks_after; [silent|]. apply marks_bind; [apply silent_iface|]. intros iface.
  apply marks_bind; [apply silent_binary|]. intros path. apply marks_bind; [silent|]. intros [].
  apply marks_ret, wp_attempt. apply (wp_perform (answer := answer) (OpSpawn _)). by intros [[]|e].
Qed.

(** What a connection that stands has done. *)
Definition stands (done : list (list Op)) (c : ConnectionContext) (es : list Event) : Prop :=
  completed os server es = done ++ [undo_interface os (ctx_iface c); undo_routes os (ctx_iface c) server]
  /\ ctx_server_ip c = server
  /\ exists before reading after, es = before ++ reading ++ after
    /\ completed os server before = done ++ [undo_interface os (ctx_iface c)]
    /\ looked_up os reading (original_dns c).

Lemma establish_rolls iface priv reg :
  rolls [undo_process] (establish (M := R) os debug_args iface server priv reg) (fun c es => stands [] c es).
Proof.
  unfold establish. cbv zeta. unfold cleanup_push, cleanup_new. cbn [cleanup_steps armed app].
  assert (RestoreDns ∉ [KillBoringtun; TeardownInterface iface]) as Hno2 by set_solver.
  assert (RestoreDns ∉ [KillBoringtun]) as Hno1 by set_solver.
  apply rolls_marks with (X := []); [done|done|apply marks_silent, silent_wait|]. intros [] es1 H1.
  apply rolls_marks with (X := []); [done|done|apply marks_silent, silent_wireguard|]. intros [] es2 H2.
  apply rolls_marks with (X := [undo_interface os iface]); [done|done|apply marks_interface|]. intros [] es3 H3.
  apply rolls_marks with (X := []); [done|done|apply marks_silent, silent_attempt, silent_gateway|]. intros gw es4 H4.
  eapply rolls_step with (X := []); [done|done|apply wp_saved|by intros [r|e] es [He _]|].
  intros dns es5 [H5 Hread].
  apply rolls_free; [apply wp_original|]. intros phys es6 H6.
  apply rolls_marks with (X := [undo_routes os iface server]); [done|done|apply marks_routes|]. intros [] es7 H7.
  apply rolls_marks with (X := []); [set_solver|done|apply marks_silent, silent_dns|]. intros [] es8 H8.
  apply wp_pure. rewrite app_nil_r. unfold stands. cbn [ctx_iface ctx_server_ip original_dns].
  split_and!; [by rewrite !completed_app, H1, H2, H3, H4, H5, H6, H7, H8|done|].
  exists (es1 ++ es2 ++ es3 ++ es4), es5, (es6 ++ es7 ++ es8). rewrite <- !app_assoc.
  split_and!; [done| |done]. by rewrite !completed_app, H1, H2, H3, H4.
Qed.

(** From the registration on. *)
Lemma attempt_rolls api pub proof priv :
  rolls [] (let* reg := register_client (M := R) register_from_json api pub proof in
            let* iface := launch os in
            let* c := establish os debug_args iface server priv reg in
            act_ret (reg, c))
    (fun rc es => stands [undo_process] rc.2 es).
Proof.
  apply (rolls_start []); [apply marks_silent, silent_register|]. intros reg es1 H1.
  apply (rolls_start [undo_process]); [apply marks_launch|]. intros iface es2 H2.
  apply wp_bind. eapply wp_mono; [apply (establish_rolls iface priv reg)|].
  intros [c|e] es; cbn; [|done]. intros (Hs & Hi & before & reading & after & -> & Hb & Hd).
  apply wp_pure. rewrite app_nil_r. split_and!; [by rewrite !(completed_app _ _ es1), !(completed_app _ _ es2), H1, H2, Hs|done|].
  exists (es1 ++ es2 ++ before), reading, after. split_and!; [by rewrite !app_assoc| |done].
  by rewrite !completed_app, H1, H2, Hb.
Qed.

Lemma load_key_silent w : hushed (load_or_create_key (M := R) home w).
Proof.
  apply silent_let; [unfold key_path; silent|]. intros path. apply silent_let; [silent|]. intros [|].
  - apply silent_let; [silent|]. intros [contents|e]; [destruct (negb _)|]; silent.
  - destruct (fill_bytes 32 w) as [secret w']. apply silent_let; [silent|]. intros [[]|e]; silent.
Qed.

End Steps.
(** What [disconnect] does, whatever the machine answers. *)
Definition restore_ops (dns : OriginalDns) : list Op :=
  match dns with
  | MacDns service servers =>
      [OpRun (words "sudo networksetup -setdnsservers" ++ service :: if bool_decide (servers = []) then words "Empty" else servers)]
  | LinuxDns backup => if bool_decide (backup = []) then [] else [OpWrite resolv_conf backup]
  | OtherDns => []
  end.

Definition disconnect_ops (os : Platform) (c : ConnectionContext) : list Op :=
  restore_ops (original_dns c) ++ undo_routes os (ctx_iface c) (ctx_server_ip c)
  ++ undo_interface os (ctx_iface c) ++ [OpKill; OpRun pkill].

Section Connections.
Context {M : Type} `{Y : System M} `{J : Json} `{B64 : Base64} `{C : Crypto} `{Eth : Ethereum} `{H : Hex} `{E : Env}.
Context (os : Platform) (debug_args : list bytes -> bytes) (env_var : bytes -> option bytes) (home : option bytes).
Context (register_from_json : bytes -> result bytes RegisterResponse).

Lemma does_restore dns : does (ignore (restore_dns (M := list Event * M) debug_args dns)) (restore_ops dns).
Proof.
  unfold restore_ops. destruct dns as [service servers|backup|].
  - unfold restore_dns, macos_restore_dns. destruct (bool_decide (servers = [])); exact (does_sudo debug_args _).
  - intros log s. unfold ignore, restore_dns, linux_restore_dns. destruct (bool_decide (backup = [])).
    + exists [], s. by rewrite app_nil_r.
    + unfold attempt. cbn [perform recording fst snd]. destruct (perform (OpWrite resolv_conf backup) s) as [[u|e] s'];
        eexists [existT (OpWrite resolv_conf backup) _], s'; done.
  - exact does_id.
Qed.

Lemma disconnect_does c log s : exists es s',
  vpn_disconnect os debug_args (mkManager (Some c)) (log, s) = (Ok tt, mkManager None, (log ++ es, s'))
  /\ ops es = disconnect_ops os c.
Proof.
  assert (does (fun x => ignore (perform (OpRun pkill)) (ignore (perform OpKill)
    (teardown_interface os debug_args (ctx_iface c) (teardown_routes os debug_args (ctx_iface c) (ctx_server_ip c) (original_gateway c)
      (ignore (restore_dns debug_args (original_dns c)) x))))) (disconnect_ops os c)) as Hd.
  { unfold disconnect_ops. rewrite !app_assoc. change [OpKill; OpRun pkill] with ([OpKill] ++ [OpRun pkill]). rewrite app_assoc.
    apply does_then; [|apply does_perform]. apply does_then; [|apply does_perform]. apply does_then; [|apply does_interface].
    apply does_then; [apply does_restore|apply does_routes]. }
  destruct (Hd log s) as (es & s' & Er & He). exists es, s'. split; [|done].
  unfold vpn_disconnect. cbn [ctx]. by rewrite Er.
Qed.

End Connections.

(** ** The wait for the interface ends *)

(** The clock of [Instant] on a machine: it does not go back, and a sleep takes its time. *)
Class ClockedSystem (M : Type) `{Y : System M} := {
  machine_clock : M -> Z;
  now_reads : forall s, (perform OpNow s).1 = machine_clock s;
  clock_forward : forall op s, machine_clock s <= machine_clock (perform op s).2;
  sleep_lasts : forall millis s, machine_clock s + millis * 1000000 <= machine_clock (perform (OpSleep millis) s).2;
}.

Section Wait.
Context {M : Type} `{Y : System M} `{K : !ClockedSystem M} (os : Platform).

Lemma exists_forward iface s : machine_clock s <= machine_clock (interface_exists os iface s).2.
Proof.
  unfold interface_exists. destruct os; [|exact (clock_forward (OpExists _) s)|done].
  pose proof (clock_forward (OpRun [str "ifconfig"; iface]) s). by destruct (perform _ s).
Qed.

(** [n] more rounds are enough when the rounds before have taken 100 ms each. *)
Lemma poll_enough n : forall extra iface start s,
  (0 < n)%nat -> start + (Z.of_nat POLL_FUEL - Z.of_nat n) * 100000000 <= machine_clock s ->
  poll_interface os (n + extra) iface start 5000000000 s = poll_interface os n iface start 5000000000 s
  /\ match poll_interface os n iface start 5000000000 s with
     | (Ok _, _) => True
     | (Err _, s') => start + 5000000000 < machine_clock s'
     end.
Proof.
  induction n as [|n IH]; intros extra iface start s Hn Hs; [lia|]. cbn [Nat.add poll_interface].
  pose proof (exists_forward iface s) as H1.
  destruct (interface_exists os iface s) as [[|] s1]; [done|]. cbn [snd] in H1.
  pose proof (clock_forward OpNow s1) as H2. pose proof (now_reads s1) as Hnow.
  destruct (perform OpNow s1) as [now s2]. cbn [fst snd] in H2, Hnow.
  destruct (Z.ltb_spec 5000000000 (Z.max 0 (now - start))); [split; [done|lia]|].
  pose proof (sleep_lasts 100 s2) as H3. unfold POLL_FUEL in *. apply IH; unfold ignore; lia.
Qed.

(** [wait_for_interface] returns: the loop makes at most [POLL_FUEL] rounds on a machine whose clock does not
    go back and whose sleeps take their time, so that more fuel changes nothing, and it
    reports an error only when five seconds have passed. *)
Theorem wait_terminates iface s fuel : (POLL_FUEL <= fuel)%nat ->
  let '(start, s1) := perform OpNow s in
  poll_interface os fuel iface start 5000000000 s1 = wait_for_interface os iface 5000000000 s
  /\ match wait_for_interface os iface 5000000000 s with
     | (Ok _, _) => True
     | (Err _, s') => machine_clock s + 5000000000 < machine_clock s'
     end.
Proof.
  intros Hf. unfold wait_for_interface. pose proof (clock_forward OpNow s) as H1. pose proof (now_reads s) as Hnow.
  destruct (perform OpNow s) as [start s1]. cbn [fst snd] in H1, Hnow.
  destruct (poll_enough POLL_FUEL (fuel - POLL_FUEL) iface start s1) as [He Hc]; [unfold POLL_FUEL; lia|lia|].
  replace (POLL_FUEL + (fuel - POLL_FUEL))%nat with fuel in He by lia. by rewrite <- Hnow.
Qed.
End Wait.

(** ** The wallet *)

(** C36. The client derives the wallet that the tunnel pays from. The address it computes
    for a private key, for display and for the balance, is that of [from_wireguard_key] in
    text, and whatever the tunnel signs with that wallet verifies as from that address. *)
Theorem client_wallet_agrees `{Eth : Ethereum} `{EL : !EthereumLaws Eth} `{H : Hex} (key : bytes) :
  derive_evm_address key = (let! w := from_wireguard_key key in Ret (hex0x (ethereum_address w)))
  /\ forall w d a, from_wireguard_key key = Ret w ->
     exists signed payer, sign_authorization w d a = Ret signed /\ verify_authorization d signed = Ret (Some payer)
       /\ derive_evm_address key = Ret (hex0x payer).
Proof.
  assert (derive_evm_address key = (let! w := from_wireguard_key key in Ret (hex0x (ethereum_address w)))) as Hsame.
  { unfold derive_evm_address, from_wireguard_key, compute_address, address_of_point, HKDF_SALT, HKDF_INFO.
    destruct (hkdf_sha256 _ key _ 32) as [derived|]; [|done]. cbn [unwrap outcome_bind].
    destruct (signing_key_from_bytes derived) as [k|]; [|done]. cbn [unwrap outcome_bind].
    rewrite slice_ok by (rewrite ?point_length; lia). cbn [outcome_bind].
    rewrite slice_ok by (rewrite ?keccak256_length; lia). cbn [outcome_bind].
    by rewrite !sub_full_drop, bool_decide_eq_true_2 by (rewrite length_drop, keccak256_length; lia). }
  split; [exact Hsame|]. intros w d a Hw.
  destruct (authorization_sign_verify w d a) as (signed & Hs & _ & Hv); [by eapply from_wireguard_key_ok|].
  exists signed, (ethereum_address w). by rewrite Hsame, Hw.
Qed.

(** ** Example machines *)

#[local] Existing Instance toy_ethereum.
#[local] Existing Instance toy_ethereum_laws.
#[local] Existing Instance toy_crypto.
#[local] Existing Instance toy_base64.
#[local] Existing Instance toy_hex.
#[local] Existing Instance example_env.
#[local] Instance silent_json : Json := {| json_from_str _ := Err []; json_to_string _ := [] |}.

Lemma client_wallet_agrees_witness : exists w d a signed payer,
  from_wireguard_key (replicate 32 x07) = Ret w /\ sign_authorization w d a = Ret signed
  /\ verify_authorization d signed = Ret (Some payer) /\ derive_evm_address (replicate 32 x07) = Ret (hex0x payer).
Proof.
  destruct (toy_wallet (replicate 32 x07)) as [w Hw].
  set (d := mkDomain (str "USDC") (str "2") 5042002 (replicate 20 x36)).
  set (a := mkAuth (replicate 20 x01) (replicate 20 x02) 10000 0 100 (replicate 32 x09)).
  destruct (client_wallet_agrees (replicate 32 x07)) as [_ Hp].
  destruct (Hp w d a Hw) as (signed & payer & H). by exists w, d, a, signed, payer.
Defined.

(** A machine on which the commands [fails] selects fail, and every other operation
    succeeds; [there] says which paths exist. *)
Definition example_answer (fails : list bytes -> bool) (there : bool) (t : Z) (op : Op) : answer op :=
  match op with
  | OpRun args => Ok (mkOutput (negb (fails args)) (str "default via 192.168.1.1 dev eth0") [])
  | OpSpawn _ | OpPipe _ _ | OpWrite _ _ | OpCreate _ | OpCreateDir _ | OpRemove _ => Ok tt
  | OpRead _ => Ok (replicate 32 x61)
  | OpPost _ _ => Ok (mkHttpResponse 200 (str "200 OK") (Ok []))
  | OpKill | OpSleep _ => tt
  | OpTryWait | OpExists _ => there
  | OpNow => t
  | OpWall => None
  end.

(** An operation takes a microsecond, a sleep its time. *)
Definition example_machine (fails : list bytes -> bool) (there : bool) : System Z := {|
  Effects.perform op t :=
    (example_answer fails there t op, t + match op with OpSleep ms => Z.max 0 ms * 1000000 | _ => 1000 end)
|}.

Definition example_clock (fails : list bytes -> bool) (there : bool) : ClockedSystem Z (Y := example_machine fails there).
Proof.
  refine {| machine_clock t := t |}; [done|intros op s; cbn; destruct op; lia|intros ms s; cbn; lia].
Defined.

Lemma wait_terminates_witness :
  let machine := example_machine (fun _ => false) false in
  poll_interface Linux 60 (str "wg0") 0 5000000000 1000 = wait_for_interface Linux (str "wg0") 5000000000 0
  /\ match wait_for_interface Linux (str "wg0") 5000000000 0 with (Ok _, _) => True | (Err _, s') => 0 + 5000000000 < s' end.
Proof.
  apply (wait_terminates (Y := example_machine (fun _ => false) false) (K := example_clock (fun _ => false) false) Linux (str "wg0") 0 60).
  unfold POLL_FUEL. lia.
Defined.

(** Whether a command was run. *)
Definition ran (args : list bytes) (es : list Event) : bool :=
  existsb (fun op => match op with OpRun args' => bool_decide (args' = args) | _ => false end) (ops es).

Definition example_connect (fails : list bytes -> bool) :=
  vpn_connect Linux (M := list Event * Z) (Y := recording (Y := example_machine fails true)) (fun _ => []) (fun _ => None) None
    (fun _ => Ok (mkRegister (str "pub") (str "204.168.211.96:51820") (str "10.0.0.185/32")))
    None None vpn_manager_new (mkWorld 0 0) ([], 0).

(** What a rollback leaves behind. When the third of the four routing commands fails, the policy rule that the second
    added is not deleted, since the step is registered only when all four succeeded. And
    whatever the connection is, [disconnect] does not remove the name servers registered with
    [resolvconf]. *)
Theorem rollback_gaps :
  (exists e w log t,
     example_connect (fun args => bool_decide (args = words "sudo ip route add default dev wg0 table 51820"))
       = Ret (Err e, vpn_manager_new, w, (log, t))
     /\ ran (words "sudo ip rule add not fwmark 51820 table 51820") log = true
     /\ ran (words "sudo ip rule delete not fwmark 51820 table 51820") log = false)
  /\ forall M (Y : System M) debug c log s, exists es s',
     vpn_disconnect Linux debug (mkManager (Some c)) (log, s) = (Ok tt, vpn_manager_new, (log ++ es, s'))
     /\ ran (words "sudo resolvconf -d tun.vpntee") es = false.
Proof.
  split.
  - eexists _, _, _, _. split; [vm_compute; reflexivity|]. split; vm_compute; reflexivity.
  - intros M Y debug c log s. destruct (disconnect_does Linux debug c log s) as (es & s' & Er & He).
    exists es, s'. split; [exact Er|]. unfold ran. rewrite He. unfold disconnect_ops.
    unfold restore_ops. destruct (original_dns c) as [service servers|backup|]; [| |vm_compute; reflexivity].
    + destruct (bool_decide (servers = [])); vm_compute; reflexivity.
    + destruct (bool_decide (backup = [])); vm_compute; reflexivity.
Qed.
