(* ===== verification/App.v ===== *)
(** * The desktop application ([client/src-tauri/src/lib.rs], [client/src/App.tsx])

    The window calls commands of the process behind it and shows what it learns from their
    replies and from events. Commands run as tasks that share the manager of Vpn behind a
    lock; each connection has a task that watches its process. Both sides together are a
    transition system: a step is an action of the user, of the timer, the delivery of a
    message to the window, or a part of a task between two points where others can run. The
    verification service is the class [WorldId]. *)

From Stdlib Require Import ZArith Lia.
From Stdlib Require Strings.String.
From stdpp Require Import base numbers list option sets gmap.
From S2P Require Import Prelude Effects Clock Crypto RustText Json Eip3009 Settlement Serialization Vpn VpnRuns.

Import Stdlib.Strings.String.StringSyntax.

(** ** The commands ([lib.rs]) *)

Record VpnStateEvent := mkStateEvent { se_status : VpnStatus; se_assigned_ip : option bytes; se_error : option bytes }.

Definition connecting_event : VpnStateEvent := mkStateEvent Connecting None None.

Definition connect_event (r : result bytes ConnectedInfo) : VpnStateEvent :=
  match r with
  | Ok info => mkStateEvent Connected (Some (info_assigned_ip info)) None
  | Err e => mkStateEvent StatusError None (Some e)
  end.

Definition disconnecting_event : VpnStateEvent := mkStateEvent Disconnecting None None.

Definition disconnect_event (r : result bytes unit) : VpnStateEvent :=
  mkStateEvent Disconnected None (match r with Ok _ => None | Err e => Some e end).

(** What a poll of the verification tells; a result is an object. *)
Inductive StatusWrapper :=
| WaitingForConnection
| AwaitingConfirmation
| Confirmed (result : list (bytes * Value))
| VerificationFailed (error : bytes)
| NetworkingError (error : bytes).

(** The fields of [IDKitRequestConfig] that the source sets from data. *)
Record IdConfig (RpContext : Type) := mkIdConfig { id_action : bytes; id_context : RpContext; id_signal : bytes }.
Arguments mkIdConfig {RpContext}.

(** The requests, the context of the relying party, and sessions. A blocking task can fail. *)
Class WorldId (RpContext Session M : Type) := {
  http_get : bytes -> M -> result bytes HttpResponse * M;
  rp_context_new : bytes -> bytes -> Z -> Z -> bytes -> result bytes RpContext;
  create_session : IdConfig RpContext -> M -> result bytes (result bytes Session) * M;
  connect_url : Session -> bytes;
  poll_status_once : Session -> M -> result bytes StatusWrapper * M;
}.

Definition as_u64 (v : Value) : option Z := match v with VNumber t => parse_uint 64 t | _ => None end.

(** The state behind the commands; [health_token] is the cancellation token of the
    connection, and the manager holds it together with its context. *)
Record AppState (Session M : Type) := mkAppState {
  vpn : VpnManager;
  world_id_session : option Session;
  app_world : World;
  machine : M;
  health_token : option nat;
  cancelled : gset nat;
  next_token : nat;
}.
Arguments mkAppState {Session M}.
Arguments vpn {Session M}.
Arguments world_id_session {Session M}.
Arguments app_world {Session M}.
Arguments machine {Session M}.
Arguments health_token {Session M}.
Arguments cancelled {Session M}.
Arguments next_token {Session M}.

Section Commands.
Context (os : Platform).
Context {M : Type} `{Y : System M} `{J : Json} `{B64 : Base64} `{C : Crypto} `{Eth : Ethereum} `{Hx : Hex} `{E : Env}.
Context {RpContext Session : Type} `{W : WorldId RpContext Session M}.
Context (debug_args : list bytes -> bytes) (env_var : bytes -> option bytes) (home : option bytes).
Context (register_from_json : bytes -> result bytes RegisterResponse).

Implicit Types (b : AppState Session M).

Definition with_machine (s : M) b : AppState Session M :=
  mkAppState (vpn b) (world_id_session b) (app_world b) s (health_token b) (cancelled b) (next_token b).

(** [state.vpn.lock().await.connect(…)], with the token and the interface of the watcher
    that it starts. *)
Definition locked_connect (world_proof : option Value) (server_ip : option bytes) b
    : outcome (result bytes ConnectedInfo * option (nat * bytes) * AppState Session M) :=
  let! r := vpn_connect os debug_args env_var home register_from_json world_proof server_ip (vpn b) (app_world b) (machine b) in
  let '(res, m, w, s) := r in
  match res, ctx m with
  | Ok _, Some c =>
      let token := next_token b in
      Ret (res, Some (token, ctx_iface c), mkAppState m (world_id_session b) w s (Some token) (cancelled b) (S token))
  | _, _ => Ret (res, None, mkAppState m (world_id_session b) w s (health_token b) (cancelled b) (next_token b))
  end.

(** [state.vpn.lock().await.disconnect()] *)
Definition locked_disconnect b : result bytes unit * AppState Session M :=
  let '(r, m, s) := vpn_disconnect os debug_args (vpn b) (machine b) in
  let stopped := match r, health_token b with Ok _, Some t => {[t]} ∪ cancelled b | _, _ => cancelled b end in
  let token := match r with Ok _ => None | Err _ => health_token b end in
  (r, mkAppState m (world_id_session b) (app_world b) s token stopped (next_token b)).

Definition get_status b : VpnStatus := vpn_status (vpn b).

Definition start_world_id (server_ip : option bytes) b : result bytes bytes * AppState Session M :=
  let api_base :=
    match server_ip with
    | Some ip => str "http://" ++ ip ++ str ":8080"
    | None => env_or env_var (str "VEIL_API_BASE") (str "http://204.168.211.96:8080")
    end in
  let '(r, s) := http_get (api_base ++ str "/v1/rp-context") (machine b) in
  let b := with_machine s b in
  match r with
  | Err e => (Err (str "Failed to reach server: " ++ e), b)
  | Ok resp =>
      match match http_body resp with Ok text => json_from_str text | Err e => Err e end with
      | Err e => (Err (str "Parse error: " ++ e), b)
      | Ok resp =>
          match value_get (str "error") resp with
          | Some err => (Err (default (str "unknown") (as_str err)), b)
          | None =>
              let text k dflt := default dflt (as_str (value_at k resp)) in
              let number k := default 0 (as_u64 (value_at k resp)) in
              match rp_context_new (text (str "rp_id") []) (text (str "nonce") []) (number (str "created_at"))
                      (number (str "expires_at")) (text (str "signature") []) with
              | Err e => (Err (str "Invalid RP context: " ++ e), b)
              | Ok context =>
                  let action := text (str "action") (str "veil-vpn-connect") in
                  let '(key, w, s) := get_pubkey_b64 home (app_world b) (machine b) in
                  let signal := match key with Ok k => k | Err _ => [] end in
                  let '(r, s) := create_session (mkIdConfig action context signal) s in
                  let b := mkAppState (vpn b) (world_id_session b) w s (health_token b) (cancelled b) (next_token b) in
                  match r with
                  | Err e => (Err (str "Task failed: " ++ e), b)
                  | Ok (Err e) => (Err (str "Failed to create World ID session: " ++ e), b)
                  | Ok (Ok session) =>
                      (Ok (connect_url session),
                       mkAppState (vpn b) (Some session) (app_world b) (machine b) (health_token b) (cancelled b) (next_token b))
                  end
              end
          end
      end
  end.

Definition poll_world_id b : result bytes Value * AppState Session M :=
  match world_id_session b with
  | None => (Err (str "No active World ID session"), b)
  | Some session =>
      let '(status, s) := poll_status_once session (machine b) in
      let tell (text : bytes) := Ok (VObject [(str "status", VString text)]) in
      (match status with
       | Err e => Err (str "Task failed: " ++ e)
       | Ok WaitingForConnection => tell (str "waiting")
       | Ok AwaitingConfirmation => tell (str "confirming")
       | Ok (Confirmed result) => Ok (VObject [(str "status", VString (str "confirmed")); (str "result", VObject result)])
       | Ok (VerificationFailed error) => Err (str "World ID verification failed: " ++ error)
       | Ok (NetworkingError error) => Err (str "World ID network error: " ++ error)
       end, with_machine s b)
  end.

Definition get_wallet_info b : outcome (result bytes (bytes * bytes) * AppState Session M) :=
  let! r := get_wallet_address home (app_world b) (machine b) in
  let '(address, w, s) := r in
  let b := mkAppState (vpn b) (world_id_session b) w s (health_token b) (cancelled b) (next_token b) in
  match address with
  | Err e => Ret (Err e, b)
  | Ok address =>
      let '(balance, s) := query_gateway_balance_of env_var address s in
      Ret (Ok (address, match balance with Ok x => x | Err _ => str "0.000000" end), with_machine s b)
  end.
End Commands.

(** ** The window ([App.tsx]) *)

Record Server := mkServer { ens : bytes; region : bytes; server_addr : bytes; human_only : bool }.

Record UiState := mkUi {
  ui_status : VpnStatus;
  ui_assigned_ip : option bytes;
  ui_wallet : option (bytes * bytes);          (* the address and its balance *)
  ui_error : option bytes;
  ui_health : option HealthEvent;
  ui_server : Server;
  ui_proof : option Value;
  ui_verification : option bytes;              (* the address in the code shown, when it is *)
  ui_verification_status : bytes;
  ui_intervals : list (nat * Server);          (* the timers that run *)
  ui_polling : option nat;                     (* [pollingRef.current] *)
  ui_next_interval : nat;
}.

(** The setters of [useState]. *)
Definition set_status v u := mkUi v (ui_assigned_ip u) (ui_wallet u) (ui_error u) (ui_health u) (ui_server u) (ui_proof u)
  (ui_verification u) (ui_verification_status u) (ui_intervals u) (ui_polling u) (ui_next_interval u).
Definition set_assigned_ip v u := mkUi (ui_status u) v (ui_wallet u) (ui_error u) (ui_health u) (ui_server u) (ui_proof u)
  (ui_verification u) (ui_verification_status u) (ui_intervals u) (ui_polling u) (ui_next_interval u).
Definition set_wallet v u := mkUi (ui_status u) (ui_assigned_ip u) v (ui_error u) (ui_health u) (ui_server u) (ui_proof u)
  (ui_verification u) (ui_verification_status u) (ui_intervals u) (ui_polling u) (ui_next_interval u).
Definition set_error v u := mkUi (ui_status u) (ui_assigned_ip u) (ui_wallet u) v (ui_health u) (ui_server u) (ui_proof u)
  (ui_verification u) (ui_verification_status u) (ui_intervals u) (ui_polling u) (ui_next_interval u).
Definition set_health v u := mkUi (ui_status u) (ui_assigned_ip u) (ui_wallet u) (ui_error u) v (ui_server u) (ui_proof u)
  (ui_verification u) (ui_verification_status u) (ui_intervals u) (ui_polling u) (ui_next_interval u).
Definition set_server v u := mkUi (ui_status u) (ui_assigned_ip u) (ui_wallet u) (ui_error u) (ui_health u) v (ui_proof u)
  (ui_verification u) (ui_verification_status u) (ui_intervals u) (ui_polling u) (ui_next_interval u).
Definition set_proof v u := mkUi (ui_status u) (ui_assigned_ip u) (ui_wallet u) (ui_error u) (ui_health u) (ui_server u) v
  (ui_verification u) (ui_verification_status u) (ui_intervals u) (ui_polling u) (ui_next_interval u).
Definition set_verification v u := mkUi (ui_status u) (ui_assigned_ip u) (ui_wallet u) (ui_error u) (ui_health u) (ui_server u)
  (ui_proof u) v (ui_verification_status u) (ui_intervals u) (ui_polling u) (ui_next_interval u).
Definition set_verification_status v u := mkUi (ui_status u) (ui_assigned_ip u) (ui_wallet u) (ui_error u) (ui_health u)
  (ui_server u) (ui_proof u) (ui_verification u) v (ui_intervals u) (ui_polling u) (ui_next_interval u).

(** [if (pollingRef.current) clearInterval(pollingRef.current)] *)
Definition clear_polling u := mkUi (ui_status u) (ui_assigned_ip u) (ui_wallet u) (ui_error u) (ui_health u) (ui_server u)
  (ui_proof u) (ui_verification u) (ui_verification_status u)
  (filter (fun i => Some i.1 <> ui_polling u) (ui_intervals u)) (ui_polling u) (ui_next_interval u).

(** What the window asks of the process, and what it is told. The calls of a verification
    carry the server that was selected when it was started. *)
Inductive Call :=
| CallStatus                                     (* when the window opens *)
| CallConnect (world_proof : option Value) (server_ip : bytes)
| CallDisconnect
| CallWallet                                     (* every three seconds *)
| CallStart (server : Server)
| CallPoll (server : Server).

Inductive Reply :=
| ReplyStatus (s : VpnStatus)
| ReplyConnect (r : result bytes ConnectedInfo)
| ReplyDisconnect (r : result bytes unit)
| ReplyWallet (r : result bytes (bytes * bytes))
| ReplyStart (server : Server) (r : result bytes bytes)
| ReplyPoll (server : Server) (r : result bytes Value).

Inductive Message := StateMessage (e : VpnStateEvent) | HealthMessage (h : HealthEvent) | ReplyMessage (r : Reply).

(** A string that counts as true. *)
Definition given (o : option bytes) : bool := match o with Some (_ :: _) => true | _ => false end.

(** The listener of [vpn-state]. *)
Definition on_state_event (e : VpnStateEvent) (u : UiState) : UiState :=
  let u := set_status (se_status e) u in
  let u := if given (se_assigned_ip e) then set_assigned_ip (se_assigned_ip e) u else u in
  let u := if given (se_error e) then set_error (se_error e) u else u in
  match se_status e with
  | Disconnected => set_error None (set_health None (set_assigned_ip None u))
  | Connecting => set_error None u
  | _ => u
  end.

(** The listener of [vpn-health]. *)
Definition on_health_event (h : HealthEvent) (u : UiState) : UiState :=
  let u := set_health (Some h) u in
  if process_alive h then u else set_error (Some (str "VPN process died unexpectedly")) (set_status StatusError u).

Definition do_connect (server : Server) (proof : option Value) (u : UiState) : UiState * list Call :=
  (set_status Connecting (set_error None u), [CallConnect proof (server_addr server)]).

Definition after_connect (r : result bytes ConnectedInfo) (u : UiState) : UiState :=
  match r with
  | Ok info =>
      set_status Connected (set_wallet (Some (wallet_address info, gateway_balance info))
        (set_assigned_ip (Some (info_assigned_ip info)) u))
  | Err e => set_status Disconnected (set_error (Some e) u)
  end.

Definition after_disconnect (r : result bytes unit) (u : UiState) : UiState :=
  match r with
  | Ok _ => set_proof None (set_error None (set_health None (set_assigned_ip None (set_status Disconnected u))))
  | Err e => set_status Disconnected (set_error (Some e) u)
  end.

(** [startWorldIdPoll] *)
Definition start_poll (server : Server) (u : UiState) : UiState :=
  let i := ui_next_interval u in
  mkUi (ui_status u) (ui_assigned_ip u) (ui_wallet u) (ui_error u) (ui_health u) (ui_server u) (ui_proof u)
    (ui_verification u) (ui_verification_status u) (ui_intervals u ++ [(i, server)]) (Some i) (S i).

Definition after_start (server : Server) (r : result bytes bytes) (u : UiState) : UiState :=
  match r with
  | Ok url => start_poll server (set_verification (Some url) u)
  | Err e => set_error (Some (str "World ID: " ++ e)) u
  end.

Definition after_poll (server : Server) (r : result bytes Value) (u : UiState) : UiState * list Call :=
  match r with
  | Ok resp =>
      let status := default [] (as_str (value_at (str "status") resp)) in
      let u := set_verification_status status u in
      if bool_decide (status = str "confirmed") then
        let result := value_get (str "result") resp in
        do_connect server result (set_verification None (set_proof result (clear_polling u)))
      else (u, [])
  | Err e => (set_verification None (set_error (Some e) (clear_polling u)), [])
  end.

Definition handle_click (u : UiState) : UiState * list Call :=
  match ui_status u with
  | Connected | StatusError => (set_status Disconnecting u, [CallDisconnect])
  | Disconnected =>
      if human_only (ui_server u) && bool_decide (ui_proof u = None)
      then (set_verification_status (str "starting") (set_error None u), [CallStart (ui_server u)])
      else do_connect (ui_server u) (ui_proof u) u
  | Connecting | Disconnecting => (u, [])
  end.

(** A row of the list of servers, and the button that closes the code. *)
Definition select_server (server : Server) (u : UiState) : UiState := set_proof None (set_server server u).

Definition close_verification (u : UiState) : UiState := clear_polling (set_verification None u).

Definition on_message (m : Message) (u : UiState) : UiState * list Call :=
  match m with
  | StateMessage e => (on_state_event e u, [])
  | HealthMessage h => (on_health_event h u, [])
  | ReplyMessage (ReplyStatus s) => (set_status s u, [])
  | ReplyMessage (ReplyConnect r) => (after_connect r u, [])
  | ReplyMessage (ReplyDisconnect r) => (after_disconnect r u, [])
  | ReplyMessage (ReplyWallet r) => (match r with Ok info => set_wallet (Some info) u | Err _ => u end, [])
  | ReplyMessage (ReplyStart server r) => (after_start server r u, [])
  | ReplyMessage (ReplyPoll server r) => after_poll server r u
  end.

(** ** Both sides *)

(** A task, with what is left of it to do. *)
Inductive Task :=
| NewCall (c : Call)                                       (* to be started *)
| Connect (world_proof : option Value) (server_ip : bytes) (* waits for the lock *)
| Disconnect
| Announce (e : VpnStateEvent) (r : Reply)                 (* has released the lock *)
| Answer (r : Reply)
| Watch (token : nat) (iface : bytes)                      (* [start_health_check] *)
| Watched (token : nat) (iface : bytes) (h : HealthEvent) (alive : bool).

Record App (Session M : Type) := mkApp {
  ui : UiState;
  back : AppState Session M;
  tasks : list Task;
  inbox : list Message;                                    (* on the way to the window *)
}.
Arguments mkApp {Session M}.
Arguments ui {Session M}.
Arguments back {Session M}.
Arguments tasks {Session M}.
Arguments inbox {Session M}.

Inductive Step :=
| Click
| Select (server : Server)
| Close
| Refresh
| Tick (interval : nat)
| Deliver
| Run (i : nat)
| StopWatch (i : nat).

Section Application.
Context (os : Platform).
Context {M : Type} `{Y : System M} `{J : Json} `{B64 : Base64} `{C : Crypto} `{Eth : Ethereum} `{Hx : Hex} `{E : Env}.
Context {RpContext Session : Type} `{W : WorldId RpContext Session M}.
Context (debug_args : list bytes -> bytes) (env_var : bytes -> option bytes) (home : option bytes).
Context (register_from_json : bytes -> result bytes RegisterResponse).

Implicit Types (a : App Session M) (b : AppState Session M).

Abbreviation locked_connect := (locked_connect os debug_args env_var home register_from_json).
Abbreviation locked_disconnect := (locked_disconnect os debug_args).

(** The loop of [start_health_check] after a round. *)
Definition watch_round (token : nat) (iface : bytes) (h : HealthEvent) (alive : bool) : list Message * list Task :=
  if alive then ([HealthMessage h], [Watch token iface])
  else ([HealthMessage h; StateMessage (mkStateEvent StatusError None (Some (str "boringtun process died")))], []).

(** The next part of a task: its messages, what is left, and the tasks it starts. A task
    that panics is gone. *)
Definition run_task (t : Task) b : list Message * list Task * AppState Session M :=
  match t with
  | NewCall CallStatus => ([], [Answer (ReplyStatus (get_status b))], b)
  | NewCall (CallConnect proof ip) => ([StateMessage connecting_event], [Connect proof ip], b)
  | NewCall CallDisconnect => ([StateMessage disconnecting_event], [Disconnect], b)
  | NewCall CallWallet =>
      match get_wallet_info env_var home b with
      | Ret (r, b) => ([], [Answer (ReplyWallet r)], b)
      | Panic => ([], [], b)
      end
  | NewCall (CallStart server) =>
      let '(r, b) := start_world_id env_var home (Some (server_addr server)) b in ([], [Answer (ReplyStart server r)], b)
  | NewCall (CallPoll server) => let '(r, b) := poll_world_id b in ([], [Answer (ReplyPoll server r)], b)
  | Connect proof ip =>
      match locked_connect proof (Some ip) b with
      | Ret (r, watch, b) =>
          ([], Announce (connect_event r) (ReplyConnect r)
               :: match watch with Some (token, iface) => [Watch token iface] | None => [] end, b)
      | Panic => ([], [], b)
      end
  | Disconnect => let '(r, b) := locked_disconnect b in ([], [Announce (disconnect_event r) (ReplyDisconnect r)], b)
  | Announce e r => ([StateMessage e], [Answer r], b)
  | Answer r => ([ReplyMessage r], [], b)
  | Watch token iface =>
      let '(h, alive, s) := health_round iface (machine b) in ([], [Watched token iface h alive], with_machine s b)
  | Watched token iface h alive => let '(ms, ts) := watch_round token iface h alive in (ms, ts, b)
  end.

Definition with_ui (uc : UiState * list Call) a : App Session M :=
  mkApp uc.1 (back a) (tasks a ++ (NewCall <$> uc.2)) (inbox a).

(** [None] if the step is not possible. A task that waits for the timer or for its
    cancellation may see either first. *)
Definition app_step (l : Step) a : option (App Session M) :=
  match l with
  | Click => Some (with_ui (handle_click (ui a)) a)
  | Select server => Some (with_ui (select_server server (ui a), []) a)
  | Close => Some (with_ui (close_verification (ui a), []) a)
  | Refresh => Some (with_ui (ui a, [CallWallet]) a)
  | Tick i =>
      x ← list_find (fun x => x.1 = i) (ui_intervals (ui a));
      Some (with_ui (ui a, [CallPoll x.2.2]) a)
  | Deliver =>
      match inbox a with
      | m :: rest => Some (with_ui (on_message m (ui a)) (mkApp (ui a) (back a) (tasks a) rest))
      | [] => None
      end
  | Run i =>
      t ← tasks a !! i;
      let '(ms, ts, b) := run_task t (back a) in
      Some (mkApp (ui a) b (remove_nth i (tasks a) ++ ts) (inbox a ++ ms))
  | StopWatch i =>
      match tasks a !! i with
      | Some (Watch token _) =>
          if bool_decide (token ∈ cancelled (back a))
          then Some (mkApp (ui a) (back a) (remove_nth i (tasks a)) (inbox a)) else None
      | _ => None
      end
  end.

Definition ui_new (server : Server) : UiState :=
  mkUi Disconnected None None None None server None None [] [] None 0.

Definition app_new (server : Server) (w : World) (s : M) : App Session M :=
  mkApp (ui_new server) (mkAppState vpn_manager_new None w s None ∅ 0) [NewCall CallStatus] [].

(** *** What the window shows *)

(** The commands of a connection, and the messages that end them. *)
Definition is_command (t : Task) : bool :=
  match t with
  | NewCall CallWallet | NewCall (CallStart _) | NewCall (CallPoll _)
  | Answer (ReplyWallet _) | Answer (ReplyStart _ _) | Answer (ReplyPoll _ _)
  | Watch _ _ | Watched _ _ _ _ => false
  | _ => true
  end.

Definition ends_command (m : Message) : bool :=
  match m with
  | ReplyMessage (ReplyWallet _) | ReplyMessage (ReplyStart _ _) | ReplyMessage (ReplyPoll _ _) | StateMessage _ | HealthMessage _ => false
  | ReplyMessage _ => true
  end.

(** A message that neither ends a command nor says that there is a connection or none. *)
Definition is_noise (m : Message) : bool :=
  match m with
  | StateMessage e => match se_status e with Connected | Disconnected => false | _ => true end
  | HealthMessage _ => true
  | ReplyMessage _ => negb (ends_command m)
  end.

(** No command is under way. *)
Definition calm a : Prop := Forall (fun t => is_command t = false) (tasks a) /\ Forall (fun m => is_noise m = true) (inbox a).

(** A command is started when none is under way, and a verification that succeeds when the
    window shows no connection. *)
Definition one_at_a_time (l : Step) a : Prop :=
  match l with
  | Click => calm a
  | Deliver =>
      match inbox a with
      | ReplyMessage (ReplyPoll server r) :: rest =>
          (after_poll server r (ui a)).2 <> [] -> calm a /\ ui_status (ui a) = Disconnected
      | _ => True
      end
  | _ => True
  end.

Inductive app_reachable : App Session M -> Prop :=
| app_start server w s : app_reachable (app_new server w s)
| app_next a l a' : app_reachable a -> one_at_a_time l a -> app_step l a = Some a' -> app_reachable a'.

(** What the window may show for a manager. *)
Definition faithful (v : VpnStatus) (m : VpnManager) : Prop :=
  match v with Connected => is_connected m = true | Disconnected => is_connected m = false | _ => True end.

Definition agrees (r : Reply) (m : VpnManager) : Prop :=
  match r with
  | ReplyStatus v => v = vpn_status m
  | ReplyConnect (Ok _) => is_connected m = true
  | ReplyConnect (Err _) | ReplyDisconnect _ => is_connected m = false
  | _ => True
  end.

Definition fits (t : Task) (m : VpnManager) : Prop :=
  match t with
  | NewCall (CallConnect _ _) | Connect _ _ => is_connected m = false
  | Announce _ r | Answer r => agrees r m /\ ends_command (ReplyMessage r) = true
  | _ => True
  end.

(** A command that has not had the lock. *)
Definition waits (t : Task) : bool := match t with NewCall _ | Connect _ _ | Disconnect => true | _ => false end.

Definition commands a : list Task := filter (fun t => is_command t = true) (tasks a).

(** The three stages: no command; one at work; its reply under way. *)
Inductive stage a : Prop :=
| stage_calm : commands a = [] -> Forall (fun m => is_noise m = true) (inbox a) -> faithful (ui_status (ui a)) (vpn (back a)) -> stage a
| stage_busy t : commands a = [t] -> Forall (fun m => ends_command m = false) (inbox a) -> fits t (vpn (back a)) ->
    (waits t = true -> Forall (fun m => is_noise m = true) (inbox a) /\ faithful (ui_status (ui a)) (vpn (back a))) -> stage a
| stage_reply l1 r l2 : commands a = [] -> inbox a = l1 ++ ReplyMessage r :: l2 ->
    Forall (fun m => ends_command m = false) l1 -> Forall (fun m => is_noise m = true) l2 ->
    ends_command (ReplyMessage r) = true -> agrees r (vpn (back a)) -> stage a.

Lemma commands_calm a : commands a = [] <-> Forall (fun t => is_command t = false) (tasks a).
Proof.
  unfold commands. induction (tasks a) as [|t l IH]; [by split|]. rewrite filter_cons, Forall_cons.
  destruct (decide (is_command t = true)) as [Ec|Ec].
  - split; [done|]. intros [? _]. congruence.
  - rewrite IH. split; [|tauto]. intros. split; [|done]. by destruct (is_command t).
Qed.

Lemma noise_no_end m : is_noise m = true -> ends_command m = false.
Proof. destruct m as [|?|r]; [done..|]. apply negb_true_iff. Qed.

Lemma noises_no_end l : Forall (fun m => is_noise m = true) l -> Forall (fun m => ends_command m = false) l.
Proof. intros Hl. eapply Forall_impl; [exact Hl|apply noise_no_end]. Qed.

Lemma stage_is_calm a : stage a -> calm a -> faithful (ui_status (ui a)) (vpn (back a)).
Proof.
  intros Hp [Ht Hi]. apply commands_calm in Ht. destruct Hp as [| t Hc _ _ _|l1 r l2 _ Hi' _ _ He _]; [done|congruence|].
  rewrite Hi', Forall_app, Forall_cons in Hi. destruct Hi as (_ & Hn & _). apply noise_no_end in Hn. congruence.
Qed.

(** The command of a task that is run is replaced. *)
Lemma commands_run a i t ts : tasks a !! i = Some t ->
  exists l, commands a ≡ₚ (if is_command t then [t] else []) ++ l
    /\ filter (fun t => is_command t = true) (remove_nth i (tasks a) ++ ts) = l ++ filter (fun t => is_command t = true) ts.
Proof.
  intros Ht. exists (filter (fun t => is_command t = true) (remove_nth i (tasks a))). split; [|apply filter_app].
  unfold commands. transitivity (filter (fun t => is_command t = true) (t :: remove_nth i (tasks a))).
  - apply filter_Permutation. unfold remove_nth. rewrite <- (take_drop_middle _ _ _ Ht) at 1. symmetry. apply Permutation_middle.
  - rewrite filter_cons. destruct (is_command t) eqn:Ec; [by rewrite decide_True|]. by rewrite decide_False.
Qed.
Lemma connect_outcome proof ip b r watch b' :
  is_connected (vpn b) = false -> locked_connect proof ip b = Ret (r, watch, b') ->
  agrees (ReplyConnect r) (vpn b').
Proof.
  intros Hm Hc. unfold App.locked_connect in Hc.
  destruct (vpn_connect _ _ _ _ _ _ _ _ _ _) as [[[[res m] w] s]|] eqn:Hv; [|done]. cbn [outcome_bind] in Hc.
  assert (match res with Ok _ => is_connected m = true | Err _ => is_connected m = false end) as Hr.
  { unfold vpn_connect in Hv. rewrite Hm in Hv. destruct (load_or_create_key _ _ _) as [[[private|e] w'] s'].
    2: { by injection Hv as <- <- _ _. }
    destruct (derive_evm_address private); [|done]. cbn [outcome_bind] in Hv.
    match type of Hv with (let '(r, s) := ?x in _) = _ => destruct x as [[[reg c]|e] s1] end.
    - destruct (query_gateway_balance_of _ _ _) as [bal s2]. by injection Hv as <- <- _ _.
    - by injection Hv as <- <- _ _. }
  destruct res as [info|e].
  - destruct (ctx m); injection Hc as <- _ <-; done.
  - by injection Hc as <- _ <-.
Qed.

Lemma disconnect_outcome b r b' : locked_disconnect b = (r, b') -> is_connected (vpn b') = false.
Proof.
  unfold App.locked_disconnect, vpn_disconnect, is_connected. destruct (ctx (vpn b)) eqn:Ec; intros [= _ <-]; cbn; [done|].
  by rewrite Ec.
Qed.

(** The window changes without a change of what it shows, and asks nothing of the connection. *)
Lemma stage_window a u cs :
  stage a -> ui_status u = ui_status (ui a) -> Forall (fun c => is_command (NewCall c) = false) cs -> stage (with_ui (u, cs) a).
Proof.
  intros Hp Hu Hcs. assert (commands (with_ui (u, cs) a) = commands a) as Hc.
  { unfold commands, with_ui. cbn. rewrite filter_app. cut (filter (fun t => is_command t = true) (NewCall <$> cs) = []).
    { intros ->. apply app_nil_r. }
    induction Hcs as [|c l Hc _ IH]; [done|]. cbn [fmap list_fmap]. rewrite filter_cons, decide_False by congruence. done. }
  destruct Hp as [H1 H2 H3|t H1 H2 H3 H4|l1 r l2 H1 H2 H3 H4 H5 H6].
  - apply stage_calm; [congruence|done|]. cbn. by rewrite Hu.
  - apply (stage_busy _ t); [congruence|done|done|]. intros Hw. cbn. rewrite Hu. by apply H4.
  - by apply (stage_reply _ l1 r l2); [congruence|..].
Qed.

(** A task that is no command does its part. *)
Lemma stage_noise a i t ms ts b :
  stage a -> tasks a !! i = Some t -> is_command t = false -> vpn b = vpn (back a) ->
  Forall (fun m => is_noise m = true) ms -> Forall (fun t => is_command t = false) ts ->
  stage (mkApp (ui a) b (remove_nth i (tasks a) ++ ts) (inbox a ++ ms)).
Proof.
  intros Hp Ht Hn Hb Hms Hts. set (a' := mkApp _ _ _ _).
  assert (commands a' ≡ₚ commands a) as Hc.
  { destruct (commands_run a i t ts Ht) as (l & H1 & H2). rewrite Hn in H1. rewrite H1. unfold commands. cbn. rewrite H2.
    apply (commands_calm (mkApp (ui a) b ts [])) in Hts. unfold commands in Hts. cbn in Hts. by rewrite Hts, app_nil_r. }
  destruct Hp as [H1 H2 H3|u H1 H2 H3 H4|l1 r l2 H1 H2 H3 H4 H5 H6]; rewrite H1 in Hc.
  - apply Permutation_nil_r in Hc. apply stage_calm; [done|by apply Forall_app|]. cbn. by rewrite Hb.
  - apply Permutation_singleton_r in Hc. apply (stage_busy _ u); [done|apply Forall_app; split; [done|by apply noises_no_end]| |].
    + cbn. by rewrite Hb.
    + intros Hw. destruct (H4 Hw). cbn. rewrite Hb. split; [by apply Forall_app|done].
  - apply Permutation_nil_r in Hc. apply (stage_reply _ l1 r (l2 ++ ms)); [done| |done|by apply Forall_app|done|].
    + cbn. by rewrite H2, <- app_assoc.
    + cbn. by rewrite Hb.
Qed.

Ltac grow := cbn; apply Forall_app_2; [done|by repeat constructor].

(** The command does its part: it stays the only one, or ends. *)
Lemma stage_command a i t ms ts b :
  stage a -> tasks a !! i = Some t -> is_command t = true -> run_task t (back a) = (ms, ts, b) ->
  stage (mkApp (ui a) b (remove_nth i (tasks a) ++ ts) (inbox a ++ ms)).
Proof.
  intros Hp Ht Hn Hr. destruct (commands_run a i t ts Ht) as (l & Hl & Hrest). rewrite Hn in Hl. cbn in Hl.
  destruct Hp as [H1 _ _|u H1 Hin Hfit Hw|l1 r l2 H1 _ _ _ _ _]; rewrite H1 in Hl.
  1,3: by apply Permutation_nil_l in Hl.
  pose proof (Permutation_length Hl) as Hlen. destruct l; [|done]. apply Permutation_singleton_r in Hl. injection Hl as ->.
  cbn in Hrest. set (a' := mkApp _ _ _ _). change (commands a' = filter (fun t => is_command t = true) ts) in Hrest.
  destruct t as [[|proof ip| | |server|server]|proof ip| |e r|r|token iface|token iface h alive]; try done; cbn in Hr.
  - injection Hr as <- <- <-. apply (stage_busy _ (Answer (ReplyStatus (get_status (back a))))); [done| |done..]. cbn.
    by rewrite app_nil_r.
  - injection Hr as <- <- <-. destruct (Hw eq_refl). apply (stage_busy _ (Connect proof ip)); [done|grow|done|].
    intros _. split; [grow|done].
  - injection Hr as <- <- <-. destruct (Hw eq_refl). apply (stage_busy _ Disconnect); [done|grow|done|].
    intros _. split; [grow|done].
  - destruct (locked_connect proof (Some ip) (back a)) as [[[r watch] b']|] eqn:Hc; injection Hr as <- <- <-.
    + apply (stage_busy _ (Announce (connect_event r) (ReplyConnect r))); [by destruct watch as [[]|]| | |done].
      * cbn. by rewrite app_nil_r.
      * split; [|done]. by eapply connect_outcome.
    + destruct (Hw eq_refl). apply stage_calm; [done| |done]. cbn. by rewrite app_nil_r.
  - destruct (locked_disconnect (back a)) as [r b'] eqn:Hc. injection Hr as <- <- <-.
    apply (stage_busy _ (Announce (disconnect_event r) (ReplyDisconnect r))); [done|cbn; by rewrite app_nil_r| |done].
    split; [|done]. by eapply disconnect_outcome.
  - injection Hr as <- <- <-. apply (stage_busy _ (Answer r)); [|grow|done|done].
    rewrite Hrest. destruct Hfit as [_ He]. by destruct r.
  - injection Hr as <- <- <-. destruct Hfit as [Hag He]. by apply (stage_reply _ (inbox a) r []).
Qed.

(** A command is started. *)
Lemma stage_started a u c :
  commands a = [] -> Forall (fun m => is_noise m = true) (inbox a) -> faithful (ui_status u) (vpn (back a)) ->
  is_command (NewCall c) = true -> fits (NewCall c) (vpn (back a)) -> stage (with_ui (u, [c]) a).
Proof.
  intros Hc Hi Hf Hn Hfit. apply (stage_busy _ (NewCall c)); [|by apply noises_no_end|done|done].
  unfold commands, with_ui. cbn. rewrite filter_app. unfold commands in Hc. rewrite Hc. cbn. by rewrite decide_True.
Qed.

Lemma poll_calls server r u :
  (after_poll server r u).2 = [] /\ ui_status (after_poll server r u).1 = ui_status u
  \/ exists proof, (after_poll server r u).2 = [CallConnect proof (server_addr server)]
       /\ ui_status (after_poll server r u).1 = Connecting.
Proof. destruct r as [resp|e]; cbn; [destruct (bool_decide _); cbn; eauto|eauto]. Qed.

Lemma noise_faithful m u v :
  is_noise m = true -> faithful (ui_status u) v -> (on_message m u).2 = [] -> faithful (ui_status (on_message m u).1) v.
Proof.
  intros Hm Hf. destruct m as [e|h|[s|r|r|r|server r|server r]]; try done; cbn.
  - unfold on_state_event. cbn in Hm. by destruct (se_status e), (given _), (given _).
  - unfold on_health_event. by destruct (process_alive h).
  - by destruct r.
  - by destruct r.
  - destruct (poll_calls server r u) as [[_ ->]|(proof & -> & _)]; [done|discriminate].
Qed.

Lemma reply_faithful r u v :
  ends_command (ReplyMessage r) = true -> agrees r v ->
  faithful (ui_status (on_message (ReplyMessage r) u).1) v /\ (on_message (ReplyMessage r) u).2 = [].
Proof.
  intros He Ha. destruct r as [s|[info|e]|[]| | |]; try done; cbn in Ha |- *; [|done..].
  split; [|done]. rewrite Ha. unfold vpn_status. by destruct (is_connected v) eqn:Ec.
Qed.

(** A message that asks for nothing, when the window is free to show anything. *)
Lemma stage_deliver a m rest :
  stage a -> inbox a = m :: rest -> (on_message m (ui a)).2 = [] ->
  stage (with_ui (on_message m (ui a)) (mkApp (ui a) (back a) (tasks a) rest)).
Proof.
  intros Hp Hin Hcalls. destruct (on_message m (ui a)) as [u cs] eqn:Em. cbn in Hcalls. subst cs.
  set (a' := with_ui _ _). assert (commands a' = commands a) as Hc by (unfold commands; cbn; by rewrite app_nil_r).
  assert (forall v, is_noise m = true -> faithful (ui_status (ui a)) v -> faithful (ui_status u) v) as Hn.
  { intros v H1 H2. pose proof (noise_faithful m (ui a) v H1 H2) as H3. rewrite Em in H3. by apply H3. }
  destruct Hp as [H1 H2 H3|t H1 H2 H3 H4|l1 r l2 H1 H2 H3 H4 H5 H6].
  - rewrite Hin in H2. inversion H2; subst. apply stage_calm; [congruence|done|]. by apply Hn.
  - rewrite Hin in H2, H4. inversion H2; subst. apply (stage_busy _ t); [congruence|done|done|]. intros Hw.
    destruct (H4 Hw) as [H7 H8]. inversion H7; subst. split; [done|]. by apply Hn.
  - rewrite Hin in H2. destruct l1 as [|m' l1]; injection H2 as -> ->.
    + destruct (reply_faithful r (ui a) (vpn (back a)) H5 H6) as [Hf _]. rewrite Em in Hf. by apply stage_calm; [congruence|..].
    + inversion H3; subst. by apply (stage_reply _ l1 r l2); [congruence|..].
Qed.

Lemma start_keeps_vpn ip b : vpn (start_world_id env_var home ip b).2 = vpn b.
Proof.
  unfold start_world_id. destruct (http_get _ _) as [[resp|e] s]; [|done].
  destruct (match http_body resp with Ok _ => _ | Err _ => _ end) as [v|e]; [|done].
  destruct (value_get _ _); [done|]. destruct (rp_context_new _ _ _ _ _); [|done].
  destruct (get_pubkey_b64 _ _ _) as [[key w] s']. by destruct (create_session _ _) as [[[session|e]|e] s''].
Qed.

(** A task that is no command leaves the connection alone. *)
Lemma background_task t b ms ts b' :
  is_command t = false -> run_task t b = (ms, ts, b') ->
  vpn b' = vpn b /\ Forall (fun m => is_noise m = true) ms /\ Forall (fun t => is_command t = false) ts.
Proof.
  intros Hc Hr. destruct t as [[|proof ip| | |server|server]|proof ip| |e r|[v|r|r|r|server r|server r]|token iface|token iface h alive];
    try done; cbn in Hr.
  - unfold get_wallet_info in Hr. destruct (get_wallet_address _ _ _) as [[[[address|e] w] s]|]; cbn [outcome_bind] in Hr;
      [destruct (query_gateway_balance_of _ _ _) as [balance s']|..]; injection Hr as <- <- <-;
      (split; [done|]; split; by repeat constructor).
  - pose proof (start_keeps_vpn (Some (server_addr server)) b) as Hv. destruct (start_world_id _ _ _ b) as [r b1].
    injection Hr as <- <- <-. split; [done|]. split; by repeat constructor.
  - unfold poll_world_id in Hr. destruct (world_id_session b) as [session|]; [destruct (poll_status_once _ _) as [st s]|];
      injection Hr as <- <- <-; (split; [done|]; split; by repeat constructor).
  - injection Hr as <- <- <-. split; [done|]. split; by repeat constructor.
  - injection Hr as <- <- <-. split; [done|]. split; by repeat constructor.
  - injection Hr as <- <- <-. split; [done|]. split; by repeat constructor.
  - destruct (health_round _ _) as [[h alive] s]. injection Hr as <- <- <-. split; [done|]. split; by repeat constructor.
  - unfold watch_round in Hr. destruct alive; injection Hr as <- <- <-; (split; [done|]; split; by repeat constructor).
Qed.

Lemma stage_step l a a' : stage a -> one_at_a_time l a -> app_step l a = Some a' -> stage a'.
Proof.
  intros Hp Ha Hs. destruct l as [|server| | |i| |i|i]; cbn in Ha, Hs.
  - injection Hs as <-. pose proof (stage_is_calm a Hp Ha) as Hf. destruct Ha as [Ht Hi]. apply commands_calm in Ht.
    unfold handle_click. destruct (ui_status (ui a)) eqn:Es; cbn in Hf.
    + destruct (_ && _); [by apply stage_window; [..|repeat constructor]|]. by apply stage_started.
    + by apply stage_window.
    + by apply stage_started.
    + by apply stage_window.
    + by apply stage_started.
  - injection Hs as <-. by apply stage_window.
  - injection Hs as <-. by apply stage_window.
  - injection Hs as <-. by apply stage_window; [..|repeat constructor].
  - destruct (list_find _ _) as [[j x]|]; [|done]. injection Hs as <-. by apply stage_window; [..|repeat constructor].
  - destruct (inbox a) as [|m rest] eqn:Hin; [done|]. injection Hs as <-.
    destruct (decide ((on_message m (ui a)).2 = [])) as [Hc|Hc]; [by apply stage_deliver|].
    destruct m as [|?|[| | | | |server r]]; try done. destruct (Ha Hc) as [Hcalm Hst].
    pose proof (stage_is_calm a Hp Hcalm) as Hf. rewrite Hst in Hf. destruct Hcalm as [Ht Hi]. apply commands_calm in Ht.
    rewrite Hin in Hi. inversion Hi; subst. cbn in Hc |- *.
    destruct (poll_calls server r (ui a)) as [[Hn _]|(proof & Hcs & Hu)]; [done|].
    destruct (after_poll server r (ui a)) as [u cs]. cbn in Hcs, Hu. subst cs. apply stage_started; [done|done| |done|done].
    by rewrite Hu.
  - destruct (tasks a !! i) as [t|] eqn:Ht; [|done]. cbn in Hs. destruct (run_task t (back a)) as [[ms ts] b] eqn:Hr.
    injection Hs as <-. destruct (is_command t) eqn:Hc; [by eapply stage_command|].
    destruct (background_task t (back a) ms ts b Hc Hr) as (H1 & H2 & H3). by apply (stage_noise a i t).
  - destruct (tasks a !! i) as [t|] eqn:Ht; [|done]. destruct t as [| | | | |token iface|]; try done.
    destruct (bool_decide _); [|done]. injection Hs as <-.
    pose proof (stage_noise a i (Watch token iface) [] [] (back a) Hp Ht eq_refl eq_refl) as Hn. rewrite !app_nil_r in Hn. by apply Hn.
Qed.

Lemma app_stage a : app_reachable a -> stage a.
Proof.
  induction 1 as [server w s|a l a' _ IH Ha Hs]; [|by eapply stage_step].
  by apply (stage_busy _ (NewCall CallStatus)).
Qed.

(** C23. The window tells the truth about the connection: when no command is under way and
    every message has arrived, it shows a connection only if the process holds one, and
    none only if it holds none, whatever the machine, the server and the verification
    service answer, and however tasks and deliveries interleave. Required is that the user,
    or a verification, starts a command only when the one before has been answered. *)
Theorem window_faithful a :
  app_reachable a -> calm a ->
  (ui_status (ui a) = Connected -> is_connected (vpn (back a)) = true)
  /\ (ui_status (ui a) = Disconnected -> is_connected (vpn (back a)) = false).
Proof.
  intros Hr Hc. pose proof (stage_is_calm a (app_stage a Hr) Hc) as Hf. split; intros Hs; by rewrite Hs in Hf.
Qed.

(** *** Runs *)

Definition app_steps (ls : list Step) a : option (App Session M) :=
  foldl (fun o l => a ← o; app_step l a) (Some a) ls.

Definition calm_now a : bool := forallb (fun t => negb (is_command t)) (tasks a) && forallb is_noise (inbox a).

Lemma calm_now_calm a : calm_now a = true -> calm a.
Proof.
  intros [H1 H2]%andb_true_iff. split; apply Forall_forall.
  - intros t Ht%list_elem_of_In. rewrite forallb_forall in H1. by apply negb_true_iff, H1.
  - intros m Hm%list_elem_of_In. rewrite forallb_forall in H2. by apply H2.
Qed.

(** Runs in which verifications do not end. *)
Definition allowed (l : Step) a : bool :=
  match l with
  | Click => calm_now a
  | Deliver => match inbox a with ReplyMessage (ReplyPoll _ _) :: _ => false | _ => true end
  | _ => true
  end.

Definition allowed_steps (ls : list Step) a : option (App Session M) :=
  foldl (fun o l => a ← o; if allowed l a then app_step l a else None) (Some a) ls.

Lemma allowed_reachable ls a a' : app_reachable a -> allowed_steps ls a = Some a' -> app_reachable a'.
Proof.
  revert a'. induction ls as [|l ls IH] using rev_ind; intros a' Hr; [by intros [= <-]|].
  unfold allowed_steps. rewrite foldl_snoc. fold (allowed_steps ls a). destruct (allowed_steps ls a) as [a1|]; [|done]. cbn.
  destruct (allowed l a1) eqn:Hl; [|done]. intros Hs. apply (app_next a1 l a'); [by apply IH| |done].
  destruct l; try done; cbn in Hl |- *; [by apply calm_now_calm|]. by destruct (inbox a1) as [|[|?|[]] ?].
Qed.
End Application.

(** ** An example *)

#[local] Existing Instance toy_ethereum.
#[local] Existing Instance toy_crypto.
#[local] Existing Instance toy_base64.
#[local] Existing Instance toy_hex.
#[local] Existing Instance example_env.
#[local] Instance wordless_json : Json := {| json_from_str _ := Err []; json_to_string _ := [] |}.

(** A machine on which everything succeeds, and a service that cannot be reached. *)
#[local] Instance plain_machine : System Z := example_machine (fun _ => false) true.
#[local] Instance no_world_id : WorldId unit unit Z := {|
  http_get _ s := (Err [], s);
  rp_context_new _ _ _ _ _ := Err [];
  create_session _ s := (Err [], s);
  connect_url _ := [];
  poll_status_once _ s := (Err [], s)
|}.

Definition example_register (_ : bytes) : result bytes RegisterResponse :=
  Ok (mkRegister (str "pub") (str "204.168.211.96:51820") (str "10.0.0.185/32")).

Definition example_app : App unit Z :=
  app_new (mkServer (str "ethglobal.veil.eth") (str "EU") (str "37.27.29.160") false) (mkWorld 0 0) 0.

(** The window learns the status; the user connects, and the command runs to its end. *)
Definition opened : list Step := [Run 0; Run 0; Deliver].
Definition connects : list Step := opened ++ [Click; Run 0; Run 0; Run 0; Run 1; Deliver; Deliver; Deliver].

Lemma window_faithful_witness : exists a : App unit Z,
  ui_status (ui a) = Connected /\ is_connected (vpn (back a)) = true.
Proof.
  destruct (allowed_steps Linux (fun _ => []) (fun _ => None) None example_register connects example_app) as [a|] eqn:Ea.
  2: { exfalso. revert Ea. vm_compute. discriminate. }
  assert (match allowed_steps Linux (fun _ => []) (fun _ => None) None example_register connects example_app with
          | Some a => match ui_status (ui a) with Connected => calm_now a | _ => false end
          | None => false
          end = true) as Hs by (vm_compute; reflexivity).
  rewrite Ea in Hs. destruct (ui_status (ui a)) eqn:Eu; try discriminate Hs. exists a. split; [exact Eu|].
  apply (window_faithful Linux (fun _ => []) (fun _ => None) None example_register a).
  - apply (allowed_reachable Linux (fun _ => []) (fun _ => None) None example_register connects example_app); [|exact Ea]. apply app_start.
  - by apply calm_now_calm.
  - exact Eu.
Defined.

(** The user disconnects, and connects again after the event but before the answer; the
    answer enables the button once more, and the user connects a second time. *)
Definition hurries : list Step :=
  connects ++ [Click; Run 1; Run 1; Run 1; Deliver; Deliver; Run 1; Click; Deliver; Click]
  ++ replicate 5 (Run 1) ++ replicate 3 (Run 2) ++ replicate 6 Deliver.

Definition connects_again : list Step := [Click] ++ replicate 4 (Run 2) ++ replicate 3 Deliver.

Definition shows_none (a : App unit Z) : bool :=
  match ui_status (ui a) with Disconnected => calm_now a && is_connected (vpn (back a)) | _ => false end.

(** Without waiting for answers the window ends up showing no connection while there is
    one, and the button that it offers cannot end it: each further click is refused, and
    the window shows no connection again. *)
Theorem hurry_hides_connection :
  let steps := app_steps Linux (fun _ => []) (fun _ => None) None example_register in
  exists a a',
    steps hurries example_app = Some a /\ steps connects_again a = Some a' /\ shows_none a = true /\ shows_none a' = true
    /\ ui_error (ui a') = Some (str "Already connected").
Proof.
  intros steps.
  assert (match steps hurries example_app with
          | Some a =>
              match steps connects_again a with
              | Some a' => shows_none a && shows_none a' && bool_decide (ui_error (ui a') = Some (str "Already connected"))
              | None => false
              end
          | None => false
          end = true) as Hs by (vm_compute; reflexivity).
  destruct (steps hurries example_app) as [a|]; [|discriminate Hs]. destruct (steps connects_again a) as [a'|] eqn:Ea; [|discriminate Hs].
  apply andb_true_iff in Hs as [[H1 H2]%andb_true_iff H3%bool_decide_eq_true]. by exists a, a'.
Qed.
