(* ===== verification/Relay.v ===== *)
(** * Datagrams over a WebSocket

    [device/ws_bridge.rs] and [device/ws_proxy.rs]: next to the client, the bridge carries the
    datagrams of a local UDP port over a WebSocket; next to the node, the proxy hands them to
    the WireGuard port and carries the answers back. The sockets, the shutdown flag and the
    other end are a [Machine]: each call is an operation with an answer. The loops of the two
    run until the flag is set, so that they are modelled by a number of rounds, and the
    theorems hold after any number of them.

    A datagram longer than the buffer of a receive is cut to it, as on Unix. The compiler
    does not check overflow in a release build, and a trace line evaluates its arguments only
    when traces are enabled, which is the parameter [trace_on]. *)

From Stdlib Require Import ZArith Lia.
From Stdlib Require Strings.String.
From stdpp Require Import base numbers list option.
From S2P Require Import Prelude Errors Effects Packet Crypto Session RustText NetText.

Import Stdlib.Strings.String.StringSyntax.

Local Open Scope Z_scope.

Definition MAX_WG_PACKET : nat := 1500.
Definition UDP_READ_TIMEOUT_MS : Z := 50.
Definition WS_READ_TIMEOUT_MS : Z := 100.
Definition RECONNECT_DELAY_MS : Z := 2000.

(** ** Operations *)

Inductive ErrorKind := WouldBlock | TimedOut | OtherKind.

(** A read that only found nothing in time. *)
Definition timed_out (k : ErrorKind) : bool := match k with WouldBlock | TimedOut => true | OtherKind => false end.

(** [tungstenite::Error] and [Message] *)
Inductive WsError := WsIo (k : ErrorKind) | WsOther.

Inductive Message :=
| Text (text : bytes)
| Binary (data : bytes)
| Ping (payload : bytes)
| Pong (payload : bytes)
| Close
| Frame.

Inductive Op :=
| OpShutdown
| OpSleep (ms : Z)
| OpUdpBind (addr : bytes)
| OpUdpReadTimeout (ms : Z)
| OpLocalAddr
| OpUdpRecv
| OpUdpSend (data : bytes) (addr : SocketAddr)
| OpWsConnect (url : bytes)
| OpWsAccept
| OpWsReadTimeout (ms : Z)
| OpWsWriteTimeout (ms : Z)
| OpWsRead
| OpWsSend (m : Message)
| OpWsClose
| OpTcpBind (addr : bytes)
| OpTcpAcceptTimeout (ms : Z)
| OpTcpAccept
| OpSpawn (wg_addr : SocketAddr).

(** A receive answers with the whole datagram; a connection, with whether it is not over
    TLS. *)
Definition answer (op : Op) : Type :=
  match op with
  | OpShutdown => bool
  | OpUdpBind _ | OpTcpBind _ | OpTcpAccept => result ErrorKind unit
  | OpLocalAddr => result ErrorKind SocketAddr
  | OpUdpRecv => result ErrorKind (bytes * SocketAddr)
  | OpUdpSend _ _ => result ErrorKind nat
  | OpWsConnect _ => result WsError bool
  | OpWsRead => result WsError Message
  | OpWsAccept | OpWsSend _ | OpWsClose => result WsError unit
  | OpSpawn _ => result ErrorKind unit
  | _ => unit
  end.

Abbreviation Network := (Machine answer).
Abbreviation perform := (@Effects.perform Op answer _ _).
Abbreviation Event := (Effects.Event answer).

(** How a round of a loop ends: with another one, with a [break], or with a panic. *)
Inductive flow (S : Type) :=
| Next (st : S)
| Break (st : S)
| Dies.
Arguments Next {S} st.
Arguments Break {S} st.
Arguments Dies {S}.

(** ** The two relays *)

Section Relay.
Context {M : Type} `{Y : Network M} (trace_on : bool).

Definition then_ {S} (m : M -> flow S * M) (k : S -> M -> flow S * M) (s : M) : flow S * M :=
  let '(f, s) := m s in
  match f with Next st => k st s | _ => (f, s) end.

(** [loop { ... }], of which at most [n] rounds are run. *)
Fixpoint rounds {S} (round : S -> M -> flow S * M) (n : nat) (st : S) (s : M) : flow S * M :=
  match n with
  | O => (Next st, s)
  | Datatypes.S n => then_ (round st) (rounds round n) s
  end.

(** [udp.recv_from(&mut buf)]: the length, the source and the buffer. *)
Definition recv_from (buf : bytes) (s : M) : result ErrorKind (nat * SocketAddr * bytes) * M :=
  let '(r, s) := perform OpUdpRecv s in
  match r with
  | Ok (d, from) => let n := Nat.min (length d) (length buf) in (Ok (n, from, take n d ++ drop n buf), s)
  | Err k => (Err k, s)
  end.

(** *** The bridge *)

Record Bridge := mkBridge {
  client_addr : option SocketAddr;
  udp_buf : bytes;
  udp_to_ws : Z;
  ws_to_udp : Z
}.

(** The first four bytes of [n] in a trace line: [n - 1] is a [usize]. *)
Definition first4 (data : bytes) (n : nat) : outcome bytes :=
  let last := wrap 64 (Z.of_nat n - 1) in
  let! a := index data 0 in
  let! b := index data (Z.to_nat (Z.min 1 last)) in
  let! c := index data (Z.to_nat (Z.min 2 last)) in
  let! d := index data (Z.to_nat (Z.min 3 last)) in
  Ret [a; b; c; d].

Definition traced (line : outcome bytes) (b : Bridge) : flow Bridge :=
  if trace_on then match line with Ret _ => Next b | Panic => Dies end else Next b.

Definition bridge_from_udp (b : Bridge) (s : M) : flow Bridge * M :=
  let '(r, s) := recv_from (udp_buf b) s in
  match r with
  | Ok (n, from, buf) =>
      let b := mkBridge (Some from) buf (wrap 64 (udp_to_ws b + 1)) (ws_to_udp b) in
      match slice buf 0 n with
      | Panic => (Dies, s)
      | Ret packet =>
          let '(r, s) := perform (OpWsSend (Binary packet)) s in
          match r with
          | Err _ => (Break b, s)
          | Ok _ => (traced (first4 buf n) b, s)
          end
      end
  | Err k => (if timed_out k then Next b else Break b, s)
  end.

Definition bridge_from_ws (b : Bridge) (s : M) : flow Bridge * M :=
  let '(r, s) := perform OpWsRead s in
  match r with
  | Ok (Binary data) =>
      let b := mkBridge (client_addr b) (udp_buf b) (udp_to_ws b) (wrap 64 (ws_to_udp b + 1)) in
      match client_addr b with
      | Some addr =>
          let '(r, s) := perform (OpUdpSend data addr) s in
          match r with
          | Err _ => (Next b, s)
          | Ok _ => (traced (first4 data (length data)) b, s)
          end
      | None => (Next b, s)
      end
  | Ok (Ping payload) => (Next b, ignore (perform (OpWsSend (Pong payload))) s)
  | Ok Close => (Break b, s)
  | Ok _ => (Next b, s)
  | Err (WsIo k) => (if timed_out k then Next b else Break b, s)
  | Err WsOther => (Break b, s)
  end.

Definition bridge_round (b : Bridge) (s : M) : flow Bridge * M :=
  let '(shutdown, s) := perform OpShutdown s in
  if shutdown then (Break b, s) else then_ (bridge_from_udp b) bridge_from_ws s.

Definition connect_ws (url : bytes) (s : M) : bool * M :=
  let '(r, s) := perform (OpWsConnect url) s in
  match r with
  | Ok true =>
      let s := ignore (perform (OpWsReadTimeout WS_READ_TIMEOUT_MS)) s in
      (true, ignore (perform (OpWsWriteTimeout 5000)) s)
  | Ok false => (true, s)
  | Err _ => (false, s)
  end.

(** Where the bridge is: at the head of the outer loop, at the head of the inner one, after
    the loops, or nowhere, its thread having panicked. *)
Inductive Phase :=
| Outer (b : Bridge)
| Relaying (b : Bridge)
| Ended
| Died.

Definition end_session (b : Bridge) (s : M) : Phase * M :=
  let s := ignore (perform OpWsClose) s in
  let '(shutdown, s) := perform OpShutdown s in
  if shutdown then (Outer b, s) else (Outer b, ignore (perform (OpSleep RECONNECT_DELAY_MS)) s).

Definition bridge_step (url : bytes) (ph : Phase) (s : M) : Phase * M :=
  match ph with
  | Outer b =>
      let '(shutdown, s) := perform OpShutdown s in
      if shutdown then (Ended, s) else
      let '(connected, s) := connect_ws url s in
      if connected then (Relaying b, s) else (Outer b, ignore (perform (OpSleep RECONNECT_DELAY_MS)) s)
  | Relaying b =>
      let '(f, s) := bridge_round b s in
      match f with
      | Next b => (Relaying b, s)
      | Break b => end_session b s
      | Dies => (Died, s)
      end
  | Ended => (Ended, s)
  | Died => (Died, s)
  end.

Fixpoint bridge_steps (url : bytes) (n : nat) (ph : Phase) (s : M) : Phase * M :=
  match n with
  | O => (ph, s)
  | Datatypes.S n => let '(ph, s) := bridge_step url ph s in bridge_steps url n ph s
  end.

Definition run_ws_bridge (local_udp_port : Z) (url : bytes) (n : nat) (s : M) : Phase * M :=
  let '(r, s) := perform (OpUdpBind (str "127.0.0.1:" ++ show_uint local_udp_port)) s in
  match r with
  | Err _ => (Ended, s)
  | Ok _ =>
      let s := ignore (perform (OpUdpReadTimeout UDP_READ_TIMEOUT_MS)) s in
      bridge_steps url n (Outer (mkBridge None (zeros MAX_WG_PACKET) 0 0)) s
  end.

(** *** The proxy *)

Record Proxy := mkProxy {
  px_udp_buf : bytes;
  ws_to_udp_count : Z;
  udp_to_ws_count : Z
}.

Definition proxy_from_ws (wg_addr : SocketAddr) (p : Proxy) (s : M) : flow Proxy * M :=
  let '(r, s) := perform OpWsRead s in
  match r with
  | Ok (Binary data) =>
      let p := mkProxy (px_udp_buf p) (wrap 64 (ws_to_udp_count p + 1)) (udp_to_ws_count p) in
      let '(r, s) := perform (OpUdpSend data wg_addr) s in
      match r with
      | Ok _ => (Next p, s)
      | Err _ => (Break p, s)
      end
  | Ok Close => (Break p, s)
  | Ok (Ping payload) => (Next p, ignore (perform (OpWsSend (Pong payload))) s)
  | Ok _ => (Next p, s)
  | Err (WsIo k) => (if timed_out k then Next p else Break p, s)
  | Err WsOther => (Break p, s)
  end.

Definition proxy_from_udp (p : Proxy) (s : M) : flow Proxy * M :=
  let '(r, s) := recv_from (px_udp_buf p) s in
  match r with
  | Ok (n, _, buf) =>
      let p := mkProxy buf (ws_to_udp_count p) (wrap 64 (udp_to_ws_count p + 1)) in
      match slice buf 0 n with
      | Panic => (Dies, s)
      | Ret packet =>
          let '(r, s) := perform (OpWsSend (Binary packet)) s in
          match r with
          | Ok _ => (Next p, s)
          | Err _ => (Break p, s)
          end
      end
  | Err k => (if timed_out k then Next p else Break p, s)
  end.

Definition proxy_round (wg_addr : SocketAddr) (p : Proxy) (s : M) : flow Proxy * M :=
  let '(shutdown, s) := perform OpShutdown s in
  if shutdown then (Break p, s) else then_ (proxy_from_ws wg_addr p) proxy_from_udp s.

(** A session: it was refused, is in its loop after [n] rounds, has ended, or panicked. *)
Inductive ProxySession :=
| Refused
| Serving (p : Proxy)
| Served (p : Proxy)
| Panicked.

Definition handle_ws_client (wg_addr : SocketAddr) (n : nat) (s : M) : ProxySession * M :=
  let s := ignore (perform (OpWsReadTimeout WS_READ_TIMEOUT_MS)) s in
  let s := ignore (perform (OpWsWriteTimeout 5000)) s in
  let '(r, s) := perform OpWsAccept s in
  match r with
  | Err _ => (Refused, s)
  | Ok _ =>
      let '(r, s) := perform (OpUdpBind (str "127.0.0.1:0")) s in
      match r with
      | Err _ => (Refused, ignore (perform OpWsClose) s)
      | Ok _ =>
          let s := ignore (perform (OpUdpReadTimeout UDP_READ_TIMEOUT_MS)) s in
          let '(r, s) := perform OpLocalAddr s in
          match r with
          | Err _ => (Panicked, s)
          | Ok _ =>
              let '(f, s) := rounds (proxy_round wg_addr) n (mkProxy (zeros MAX_WG_PACKET) 0 0) s in
              match f with
              | Next p => (Serving p, s)
              | Break p => (Served p, ignore (perform OpWsClose) s)
              | Dies => (Panicked, s)
              end
          end
      end
  end.

(** The accept loop, of which at most [n] rounds are run: whether it has ended. *)
Fixpoint accept_rounds (wg_addr : SocketAddr) (n : nat) (s : M) : bool * M :=
  match n with
  | O => (false, s)
  | Datatypes.S n =>
      let '(shutdown, s) := perform OpShutdown s in
      if shutdown then (true, s) else
      let '(r, s) := perform OpTcpAccept s in
      match r with
      | Ok _ => accept_rounds wg_addr n (ignore (perform (OpSpawn wg_addr)) s)
      | Err _ => accept_rounds wg_addr n s
      end
  end.

Definition run_ws_proxy (bind_addr : bytes) (wg_port : Z) (n : nat) (s : M) : outcome bool * M :=
  let '(r, s) := perform (OpTcpBind bind_addr) s in
  match r with
  | Err _ => (Ret true, s)
  | Ok _ =>
      let s := ignore (perform (OpTcpAcceptTimeout 2000)) s in
      match parse_socket_addr (str "127.0.0.1:" ++ show_uint wg_port) with
      | None => (Panic, s)
      | Some wg_addr => let '(ended, s) := accept_rounds wg_addr n s in (Ret ended, s)
      end
  end.
End Relay.

(** ** What a relay receives and sends *)

Inductive input :=
| FromUdp (d : bytes) (from : SocketAddr)
| FromWs (m : Message).

Inductive output :=
| ToUdp (d : bytes) (to : SocketAddr)
| ToWs (m : Message).

Inductive IO := In (i : input) | Out (o : output).

Definition io_of (ev : Event) : list IO :=
  match ev with
  | existT op a =>
      match op return answer op -> list IO with
      | OpUdpRecv => fun r => match r with Ok (d, from) => [In (FromUdp d from)] | Err _ => [] end
      | OpWsRead => fun r => match r with Ok m => [In (FromWs m)] | Err _ => [] end
      | OpUdpSend d to => fun _ => [Out (ToUdp d to)]
      | OpWsSend m => fun _ => [Out (ToWs m)]
      | _ => fun _ => []
      end a
  end.
Definition io (es : list Event) : list IO := concat (io_of <$> es).

Definition inputs (ios : list IO) : list input := omap (fun x => match x with In i => Some i | Out _ => None end) ios.

(** The datagrams and the binary messages, of a record. *)
Definition udp_in (ios : list IO) : list bytes :=
  omap (fun x => match x with In (FromUdp d _) => Some d | _ => None end) ios.
Definition udp_out (ios : list IO) : list (bytes * SocketAddr) :=
  omap (fun x => match x with Out (ToUdp d to) => Some (d, to) | _ => None end) ios.
Definition ws_in (ios : list IO) : list bytes :=
  omap (fun x => match x with In (FromWs (Binary d)) => Some d | _ => None end) ios.
Definition ws_out (ios : list IO) : list bytes :=
  omap (fun x => match x with Out (ToWs (Binary d)) => Some d | _ => None end) ios.

(** *** What they promise

    Each input is answered at once and in full before the next one is read. The bridge
    answers the last source of a datagram. *)
Section Transducer.
Context {C : Type} (reply : C -> input -> list output) (learn : C -> input -> C).

Fixpoint transduce (c : C) (ins : list input) : list IO :=
  match ins with
  | [] => []
  | i :: ins => In i :: (Out <$> reply c i) ++ transduce (learn c i) ins
  end.

(** A record that does what is promised from [c], and leaves it at [c']. *)
Definition faithful (c : C) (es : list Event) (c' : C) : Prop :=
  io es = transduce c (inputs (io es)) /\ fold_left learn (inputs (io es)) c = c'.
End Transducer.

Definition bridge_reply (client : option SocketAddr) (i : input) : list output :=
  match i with
  | FromUdp d _ => [ToWs (Binary (take MAX_WG_PACKET d))]
  | FromWs (Binary d) => match client with Some addr => [ToUdp d addr] | None => [] end
  | FromWs (Ping payload) => [ToWs (Pong payload)]
  | FromWs _ => []
  end.
Definition bridge_learn (client : option SocketAddr) (i : input) : option SocketAddr :=
  match i with FromUdp _ from => Some from | FromWs _ => client end.

Definition proxy_reply (wg_addr : SocketAddr) (i : input) : list output :=
  match i with
  | FromUdp d _ => [ToWs (Binary (take MAX_WG_PACKET d))]
  | FromWs (Binary d) => [ToUdp d wg_addr]
  | FromWs (Ping payload) => [ToWs (Pong payload)]
  | FromWs _ => []
  end.
Definition proxy_learn (wg_addr : SocketAddr) (i : input) : SocketAddr := wg_addr.

(** *** Lemmas on records *)

Lemma io_app es es' : io (es ++ es') = io es ++ io es'.
Proof. unfold io. by rewrite fmap_app, concat_app. Qed.

Lemma inputs_app a b : inputs (a ++ b) = inputs a ++ inputs b.
Proof. apply omap_app. Qed.

Lemma inputs_out os : inputs (Out <$> os) = [].
Proof. induction os as [|o os IH]; [done|exact IH]. Qed.

Section TransducerLemmas.
Context {C : Type} (reply : C -> input -> list output) (learn : C -> input -> C).

Lemma transduce_app c ins js :
  transduce reply learn c (ins ++ js) = transduce reply learn c ins ++ transduce reply learn (fold_left learn ins c) js.
Proof.
  revert c. induction ins as [|i ins IH]; intros c; [done|]. cbn. by rewrite IH, app_assoc.
Qed.

Lemma faithful_nil c es : io es = [] -> faithful reply learn c es c.
Proof. intros He. unfold faithful. by rewrite He. Qed.

Lemma faithful_app c es c' es' c'' :
  faithful reply learn c es c' -> faithful reply learn c' es' c'' -> faithful reply learn c (es ++ es') c''.
Proof.
  intros [E <-] [E' <-]. unfold faithful. rewrite io_app, inputs_app, transduce_app, fold_left_app. split; [|done].
  by rewrite <- E, <- E'.
Qed.

(** One input and its answers. *)
Lemma faithful_reply c i es :
  io es = In i :: (Out <$> reply c i) -> faithful reply learn c es (learn c i).
Proof.
  intros He. unfold faithful. rewrite He. cbn. by rewrite inputs_out, app_nil_r.
Qed.

End TransducerLemmas.

(** A record of one input and its answers. *)
Ltac replied :=
  cbn [app];
  match goal with
  | |- faithful ?reply ?learn ?c (existT OpWsRead (Ok ?m) :: _) _ =>
      apply (faithful_reply reply learn c (FromWs m))
  | |- faithful ?reply ?learn ?c (existT OpUdpRecv (Ok (?d, ?from)) :: _) _ =>
      apply (faithful_reply reply learn c (FromUdp d from))
  | |- _ => apply faithful_nil
  end; try done.

(** ** The relays do what is promised *)

(** What is received, in the buffer. *)
Lemma received (buf d : bytes) :
  let n := Nat.min (length d) (length buf) in
  length (take n d ++ drop n buf) = length buf
  /\ slice (take n d ++ drop n buf) 0 n = Ret (take (length buf) d).
Proof.
  cbn zeta. assert (take (Nat.min (length d) (length buf)) d = take (length buf) d) as ->.
  { destruct (Nat.min_spec (length d) (length buf)) as [[? ->]|[? ->]]; [|done]. by rewrite !take_ge by lia. }
  split; [rewrite length_app, length_take, length_drop; lia|].
  rewrite slice_ok by (rewrite ?length_app, ?length_take; lia). f_equal. apply sub_app_head. rewrite length_take. lia.
Qed.

(** The trace line of a datagram in a buffer of four bytes or more; of a message of one or
    more. *)
Lemma first4_buffer buf n : (4 <= length buf)%nat -> exists l, first4 buf n = Ret l.
Proof.
  intros Hl. unfold first4.
  assert (forall k, 0 <= k <= 3 -> exists x, index buf (Z.to_nat (Z.min k (wrap 64 (Z.of_nat n - 1)))) = Ret x) as Hx.
  { intros k Hk. destruct (index_ok buf (Z.to_nat (Z.min k (wrap 64 (Z.of_nat n - 1))))) as (x & Hx & _); [lia|eauto]. }
  destruct (index_ok buf 0) as (a & -> & _); [lia|]. cbn [outcome_bind].
  destruct (Hx 1) as [b ->]; [lia|]. destruct (Hx 2) as [c ->]; [lia|]. destruct (Hx 3) as [e ->]; [lia|]. cbn. eauto.
Qed.

Lemma first4_message (data : bytes) : data <> [] -> exists l, first4 data (length data) = Ret l.
Proof.
  intros Hd. unfold first4. destruct data as [|x data]; [done|].
  assert (0 <= wrap 64 (Z.of_nat (length (x :: data)) - 1) <= Z.of_nat (length (x :: data)) - 1) as Hw.
  { unfold wrap. split; [by apply Z.mod_pos_bound|]. apply Z.mod_le; cbn [length]; lia. }
  revert Hw. generalize (wrap 64 (Z.of_nat (length (x :: data)) - 1)). intros last Hw.
  assert (forall k, exists y, index (x :: data) (Z.to_nat (Z.min k last)) = Ret y) as Hx.
  { intros k. destruct (index_ok (x :: data) (Z.to_nat (Z.min k last))) as (y & Hy & _); [lia|eauto]. }
  cbn [index unwrap lookup list_lookup outcome_bind].
  destruct (Hx 1) as [b ->], (Hx 2) as [c ->], (Hx 3) as [e ->]. cbn. eauto.
Qed.

Section Promise.
Context {M : Type} `{Y : Network M} (trace_on : bool).

Abbreviation R := (list Event * M)%type.

Lemma wp_recv_from buf Q :
  (forall d from (n := Nat.min (length d) (length buf)),
    Q (Ok (n, from, take n d ++ drop n buf)) [existT OpUdpRecv (Ok (d, from))]) ->
  (forall k, Q (Err k) [existT OpUdpRecv (Err k)]) ->
  wp (recv_from (M := R) buf) Q.
Proof.
  intros Hok Herr. apply wp_let, (wp_perform (answer := answer) OpUdpRecv).
  intros [[d from]|k]; apply wp_pure; [apply Hok|apply Herr].
Qed.

Lemma wp_then {S} (m : R -> flow S * R) (k : S -> R -> flow S * R) Q :
  wp m (fun f es => match f with
                    | Next st => wp (k st) (fun f es' => Q f (es ++ es'))
                    | _ => Q f es
                    end) ->
  wp (then_ m k) Q.
Proof.
  intros Hm. apply wp_let. eapply wp_mono; [exact Hm|]. intros [st|st|] es Hf; [exact Hf| |];
    (apply wp_pure; by rewrite app_nil_r).
Qed.

(** A loop whose rounds keep [I] and do what is promised, as far as [D] says of those that
    panic. *)
Section Rounds.
Context {S C : Type} (reply : C -> input -> list output) (learn : C -> input -> C).
Context (view : S -> C) (I : S -> Prop) (D : C -> list Event -> Prop).
Hypothesis D_after : forall c es c' es', faithful reply learn c es c' -> D c' es' -> D c (es ++ es').

Definition kept (c : C) (f : flow S) (es : list Event) : Prop :=
  match f with
  | Next st | Break st => I st /\ faithful reply learn c es (view st)
  | Dies => D c es
  end.

Lemma kept_after c es c' f es' : faithful reply learn c es c' -> kept c' f es' -> kept c f (es ++ es').
Proof.
  intros Hf. destruct f as [st|st|]; cbn; [intros []..|by apply D_after]; (split; [done|]); by eapply faithful_app.
Qed.

(** With an operation before, which is no input and no output. *)
Lemma kept_quiet (m : R -> flow S * R) c es :
  io es = [] -> wp m (kept c) -> wp m (fun f es' => kept c f (es ++ es')).
Proof. intros He Hm. eapply wp_mono; [exact Hm|]. intros f es'. apply kept_after. by apply faithful_nil. Qed.

Lemma kept_then (m : R -> flow S * R) (k : S -> R -> flow S * R) c :
  wp m (kept c) -> (forall st, I st -> wp (k st) (kept (view st))) -> wp (then_ m k) (kept c).
Proof.
  intros Hm Hk. apply wp_then. eapply wp_mono; [exact Hm|]. intros [st|st|] es Hf; [|done|done].
  destruct Hf as [HI Hf]. eapply wp_mono; [by apply Hk|]. intros f es'. by apply kept_after.
Qed.

Lemma kept_rounds (round : S -> R -> flow S * R) n st :
  (forall st, I st -> wp (round st) (kept (view st))) -> I st -> wp (rounds round n st) (kept (view st)).
Proof.
  intros Hr. revert st. induction n as [|n IH]; intros st Hst.
  - apply wp_pure. split; [done|]. by apply faithful_nil.
  - apply kept_then; auto.
Qed.
End Rounds.

(** *** The bridge *)

Abbreviation bridge_faithful := (faithful bridge_reply bridge_learn).

(** The panic of a bridge: the trace line of an empty message that was sent on. *)
Definition died (c : option SocketAddr) (es : list Event) : Prop :=
  trace_on = true
  /\ (exists es0 addr r, es = es0 ++ [existT OpWsRead (Ok (Binary [])); existT (OpUdpSend [] addr) r])
  /\ exists c', bridge_faithful c es c'.

Definition bridge_ok (b : Bridge) : Prop := length (udp_buf b) = MAX_WG_PACKET.

Abbreviation bridge_kept := (kept bridge_reply bridge_learn client_addr bridge_ok died).

Lemma died_after c es c' es' : bridge_faithful c es c' -> died c' es' -> died c (es ++ es').
Proof.
  intros Hf (Ht & (es0 & addr & r & ->) & c'' & Hf'). split_and!; [done| |].
  - exists (es ++ es0), addr, r. by rewrite app_assoc.
  - exists c''. by eapply faithful_app.
Qed.

Lemma kept_from_udp b : bridge_ok b -> wp (bridge_from_udp (M := R) trace_on b) (bridge_kept (client_addr b)).
Proof.
  intros Hb. apply wp_let, wp_recv_from.
  - intros d from n. destruct (received (udp_buf b) d) as [Hl Hs]. fold n in Hl, Hs. rewrite Hb in Hl, Hs. rewrite Hs.
    apply wp_let, (wp_perform (answer := answer) (OpWsSend _)). intros [[]|e]; apply wp_pure; cbn [app].
    + destruct (first4_buffer (take n d ++ drop n (udp_buf b)) n) as [l El]; [rewrite Hl; unfold MAX_WG_PACKET; lia|].
      unfold traced. rewrite El. assert (forall A (x : A), (if trace_on then x else x) = x) as -> by by destruct trace_on.
      split; [exact Hl|]. replied.
    + split; [exact Hl|]. replied.
  - intros k. apply wp_pure. cbn [app]. destruct (timed_out k); (split; [done|]); replied.
Qed.

Lemma kept_binary b data addr :
  bridge_ok b -> client_addr b = Some addr ->
  wp (fun s => let '(r, s) := perform (OpUdpSend data addr) s in
               match r with
               | Err _ => (Next b, s)
               | Ok _ => (traced trace_on (first4 data (length data)) b, s)
               end)
     (fun f es => bridge_kept (client_addr b) f (existT OpWsRead (Ok (Binary data)) :: es) : Prop).
Proof.
  intros Hb Ha. assert (forall r, bridge_faithful (client_addr b)
      [existT OpWsRead (Ok (Binary data)); existT (OpUdpSend data addr) r] (client_addr b)) as Hf.
  { intros r. replied. by rewrite Ha. }
  apply wp_let, (wp_perform (answer := answer) (OpUdpSend data addr)). intros [n|k]; apply wp_pure; cbn [app]; [|by split].
  unfold traced. destruct trace_on eqn:Et; [|by split].
  destruct data as [|x data]; [|destruct (first4_message (x :: data)) as [l ->]; [done|by split]].
  split_and!; [done|by exists [], addr, (Ok n)|]. eexists. apply Hf.
Qed.

Lemma kept_from_ws b : bridge_ok b -> wp (bridge_from_ws (M := R) trace_on b) (bridge_kept (client_addr b)).
Proof.
  intros Hb. apply wp_let, (wp_perform (answer := answer) OpWsRead).
  intros [[t|data|payload|payload| |]|[k|]].
  2: { cbn [client_addr]. destruct (client_addr b) as [addr|] eqn:Ha.
       - apply (kept_binary (mkBridge _ _ _ _)); [exact Hb|done].
       - apply wp_pure. split; [exact Hb|]. replied. }
  2: { apply wp_ignore, (wp_perform (answer := answer) (OpWsSend _)). intros r. apply wp_pure. split; [exact Hb|]. replied. }
  all: apply wp_pure; try destruct (timed_out k); (split; [exact Hb|]); replied.
Qed.

Lemma kept_bridge_round b : bridge_ok b -> wp (bridge_round (M := R) trace_on b) (bridge_kept (client_addr b)).
Proof.
  intros Hb. apply wp_let, (wp_perform (answer := answer) OpShutdown). intros [].
  - apply wp_pure. split; [exact Hb|]. replied.
  - apply kept_quiet; [exact died_after|done|].
    apply kept_then; [exact died_after|by apply kept_from_udp|exact kept_from_ws].
Qed.

(** *** The proxy *)

Abbreviation proxy_faithful := (faithful proxy_reply proxy_learn).

Definition proxy_ok (p : Proxy) : Prop := length (px_udp_buf p) = MAX_WG_PACKET.

Abbreviation proxy_kept wg_addr := (kept proxy_reply proxy_learn (fun _ : Proxy => wg_addr) proxy_ok (fun _ _ => False)).

Lemma kept_proxy_from_ws wg_addr p : proxy_ok p -> wp (proxy_from_ws (M := R) wg_addr p) (proxy_kept wg_addr wg_addr).
Proof.
  intros Hp. apply wp_let, (wp_perform (answer := answer) OpWsRead).
  intros [[t|data|payload|payload| |]|[k|]].
  2: { apply wp_let, (wp_perform (answer := answer) (OpUdpSend _ _)).
       intros [n|k]; apply wp_pure; (split; [exact Hp|]); replied. }
  2: { apply wp_ignore, (wp_perform (answer := answer) (OpWsSend _)). intros r. apply wp_pure. split; [exact Hp|]. replied. }
  all: apply wp_pure; try destruct (timed_out k); (split; [exact Hp|]); replied.
Qed.

Lemma kept_proxy_from_udp wg_addr p : proxy_ok p -> wp (proxy_from_udp (M := R) p) (proxy_kept wg_addr wg_addr).
Proof.
  intros Hp. apply wp_let, wp_recv_from.
  - intros d from n. destruct (received (px_udp_buf p) d) as [Hl Hs]. fold n in Hl, Hs. rewrite Hp in Hl, Hs. rewrite Hs.
    apply wp_let, (wp_perform (answer := answer) (OpWsSend _)).
    intros [[]|e]; apply wp_pure; (split; [exact Hl|]); replied.
  - intros k. apply wp_pure. cbn [app]. destruct (timed_out k); (split; [done|]); replied.
Qed.

Lemma kept_proxy_round wg_addr p : proxy_ok p -> wp (proxy_round (M := R) wg_addr p) (proxy_kept wg_addr wg_addr).
Proof.
  intros Hp. apply wp_let, (wp_perform (answer := answer) OpShutdown). intros [].
  - apply wp_pure. split; [exact Hp|]. replied.
  - apply kept_quiet; [done..|].
    apply kept_then; [done|by apply kept_proxy_from_ws|intros p' Hp'; by apply kept_proxy_from_udp].
Qed.

(** *** The bridge with its sessions *)

Definition phase_kept (c : option SocketAddr) (ph : Phase) (es : list Event) : Prop :=
  match ph with
  | Outer b | Relaying b => bridge_ok b /\ bridge_faithful c es (client_addr b)
  | Ended => exists c', bridge_faithful c es c'
  | Died => died c es
  end.

Lemma phase_after c es c' ph es' : bridge_faithful c es c' -> phase_kept c' ph es' -> phase_kept c ph (es ++ es').
Proof.
  intros Hf. destruct ph as [b|b| |]; cbn; [intros []..| |by apply died_after]; [split; [done|by eapply faithful_app]..|].
  intros [c'' Hf']. exists c''. by eapply faithful_app.
Qed.

(** The operations of a part that is no input and no output. *)
Definition hush {A} (m : R -> A * R) : Prop := wp m (fun _ es => io es = []).

Lemma hush_perform op : (forall a, io_of (existT op a) = []) -> hush (perform op).
Proof. intros Hop. apply (wp_perform (answer := answer)). intros a. unfold io. cbn [fmap list_fmap concat]. by rewrite Hop. Qed.

Lemma hush_let {A B} m (k : A -> R -> B * R) : hush m -> (forall a, hush (k a)) -> hush (fun x => let '(a, x) := m x in k a x).
Proof.
  intros Hm Hk. apply wp_let. eapply wp_mono; [exact Hm|]. intros a es He. eapply wp_mono; [apply Hk|].
  intros b es' He'. by rewrite io_app, He, He'.
Qed.

Lemma hush_ignore {A B} (m : R -> A * R) (k : R -> B * R) : hush m -> hush k -> hush (fun x => k (ignore m x)).
Proof.
  intros Hm Hk. apply wp_ignore. eapply wp_mono; [exact Hm|]. intros a es He. eapply wp_mono; [apply Hk|].
  intros b es' He'. by rewrite io_app, He, He'.
Qed.

Lemma hush_pure {A} (a : A) : hush (fun x => (a, x)).
Proof. by apply wp_pure. Qed.

Lemma hush_connect url : hush (connect_ws (M := R) url).
Proof.
  apply hush_let; [by apply hush_perform|]. intros [[]|e]; [|apply hush_pure..].
  apply (hush_ignore (perform (OpWsReadTimeout _)) (fun x => (true, ignore (perform (OpWsWriteTimeout 5000)) x)));
    [by apply hush_perform|].
  apply (hush_ignore (perform (OpWsWriteTimeout _)) (fun x => (true, x))); [by apply hush_perform|apply hush_pure].
Qed.

(** What may be asked of the end of a record. *)
Definition of_end {B} (Q : B -> list Event -> Prop) : Prop := forall b es es', io es = [] -> Q b es' -> Q b (es ++ es').

Lemma hush_then {A B} (m : R -> A * R) (k : A -> R -> B * R) Q :
  of_end Q -> hush m -> (forall a, wp (k a) Q) -> wp (fun x => let '(a, x) := m x in k a x) Q.
Proof.
  intros HQ Hm Hk. apply wp_let. eapply wp_mono; [exact Hm|]. intros a es He. eapply wp_mono; [apply Hk|].
  intros b es'. by apply HQ.
Qed.

Lemma hush_first {A B} (m : R -> A * R) (k : R -> B * R) Q : of_end Q -> hush m -> wp k Q -> wp (fun x => k (ignore m x)) Q.
Proof.
  intros HQ Hm Hk. apply wp_ignore. eapply wp_mono; [exact Hm|]. intros a es He. eapply wp_mono; [exact Hk|].
  intros b es'. by apply HQ.
Qed.

Lemma hush_last {B} op (b : B) Q :
  of_end Q -> (forall a, io_of (existT op a) = []) -> Q b [] -> wp (fun x : R => (b, ignore (perform op) x)) Q.
Proof.
  intros HQ Hm Hp. apply (hush_first (perform op) (fun x => (b, x))); [done|by apply hush_perform|by apply wp_pure].
Qed.

(** [let s := ignore m s in k s] with such an [m]. *)
Ltac hushed :=
  lazymatch goal with
  | |- wp (fun x => let s := ignore ?m x in @?k x s) _ =>
      apply (hush_first m (fun s => k s s)); [done|by apply hush_perform|]; cbv beta
  end.

Lemma phase_of_end c : of_end (phase_kept c).
Proof. intros ph es es' He. apply phase_after. by apply faithful_nil. Qed.
Hint Resolve phase_of_end : core.

Lemma phase_start b : bridge_ok b -> phase_kept (client_addr b) (Outer b) [].
Proof. intros Hb. split; [done|]. replied. Qed.

Lemma kept_end_session b : bridge_ok b -> wp (end_session (M := R) b) (phase_kept (client_addr b)).
Proof.
  intros Hb. cbv beta delta [end_session]. hushed.
  apply hush_then; [done|by apply hush_perform|]. intros []; [apply wp_pure|apply hush_last; [done..|]]; by apply phase_start.
Qed.

Lemma kept_step url b ph : ph = Outer b \/ ph = Relaying b -> bridge_ok b ->
  wp (bridge_step (M := R) trace_on url ph) (phase_kept (client_addr b)).
Proof.
  intros [-> | ->] Hb.
  - apply hush_then; [done|by apply hush_perform|]. intros []; [apply wp_pure; eexists; replied|].
    apply hush_then; [done|by apply hush_connect|]. intros []; [apply wp_pure|apply hush_last; [done..|]]; by apply phase_start.
  - apply wp_let. eapply wp_mono; [by apply kept_bridge_round|]. intros [b'|b'|] es Hf.
    + apply wp_pure. by rewrite app_nil_r.
    + destruct Hf as [Hb' Hf]. eapply wp_mono; [by apply kept_end_session|]. intros ph es'. by apply phase_after.
    + apply wp_pure. by rewrite app_nil_r.
Qed.

Lemma steps_stuck url n ph : ph = Ended \/ ph = Died ->
  wp (bridge_steps (M := R) trace_on url n ph) (fun ph' es => ph' = ph /\ es = []).
Proof. intros Hph. induction n as [|n IH]; [by apply wp_pure|]. by destruct Hph as [-> | ->]. Qed.

Lemma kept_steps url n b ph : ph = Outer b \/ ph = Relaying b -> bridge_ok b ->
  wp (bridge_steps (M := R) trace_on url n ph) (phase_kept (client_addr b)).
Proof.
  revert b ph. induction n as [|n IH]; intros b ph Hph Hb; [apply wp_pure; destruct Hph as [-> | ->]; by apply phase_start|].
  apply wp_let. eapply wp_mono; [by apply (kept_step url b)|]. intros ph' es Hk.
  destruct ph' as [b'|b'| |].
  1, 2: destruct Hk as [Hb' Hf]; eapply wp_mono; [by apply (IH b'); auto|]; intros ph'' es'; by apply phase_after.
  all: eapply wp_mono; [apply steps_stuck; auto|]; intros ph'' es' [-> ->]; by rewrite app_nil_r.
Qed.

(** *** A session of the proxy *)

Definition session_kept (wg_addr : SocketAddr) (r : ProxySession) (es : list Event) : Prop :=
  match r with
  | Refused => io es = []
  | Serving p | Served p => proxy_ok p /\ proxy_faithful wg_addr es wg_addr
  | Panicked => exists es0 k, es = es0 ++ [existT OpLocalAddr (Err k)] /\ io es = []
  end.

Lemma session_of_end wg_addr : of_end (session_kept wg_addr).
Proof.
  intros r es es' He. destruct r as [|p|p|]; cbn.
  - intros He'. by rewrite io_app, He, He'.
  - intros [Hp Hf]. split; [done|]. eapply faithful_app; [by apply faithful_nil|done].
  - intros [Hp Hf]. split; [done|]. eapply faithful_app; [by apply faithful_nil|done].
  - intros (es0 & k & -> & He'). exists (es ++ es0), k. by rewrite <- app_assoc, io_app, He, He'.
Qed.
Hint Resolve session_of_end : core.

Lemma kept_rounds_end wg_addr n p : proxy_ok p ->
  wp (fun s => let '(f, s) := rounds (proxy_round wg_addr) n p s in
               match f with
               | Next p => (Serving p, s)
               | Break p => (Served p, ignore (perform OpWsClose) s)
               | Dies => (Panicked, s)
               end) (session_kept wg_addr).
Proof.
  intros Hp. apply wp_let. eapply wp_mono.
  - apply (kept_rounds proxy_reply proxy_learn (fun _ => wg_addr) proxy_ok (fun _ _ => False)); [done| |done].
    intros p'. apply kept_proxy_round.
  - intros [p'|p'|] es; [intros Hf; apply wp_pure; by rewrite app_nil_r| |done].
    intros [Hp' Hf]. apply (wp_ignore (perform OpWsClose) (fun s => (Served p', s))).
    apply (wp_perform (answer := answer) OpWsClose). intros r. apply wp_pure. split; [done|].
    eapply faithful_app; [exact Hf|]. replied.
Qed.

Lemma kept_session wg_addr n : wp (handle_ws_client (M := R) wg_addr n) (session_kept wg_addr).
Proof.
  cbv beta delta [handle_ws_client].
  hushed. hushed.
  apply hush_then; [done|by apply hush_perform|]. intros [[]|e]; [|by apply wp_pure].
  apply hush_then; [done|by apply hush_perform|]. intros [[]|e]; [|by apply hush_last].
  hushed.
  apply wp_let, (wp_perform (answer := answer) OpLocalAddr). intros [a|k].
  - eapply wp_mono; [apply kept_rounds_end; apply length_zeros|]. intros r es. by apply session_of_end.
  - apply wp_pure. by exists [], k.
Qed.
End Promise.

(** ** End to end *)

(** What is sent to the WebSocket is what came from the UDP socket, cut to the buffer; what is
    sent to the UDP socket is what came from the WebSocket. *)
Lemma bridge_ws_out c ins :
  ws_out (transduce bridge_reply bridge_learn c ins) = take MAX_WG_PACKET <$> udp_in (transduce bridge_reply bridge_learn c ins).
Proof.
  revert c. induction ins as [|i ins IH]; intros c; [done|]. cbn [transduce].
  destruct i as [d from|[t|d|q|q| |]]; cbn; unfold ws_out, udp_in in *; rewrite ?IH; try done.
  by destruct c; cbn; rewrite IH.
Qed.

Lemma bridge_udp_out c ins : c <> None ->
  (udp_out (transduce bridge_reply bridge_learn c ins)).*1 = ws_in (transduce bridge_reply bridge_learn c ins).
Proof.
  revert c. induction ins as [|i ins IH]; intros c Hc; [done|]. cbn [transduce].
  destruct c as [addr|]; [|done]. destruct i as [d from|[t|d|q|q| |]]; cbn; unfold udp_out, ws_in in *; by rewrite ?IH.
Qed.

Lemma bridge_udp_out_sublist c ins :
  (udp_out (transduce bridge_reply bridge_learn c ins)).*1 `sublist_of` ws_in (transduce bridge_reply bridge_learn c ins).
Proof.
  revert c. induction ins as [|i ins IH]; intros c; [done|]. cbn [transduce].
  destruct c as [addr|]; destruct i as [d from|[t|d|q|q| |]]; cbn; unfold udp_out, ws_in in *; try apply IH.
  - by apply sublist_skip.
  - by apply sublist_cons.
Qed.

Lemma proxy_outs wg_addr ins (ios := transduce proxy_reply proxy_learn wg_addr ins) :
  udp_out ios = (fun d => (d, wg_addr)) <$> ws_in ios /\ ws_out ios = take MAX_WG_PACKET <$> udp_in ios.
Proof.
  subst ios. induction ins as [|i ins [IH1 IH2]]; [done|]. cbn [transduce].
  destruct i as [d from|[t|d|q|q| |]]; cbn; unfold udp_out, ws_in, ws_out, udp_in, proxy_learn in *;
    by rewrite ?IH1, ?IH2.
Qed.

Lemma prefix_fmap {A B} (f : A -> B) l l' : l `prefix_of` l' -> f <$> l `prefix_of` f <$> l'.
Proof. intros [k ->]. exists (f <$> k). apply fmap_app. Qed.

Section Theorems.
Context {M : Type} `{Y : Network M}.

(** After any number of steps, through any failures and reconnections, the bridge has
    done what it promises and nothing else: each datagram of the local port went out at once
    as one binary message, cut to 1500 bytes, each binary message went to the last source of
    a datagram, or nowhere when there was none, and each ping was answered; and the bridge
    remembers that source. It can only panic where traces are enabled and an empty message
    was just delivered. *)
Theorem bridge_refines trace_on port url n (s : M) :
  let '(ph, (es, _)) := run_ws_bridge trace_on port url n ([], s) in
  io es = transduce bridge_reply bridge_learn None (inputs (io es))
  /\ match ph with
     | Outer b | Relaying b => client_addr b = fold_left bridge_learn (inputs (io es)) None
     | Ended => True
     | Died => trace_on = true
         /\ exists es0 addr r, es = es0 ++ [existT OpWsRead (Ok (Binary [])); existT (OpUdpSend [] addr) r]
     end.
Proof.
  assert (wp (run_ws_bridge (M := list Event * M) trace_on port url n) (phase_kept trace_on None)) as Hwp.
  { apply hush_then; [apply phase_of_end|by apply hush_perform|]. intros [[]|e]; [|apply wp_pure; eexists; replied].
    apply (hush_first (perform (OpUdpReadTimeout _)) (bridge_steps trace_on url n _));
      [apply phase_of_end|by apply hush_perform|].
    apply (kept_steps trace_on url n (mkBridge None (zeros MAX_WG_PACKET) 0 0)); [by left|apply length_zeros]. }
  destruct (Hwp [] s) as (ph & es & s' & -> & Hk). cbn [app].
  destruct ph as [b|b| |]; cbn in Hk.
  - by destruct Hk as [_ [? <-]].
  - by destruct Hk as [_ [? <-]].
  - by destruct Hk as [c' [? _]].
  - by destruct Hk as (? & ? & c' & ? & _).
Qed.

(** A session of the proxy, after any number of rounds, has sent each binary message of its
    client as one datagram to the WireGuard port and to nowhere else, and each datagram that
    came back as one binary message, cut to 1500 bytes, in the order they came; it sends
    nothing before the handshake, and it panics only where the address of its own socket is
    not known. *)
Theorem proxy_refines wg_addr n (s : M) :
  let '(r, (es, _)) := handle_ws_client wg_addr n ([], s) in
  io es = transduce proxy_reply proxy_learn wg_addr (inputs (io es))
  /\ match r with
     | Panicked => exists es0 k, es = es0 ++ [existT OpLocalAddr (Err k)]
     | Refused => io es = []
     | _ => True
     end.
Proof.
  destruct (kept_session wg_addr n [] s) as (r & es & s' & -> & Hk). cbn [app].
  destruct r as [|p|p|]; cbn in Hk.
  - by rewrite Hk.
  - by destruct Hk as [_ [? _]].
  - by destruct Hk as [_ [? _]].
  - destruct Hk as (es0 & k & -> & ->). eauto.
Qed.
End Theorems.

(** C34. Through the bridge, a connection that delivers a prefix of what is sent on it, and the
    proxy, the tunnel is a queue in each direction: what reaches the WireGuard port is a
    prefix of the datagrams of the client, each cut to 1500 bytes, and what reaches the client
    is a prefix of the datagrams of WireGuard from the session's start when the client is
    known by then, and always a selection of them in their order. *)
Theorem relay_fifo {M1 M2 : Type} `{Y1 : Network M1} `{Y2 : Network M2} trace_on wg_addr b p nb np
    (s1 s1' : M1) (s2 s2' : M2) fb eb fp ep :
  length (udp_buf b) = MAX_WG_PACKET -> length (px_udp_buf p) = MAX_WG_PACKET ->
  rounds (bridge_round trace_on) nb b ([], s1) = (fb, (eb, s1')) ->
  rounds (proxy_round wg_addr) np p ([], s2) = (fp, (ep, s2')) ->
  ws_in (io ep) `prefix_of` ws_out (io eb) ->
  ws_in (io eb) `prefix_of` ws_out (io ep) ->
  udp_out (io ep) `prefix_of` ((fun d => (take MAX_WG_PACKET d, wg_addr)) <$> udp_in (io eb))
  /\ (udp_out (io eb)).*1 `sublist_of` (take MAX_WG_PACKET <$> udp_in (io ep))
  /\ (client_addr b <> None -> (udp_out (io eb)).*1 `prefix_of` (take MAX_WG_PACKET <$> udp_in (io ep))).
Proof.
  intros Hb Hp Eb Ep Hup Hdown.
  assert (io eb = transduce bridge_reply bridge_learn (client_addr b) (inputs (io eb))) as Fb.
  { destruct (kept_rounds bridge_reply bridge_learn client_addr bridge_ok (died trace_on) (died_after trace_on)
      (bridge_round trace_on) nb b (kept_bridge_round trace_on) Hb [] s1) as (f & es & s' & E & Hk).
    rewrite Eb in E. injection E as -> -> ->. by destruct f as [st|st|]; [destruct Hk as [_ []]..|destruct Hk as (_ & _ & c' & ? & _)]. }
  assert (io ep = transduce proxy_reply proxy_learn wg_addr (inputs (io ep))) as Fp.
  { destruct (kept_rounds proxy_reply proxy_learn (fun _ => wg_addr) proxy_ok (fun _ _ => False) (fun _ _ _ _ _ F => F)
      (proxy_round wg_addr) np p (kept_proxy_round wg_addr) Hp [] s2) as (f & es & s' & E & Hk).
    rewrite Ep in E. injection E as -> -> ->. by destruct f as [st|st|]; [destruct Hk as [_ []]..|]. }
  pose proof (proxy_outs wg_addr (inputs (io ep))) as [Pu Pw]. cbn zeta in Pu, Pw. rewrite <- Fp in Pu, Pw.
  pose proof (bridge_ws_out (client_addr b) (inputs (io eb))) as Bw. rewrite <- Fb in Bw.
  pose proof (bridge_udp_out_sublist (client_addr b) (inputs (io eb))) as Bs. rewrite <- Fb in Bs.
  rewrite Bw in Hup. rewrite Pw in Hdown. split_and!.
  - rewrite Pu. apply (prefix_fmap (fun d => (d, wg_addr))) in Hup. by rewrite <- list_fmap_compose in Hup.
  - etrans; [exact Bs|]. destruct Hdown as [k ->]. by apply sublist_inserts_r.
  - intros Hc. pose proof (bridge_udp_out (client_addr b) (inputs (io eb)) Hc) as Bu. rewrite <- Fb in Bu. by rewrite Bu.
Qed.

(** ** Sizes *)

Lemma take_all_iff {A} (l : list A) n : take n l = l <-> (length l <= n)%nat.
Proof.
  split; [|apply take_ge]. intros E. apply (f_equal length) in E. rewrite length_take in E. lia.
Qed.

(** When the bridge takes a packet that a session of the tunnel made from a packet of the
    interface, it passes it on whole exactly when the latter has at most 1468 bytes: a full
    packet of an interface with the usual 1500 bytes arrives cut. *)
Theorem relay_mtu `{CryptoLaws} {M : Type} `{Y : Network M} session src dst_len packet session' trace_on b (s s' : M) f es :
  format_packet_data session src dst_len = Ret (packet, session') ->
  length (udp_buf b) = MAX_WG_PACKET ->
  bridge_from_udp trace_on b ([], s) = (f, (es, s')) ->
  udp_in (io es) = [packet] ->
  ws_out (io es) = [packet] <-> (length src <= 1468)%nat.
Proof.
  intros Hp Hb E Hin. apply length_format in Hp.
  destruct (kept_from_udp trace_on b Hb [] s) as (f' & es' & s'' & E' & Hk). rewrite E in E'. injection E' as -> -> ->.
  assert (io es' = transduce bridge_reply bridge_learn (client_addr b) (inputs (io es'))) as Hf.
  { by destruct f' as [st|st|]; [destruct Hk as [_ []]..|destruct Hk as (_ & _ & c' & ? & _)]. }
  pose proof (bridge_ws_out (client_addr b) (inputs (io es'))) as Hw. rewrite <- Hf, Hin in Hw. rewrite Hw. cbn [fmap list_fmap].
  trans (take MAX_WG_PACKET packet = packet); [split; [congruence|by intros ->]|].
  rewrite take_all_iff, Hp. unfold MAX_WG_PACKET. lia.
Qed.

(** ** The proxy's sessions *)

(** The WireGuard port of the node. *)
Definition loopback (port : Z) : SocketAddr := mkSocketAddr (V4 [x7f; x00; x00; x01]) port 0 0.

Definition accepted (ev : Event) : bool :=
  match ev with
  | existT op a => match op return answer op -> bool with OpTcpAccept => fun r => is_ok r | _ => fun _ => false end a
  end.

(** Each connection that is accepted, and nothing else, gets a session on [wg_addr]. *)
Fixpoint sessions (wg_addr : SocketAddr) (es : list Event) : Prop :=
  match es with
  | [] => True
  | ev :: es =>
      if accepted ev then match es with ev' :: es => projT1 ev' = OpSpawn wg_addr /\ sessions wg_addr es | [] => False end
      else (forall a, projT1 ev <> OpSpawn a) /\ sessions wg_addr es
  end.

Section ProxySessions.
Context {M : Type} `{Y : Network M}.

Lemma accept_sessions wg_addr n : wp (accept_rounds (M := list Event * M) wg_addr n) (fun _ es => sessions wg_addr es).
Proof.
  induction n as [|n IH]; [by apply wp_pure|]. cbn [accept_rounds].
  apply wp_let, (wp_perform (answer := answer) OpShutdown). intros []; [by apply wp_pure|].
  apply wp_let, (wp_perform (answer := answer) OpTcpAccept). intros [[]|k].
  - apply wp_ignore, (wp_perform (answer := answer) (OpSpawn _)). intros r. eapply wp_mono; [exact IH|]. by intros r' es Hs.
  - eapply wp_mono; [exact IH|]. by intros r' es Hs.
Qed.

(** For every port, the proxy finds the address of the WireGuard socket, so that it does
    not panic, and each connection it accepts, and nothing else, gets one session, which
    talks to that port of the node itself. *)
Theorem proxy_sessions bind_addr wg_port n (s : M) :
  in_width 16 wg_port ->
  let '(r, (es, _)) := run_ws_proxy bind_addr wg_port n ([], s) in
  r <> Panic /\ sessions (loopback wg_port) es.
Proof.
  intros Hport. assert (wp (run_ws_proxy (M := list Event * M) bind_addr wg_port n)
    (fun r es => r <> Panic /\ sessions (loopback wg_port) es)) as Hwp.
  { cbv beta delta [run_ws_proxy]. apply wp_let, (wp_perform (answer := answer) (OpTcpBind _)).
    intros [[]|k]; [|by apply wp_pure].
    assert (parse_socket_addr (str "127.0.0.1:" ++ show_uint wg_port) = Some (loopback wg_port)) as ->
      by (apply (parse_show_socket_addr (loopback wg_port)); by split_and!).
    apply (wp_ignore (perform (OpTcpAcceptTimeout 2000)) (fun s =>
      let '(ended, s) := accept_rounds (loopback wg_port) n s in (Ret ended, s))).
    apply (wp_perform (answer := answer) (OpTcpAcceptTimeout _)). intros []. apply wp_let.
    eapply wp_mono; [apply accept_sessions|]. intros ended es Hs. apply wp_pure. by rewrite app_nil_r. }
  destruct (Hwp [] s) as (r & es & s' & -> & Hk). exact Hk.
Qed.
End ProxySessions.

(** ** Shutdown *)

Section Shutdown.
Context {M : Type} `{Y : Network M}.
Hypothesis flag_set : forall s : M, (perform OpShutdown s).1 = true.

Lemma wp_flag (Q : bool -> list Event -> Prop) :
  Q true [existT OpShutdown true] -> wp (M := M) (perform OpShutdown) Q.
Proof.
  intros HQ log s. cbn. specialize (flag_set s). destruct (perform OpShutdown s) as [a s']. cbn in flag_set. subst a. eauto.
Qed.

Lemma wp_ends trace_on url b n : wp (M := M) (bridge_steps trace_on url (S n) (Outer b)) (fun ph es => ph = Ended /\ io es = []).
Proof.
  apply wp_let, wp_let, wp_flag. cbn. apply wp_pure. cbn.
  eapply wp_mono; [apply (steps_stuck trace_on url n Ended); by left|]. by intros ph es [-> ->].
Qed.

Lemma wp_stops trace_on url b : wp (M := M) (bridge_steps trace_on url 2 (Relaying b)) (fun ph es => ph = Ended /\ io es = []).
Proof.
  apply wp_let. cbn [bridge_step]. apply wp_let. apply wp_let, wp_flag, wp_pure. cbv beta iota delta [end_session].
  apply (wp_ignore (perform OpWsClose) (fun s => let '(shutdown, s) := perform OpShutdown s in
    if shutdown then (Outer b, s) else (Outer b, ignore (perform (OpSleep RECONNECT_DELAY_MS)) s))).
  apply (wp_perform (answer := answer) OpWsClose). intros r.
  apply wp_let, wp_flag, wp_pure. eapply wp_mono; [apply (wp_ends trace_on url b 0)|]. intros ph es [-> He]. split; [done|].
  cbn [app]. exact He.
Qed.

(** Once the shutdown flag reads set, the bridge has ended after two more steps of its
    loops, wherever it was, and it has neither received nor sent anything more. *)
Theorem bridge_stops trace_on url ph (s : M) : ph <> Died ->
  let '(ph', (es, _)) := bridge_steps trace_on url 2 ph ([], s) in ph' = Ended /\ io es = [].
Proof.
  intros Hph. destruct ph as [b|b| |]; [| |done|done].
  - by destruct (wp_ends trace_on url b 1 [] s) as (ph & es & s' & -> & Hk).
  - by destruct (wp_stops trace_on url b [] s) as (ph & es & s' & -> & Hk).
Qed.
End Shutdown.

(** ** Traces *)

(** With traces, an empty message that is delivered to the client ends the bridge: a datagram
    without data, which the proxy takes from any source, becomes one. *)
Theorem empty_message_panics {M : Type} `{Y : Network M} b addr (s s1 s2 : M) n :
  client_addr b = Some addr ->
  perform OpWsRead s = (Ok (Binary []), s1) -> perform (OpUdpSend [] addr) s1 = (Ok n, s2) ->
  bridge_from_ws true b s = (Dies, s2).
Proof. intros Ha E1 E2. unfold bridge_from_ws. rewrite E1. cbn. by rewrite Ha, E2. Qed.

(** ** A network *)

(** The flag is clear for some loads; what comes is in two queues. *)
Record Toy := mkToy { toy_loads : nat; toy_udp : list (bytes * SocketAddr); toy_ws : list Message }.

Definition toy_perform (op : Op) (s : Toy) : answer op * Toy :=
  match op return answer op * Toy with
  | OpShutdown => match toy_loads s with O => (true, s) | S n => (false, mkToy n (toy_udp s) (toy_ws s)) end
  | OpUdpRecv => match toy_udp s with [] => (Err TimedOut, s) | x :: q => (Ok x, mkToy (toy_loads s) q (toy_ws s)) end
  | OpWsRead => match toy_ws s with [] => (Err (WsIo WouldBlock), s) | m :: q => (Ok m, mkToy (toy_loads s) (toy_udp s) q) end
  | OpUdpSend d _ => (Ok (length d), s)
  | OpWsConnect _ => (Ok true, s)
  | OpLocalAddr => (Ok (loopback 40000), s)
  | OpUdpBind _ | OpTcpBind _ | OpTcpAccept => (Ok tt, s)
  | OpWsAccept | OpWsSend _ | OpWsClose => (Ok tt, s)
  | OpSpawn _ => (Ok tt, s)
  | OpSleep _ | OpUdpReadTimeout _ | OpWsReadTimeout _ | OpWsWriteTimeout _ | OpTcpAcceptTimeout _ => (tt, s)
  end.

#[local] Instance toy_network : Network Toy := {| Effects.perform := toy_perform |}.
#[local] Existing Instance toy_crypto.
#[local] Existing Instance toy_laws.

Definition example_bridge : Bridge := mkBridge None (zeros MAX_WG_PACKET) 0 0.
Definition example_proxy : Proxy := mkProxy (zeros MAX_WG_PACKET) 0 0.
Definition client_side : Toy := mkToy 2 [(str "hello", loopback 51000)] [Binary (str "world")].
Definition node_side : Toy := mkToy 2 [(str "world", loopback 51820)] [Binary (str "hello")].
Definition bridge_run := rounds (bridge_round false) 3 example_bridge ([], client_side).
Definition proxy_run := rounds (proxy_round (loopback 51820)) 3 example_proxy ([], node_side).

Lemma relay_fifo_witness :
  udp_out (io proxy_run.2.1) = [(str "hello", loopback 51820)]
  /\ udp_out (io proxy_run.2.1)
       `prefix_of` ((fun d => (take MAX_WG_PACKET d, loopback 51820)) <$> udp_in (io bridge_run.2.1)).
Proof.
  split; [vm_compute; reflexivity|].
  apply (relay_fifo false (loopback 51820) example_bridge example_proxy 3 3 client_side bridge_run.2.2
    node_side proxy_run.2.2 bridge_run.1 bridge_run.2.1 proxy_run.1 proxy_run.2.1);
    [reflexivity|reflexivity|reflexivity|reflexivity|exists []; vm_compute; reflexivity..].
Defined.

Lemma proxy_sessions_witness :
  in_width 16 51820
  /\ let '(r, (es, _)) := run_ws_proxy (str "0.0.0.0:8443") 51820 1 ([], mkToy 1 [] []) in
     r <> Panic /\ sessions (loopback 51820) es.
Proof.
  assert (in_width 16 51820) as Hp by done.
  split; [exact Hp|]. exact (proxy_sessions (str "0.0.0.0:8443") 51820 1 (mkToy 1 [] []) Hp).
Defined.

Definition example_session : Session := session_new 1 2 (zeros 32) (zeros 32).
Definition example_packet : bytes := wire (PPacketData (data_packet example_session (str "ping"))).
Definition mtu_run := bridge_from_udp false example_bridge ([], mkToy 1 [(example_packet, loopback 51000)] []).

Lemma relay_mtu_witness : ws_out (io mtu_run.2.1) = [example_packet].
Proof.
  apply (relay_mtu example_session (str "ping") 100 example_packet (after_send example_session) false example_bridge
    (mkToy 1 [(example_packet, loopback 51000)] []) mtu_run.2.2 mtu_run.1 mtu_run.2.1).
  - apply format_packet_data_ok. cbn. lia.
  - reflexivity.
  - reflexivity.
  - vm_compute. reflexivity.
  - cbn. lia.
Defined.
