(* ===== verification/Ffi.v ===== *)
(** * The C and Java interfaces ([ffi/mod.rs], [jni.rs])

    The functions that a program in C calls, over the memory they share with it. Memory is
    blocks of bytes, and a pointer is a block with an offset; the boxes of the tunnels and the
    strings that the library hands out are remembered, since only they may be given back. A
    call with a pointer that is not what it should be is undefined and [Faults]; a panic ends
    the process, by the hook that [new_tunnel] installs.

    A call on a tunnel gives the buffer [dst] to the tunnel, which returns a prefix of it or
    nothing. What it leaves in the rest of the buffer is not represented in Tunnel: it is the
    parameter [scratch], of which nothing is known. The logging function is
    not modelled. *)

From Stdlib Require Import ZArith Lia.
From Stdlib Require Strings.String.
From stdpp Require Import base numbers list option gmap.
From S2P Require Import Prelude Effects Errors Clock Packet Crypto Session Handshake RateLimiter Tunnel TunnelRuns TunnelStats RustText Utf8 AllowedIps Serialization.

Import Stdlib.Strings.String.StringSyntax.

Local Open Scope Z_scope.

(** ** Memory *)

Inductive ptr := null | At (block offset : nat).

#[global] Instance ptr_eq_dec : EqDecision ptr.
Proof. solve_decision. Defined.

Record Heap := mkHeap {
  blocks : gmap nat bytes;
  strings : gset nat;          (* of [CString::into_raw] *)
  tunnels : gmap nat Tunn;     (* of [Box::into_raw] *)
  next_block : nat;
  panic_hook : bool;
  world : World;
}.

Definition with_blocks (m : gmap nat bytes) (h : Heap) : Heap :=
  mkHeap m (strings h) (tunnels h) (next_block h) (panic_hook h) (world h).

Definition with_tunnel (b : nat) (t : Tunn) (w : World) (h : Heap) : Heap :=
  mkHeap (blocks h) (strings h) (<[b := t]> (tunnels h)) (next_block h) (panic_hook h) w.

Definition with_world (w : World) (h : Heap) : Heap :=
  mkHeap (blocks h) (strings h) (tunnels h) (next_block h) (panic_hook h) w.

(** The [n] bytes from [p] on; no bytes may be taken from anywhere but [null]. *)
Definition in_block (h : Heap) (p : ptr) (n : nat) : bool :=
  match p with
  | null => false
  | At b o => match n with
              | O => true
              | _ => match blocks h !! b with Some c => bool_decide (o + n <= length c)%nat | None => false end
              end
  end.

(** [slice::from_raw_parts] *)
Definition read_slice (h : Heap) (p : ptr) (n : nat) : run bytes :=
  if in_block h p n then
    match p with
    | null => Faults
    | At b o => Runs (sub (default [] (blocks h !! b)) o (o + n))
    end
  else Faults.

(** Two slices of which one is mutable may not share a byte. *)
Definition overlap (p : ptr) (n : nat) (q : ptr) (m : nat) : bool :=
  match p, q with
  | At b o, At b' o' => bool_decide (b = b') && bool_decide (o < o' + m)%nat && bool_decide (o' < o + n)%nat
  | _, _ => false
  end.

Definition write_slice (h : Heap) (p : ptr) (data : bytes) : Heap :=
  match p, data with
  | null, _ | _, [] => h
  | At b o, _ =>
      match blocks h !! b with
      | Some c => with_blocks (<[b := take o c ++ data ++ drop (o + length data) c]> (blocks h)) h
      | None => h
      end
  end.

(** The bytes before the first zero. *)
Fixpoint until_nul (c : bytes) : option bytes :=
  match c with
  | [] => None
  | b :: c => if u8 b =? 0 then Some [] else (fun s => b :: s) <$> until_nul c
  end.

(** [CStr::from_ptr] *)
Definition read_cstr (h : Heap) (p : ptr) : run bytes :=
  match p with
  | null => Faults
  | At b o =>
      match blocks h !! b with
      | Some c => match until_nul (drop o c) with Some s => Runs s | None => Faults end
      | None => Faults
      end
  end.

(** [c_str.to_str()] *)
Definition to_str (s : bytes) : option bytes := if is_utf8 s then Some s else None.

(** [CString::into_raw(CString::new(s).unwrap())] *)
Definition cstring_into_raw (s : bytes) (h : Heap) : run (ptr * Heap) :=
  match until_nul s with
  | Some _ => Panics
  | None =>
      let b := next_block h in
      Runs (At b 0, mkHeap (<[b := s ++ [x00]]> (blocks h)) ({[b]} ∪ strings h) (tunnels h) (S b) (panic_hook h) (world h))
  end.

Definition of_outcome {A} (m : outcome A) : run A := match m with Ret a => Runs a | Panic => Panics end.

(** ** Results *)

Inductive result_type := WIREGUARD_DONE | WRITE_TO_NETWORK | WIREGUARD_ERROR | WRITE_TO_TUNNEL_IPV4 | WRITE_TO_TUNNEL_IPV6.

Record wireguard_result := mkResult { op : result_type; size : nat }.

Record c_stats := mkStats {
  st_time_since_last_handshake : Z;
  st_tx_bytes : Z;
  st_rx_bytes : Z;
  st_estimated_loss : f32;
  st_estimated_rtt : Z;
}.

(** [e as usize] *)
Definition error_code (e : WireGuardError) : nat :=
  match e with
  | DestinationBufferTooSmall => 0
  | IncorrectPacketLength => 1
  | UnexpectedPacket => 2
  | WrongPacketType => 3
  | WrongIndex => 4
  | WrongKey => 5
  | InvalidTai64nTimestamp => 6
  | WrongTai64nTimestamp => 7
  | InvalidMac => 8
  | InvalidAeadTag => 9
  | InvalidCounter => 10
  | DuplicateCounter => 11
  | InvalidPacket => 12
  | NoCurrentSession => 13
  | LockFailed => 14
  | ConnectionExpired => 15
  | UnderLoad => 16
  end.

(** [op as u8] *)
Definition op_code (op : result_type) : Z :=
  match op with
  | WIREGUARD_DONE => 0
  | WRITE_TO_NETWORK => 1
  | WIREGUARD_ERROR => 2
  | WRITE_TO_TUNNEL_IPV4 => 4
  | WRITE_TO_TUNNEL_IPV6 => 6
  end.

Definition result_from (res : TunnResult) : wireguard_result :=
  match res with
  | Done => mkResult WIREGUARD_DONE 0
  | TunnErr e => mkResult WIREGUARD_ERROR (error_code e)
  | WriteToNetwork b => mkResult WRITE_TO_NETWORK (length b)
  | WriteToTunnelV4 b _ => mkResult WRITE_TO_TUNNEL_IPV4 (length b)
  | WriteToTunnelV6 b _ => mkResult WRITE_TO_TUNNEL_IPV6 (length b)
  end.

(** The part of the buffer that a result refers to. *)
Definition written (res : TunnResult) : bytes :=
  match res with
  | Done | TunnErr _ => []
  | WriteToNetwork b | WriteToTunnelV4 b _ | WriteToTunnelV6 b _ => b
  end.

(** ** The functions *)

Section Functions.
Context `{C : Crypto} `{E : Env} `{B : Base64} `{H : Hex} (scratch : World -> nat -> byte).

Definition x25519_secret_key (h : Heap) : bytes * Heap :=
  let '(key, w) := fill_bytes 32 (world h) in (key, with_world w h).

Definition x25519_public_key (private_key : bytes) : bytes := x25519_public private_key.

Definition x25519_key_to_base64 (key : bytes) (h : Heap) : run (ptr * Heap) := cstring_into_raw (base64_encode key) h.

Definition x25519_key_to_hex (key : bytes) (h : Heap) : run (ptr * Heap) := cstring_into_raw (hex_encode key) h.

(** [CString::from_raw] takes the length of the string from its zero. *)
Definition x25519_key_to_str_free (p : ptr) (h : Heap) : run Heap :=
  match p with
  | At b O =>
      let^ s := read_cstr h p in
      if bool_decide (b ∈ strings h) && bool_decide (length <$> blocks h !! b = Some (S (length s)))
      then Runs (mkHeap (delete b (blocks h)) (strings h ∖ {[b]}) (tunnels h) (next_block h) (panic_hook h) (world h))
      else Faults
  | _ => Faults
  end.

Definition check_base64_encoded_x25519_key (key : ptr) (h : Heap) : run Z :=
  let^ c_str := read_cstr h key in
  match to_str c_str with
  | None => Runs 0
  | Some utf8_key =>
      match base64_decode utf8_key with
      | Some key =>
          let zero := fold_left (fun z b => Z.lor z (u8 b)) key 0 in
          Runs (if bool_decide (length key = 32%nat) && negb (zero =? 0) then 1 else 0)
      | None => Runs 0
      end
  end.

Definition new_tunnel (static_private server_static_public preshared_key : ptr) (keep_alive index : Z) (h : Heap)
    : run (ptr * Heap) :=
  let^ c_str := read_cstr h static_private in
  match to_str c_str with None => Runs (null, h) | Some static_private =>
  let^ c_str := read_cstr h server_static_public in
  match to_str c_str with None => Runs (null, h) | Some server_static_public =>
  let^ preshared_key :=
    (if bool_decide (preshared_key = null) then Runs (Some None)
     else
       let^ c_str := read_cstr h preshared_key in
       match to_str c_str with
       | None => Runs None
       | Some string =>
           let^ key := of_outcome (key_from_str string) in
           Runs (match key with Ok key => Some (Some key) | Err _ => None end)
       end) in
  match preshared_key with None => Runs (null, h) | Some preshared_key =>
  let^ private_key := of_outcome (key_from_str static_private) in
  match private_key with Err _ => Runs (null, h) | Ok private_key =>
  let^ public_key := of_outcome (key_from_str server_static_public) in
  match public_key with Err _ => Runs (null, h) | Ok public_key =>
  let keep_alive := if keep_alive =? 0 then None else Some keep_alive in
  let '(tunnel, w) := tunn_new private_key public_key preshared_key keep_alive index None (world h) in
  let b := next_block h in
  Runs (At b 0, mkHeap (blocks h) (strings h) (<[b := tunnel]> (tunnels h)) (S b) true w)
  end end end end end.

(** [tunnel.as_ref().unwrap().lock()] *)
Definition tunnel_at (p : ptr) (h : Heap) : run (nat * Tunn) :=
  match p with
  | null => Panics
  | At b O => match tunnels h !! b with Some t => Runs (b, t) | None => Faults end
  | At _ _ => Faults
  end.

Definition tunnel_free (p : ptr) (h : Heap) : run Heap :=
  match p with
  | At b O =>
      match tunnels h !! b with
      | Some _ => Runs (mkHeap (blocks h) (strings h) (delete b (tunnels h)) (next_block h) (panic_hook h) (world h))
      | None => Faults
      end
  | _ => Faults
  end.

(** The buffer after a call that returned [res]. *)
Definition filled (res : TunnResult) (dst_size : nat) (w : World) : bytes :=
  take dst_size (written res) ++ (scratch w <$> seq (length (written res)) (dst_size - length (written res))).

(** A call of an operation of the tunnel with the buffer [dst]. *)
Definition with_dst (tunnel : ptr) (dst : ptr) (dst_size : nat) (h : Heap)
    (f : nat -> Tunn -> World -> outcome (TunnResult * Tunn * World)) : run (wireguard_result * Heap) :=
  let^ bt := tunnel_at tunnel h in
  if in_block h dst dst_size then
    let^ r := of_outcome (f dst_size bt.2 (world h)) in
    let '(res, t, w) := r in
    Runs (result_from res, write_slice (with_tunnel bt.1 t w h) dst (filled res dst_size w))
  else Faults.

Definition wireguard_write (tunnel src : ptr) (src_size : nat) (dst : ptr) (dst_size : nat) (h : Heap)
    : run (wireguard_result * Heap) :=
  let^ _ := tunnel_at tunnel h in
  let^ s := read_slice h src src_size in
  if overlap src src_size dst dst_size then Faults else with_dst tunnel dst dst_size h (encapsulate s).

Definition wireguard_read (tunnel src : ptr) (src_size : nat) (dst : ptr) (dst_size : nat) (h : Heap)
    : run (wireguard_result * Heap) :=
  let^ _ := tunnel_at tunnel h in
  let^ s := read_slice h src src_size in
  if overlap src src_size dst dst_size then Faults else with_dst tunnel dst dst_size h (decapsulate None s).

Definition wireguard_tick (tunnel dst : ptr) (dst_size : nat) (h : Heap) : run (wireguard_result * Heap) :=
  with_dst tunnel dst dst_size h update_timers.

Definition wireguard_force_handshake (tunnel dst : ptr) (dst_size : nat) (h : Heap) : run (wireguard_result * Heap) :=
  with_dst tunnel dst dst_size h (fun n => tunn_format_handshake_initiation n true).

(** [t.as_secs() as i64] *)
Definition as_i64 (z : Z) : Z := if z <? 2 ^ 63 then z else z - 2 ^ 64.

(** [r as i32] *)
Definition rtt_i32 (r : Z) : Z := if r <? 2 ^ 31 then r else r - 2 ^ 32.

Definition stats_of (time : option Duration) (tx rx : Z) (loss : f32) (rtt : option Z) : c_stats :=
  mkStats (match time with Some t => as_i64 (as_secs t) | None => -1 end) tx rx loss
    (match rtt with Some r => rtt_i32 r | None => -1 end).

Definition wireguard_stats (tunnel : ptr) (h : Heap) : run (c_stats * Heap) :=
  let^ bt := tunnel_at tunnel h in
  let^ r := of_outcome (tunn_stats bt.2 (world h)) in
  let '(time, tx, rx, loss, rtt, w) := r in
  Runs (stats_of time tx rx loss rtt, with_world w h).
End Functions.

(** ** Results fit into the buffer *)

Section Fits.
Context `{C : Crypto} `{CL : !CryptoLaws C} `{E : Env}.

Lemma require_inv b x : require b = Ret x -> b = true.
Proof. by destruct b. Qed.

Lemma length_aead_seal n k c d a x : aead_chacha20_seal n k c d a = Ret x -> length x = n.
Proof.
  unfold aead_chacha20_seal, aead_chacha20_seal_inner. intros Hx. invert_binds.
  pose proof (length_chacha_seal k (counter_nonce c) a d) as [Hc Ht].
  destruct (chacha_seal _ _ _ _) as [ct tag]. cbn [fst snd] in *. simplify_eq.
  repeat match goal with Hr : require _ = Ret _ |- _ => apply require_inv, bool_decide_eq_true in Hr end.
  rewrite length_app. lia.
Qed.

Lemma length_macs h i msg : length (append_mac1_and_mac2 h i msg).1 = (length msg + 32)%nat.
Proof.
  unfold append_mac1_and_mac2, b2s_keyed_mac_16. cbn [fst]. rewrite !length_app, length_mac.
  destruct (write_cookie (cookies h)); rewrite ?length_mac, ?length_zeros; lia.
Qed.

(** The cases of a computation that returns. *)
Ltac invert_cases :=
  repeat match goal with
  | Hr : match ?x with _ => _ end = Ret _ |- _ => destruct x eqn:?; try done; invert_binds
  end.

(** The length of a handshake message, from those of its parts. *)
Ltac message_fits :=
  repeat match goal with Hs : aead_chacha20_seal _ _ _ _ _ = Ret _ |- _ => apply length_aead_seal in Hs end;
  match goal with Hm : append_mac1_and_mac2 ?h ?i ?m = _ |- _ =>
    let Hl := fresh in pose proof (length_macs h i m) as Hl; rewrite Hm in Hl; cbn [fst] in Hl;
    rewrite !length_app, !length_to_le, length_x25519_public in Hl
  end;
  unfold HANDSHAKE_INIT_SZ, HANDSHAKE_RESP_SZ in *; lia.

Lemma initiation_fits h n w r h' w' :
  format_handshake_initiation h n w = Ret (Ok r, h', w') -> (length r <= n)%nat.
Proof.
  unfold format_handshake_initiation. case_bool_decide as Hn; [done|]. intros Hf. invert_binds. simplify_eq. message_fits.
Qed.

Lemma response_fits h n w r s h' w' :
  format_handshake_response h n w = Ret (Ok (r, s), h', w') -> (length r <= n)%nat.
Proof.
  unfold format_handshake_response. case_bool_decide as Hn; [done|]. destruct (state h); try done.
  intros Hf. invert_binds. simplify_eq. message_fits.
Qed.

Lemma receive_init_fits h p n w r s h' w' :
  receive_handshake_initialization h p n w = Ret (Ok (r, s), h', w') -> (length r <= n)%nat.
Proof.
  unfold receive_handshake_initialization. intros Hf. invert_binds. invert_cases. by eapply response_fits.
Qed.

Lemma data_fits s src n p s' : format_packet_data s src n = Ret (p, s') -> (length p <= n)%nat.
Proof.
  intros Hp. pose proof (length_format s src n p s' Hp) as ->. unfold format_packet_data in Hp.
  case_bool_decide as Hn; [done|]. unfold DATA_OVERHEAD_SZ in Hn. lia.
Qed.

Definition result_fits (n : nat) (m : outcome (TunnResult * Tunn * World)) : Prop :=
  forall r t w, m = Ret (r, t, w) -> (length (written r) <= n)%nat.

Lemma format_result_fits n force t w : result_fits n (tunn_format_handshake_initiation n force t w).
Proof.
  intros r t' w' Hf. unfold tunn_format_handshake_initiation in Hf. invert_cases; simplify_eq; cbn; try lia.
  by eapply initiation_fits.
Qed.

Lemma encapsulate_fits n src t w : result_fits n (encapsulate src n t w).
Proof.
  intros r t' w' Hf. unfold encapsulate in Hf. destruct (session_at t (current t)); [|by eapply format_result_fits].
  invert_binds. simplify_eq. by eapply data_fits.
Qed.

Lemma send_queued_fits n t w : result_fits n (send_queued_packet n t w).
Proof.
  intros r t' w' Hf. unfold send_queued_packet in Hf. destruct (dequeue_packet t) as [[p|] t1]; [|simplify_eq; cbn; lia].
  apply bind_Ret_inv in Hf. destruct Hf as ([[r1 t2] w2] & He & Hf). apply encapsulate_fits in He.
  destruct r1; simplify_eq; cbn in *; lia.
Qed.

Lemma receive_fits s p n a s' : receive_packet_data s p n = Ret (Ok a, s') -> (length a <= n)%nat.
Proof.
  unfold receive_packet_data. case_bool_decide as Hn; [done|]. intros Hf. invert_cases. simplify_eq.
  match goal with Ho : chacha_open ?k ?nonce _ _ = Some a |- _ =>
    apply chacha_open_inv in Ho; pose proof (length_chacha_seal k nonce [] a) as [Hc Ht];
    rewrite Ho, length_app, Hc in Hn; lia
  end.
Qed.

Lemma handle_data_fits p n t r t' : handle_data p n t = Ret (r, t') -> (length (written (flatten r)) <= n)%nat.
Proof.
  intros Hf. unfold handle_data in Hf. invert_cases; simplify_eq; cbn; try lia.
  match goal with Hr : receive_packet_data _ _ _ = Ret _ |- _ => apply receive_fits in Hr as Hl end.
  match goal with Hv : validate_decapsulated_packet ?p ?t = Ret _ |- _ => destruct (validate_shape p t) as (r & t2 & Hv' & Hs); rewrite Hv in Hv' end.
  simplify_eq. destruct r; cbn; try lia; destruct Hs as (k & -> & _); rewrite length_app in Hl; lia.
Qed.

Lemma handle_response_fits p n t w r t' w' :
  handle_handshake_response p n t w = Ret (r, t', w') -> (length (written (flatten r)) <= n)%nat.
Proof.
  intros Hf. unfold handle_handshake_response in Hf. invert_binds. invert_cases; simplify_eq; cbn; try lia.
  by eapply data_fits.
Qed.

Lemma handle_init_fits p n t w r t' w' :
  handle_handshake_init p n t w = Ret (r, t', w') -> (length (written (flatten r)) <= n)%nat.
Proof.
  intros Hf. unfold handle_handshake_init in Hf. invert_binds. invert_cases; simplify_eq; cbn; try lia.
  by eapply receive_init_fits.
Qed.

Lemma verified_fits p n t w : result_fits n (handle_verified_packet p n t w).
Proof.
  intros r t' w' Hf. destruct p; cbn in Hf; invert_binds; simplify_eq.
  - by eapply handle_init_fits.
  - by eapply handle_response_fits.
  - match goal with Hc : handle_cookie_reply _ _ = _ |- _ => unfold handle_cookie_reply in Hc end.
    invert_binds. repeat case_match; simplify_eq; cbn; lia.
  - by eapply handle_data_fits.
Qed.

Lemma decapsulate_fits a dg n t w : result_fits n (decapsulate a dg n t w).
Proof.
  intros r t' w' Hf. unfold decapsulate in Hf. case_bool_decide; [by eapply send_queued_fits|].
  invert_binds. invert_cases; simplify_eq; cbn; try lia; [by eapply verified_fits|].
  match goal with Hr : require _ = Ret _ |- _ => apply require_inv, bool_decide_eq_true in Hr; exact Hr end.
Qed.

Lemma update_timers_fits n t w : result_fits n (update_timers n t w).
Proof.
  intros r t' w' Hf. unfold update_timers in Hf. invert_binds. invert_cases; simplify_eq; cbn; try lia;
    first [by eapply format_result_fits|by eapply encapsulate_fits].
Qed.

Lemma run_op_fits n op t w : result_fits n (run_op n op t w).
Proof.
  destruct op; cbn; [apply encapsulate_fits|apply decapsulate_fits|apply verified_fits|apply update_timers_fits
    |apply format_result_fits].
Qed.
End Fits.

(** ** What reads and writes do *)

Lemma write_slice_frame h p data : strings (write_slice h p data) = strings h /\ tunnels (write_slice h p data) = tunnels h
  /\ next_block (write_slice h p data) = next_block h /\ world (write_slice h p data) = world h.
Proof. destruct p as [|b o], data as [|x data]; cbn; try done. by destruct (blocks h !! b). Qed.

Lemma write_slice_block h b o data c :
  blocks h !! b = Some c -> (o + length data <= length c)%nat ->
  blocks (write_slice h (At b o) data) = <[b := take o c ++ data ++ drop (o + length data) c]> (blocks h).
Proof.
  intros Hb Hl. destruct data as [|x data]; cbn; [|by rewrite Hb].
  rewrite Nat.add_0_r, take_drop. by rewrite insert_id.
Qed.

Lemma write_slice_fresh h p data b : blocks h !! b = None -> blocks (write_slice h p data) !! b = None.
Proof.
  intros Hb. destruct p as [|b' o], data as [|x data]; cbn; try done. destruct (blocks h !! b') eqn:E'; [|done].
  cbn. rewrite lookup_insert_ne; [done|]. intros ->. by rewrite Hb in E'.
Qed.

Lemma length_read_slice h p k s : read_slice h p k = Runs s -> length s = k.
Proof.
  unfold read_slice, in_block. destruct p as [|b o]; [done|]. destruct k as [|k]; [intros [= <-]; unfold sub; rewrite length_take; lia|].
  destruct (blocks h !! b) as [c|]; [|done]. case_bool_decide; [|done]. intros [= <-]. cbn. rewrite length_sub; lia.
Qed.

(** The byte at an offset of a block, and whether it is in a slice. *)
Definition byte_at (h : Heap) (b i : nat) : option byte := blocks h !! b ≫= (fun c => c !! i).
Definition in_slice (p : ptr) (k b i : nat) : Prop :=
  match p with At b' o => b = b' /\ (o <= i < o + k)%nat | null => False end.

Lemma write_slice_outside h p data b i :
  in_block h p (length data) = true -> ~ in_slice p (length data) b i -> byte_at (write_slice h p data) b i = byte_at h b i.
Proof.
  intros Hp Hi. destruct p as [|b' o]; [done|]. destruct data as [|x data]; [done|]. cbn in Hp.
  destruct (blocks h !! b') as [c|] eqn:Hb; [|done]. apply bool_decide_eq_true in Hp.
  unfold byte_at. rewrite (write_slice_block h b' o (x :: data) c Hb) by (cbn [length]; lia).
  destruct (decide (b = b')) as [->|Hne]; [|by rewrite lookup_insert_ne].
  rewrite lookup_insert_eq, Hb. cbn [mbind option_bind]. cbn in Hi.
  destruct (decide (i < o)%nat) as [Hlt|Hge].
  - rewrite lookup_app_l by (rewrite length_take; lia). by rewrite lookup_take_lt by lia.
  - rewrite lookup_app_r by (rewrite length_take; lia). rewrite length_take, lookup_app_r by (cbn [length] in *; lia).
    rewrite lookup_drop. f_equal. cbn [length] in *. lia.
Qed.

Lemma read_written h p data k :
  in_block h p (length data) = true -> (k <= length data)%nat ->
  read_slice (write_slice h p data) p k = Runs (take k data).
Proof.
  intros Hp Hk. destruct p as [|b o]; [done|]. destruct k as [|k].
  { unfold read_slice. cbn [in_block]. do 2 f_equal. unfold sub. by rewrite Nat.add_0_r, Nat.sub_diag. }
  destruct data as [|x data]; [cbn in Hk; lia|]. cbn in Hp.
  destruct (blocks h !! b) as [c|] eqn:Hb; [|done]. apply bool_decide_eq_true in Hp.
  unfold read_slice, in_block. rewrite (write_slice_block h b o (x :: data) c Hb) by (cbn [length]; lia).
  rewrite lookup_insert_eq. rewrite bool_decide_eq_true_2 by (rewrite !length_app, length_take; cbn [length] in *; lia).
  f_equal. unfold sub, from_option, id. rewrite drop_app_length' by (rewrite length_take; lia).
  replace (o + S k - o)%nat with (S k) by lia. by rewrite take_app_le.
Qed.

(** Reading depends on the bytes of the slice alone. *)
Lemma read_slice_same h h' p k :
  (forall b i, in_slice p k b i -> byte_at h' b i = byte_at h b i) -> in_block h p k = true -> read_slice h' p k = read_slice h p k.
Proof.
  intros Hs Hp. destruct p as [|b o]; [done|]. destruct k as [|k].
  { unfold read_slice, in_block, sub. by rewrite Nat.add_0_r, Nat.sub_diag. }
  unfold read_slice, in_block in *. destruct (blocks h !! b) as [c|] eqn:Hb; [|done]. apply bool_decide_eq_true in Hp.
  assert (forall i, (o <= i < o + S k)%nat -> blocks h' !! b ≫= (fun c => c !! i) = c !! i) as Hi.
  { intros i Hi. specialize (Hs b i (conj eq_refl Hi)). unfold byte_at in Hs. by rewrite Hb in Hs. }
  destruct (blocks h' !! b) as [c'|] eqn:Hb'.
  - cbn in Hi. assert (o + S k <= length c')%nat as Hl.
    { destruct (lookup_lt_is_Some_2 c (o + k)) as [x Hx]; [lia|]. rewrite <- Hi in Hx by lia. apply lookup_lt_Some in Hx. lia. }
    rewrite !bool_decide_eq_true_2 by done. f_equal. cbn. unfold sub. apply list_eq. intros i.
    destruct (decide (i < S k)%nat) as [Hlt|Hge].
    + rewrite !lookup_take_lt, !lookup_drop by lia. apply Hi. lia.
    + by rewrite !lookup_take_ge by lia.
  - destruct (lookup_lt_is_Some_2 c o) as [x Hx]; [lia|]. rewrite <- Hi in Hx by lia. done.
Qed.

(** ** Programs in C *)

(** The calls on tunnels, with buffers of a size that is fixed for a program. *)
Inductive tunnel_call :=
| CWrite (src : ptr) (src_size : nat)
| CRead (src : ptr) (src_size : nat)
| CTick
| CForceHandshake.

Section Programs.
Context `{C : Crypto} `{CL : !CryptoLaws C} `{E : Env} `{MC : !MonotoneClock E} `{B : Base64} `{H : Hex}.
Context (scratch : World -> nat -> byte) (n : nat).

Definition do_call (c : tunnel_call) (tunnel dst : ptr) (h : Heap) : run (wireguard_result * Heap) :=
  match c with
  | CWrite src src_size => wireguard_write scratch tunnel src src_size dst n h
  | CRead src src_size => wireguard_read scratch tunnel src src_size dst n h
  | CTick => wireguard_tick scratch tunnel dst n h
  | CForceHandshake => wireguard_force_handshake scratch tunnel dst n h
  end.

(** The operation of the tunnel that a call stands for, and what the caller owes: a source
    that is a slice apart from the buffer, with the packet fitting into the latter. *)
Definition call_op (c : tunnel_call) (dst : ptr) (h : Heap) (op : tunn_op) : Prop :=
  match c with
  | CWrite src src_size => exists s, read_slice h src src_size = Runs s
      /\ overlap src src_size dst n = false /\ (src_size + 32 <= n)%nat /\ op = OpEncapsulate s
  | CRead src src_size => exists s, read_slice h src src_size = Runs s
      /\ overlap src src_size dst n = false /\ (src_size <= n)%nat /\ op = OpDecapsulate None s
  | CTick => op = OpUpdateTimers
  | CForceHandshake => op = OpInitiate true
  end.

(** A heap of a program that keeps to the interface: tunnels are in their invariant, and
    blocks that are not allocated yet are free. *)
Record heap_ok (h : Heap) : Prop := {
  ok_tunnels : forall b t, tunnels h !! b = Some t -> tunn_inv n t (world h);
  ok_fresh : forall b, (next_block h <= b)%nat -> blocks h !! b = None /\ tunnels h !! b = None /\ b ∉ strings h;
}.

Lemma length_filled res k w : (length (written res) <= k)%nat -> length (filled scratch res k w) = k.
Proof. intros Hl. unfold filled. rewrite length_app, length_take, length_fmap, length_seq. lia. Qed.

Lemma call_op_admissible c dst h op : call_op c dst h op -> admissible n op.
Proof.
  destruct c; cbn; [intros (s & Hs & _ & Hn & ->)..|by intros ->|by intros ->];
    apply length_read_slice in Hs; cbn; lia.
Qed.

(** A call is its operation on the tunnel, with the result in the buffer. *)
Lemma do_call_op c b dst h op t :
  tunnels h !! b = Some t -> in_block h dst n = true -> call_op c dst h op ->
  do_call c (At b 0) dst h
  = match run_op n op t (world h) with
    | Ret (res, t', w) => Runs (result_from res, write_slice (with_tunnel b t' w h) dst (filled scratch res n w))
    | Panic => Panics
    end.
Proof.
  intros Ht Hd Hop.
  assert (forall f, with_dst scratch (At b 0) dst n h f
    = match f n t (world h) with
      | Ret (res, t', w) => Runs (result_from res, write_slice (with_tunnel b t' w h) dst (filled scratch res n w))
      | Panic => Panics
      end) as Hw.
  { intros f. unfold with_dst, tunnel_at. rewrite Ht. cbn. rewrite Hd. by destruct (f n t (world h)) as [[[res t'] w]|]. }
  destruct c; cbn in Hop; [destruct Hop as (s & Hs & Ho & _ & ->)..|subst op|subst op];
    cbn [do_call]; unfold wireguard_write, wireguard_read, wireguard_tick, wireguard_force_handshake, tunnel_at;
    rewrite ?Ht; cbn [run_bind]; rewrite ?Hs; cbn [run_bind]; rewrite ?Ho; apply Hw.
Qed.

Lemma heap_ok_call h b t' w dst data :
  heap_ok h -> (exists t, tunnels h !! b = Some t) -> tunn_inv n t' w -> (ticks (world h) <= ticks w)%nat ->
  heap_ok (write_slice (with_tunnel b t' w h) dst data).
Proof.
  intros [Ht Hf] [t Hb] Hinv Hw.
  pose proof (write_slice_frame (with_tunnel b t' w h) dst data) as (Es & Et & En & Ew). split.
  - intros b' t1. rewrite Et, Ew. cbn. destruct (decide (b' = b)) as [->|Hne].
    + rewrite lookup_insert_eq. by intros [= ->].
    + rewrite lookup_insert_ne by done. intros Hb'. eapply tunn_inv_later; [done|by eapply Ht].
  - intros b'. rewrite Es, Et, En. cbn. intros Hb'. destruct (Hf b' Hb') as (H1 & H2 & H3). split_and!; [|..].
    + by apply write_slice_fresh.
    + rewrite lookup_insert_ne; [done|]. intros ->. by rewrite Hb in H2.
    + done.
Qed.

(** *** Reachable heaps *)

(** Between calls, the program changes its own memory. *)
Inductive reached : Heap -> Prop :=
| reached_start w : reached (mkHeap ∅ ∅ ∅ 0 false w)
| reached_memory h m next :
    reached h -> (next_block h <= next)%nat -> (forall b, (next <= b)%nat -> m !! b = None) ->
    reached (mkHeap m (strings h) (tunnels h) next (panic_hook h) (world h))
| reached_call h c b dst op r h' :
    reached h -> in_block h dst n = true -> call_op c dst h op -> do_call c (At b 0) dst h = Runs (r, h') -> reached h'
| reached_stats h p r h' : reached h -> wireguard_stats p h = Runs (r, h') -> reached h'
| reached_new h sp pp psk ka idx p h' : reached h -> new_tunnel sp pp psk ka idx h = Runs (p, h') -> reached h'
| reached_free h p h' : reached h -> tunnel_free p h = Runs h' -> reached h'
| reached_secret h key h' : reached h -> x25519_secret_key h = (key, h') -> reached h'
| reached_base64 h key p h' : reached h -> x25519_key_to_base64 key h = Runs (p, h') -> reached h'
| reached_hex h key p h' : reached h -> x25519_key_to_hex key h = Runs (p, h') -> reached h'
| reached_str_free h p h' : reached h -> x25519_key_to_str_free p h = Runs h' -> reached h'.

Lemma heap_ok_world h w : (ticks (world h) <= ticks w)%nat -> heap_ok h -> heap_ok (with_world w h).
Proof. intros Hw [Ht Hf]. split; [|exact Hf]. intros b t Hb. eapply tunn_inv_later; [exact Hw|by eapply Ht]. Qed.

Lemma heap_ok_string s h p h' : heap_ok h -> cstring_into_raw s h = Runs (p, h') -> heap_ok h'.
Proof.
  intros [Ht Hf]. unfold cstring_into_raw. destruct (until_nul s); [done|]. intros [= <- <-]. split; [exact Ht|].
  cbn. intros b Hb. destruct (Hf b) as (H1 & H2 & H3); [lia|]. split_and!; [|done|set_solver by lia].
  rewrite lookup_insert_ne by lia. done.
Qed.

Lemma heap_ok_str_free p h h' : heap_ok h -> x25519_key_to_str_free p h = Runs h' -> heap_ok h'.
Proof.
  intros [Ht Hf] Hr. unfold x25519_key_to_str_free in Hr. destruct p as [|b [|o]]; try done.
  destruct (read_cstr h (At b 0)); try done. cbn in Hr. destruct (_ && _); [|done]. simplify_eq. split; [exact Ht|].
  cbn. intros b' Hb. destruct (Hf b' Hb) as (H1 & H2 & H3). split_and!; [|done|set_solver].
  destruct (decide (b' = b)) as [->|]; [by rewrite lookup_delete_eq|by rewrite lookup_delete_ne].
Qed.

Lemma heap_ok_free p h h' : heap_ok h -> tunnel_free p h = Runs h' -> heap_ok h'.
Proof.
  intros [Ht Hf] Hr. unfold tunnel_free in Hr. destruct p as [|b [|o]]; try done.
  destruct (tunnels h !! b); [|done]. simplify_eq. split.
  - intros b' t'. cbn. intros [_ Hb]%lookup_delete_Some. by eapply Ht.
  - cbn. intros b' Hb. destruct (Hf b' Hb) as (H1 & H2 & H3). split_and!; [done| |done].
    by apply lookup_delete_None; right.
Qed.

(** A new tunnel is a block of its own, or there is none. *)
Lemma new_tunnel_shape sp pp psk ka idx h p h' : new_tunnel sp pp psk ka idx h = Runs (p, h') ->
  h' = h \/ exists k1 k2 k3 ka' t w, tunn_new k1 k2 k3 ka' idx None (world h) = (t, w)
    /\ h' = mkHeap (blocks h) (strings h) (<[next_block h := t]> (tunnels h)) (S (next_block h)) true w.
Proof.
  intros Hn. unfold new_tunnel in Hn.
  repeat match type of Hn with
  | run_bind ?m _ = _ => destruct m; cbn [run_bind] in Hn; [|done..]
  | match ?x with _ => _ end = _ => destruct x eqn:?; [|try (by left; simplify_eq)..]
  end; try (by left; simplify_eq); try done.
  all: right; simplify_eq; eauto 12.
Qed.

Lemma heap_ok_new sp pp psk ka idx h p h' : heap_ok h -> new_tunnel sp pp psk ka idx h = Runs (p, h') -> heap_ok h'.
Proof.
  intros Hok Hn. destruct (new_tunnel_shape _ _ _ _ _ _ _ _ Hn) as [->|(k1 & k2 & k3 & ka' & t & w & Ht & ->)]; [done|].
  destruct Hok as [Hts Hf]. split; cbn.
  - intros b t1. destruct (decide (b = next_block h)) as [->|Hne].
    + rewrite lookup_insert_eq. intros [= <-]. by eapply tunn_new_inv.
    + rewrite lookup_insert_ne by done. intros Hb. eapply tunn_inv_later; [by eapply tunn_new_ticks|by eapply Hts].
  - intros b Hb. destruct (Hf b) as (H1 & H2 & H3); [lia|]. split_and!; [done| |done]. by rewrite lookup_insert_ne by lia.
Qed.

Hypothesis big : (HANDSHAKE_INIT_SZ <= n)%nat.

Lemma call_runs h c b dst op t :
  heap_ok h -> tunnels h !! b = Some t -> in_block h dst n = true -> call_op c dst h op ->
  exists res t' w, run_op n op t (world h) = Ret (res, t', w)
    /\ do_call c (At b 0) dst h = Runs (result_from res, write_slice (with_tunnel b t' w h) dst (filled scratch res n w))
    /\ heap_ok (write_slice (with_tunnel b t' w h) dst (filled scratch res n w)).
Proof.
  intros Hok Ht Hd Hop.
  destruct (run_op_total n op t (world h) big) as (res & t' & w & Er & Hinv & Hw);
    [by eapply ok_tunnels|by eapply call_op_admissible|].
  exists res, t', w. split; [done|]. split; [rewrite (do_call_op _ _ _ _ _ _ Ht Hd Hop); by rewrite Er|].
  apply heap_ok_call; eauto.
Qed.

Lemma stats_runs h b t : heap_ok h -> tunnels h !! b = Some t ->
  exists time w, time_since_last_handshake t (world h) = Ret (time, w) /\ (ticks (world h) <= ticks w)%nat
    /\ (forall a, time = Some a -> in_width 64 (as_secs a))
    /\ wireguard_stats (At b 0) h
       = Runs (stats_of time (tx_bytes t) (rx_bytes t) (estimate_loss t) (last_rtt (handshake t)), with_world w h).
Proof.
  intros Hok Ht. destruct (handshake_age_ok n t (world h)) as (time & w & Et & Hw & Ha); [by eapply ok_tunnels|].
  exists time, w. split_and!; try done. unfold wireguard_stats, tunnel_at. rewrite Ht. cbn. unfold tunn_stats. by rewrite Et.
Qed.

Lemma reached_ok h : reached h -> heap_ok h.
Proof.
  induction 1 as [w|h m next _ IH Hn Hm|h c b dst op r h' _ IH Hd Hop Hc|h p r h' _ IH Hs|h sp pp psk ka idx p h' _ IH Hn
    |h p h' _ IH Hf|h key h' _ IH Hk|h key p h' _ IH Hk|h key p h' _ IH Hk|h p h' _ IH Hf].
  - split; cbn; [by intros|]. intros b _. split_and!; [done|done|set_solver].
  - destruct IH as [Ht Hf]. split; [exact Ht|]. cbn. intros b Hb. destruct (Hf b) as (_ & H2 & H3); [lia|]. auto.
  - destruct (tunnels h !! b) as [t|] eqn:Ht.
    + destruct (call_runs h c b dst op t IH Ht Hd Hop) as (res & t' & w & _ & Ec & Hok). rewrite Hc in Ec. by simplify_eq.
    + destruct c; cbn in Hc; unfold wireguard_write, wireguard_read, wireguard_tick, wireguard_force_handshake, with_dst, tunnel_at in Hc;
        by rewrite Ht in Hc.
  - destruct p as [|b [|o]]; [done| |done]. destruct (tunnels h !! b) as [t|] eqn:Ht.
    + destruct (stats_runs h b t IH Ht) as (time & w & _ & Hw & _ & Es). rewrite Hs in Es. simplify_eq. by apply heap_ok_world.
    + unfold wireguard_stats, tunnel_at in Hs. by rewrite Ht in Hs.
  - by eapply heap_ok_new.
  - by eapply heap_ok_free.
  - unfold x25519_secret_key, fill_bytes in Hk. simplify_eq. by apply heap_ok_world.
  - by apply (heap_ok_string _ h p h' IH Hk).
  - by apply (heap_ok_string _ h p h' IH Hk).
  - by eapply heap_ok_str_free.
Qed.

(** A call with its effect on memory. *)
Lemma call_memory h c b dst op t :
  heap_ok h -> tunnels h !! b = Some t -> in_block h dst n = true -> call_op c dst h op ->
  exists res t' w h', run_op n op t (world h) = Ret (res, t', w)
    /\ do_call c (At b 0) dst h = Runs (result_from res, h')
    /\ heap_ok h' /\ tunnels h' = <[b := t']> (tunnels h)
    /\ (length (written res) <= n)%nat
    /\ read_slice h' dst (length (written res)) = Runs (written res)
    /\ (forall b i, ~ in_slice dst n b i -> byte_at h' b i = byte_at h b i).
Proof.
  intros Hok Ht Hd Hop. destruct (call_runs h c b dst op t Hok Ht Hd Hop) as (res & t' & w & Er & Ec & Hok').
  pose proof (run_op_fits n op t (world h) res t' w Er) as Hfit.
  pose proof (length_filled res n w Hfit) as Hlen.
  exists res, t', w. eexists. split; [exact Er|]. split; [exact Ec|]. split; [exact Hok'|].
  split; [apply write_slice_frame|]. split; [done|]. split.
  - rewrite read_written; rewrite ?Hlen; [|done|done]. unfold filled. rewrite (take_ge (written res)) by exact Hfit.
    by rewrite take_app_length.
  - intros b' i Hi. rewrite write_slice_outside; rewrite ?Hlen; done.
Qed.

End Programs.

(** ** Keys as strings *)

Section Keys.
Context `{C : Crypto} `{E : Env} `{B : Base64} `{BL : !Base64Laws B} `{H : Hex}.

Lemma until_nul_none s : Forall (fun b => u8 b <> 0) s -> until_nul s = None.
Proof. induction 1 as [|b s Hb _ IH]; [done|]. cbn. rewrite (proj2 (Z.eqb_neq _ _) Hb). by rewrite IH. Qed.

Lemma until_nul_end s : Forall (fun b => u8 b <> 0) s -> until_nul (s ++ [x00]) = Some s.
Proof. induction 1 as [|b s Hb _ IH]; [done|]. cbn. rewrite (proj2 (Z.eqb_neq _ _) Hb). by rewrite IH. Qed.

Lemma base64_char_ascii b : base64_char b = true -> is_ascii b /\ u8 b <> 0.
Proof.
  unfold base64_char, is_ascii. pose proof (byte.unsigned_range b). intros Hc.
  rewrite !orb_true_iff, !andb_true_iff, !Z.leb_le, !Z.eqb_eq in Hc. lia.
Qed.

Lemma base64_plain k : Forall (fun b => is_ascii b /\ u8 b <> 0) (base64_encode k).
Proof.
  apply Forall_forall. intros b Hb. apply base64_char_ascii. pose proof (base64_encode_chars k) as Hc.
  rewrite forallb_forall in Hc. apply Hc. by apply list_elem_of_In.
Qed.

Lemma key_from_base64 k : length k = 32%nat -> key_from_str (base64_encode k) = Ret (Ok k).
Proof.
  intros Hk. unfold key_from_str. rewrite base64_encode_length, Hk. cbn -[base64_decode].
  rewrite base64_decode_encode, Hk. done.
Qed.

(** The bytes of a key, or-ed. *)
Lemma or_zero k z : 0 <= z -> fold_left (fun z b => Z.lor z (u8 b)) k z = 0 <-> z = 0 /\ Forall (fun b => b = x00) k.
Proof.
  revert z. induction k as [|b k IH]; intros z Hz; cbn; [by split; [split|intros []]|].
  pose proof (byte.unsigned_range b). rewrite IH by (apply Z.lor_nonneg; lia). rewrite Z.lor_eq_0_iff.
  rewrite Forall_cons. split.
  - intros [[-> Hb] Hk]. split_and!; [done| |done]. by apply byte.unsigned_inj.
  - intros (-> & -> & Hk). done.
Qed.

Lemma zeros_all k : Forall (fun b => b = x00) k <-> k = zeros (length k).
Proof.
  split.
  - induction 1 as [|b k -> _ IH]; [done|]. cbn [length]. rewrite (zeros_add 1). by rewrite <- IH.
  - intros ->. with_strategy transparent [zeros] unfold zeros. by apply Forall_replicate.
Qed.

Lemma or_key k : length k = 32%nat -> (fold_left (fun z b => Z.lor z (u8 b)) k 0 =? 0) = bool_decide (k = zeros 32).
Proof.
  intros Hk. apply eq_true_iff_eq. rewrite Z.eqb_eq, bool_decide_eq_true, or_zero, zeros_all, Hk by done. by split; [intros []|].
Qed.

(** A string that was handed out: what reading it gives, and that it can be given back. *)
Definition string_at (h : Heap) (b : nat) (s : bytes) : Prop :=
  blocks h !! b = Some (s ++ [x00]) /\ b ∈ strings h /\ Forall (fun b => is_ascii b /\ u8 b <> 0) s.

Lemma plain_ascii s : Forall (fun b => is_ascii b /\ u8 b <> 0) s -> Forall is_ascii s /\ Forall (fun b => u8 b <> 0) s.
Proof. intros Hs. split; eapply Forall_impl; [exact Hs|by intros ? []|exact Hs|by intros ? []]. Qed.

Lemma string_at_read h b s : string_at h b s -> read_cstr h (At b 0) = Runs s /\ to_str s = Some s.
Proof.
  intros (Hb & _ & [Ha Hz]%plain_ascii). unfold read_cstr, to_str. rewrite Hb, drop_0, until_nul_end by done.
  by rewrite utf8_ascii.
Qed.

Lemma string_at_free h b s : string_at h b s ->
  x25519_key_to_str_free (At b 0) h
  = Runs (mkHeap (delete b (blocks h)) (strings h ∖ {[b]}) (tunnels h) (next_block h) (panic_hook h) (world h)).
Proof.
  intros Hs. pose proof Hs as (Hb & Hin & _). unfold x25519_key_to_str_free. destruct (string_at_read h b s Hs) as [-> _].
  cbn [run_bind]. rewrite Hb. rewrite !bool_decide_eq_true_2; [done|cbn; by rewrite length_app, Nat.add_1_r|done].
Qed.

Lemma string_made s h : Forall (fun b => is_ascii b /\ u8 b <> 0) s ->
  exists h', cstring_into_raw s h = Runs (At (next_block h) 0, h') /\ string_at h' (next_block h) s
    /\ h' = mkHeap (<[next_block h := s ++ [x00]]> (blocks h)) ({[next_block h]} ∪ strings h) (tunnels h)
              (S (next_block h)) (panic_hook h) (world h).
Proof.
  intros Hs. pose proof (plain_ascii s Hs) as [Ha Hz]. eexists. unfold cstring_into_raw. rewrite until_nul_none by done.
  split; [reflexivity|]. split; [|done]. split_and!; [by cbn; rewrite lookup_insert_eq|cbn; set_solver|done].
Qed.

Lemma check_string h b k : length k = 32%nat -> string_at h b (base64_encode k) ->
  check_base64_encoded_x25519_key (At b 0) h = Runs (if bool_decide (k = zeros 32) then 0 else 1).
Proof.
  intros Hk [Er Eu]%string_at_read. unfold check_base64_encoded_x25519_key. rewrite Er. cbn [run_bind]. rewrite Eu.
  rewrite base64_decode_encode, or_key, Hk by done. rewrite (bool_decide_eq_true_2 (32%nat = 32%nat)) by done.
  by destruct (bool_decide (k = zeros 32)).
Qed.

Lemma new_tunnel_strings h b1 b2 sk pk ka idx :
  length sk = 32%nat -> length pk = 32%nat -> string_at h b1 (base64_encode sk) -> string_at h b2 (base64_encode pk) ->
  new_tunnel (At b1 0) (At b2 0) null ka idx h
  = let '(t, w) := tunn_new sk pk None (if ka =? 0 then None else Some ka) idx None (world h) in
    Runs (At (next_block h) 0, mkHeap (blocks h) (strings h) (<[next_block h := t]> (tunnels h)) (S (next_block h)) true w).
Proof.
  intros Hs Hp [Er1 Eu1]%string_at_read [Er2 Eu2]%string_at_read. unfold new_tunnel.
  rewrite Er1. cbn [run_bind]. rewrite Eu1, Er2. cbn [run_bind]. rewrite Eu2.
  rewrite bool_decide_eq_true_2 by done. cbn [run_bind]. rewrite !key_from_base64 by done. cbn [of_outcome run_bind].
  done.
Qed.

Lemma string_at_other h b c s k : b <> c -> string_at h b s ->
  string_at (mkHeap (<[c := k]> (blocks h)) ({[c]} ∪ strings h) (tunnels h) (S c) (panic_hook h) (world h)) b s.
Proof. intros Hne (Hb & Hin & Hs). split_and!; [by cbn; rewrite lookup_insert_ne|cbn; set_solver|done]. Qed.

(** Keys travel through C without loss and memory is given back: two keys that are printed
    in base64 and read by [new_tunnel] are the keys of the tunnel; the check of a string accepts
    it exactly when its key is not zero; and after the strings and the tunnel are freed, in the
    way the documentation asks, nothing of them is left. *)
Theorem c_keys_round_trip sk pk ka idx h (b := next_block h) :
  length sk = 32%nat -> length pk = 32%nat ->
  (forall b', (b <= b')%nat -> blocks h !! b' = None /\ tunnels h !! b' = None /\ b' ∉ strings h) ->
  exists h1 h2 h3 h4 h5 h6 t w,
    x25519_key_to_base64 sk h = Runs (At b 0, h1) /\ x25519_key_to_base64 pk h1 = Runs (At (S b) 0, h2)
    /\ check_base64_encoded_x25519_key (At b 0) h2 = Runs (if bool_decide (sk = zeros 32) then 0 else 1)
    /\ tunn_new sk pk None (if ka =? 0 then None else Some ka) idx None (world h) = (t, w)
    /\ new_tunnel (At b 0) (At (S b) 0) null ka idx h2 = Runs (At (S (S b)) 0, h3)
    /\ tunnels h3 = <[S (S b) := t]> (tunnels h)
    /\ x25519_key_to_str_free (At b 0) h3 = Runs h4 /\ x25519_key_to_str_free (At (S b) 0) h4 = Runs h5
    /\ tunnel_free (At (S (S b)) 0) h5 = Runs h6
    /\ blocks h6 = blocks h /\ strings h6 = strings h /\ tunnels h6 = tunnels h.
Proof.
  intros Hs Hp Hf.
  destruct (string_made (base64_encode sk) h (base64_plain sk)) as (h1 & E1 & S1 & ->).
  set (h1 := mkHeap _ _ _ _ _ _) in *.
  destruct (string_made (base64_encode pk) h1 (base64_plain pk)) as (h2 & E2 & S2 & Eh2).
  assert (string_at h2 b (base64_encode sk)) as S1' by (subst h2; apply string_at_other; [cbn; lia|exact S1]).
  destruct (tunn_new sk pk None (if ka =? 0 then None else Some ka) idx None (world h2)) as [t w] eqn:Et.
  pose proof (new_tunnel_strings h2 b (S b) sk pk ka idx Hs Hp S1' S2) as E3. rewrite Et in E3.
  set (h3 := mkHeap _ _ _ _ _ _) in E3.
  assert (string_at h3 b (base64_encode sk)) as S3 by exact S1'.
  pose proof (string_at_free h3 b _ S3) as E4. set (h4 := mkHeap _ _ _ _ _ _) in E4.
  assert (string_at h4 (S b) (base64_encode pk)) as S4.
  { destruct S2 as (Hb & Hin & Hpl). split_and!; [|cbn; set_solver by lia|done]. cbn. by rewrite lookup_delete_ne by lia. }
  pose proof (string_at_free h4 (S b) _ S4) as E5. set (h5 := mkHeap _ _ _ _ _ _) in E5.
  destruct (Hf b) as (F1 & _ & F2); [lia|]. destruct (Hf (S b)) as (G1 & _ & G2); [lia|].
  destruct (Hf (S (S b))) as (_ & K1 & _); [lia|].
  assert (tunnels h5 !! S (S b) = Some t) as Ht by (subst h2; cbn; by rewrite lookup_insert_eq).
  eexists h1, h2, h3, h4, h5, _, t, w. split_and!; [exact E1|exact E2|by apply check_string| |subst h2; exact E3|by subst h2|exact E4|exact E5| | | |].
  - by subst h2.
  - unfold tunnel_free. by rewrite Ht.
  - subst h2. cbn. fold b. rewrite delete_insert_ne by lia. rewrite (delete_insert_id (blocks h)) by exact F1.
    by rewrite (delete_insert_id (blocks h)).
  - subst h2. cbn. set_solver.
  - subst h2. cbn. by rewrite delete_insert_id.
Qed.
End Keys.

(** ** Examples *)

#[local] Existing Instance toy_crypto.
#[local] Existing Instance toy_laws.
#[local] Existing Instance example_env.
#[local] Existing Instance example_env_monotone.
#[local] Existing Instance toy_base64.
#[local] Existing Instance toy_base64_laws.
#[local] Existing Instance toy_hex.

Definition no_scratch : World -> nat -> byte := fun _ _ => x00.
Definition empty_heap : Heap := mkHeap ∅ ∅ ∅ 0 false (mkWorld 0 0).

(** A program that made a tunnel and has a buffer. *)
Lemma example_reached :
  exists h t, reached no_scratch 148 h /\ tunnels h !! 2%nat = Some t /\ in_block h (At 3 0) 148 = true /\ heap_ok 148 h.
Proof.
  destruct (string_made (base64_encode (zeros 32)) empty_heap (base64_plain _)) as (h1 & E1 & S1 & Eh1).
  destruct (string_made (base64_encode (zeros 32)) h1 (base64_plain _)) as (h2 & E2 & S2 & Eh2).
  assert (string_at h2 0 (base64_encode (zeros 32))) as S1' by (subst h2; apply string_at_other; [subst h1; cbn; lia|exact S1]).
  assert (next_block h1 = 1%nat) as N1 by by subst h1. rewrite N1 in S2.
  pose proof (new_tunnel_strings h2 0 1 (zeros 32) (zeros 32) 0 1 (length_zeros 32) (length_zeros 32) S1' S2) as E3.
  destruct (tunn_new _ _ _ _ _ _ _) as [t w]. assert (next_block h2 = 2%nat) as N2 by by subst h2 h1. rewrite N2 in E3.
  set (h3 := mkHeap _ _ _ _ _ _) in E3.
  set (h4 := mkHeap {[3%nat := zeros 148]} (strings h3) (tunnels h3) 4 true (world h3)).
  assert (reached no_scratch 148 h4) as Hr.
  { apply (reached_memory _ _ h3); [|cbn; lia|intros b Hb; apply lookup_singleton_ne; lia].
    eapply reached_new; [|exact E3]. eapply reached_base64; [|exact E2]. eapply reached_base64; [|exact E1]. apply reached_start. }
  exists h4, t. split; [exact Hr|]. split; [by cbn; rewrite lookup_insert_eq|]. split.
  - cbn [in_block h4 blocks]. rewrite lookup_singleton_eq, length_zeros. done.
  - eapply (reached_ok no_scratch 148); [by vm_compute; lia|exact Hr].
Qed.


Lemma c_keys_round_trip_witness :
  exists h1, x25519_key_to_base64 (zeros 32) empty_heap = Runs (At 0 0, h1).
Proof.
  destruct (c_keys_round_trip (zeros 32) (zeros 32) 0 1 empty_heap) as (h1 & h2 & h3 & h4 & h5 & h6 & t & w & E1 & _);
    [apply length_zeros|apply length_zeros|intros b _; split_and!; [done|done|set_solver]|].
  exists h1. exact E1.
Defined.
