(* ===== verification/Jni.v ===== *)
(** * The Java interface ([jni.rs])

    The functions of the Java class, over those of Ffi. The virtual machine is the class [Jvm]:
    its arrays, strings and direct buffers, behind references. A pointer crosses into Java as a
    [jlong]; zero is [null]. The characters that [get_string_utf_chars] gives are a copy in
    memory that the caller has to release. *)

From Stdlib Require Import ZArith Lia.
From Stdlib Require Strings.String.
From stdpp Require Import base numbers list option gmap.
From S2P Require Import Prelude Effects Errors Clock Packet Crypto Session Handshake RateLimiter Tunnel TunnelRuns RustText Utf8 AllowedIps Serialization Ffi.

Local Open Scope Z_scope.

Class Jvm (J Ref : Type) := {
  get_byte_array_region : Ref -> nat -> J -> option bytes;    (* the first bytes of an array *)
  convert_byte_array : Ref -> J -> option bytes;              (* a copy of an array *)
  byte_array_from_slice : bytes -> J -> option Ref * J;
  new_string : bytes -> J -> option Ref * J;
  string_utf_chars : Ref -> J -> option bytes;
  get_direct_buffer_address : Ref -> J -> option ptr;
}.

Section Functions.
Context `{C : Crypto} `{E : Env} `{B : Base64} `{H : Hex} {J Ref : Type} `{V : Jvm J Ref} (scratch : World -> nat -> byte).

(** [env.byte_array_from_slice(..)], null when it fails. *)
Definition to_array (b : bytes) (j : J) (h : Heap) : option Ref * J * Heap :=
  let '(r, j) := byte_array_from_slice b j in (r, j, h).

Definition generate_secret_key (j : J) (h : Heap) : option Ref * J * Heap :=
  let '(key, h) := x25519_secret_key h in to_array key j h.

Definition generate_public_key1 (arg_secret_key : Ref) (j : J) (h : Heap) : option Ref * J * Heap :=
  match get_byte_array_region arg_secret_key 32 j with
  | None => (None, j, h)
  | Some key => to_array (x25519_public_key key) j h
  end.

(** [JNIStr::from_ptr(p).to_owned()] into a new string *)
Definition string_from_ptr (p : ptr) (j : J) (h : Heap) : run (option Ref * J * Heap) :=
  let^ s := read_cstr h p in
  let '(r, j) := new_string s j in Runs (r, j, h).

Definition convert_x25519_key_to_hex (arg_key : Ref) (j : J) (h : Heap) : run (option Ref * J * Heap) :=
  match get_byte_array_region arg_key 32 j with
  | None => Runs (None, j, h)
  | Some key => let^ ph := x25519_key_to_hex key h in string_from_ptr ph.1 j ph.2
  end.

Definition convert_x25519_key_to_base64 (arg_key : Ref) (j : J) (h : Heap) : run (option Ref * J * Heap) :=
  match get_byte_array_region arg_key 32 j with
  | None => Runs (None, j, h)
  | Some key => let^ ph := x25519_key_to_base64 key h in string_from_ptr ph.1 j ph.2
  end.

(** A block of memory with the given bytes. *)
Definition alloc (b : bytes) (h : Heap) : ptr * Heap :=
  (At (next_block h) 0, mkHeap (<[next_block h := b]> (blocks h)) (strings h) (tunnels h) (S (next_block h)) (panic_hook h) (world h)).

Definition get_string_utf_chars (r : Ref) (j : J) (h : Heap) : option (ptr * Heap) :=
  match string_utf_chars r j with
  | Some s => Some (alloc (s ++ [x00]) h)
  | None => None
  end.

Definition create_new_tunnel (arg_secret_key arg_public_key : Ref) (arg_preshared_key : option Ref)
    (keep_alive index : Z) (j : J) (h : Heap) : run (ptr * Heap) :=
  match get_string_utf_chars arg_secret_key j h with None => Runs (null, h) | Some (secret_key, h) =>
  match get_string_utf_chars arg_public_key j h with None => Runs (null, h) | Some (public_key, h) =>
  match (match arg_preshared_key with
         | None => Some (null, h)
         | Some r => get_string_utf_chars r j h
         end) with None => Runs (null, h) | Some (preshared_key, h) =>
  new_tunnel secret_key public_key preshared_key (wrap 16 keep_alive) (wrap 32 index) h
  end end end.

(** [output.size as i32] *)
Definition as_i32 (z : Z) : Z := let u := wrap 32 z in if u <? 2 ^ 31 then u else u - 2 ^ 32.

(** The result for Java: the operation is written to [op_ptr]. *)
Definition give_result (op_ptr : ptr) (r : wireguard_result * Heap) : run (Z * Heap) :=
  if in_block r.2 op_ptr 1
  then Runs (as_i32 (Z.of_nat (size r.1)), write_slice r.2 op_ptr [of_u8 (op_code (op r.1))])
  else Faults.

(** [*mut u8] of a copy of the array, which lives to the end of the statement. *)
Definition with_array (src : Ref) (j : J) (h : Heap) (f : ptr -> Heap -> run (wireguard_result * Heap))
    : run (wireguard_result * Heap) :=
  match convert_byte_array src j with
  | None => Panics
  | Some b =>
      let '(p, h) := alloc b h in
      let^ r := f p h in
      Runs (r.1, match p with At block _ => with_blocks (delete block (blocks r.2)) r.2 | null => r.2 end)
  end.

(** A [jint] as a size. *)
Definition jsize (z : Z) : nat := Z.to_nat (wrap 32 z).

Definition encrypt_raw_packet (tunnel : ptr) (src : Ref) (src_size : Z) (dst : Ref) (dst_size : Z) (op : Ref)
    (j : J) (h : Heap) : run (Z * Heap) :=
  match get_direct_buffer_address dst j with None => Runs (0, h) | Some dst_ptr =>
  match get_direct_buffer_address op j with None => Runs (0, h) | Some op_ptr =>
  let^ output := with_array src j h (fun p h => wireguard_write scratch tunnel p (jsize src_size) dst_ptr (jsize dst_size) h) in
  give_result op_ptr output
  end end.

Definition decrypt_to_raw_packet (tunnel : ptr) (src : Ref) (src_size : Z) (dst : Ref) (dst_size : Z) (op : Ref)
    (j : J) (h : Heap) : run (Z * Heap) :=
  match get_direct_buffer_address dst j with None => Runs (0, h) | Some dst_ptr =>
  match get_direct_buffer_address op j with None => Runs (0, h) | Some op_ptr =>
  let^ output := with_array src j h (fun p h => wireguard_read scratch tunnel p (jsize src_size) dst_ptr (jsize dst_size) h) in
  give_result op_ptr output
  end end.

Definition run_periodic_task (tunnel : ptr) (dst : Ref) (dst_size : Z) (op : Ref) (j : J) (h : Heap) : run (Z * Heap) :=
  match get_direct_buffer_address dst j with None => Runs (0, h) | Some dst_ptr =>
  match get_direct_buffer_address op j with None => Runs (0, h) | Some op_ptr =>
  let^ output := wireguard_tick scratch tunnel dst_ptr (jsize dst_size) h in
  give_result op_ptr output
  end end.
End Functions.

(** ** Calls from Java *)

Section Calls.
Context `{C : Crypto} `{CL : !CryptoLaws C} `{E : Env} `{MC : !MonotoneClock E} {J Ref : Type} `{V : Jvm J Ref}.
Context (scratch : World -> nat -> byte) (n : nat).

Lemma heap_ok_alloc b h : heap_ok n h -> heap_ok n (alloc b h).2.
Proof.
  intros [Ht Hf]. split; [exact Ht|]. cbn. intros b' Hb. destruct (Hf b') as (H1 & H2 & H3); [lia|].
  split_and!; [|done|done]. by rewrite lookup_insert_ne by lia.
Qed.

Lemma heap_ok_release b h : heap_ok n h -> heap_ok n (with_blocks (delete b (blocks h)) h).
Proof.
  intros [Ht Hf]. split; [exact Ht|]. cbn. intros b' Hb. destruct (Hf b' Hb) as (H1 & H2 & H3).
  split_and!; [|done|done]. by apply lookup_delete_None; right.
Qed.

Lemma in_block_alloc h b p k : heap_ok n h -> in_block h p k = true -> in_block (alloc b h).2 p k = true.
Proof.
  intros [_ Hf]. destruct p as [|b' o]; [done|]. destruct k as [|k]; [done|]. cbn.
  destruct (decide (b' = next_block h)) as [->|Hne]; [|by rewrite lookup_insert_ne].
  destruct (Hf (next_block h)) as (-> & _); [done|]. done.
Qed.

(** The block of the array is not that of a buffer. *)
Lemma alloc_apart h p k : heap_ok n h -> (0 < k)%nat -> in_block h p k = true ->
  exists b o, p = At b o /\ b <> next_block h.
Proof.
  intros [_ Hf] Hk. destruct p as [|b o]; [done|]. destruct k as [|k]; [lia|]. cbn. intros Hb.
  exists b, o. split; [done|]. intros ->. by destruct (Hf (next_block h)) as (E1 & _); [done|rewrite E1 in Hb].
Qed.

Lemma read_released h b p k : (forall b' o, p = At b' o -> b' <> b) ->
  read_slice (with_blocks (delete b (blocks h)) h) p k = read_slice h p k.
Proof.
  intros Hp. destruct p as [|b' o]; [done|]. specialize (Hp b' o eq_refl).
  unfold read_slice, in_block. cbn [blocks with_blocks]. by rewrite lookup_delete_ne.
Qed.

Lemma overlap_apart p k q m b i : overlap p k q m = false -> in_slice q m b i -> ~ in_slice p k b i.
Proof.
  destruct p as [|b1 o1], q as [|b2 o2]; cbn; try tauto. intros Ho [-> Hi] [-> Hi'].
  rewrite !andb_false_iff, !bool_decide_eq_false in Ho. lia.
Qed.

Lemma in_slice_less p k k' b i : (k <= k')%nat -> in_slice p k b i -> in_slice p k' b i.
Proof. destruct p as [|b' o]; cbn; [done|]. intros Hk [-> Hi]. split; [done|lia]. Qed.

Lemma in_block_less h p k k' : (k <= k')%nat -> in_block h p k' = true -> in_block h p k = true.
Proof.
  destruct p as [|b o], k as [|k], k' as [|k']; cbn; try done; [lia|]. intros Hk. destruct (blocks h !! b); [|done].
  rewrite !bool_decide_eq_true. lia.
Qed.

Lemma read_alloc h bs k : (k <= length bs)%nat -> read_slice (alloc bs h).2 (At (next_block h) 0) k = Runs (take k bs).
Proof.
  intros Hk. unfold read_slice, in_block. destruct k as [|k].
  - cbn. by rewrite lookup_insert_eq.
  - cbn [alloc snd blocks]. rewrite lookup_insert_eq, bool_decide_eq_true_2 by lia. cbn. unfold sub. by rewrite drop_0, Nat.sub_0_r.
Qed.

Lemma small_i32 z : 0 <= z < 2 ^ 31 -> as_i32 z = z.
Proof.
  intros Hz. unfold as_i32. rewrite wrap_small by (unfold in_width; lia). by rewrite (proj2 (Z.ltb_lt _ _)) by lia.
Qed.

Lemma small_jsize z : 0 <= z < 2 ^ 31 -> jsize z = Z.to_nat z.
Proof. intros Hz. unfold jsize. by rewrite wrap_small by (unfold in_width; lia). Qed.

Lemma result_size res : (length (written res) <= n)%nat -> (17 <= n)%nat -> (size (result_from res) <= n)%nat.
Proof. intros Hl Hn. destruct res as [|e|p|p a|p a]; cbn in *; try lia. destruct e; cbn; lia. Qed.

(** The byte for Java is written beside the buffer. *)
Lemma give_result_runs o d k r h' :
  in_block h' o 1 = true -> overlap o 1 d k = false -> heap_ok n h' -> in_block h' d k = true ->
  Z.of_nat (size r) < 2 ^ 31 ->
  exists h2, give_result o (r, h') = Runs (Z.of_nat (size r), h2) /\ heap_ok n h2 /\ tunnels h2 = tunnels h'
    /\ read_slice h2 o 1 = Runs [of_u8 (op_code (op r))]
    /\ read_slice h2 d k = read_slice h' d k.
Proof.
  intros Ho Hov Hok Hd Hr. unfold give_result. cbn [fst snd]. rewrite Ho, small_i32 by lia.
  set (data := [of_u8 (op_code (op r))]). exists (write_slice h' o data). split; [done|].
  pose proof (write_slice_frame h' o data) as (Es & Et & En & Ew). split_and!; [|done| |].
  - destruct Hok as [Hts Hf]. split.
    + intros b t. rewrite Et, Ew. apply Hts.
    + intros b. rewrite Es, Et, En. intros Hb. destruct (Hf b Hb) as (F1 & F2 & F3). split_and!; [by apply write_slice_fresh|done..].
  - by rewrite (read_written h' o data 1).
  - apply read_slice_same; [|done]. intros b i Hi. apply write_slice_outside; [done|]. by eapply overlap_apart.
Qed.

Lemma read_in_block h p k : in_block h p k = true <-> exists s, read_slice h p k = Runs s.
Proof.
  unfold read_slice. destruct (in_block h p k) eqn:Hb; [|split; [done|by intros []]]. split; [|done].
  intros _. destruct p; [done|eauto].
Qed.

(** A call with a copy of the array. *)
Lemma with_array_runs (mk : ptr -> nat -> tunnel_call) src j h bs k d o b t op :
  (HANDSHAKE_INIT_SZ <= n)%nat -> heap_ok n h -> tunnels h !! b = Some t ->
  convert_byte_array src j = Some bs -> (k <= length bs)%nat ->
  in_block h d n = true -> in_block h o 1 = true ->
  overlap o 1 d n = false ->
  (forall p, read_slice (alloc bs h).2 p k = Runs (take k bs) -> overlap p k d n = false ->
     call_op n (mk p k) d (alloc bs h).2 op) ->
  exists res t' w h', run_op n op t (world h) = Ret (res, t', w)
    /\ with_array src j h (fun p h => do_call scratch n (mk p k) (At b 0) d h) = Runs (result_from res, h')
    /\ heap_ok n h' /\ tunnels h' = <[b := t']> (tunnels h)
    /\ (length (written res) <= n)%nat
    /\ read_slice h' d (length (written res)) = Runs (written res)
    /\ in_block h' d (length (written res)) = true /\ in_block h' o 1 = true.
Proof.
  intros Hbig Hok Ht Hc Hk Hd Ho Hov Hop.
  assert (0 < n)%nat as Hn by (unfold HANDSHAKE_INIT_SZ in Hbig; lia).
  destruct (alloc_apart h d n Hok Hn Hd) as (db & do & -> & Hdb).
  destruct (alloc_apart h o 1 Hok ltac:(lia) Ho) as (ob & oo & -> & Hob).
  assert (call_op n (mk (At (next_block h) 0) k) (At db do) (alloc bs h).2 op) as Hcall.
  { apply Hop; [by apply read_alloc|]. cbn. by rewrite (bool_decide_eq_false_2 (next_block h = db)). }
  destruct (call_memory scratch n Hbig (alloc bs h).2 (mk (At (next_block h) 0) k) b (At db do) op t) as
    (res & t' & w & h' & Er & Ec & Hok' & Et & Hl & Es & Eo); [by apply heap_ok_alloc|done|by apply in_block_alloc|done|].
  exists res, t', w, (with_blocks (delete (next_block h) (blocks h')) h').
  assert (forall p k, (forall b o, p = At b o -> b <> next_block h) ->
    read_slice (with_blocks (delete (next_block h) (blocks h')) h') p k = read_slice h' p k) as Hrel
    by (intros; by apply read_released).
  split; [exact Er|]. split; [unfold with_array; rewrite Hc, (surjective_pairing (alloc bs h)); change (alloc bs h).1 with (At (next_block h) 0); by rewrite Ec|].
  split; [by apply heap_ok_release|]. split; [exact Et|]. split; [done|]. split; [rewrite Hrel; [done|by intros ? ? [= <- <-]]|].
  rewrite !read_in_block, !Hrel by by intros ? ? [= <- <-]. split; [eauto|].
  rewrite (read_slice_same (alloc bs h).2); [by apply read_in_block, in_block_alloc| |by apply in_block_alloc].
  intros b' i Hi. apply Eo. intros Hi'. by eapply overlap_apart.
Qed.

(** The two calls that carry a packet, and the operations they stand for. *)
Definition java_call (encrypt : bool) := if encrypt then encrypt_raw_packet scratch (J := J) (Ref := Ref) else decrypt_to_raw_packet scratch.
Definition java_op (encrypt : bool) (s : bytes) : tunn_op := if encrypt then OpEncapsulate s else OpDecapsulate None s.
Definition java_room (encrypt : bool) : nat := if encrypt then 32 else 0.

(** A call from Java does what the tunnel does: with a live tunnel, an array that has the
    bytes it says, a direct buffer of the agreed size and another for the operation, it neither
    faults nor panics; Java finds the packet at the start of the buffer, gets its size back, and
    the number of the operation in the other buffer; the copy of the array is released. *)
Theorem java_calls_safe encrypt tunnel src src_size dst dst_size op j h bs d o t :
  (HANDSHAKE_INIT_SZ <= n)%nat -> Z.of_nat n = dst_size -> dst_size < 2 ^ 31 ->
  heap_ok n h -> tunnels h !! tunnel = Some t ->
  convert_byte_array src j = Some bs -> 0 <= src_size <= Z.of_nat (length bs) ->
  (Z.to_nat src_size + java_room encrypt <= n)%nat ->
  get_direct_buffer_address dst j = Some d -> in_block h d n = true ->
  get_direct_buffer_address op j = Some o -> in_block h o 1 = true -> overlap o 1 d n = false ->
  exists res t' w h', run_op n (java_op encrypt (take (Z.to_nat src_size) bs)) t (world h) = Ret (res, t', w)
    /\ java_call encrypt (At tunnel 0) src src_size dst dst_size op j h = Runs (Z.of_nat (size (result_from res)), h')
    /\ heap_ok n h' /\ tunnels h' = <[tunnel := t']> (tunnels h)
    /\ read_slice h' d (length (written res)) = Runs (written res)
    /\ read_slice h' o 1 = Runs [of_u8 (op_code (Ffi.op (result_from res)))].
Proof.
  intros Hbig Hn Hmax Hok Ht Hc Hs Hroom Hd Hdb Ho Hob Hov.
  destruct (with_array_runs (if encrypt then CWrite else CRead) src j h bs (Z.to_nat src_size) d o tunnel t
    (java_op encrypt (take (Z.to_nat src_size) bs))) as (res & t' & w & h1 & Er & Ea & Hok1 & Et & Hl & Es & Hd1 & Ho1);
    [done..|lia|done|done|done| |].
  { intros p Hp Hop. destruct encrypt; exists (take (Z.to_nat src_size) bs); cbn in Hroom; split_and!; try done; lia. }
  destruct (give_result_runs o d (length (written res)) (result_from res) h1) as (h2 & Eg & Hok2 & Et2 & Eo2 & Ed2); [done| |done|done| |].
  { destruct o as [|ob oo], d as [|db do]; try done. cbn in Hov |- *. rewrite !andb_false_iff, !bool_decide_eq_false in *. lia. }
  { assert (size (result_from res) <= n)%nat; [apply result_size; [done|unfold HANDSHAKE_INIT_SZ in Hbig; lia]|lia]. }
  exists res, t', w, h2. split; [exact Er|]. split; [|split_and!; [done|by rewrite Et2|by rewrite Ed2|done]].
  assert (jsize src_size = Z.to_nat src_size) as Ej by (apply small_jsize; lia).
  assert (jsize dst_size = n) as En by (rewrite small_jsize; lia).
  destruct encrypt; cbn [java_call]; unfold encrypt_raw_packet, decrypt_to_raw_packet; rewrite Hd, Ho, Ej, En;
    cbn [do_call] in Ea; rewrite Ea; exact Eg.
Qed.
End Calls.

(** ** What Java does not give back *)

Section Leaks.
Context `{C : Crypto} `{E : Env} `{B : Base64} `{BL : !Base64Laws B} `{H : Hex} {J Ref : Type} `{V : Jvm J Ref}.

(** Each conversion of a key to base64 leaves the string that [x25519_key_to_base64] made,
    which its documentation asks to free. *)
Theorem key_string_leaks key bs j h :
  get_byte_array_region key 32 j = Some bs ->
  exists r j' h', convert_x25519_key_to_base64 key j h = Runs (r, j', h')
    /\ strings h' = {[next_block h]} ∪ strings h /\ blocks h' = <[next_block h := base64_encode bs ++ [x00]]> (blocks h).
Proof.
  intros Hk. unfold convert_x25519_key_to_base64. rewrite Hk.
  destruct (string_made (base64_encode bs) h (base64_plain bs)) as (h' & Em & Hs & Eh).
  unfold x25519_key_to_base64. rewrite Em. cbn [run_bind fst snd]. unfold string_from_ptr.
  destruct (string_at_read _ _ _ Hs) as [-> _]. cbn [run_bind]. destruct (new_string _ j) as [r j'].
  exists r, j', h'. split; [done|]. by subst h'.
Qed.
End Leaks.
