(* ===== verification/Unix.v ===== *)
(** * Tunnel interfaces and privileges ([device/tun_linux.rs], [device/tun_darwin.rs],
    [device/drop_privileges.rs])

    The calls of the system are operations with answers, where [None] and [false] stand for
    [-1]. The record of what was done tells which descriptors are open. For privileges the
    user and group identities of a process are a record, and [setuid] and [setgid] follow
    POSIX. *)

From Stdlib Require Import ZArith Lia.
From Stdlib Require Strings.String.
From stdpp Require Import base numbers list option.
From S2P Require Import Prelude Effects RustText Utf8.

Import Stdlib.Strings.String.StringSyntax.

Local Open Scope Z_scope.

(** ** Calls of the system *)

Inductive Op :=
| OpOpenTun                                          (* [open("/dev/net/tun", O_RDWR)] *)
| OpSocketSystem                                     (* [socket(PF_SYSTEM, SOCK_DGRAM, SYSPROTO_CONTROL)] *)
| OpSocketInet                                       (* [socket(AF_INET, SOCK_STREAM, IPPROTO_IP)] *)
| OpClose (fd : Z)
| OpTunSetIff (fd : Z) (ifr_name : bytes) (flags : Z)
| OpCtlInfo (fd : Z) (ctl_name : bytes)
| OpConnectCtl (fd id unit_ : Z)
| OpGetFl (fd : Z)
| OpSetFl (fd flags : Z)
| OpIfName (fd : Z)
| OpGetMtu (fd : Z) (ifr_name : bytes)
| OpWrite (fd : Z) (buf : bytes)
| OpRead (fd : Z) (size : nat)
| OpSendmsg (fd : Z) (hdr buf : bytes)
| OpRecvmsg (fd : Z) (hdr size : nat).

(** A read answers with the whole packet, of which the buffers take what they hold; the name
    of an interface comes with its zero. *)
Definition answer (op : Op) : Type :=
  match op with
  | OpOpenTun | OpSocketSystem | OpSocketInet => option Z
  | OpClose _ => unit
  | OpTunSetIff _ _ _ | OpConnectCtl _ _ _ | OpSetFl _ _ => bool
  | OpCtlInfo _ _ | OpGetFl _ | OpGetMtu _ _ => option Z
  | OpIfName _ | OpRead _ _ | OpRecvmsg _ _ _ => option bytes
  | OpWrite _ _ | OpSendmsg _ _ _ => option nat
  end.

Abbreviation Unix := (Machine answer).
Abbreviation perform := (@Effects.perform Op answer _ _).
Abbreviation Event := (Effects.Event answer).

Inductive TunError := ESocket | EInvalidTunnelName | EIOCtl | EFCntl | EConnect | EGetSockOpt | EIfaceRead.

Definition IFNAMSIZ : nat := 16.
Definition IFF_TUN : Z := 1.
Definition IFF_NO_PI : Z := 4096.
Definition IFF_MULTI_QUEUE : Z := 256.
Definition AF_INET : Z := 2.
Definition AF_INET6 : Z := 30.
Definition CTRL_NAME : bytes := str "com.apple.net.utun_control".

(** A field of fixed size that starts with a name: the copy panics where it does not fit. *)
Definition padded (size : nat) (name : bytes) : outcome bytes :=
  if bool_decide (length name <= size)%nat then Ret (name ++ zeros (size - length name)) else Panic.

(** [s.parse::<i32>()], [s.parse::<isize>()] *)
Definition parse_signed (width : Z) (s : bytes) : option Z :=
  match s with
  | b :: r =>
      if u8 b =? 45 then
        match r with
        | [] => None
        | _ => match parse_digits width r 0 with Some z => if z <=? 2 ^ (width - 1) then Some (- z) else None | None => None end
        end
      else parse_uint (width - 1) s
  | [] => None
  end.

Definition parse_i32 : bytes -> option Z := parse_signed 32.

Section Tun.
Context {M : Type} `{Y : Unix M}.

(** *** Linux *)

Record LinuxTun := mkLinuxTun { ltun_fd : Z; ltun_name : bytes }.

Definition linux_new (name : bytes) (s : M) : outcome (result TunError LinuxTun) * M :=
  match parse_i32 name with
  | Some fd => (Ret (Ok (mkLinuxTun fd name)), s)
  | None =>
      let '(r, s) := perform OpOpenTun s in
      match r with
      | None => (Ret (Err ESocket), s)
      | Some fd =>
          if bool_decide (IFNAMSIZ <= length name)%nat then (Ret (Err EInvalidTunnelName), s)
          else match padded IFNAMSIZ name with
          | Panic => (Panic, s)
          | Ret ifr_name =>
              let '(ok, s) := perform (OpTunSetIff fd ifr_name (Z.lor (Z.lor IFF_TUN IFF_NO_PI) IFF_MULTI_QUEUE)) s in
              (Ret (if ok then Ok (mkLinuxTun fd name) else Err EIOCtl), s)
          end
      end
  end.

(** [Drop], for both systems *)
Definition tun_drop (fd : Z) (s : M) : M := ignore (perform (OpClose fd)) s.

(** [set_non_blocking(self)]: on an error the socket is dropped. The flag is a constant of the
    system. *)
Definition set_non_blocking (O_NONBLOCK fd : Z) (s : M) : result TunError unit * M :=
  let '(r, s) := perform (OpGetFl fd) s in
  match r with
  | None => (Err EFCntl, tun_drop fd s)
  | Some flags =>
      let '(ok, s) := perform (OpSetFl fd (Z.lor flags O_NONBLOCK)) s in
      if ok then (Ok tt, s) else (Err EFCntl, tun_drop fd s)
  end.

(** The end of [mtu]: the request and its answer. *)
Definition query_mtu (fd : Z) (name : bytes) (s : M) : outcome (result TunError Z) * M :=
  match padded IFNAMSIZ name with
  | Panic => (Panic, s)
  | Ret ifr_name =>
      let '(r, s) := perform (OpGetMtu fd ifr_name) s in
      match r with
      | None => (Ret (Err EIOCtl), s)
      | Some mtu => (Ret (Ok (wrap 64 mtu)), ignore (perform (OpClose fd)) s)
      end
  end.

Definition linux_mtu (t : LinuxTun) (s : M) : outcome (result TunError Z) * M :=
  if bool_decide (is_Some (parse_i32 (ltun_name t))) then (Ret (Ok 1500), s)
  else
    let '(r, s) := perform OpSocketInet s in
    match r with
    | None => (Ret (Err ESocket), s)
    | Some fd => query_mtu fd (ltun_name t) s
    end.

Definition linux_write (t : LinuxTun) (buf : bytes) (s : M) : nat * M :=
  let '(r, s) := perform (OpWrite (ltun_fd t) buf) s in (default 0%nat r, s).

Definition linux_read (t : LinuxTun) (size : nat) (s : M) : result TunError bytes * M :=
  let '(r, s) := perform (OpRead (ltun_fd t) size) s in
  (match r with None => Err EIfaceRead | Some d => Ok (take size d) end, s).

(** *** Darwin *)

Definition parse_utun_name (name : bytes) : result TunError Z :=
  match strip_prefix (str "utun") name with
  | None => Err EInvalidTunnelName
  | Some [] => Ok 0
  | Some idx => match parse_uint 32 idx with Some x => Ok (wrap 32 (x + 1)) | None => Err EInvalidTunnelName end
  end.

Definition darwin_new (name : bytes) (s : M) : outcome (result TunError Z) * M :=
  match parse_utun_name name with
  | Err e => (Ret (Err e), s)
  | Ok idx =>
      let '(r, s) := perform OpSocketSystem s in
      match r with
      | None => (Ret (Err ESocket), s)
      | Some fd =>
          match padded 96 CTRL_NAME with
          | Panic => (Panic, s)
          | Ret ctl_name =>
              let '(r, s) := perform (OpCtlInfo fd ctl_name) s in
              match r with
              | None => (Ret (Err EIOCtl), tun_drop fd s)
              | Some id =>
                  let '(ok, s) := perform (OpConnectCtl fd id idx) s in
                  if ok then (Ret (Ok fd), s) else (Ret (Err EConnect), tun_drop fd s)
              end
          end
      end
  end.

Definition darwin_name (fd : Z) (s : M) : result TunError bytes * M :=
  let '(r, s) := perform (OpIfName fd) s in
  match r with
  | None | Some [] => (Err EGetSockOpt, s)
  | Some n => (Ok (from_utf8_lossy (take (length n - 1) n)), s)
  end.

Definition darwin_mtu (fd : Z) (s : M) : outcome (result TunError Z) * M :=
  let '(r, s) := perform OpSocketInet s in
  match r with
  | None => (Ret (Err ESocket), s)
  | Some sock =>
      let '(name, s) := darwin_name fd s in
      match name with
      | Err e => (Ret (Err e), s)
      | Ok name => query_mtu sock name s
      end
  end.

(** The address family before each packet. *)
Definition darwin_write (fd : Z) (src : bytes) (af : Z) (s : M) : nat * M :=
  let '(r, s) := perform (OpSendmsg fd [x00; x00; x00; of_u8 af] src) s in (default 0%nat r, s).

Definition darwin_write4 (fd : Z) (src : bytes) : M -> nat * M := darwin_write fd src AF_INET.
Definition darwin_write6 (fd : Z) (src : bytes) : M -> nat * M := darwin_write fd src AF_INET6.

Definition darwin_read (fd : Z) (size : nat) (s : M) : result TunError bytes * M :=
  let '(r, s) := perform (OpRecvmsg fd 4 size) s in
  match r with
  | None => (Err EIfaceRead, s)
  | Some d =>
      let n := Nat.min (length d) (4 + size) in
      (Ok (if bool_decide (n <= 4)%nat then [] else take (n - 4) (drop 4 d)), s)
  end.
End Tun.

(** ** Descriptors *)

Definition opened (ev : Event) : list Z :=
  match ev with
  | existT op a =>
      match op return answer op -> list Z with
      | OpOpenTun | OpSocketSystem | OpSocketInet => fun r => match r with Some fd => [fd] | None => [] end
      | _ => fun _ => []
      end a
  end.
Definition closed (ev : Event) : list Z := match projT1 ev with OpClose fd => [fd] | _ => [] end.

(** What a record opened and what it closed. *)
Definition descriptors (es : list Event) : list Z * list Z := (concat (opened <$> es), concat (closed <$> es)).

Section Descriptors.
Context {M : Type} `{Y : Unix M}.

Abbreviation R := (list Event * M)%type.
Abbreviation op_of op := (wp_perform (answer := answer) op).

(** A socket on Darwin is the one descriptor that [new] leaves open; when it fails, none is. *)
Lemma darwin_new_descriptors name :
  wp (darwin_new (M := R) name) (fun r es => exists fd,
    match r with
    | Ret (Ok sock) => descriptors es = ([sock], [])
    | Ret (Err _) => descriptors es = ([], []) \/ descriptors es = ([fd], [fd])
    | Panic => False
    end).
Proof.
  unfold darwin_new. destruct (parse_utun_name name) as [idx|e]; [|apply wp_pure; exists 0; by left].
  apply wp_let, (op_of OpSocketSystem). intros [fd|]; [|apply wp_pure; exists 0; by left].
  destruct (padded 96 CTRL_NAME) eqn:Hp; [|done].
  apply wp_let, (op_of (OpCtlInfo _ _)). intros [id|].
  - apply wp_let, (op_of (OpConnectCtl _ _ _)). intros []; [apply wp_pure; by exists fd|].
    apply (wp_ignore (perform (OpClose fd)) (fun s => (Ret (Err EConnect), s))), (op_of (OpClose _)).
    intros []. apply wp_pure. exists fd. by right.
  - apply (wp_ignore (perform (OpClose fd)) (fun s => (Ret (Err EIOCtl), s))), (op_of (OpClose _)).
    intros []. apply wp_pure. exists fd. by right.
Qed.

(** On Linux a descriptor stays open when the name is too long or the interface is refused. *)
Lemma linux_new_descriptors name :
  wp (linux_new (M := R) name) (fun r es =>
    match r with
    | Ret (Ok t) => descriptors es = (if bool_decide (is_Some (parse_i32 name)) then [] else [ltun_fd t], [])
    | Ret (Err ESocket) => descriptors es = ([], [])
    | Ret (Err _) => exists fd, descriptors es = ([fd], [])
    | Panic => False
    end).
Proof.
  unfold linux_new. destruct (parse_i32 name) as [fd|]; [by apply wp_pure|].
  apply wp_let, (op_of OpOpenTun). intros [fd|]; [|by apply wp_pure].
  case_bool_decide as Hl; [apply wp_pure; by exists fd|].
  unfold padded. rewrite bool_decide_eq_true_2 by lia.
  apply wp_let, (op_of (OpTunSetIff _ _ _)). intros []; apply wp_pure; [done|by exists fd].
Qed.

Lemma query_mtu_descriptors fd name :
  wp (query_mtu (M := R) fd name) (fun r es =>
    match r with
    | Ret (Ok _) => descriptors es = ([], [fd])
    | _ => descriptors es = ([], [])
    end).
Proof.
  unfold query_mtu. destruct (padded IFNAMSIZ name); [|by apply wp_pure].
  apply wp_let, (op_of (OpGetMtu _ _)). intros [mtu|]; [|by apply wp_pure].
  apply (wp_ignore (perform (OpClose fd)) (fun s => (Ret (Ok (wrap 64 mtu)), s))), (op_of (OpClose _)).
  intros []. by apply wp_pure.
Qed.
End Descriptors.

(** ** Names of interfaces on Darwin *)

(** The interface [utun<n>] is unit [n + 1]; unit zero lets the system choose. *)
Theorem utun_names n : 0 <= n < 2 ^ 32 - 1 -> parse_utun_name (str "utun" ++ show_uint n) = Ok (n + 1).
Proof.
  intros Hn. unfold parse_utun_name, strip_prefix. rewrite take_app_length, bool_decide_eq_true_2, drop_app_length by done.
  assert (parse_uint 32 (show_uint n) = Some n) as Hp by (apply parse_show; unfold in_width; lia).
  destruct (show_uint n) as [|b l]; [done|]. rewrite Hp, wrap_small; [done|]. unfold in_width. lia.
Qed.

(** ** Packets of an interface on Darwin *)

(** What is written to an interface on Darwin, read on one, is the packet that was written,
    without the address family and cut to the buffer. *)
Theorem darwin_framing {M : Type} `{Y : Unix M} fd af src size (s s' : M) :
  perform (OpRecvmsg fd 4 size) s = (Some ([x00; x00; x00; of_u8 af] ++ src), s') ->
  darwin_read fd size s = (Ok (take size src), s').
Proof.
  intros Hr. unfold darwin_read. rewrite Hr. do 2 f_equal. cbn [drop app]. rewrite drop_0. set (n := Nat.min _ _).
  assert (n = 4 + Nat.min (length src) size)%nat as -> by (subst n; cbn [app length]; lia).
  case_bool_decide as Hb.
  - destruct src as [|x src]; [by rewrite take_nil|]. destruct size; [done|]. cbn [length] in Hb. lia.
  - replace (4 + Nat.min (length src) size - 4)%nat with (Nat.min (length src) size) by lia.
    destruct (Nat.min_spec (length src) size) as [[? ->]|[? ->]]; [|done].
    rewrite (take_ge src size) by lia. by rewrite take_ge by lia.
Qed.

(** ** Privileges *)

Record Creds := mkCreds { ruid : Z; euid : Z; suid : Z; rgid : Z; egid : Z; sgid : Z; groups : list Z }.

(** What POSIX says of [setuid]: with privileges it sets the three identities, and otherwise
    the effective one to the real or the saved one. [setgid] likewise. *)
Definition posix_setuid (u : Z) (c : Creds) : option Creds :=
  if euid c =? 0 then Some (mkCreds u u u (rgid c) (egid c) (sgid c) (groups c))
  else if (u =? ruid c) || (u =? suid c) then Some (mkCreds (ruid c) u (suid c) (rgid c) (egid c) (sgid c) (groups c))
  else None.

Definition posix_setgid (g : Z) (c : Creds) : option Creds :=
  if euid c =? 0 then Some (mkCreds (ruid c) (euid c) (suid c) g g g (groups c))
  else if (g =? rgid c) || (g =? sgid c) then Some (mkCreds (ruid c) (euid c) (suid c) (rgid c) g (sgid c) (groups c))
  else None.

(** The process, with its identities; [None] is [-1]. *)
Class Identity (P : Type) := {
  ids : P -> Creds;
  setuid : Z -> P -> option P;
  setgid : Z -> P -> option P;
}.

Class IdentityLaws (P : Type) `{I : Identity P} : Prop := {
  setuid_posix : forall u p, ids <$> setuid u p = posix_setuid u (ids p);
  setgid_posix : forall g p, ids <$> setgid g p = posix_setgid g (ids p);
}.

(** [get_saved_ids]: the user of the environment on Darwin, and of [getlogin] elsewhere, looked
    up among the users. *)
Inductive PrivError := ENoUser | EUserLookup | ELast | EStillPrivileged.

Definition get_saved_ids (user : option bytes) (getpwnam : bytes -> result PrivError (option (Z * Z))) : result PrivError (Z * Z) :=
  match user with
  | None => Err ENoUser
  | Some uname =>
      match getpwnam uname with
      | Ok (Some ids) => Ok ids
      | Ok None => Err EUserLookup
      | Err e => Err e
      end
  end.

Section Privileges.
Context {P : Type} `{I : Identity P}.

Definition drop_privileges (saved : result PrivError (Z * Z)) (p : P) : result PrivError unit * P :=
  match saved with
  | Err e => (Err e, p)
  | Ok (saved_uid, saved_gid) =>
      match setgid saved_gid p with
      | None => (Err ELast, p)
      | Some p =>
          match setuid saved_uid p with
          | None => (Err ELast, p)
          | Some p =>
              match setgid 0 p with
              | Some p => (Err EStillPrivileged, p)
              | None =>
                  match setuid 0 p with
                  | Some p => (Err EStillPrivileged, p)
                  | None => (Ok tt, p)
                  end
              end
          end
      end
  end.

(** What a process can become by further calls. *)
Inductive becomes : P -> P -> Prop :=
| becomes_refl p : becomes p p
| becomes_setuid p p1 p2 u : setuid u p = Some p1 -> becomes p1 p2 -> becomes p p2
| becomes_setgid p p1 p2 g : setgid g p = Some p1 -> becomes p1 p2 -> becomes p p2.

(** No identity of the process is that of the superuser. *)
Definition unprivileged (c : Creds) : Prop :=
  ruid c <> 0 /\ euid c <> 0 /\ suid c <> 0 /\ rgid c <> 0 /\ egid c <> 0 /\ sgid c <> 0.

Context `{IL : !IdentityLaws P}.

(** A call and its effect on the identities. *)
Lemma setuid_inv u p : match setuid u p with Some p' => posix_setuid u (ids p) = Some (ids p') | None => posix_setuid u (ids p) = None end.
Proof. rewrite <- setuid_posix. by destruct (setuid u p). Qed.

Lemma setgid_inv g p : match setgid g p with Some p' => posix_setgid g (ids p) = Some (ids p') | None => posix_setgid g (ids p) = None end.
Proof. rewrite <- setgid_posix. by destruct (setgid g p). Qed.

Ltac creds :=
  repeat match goal with
  | H : context [if ?b then _ else _] |- _ => destruct b eqn:?; try done
  | H : Some _ = Some _ |- _ => injection H as ?
  end;
  rewrite ?orb_true_iff, ?orb_false_iff, ?Z.eqb_eq, ?Z.eqb_neq in *.

Lemma unprivileged_setuid u c c' : posix_setuid u c = Some c' -> unprivileged c -> unprivileged c'.
Proof.
  intros Hs (H1 & H2 & H3 & H4 & H5 & H6). unfold posix_setuid in Hs. creds; subst c'; try done;
    unfold unprivileged; cbn; split_and!; try done; lia.
Qed.

Lemma unprivileged_setgid g c c' : posix_setgid g c = Some c' -> unprivileged c -> unprivileged c'.
Proof.
  intros Hs (H1 & H2 & H3 & H4 & H5 & H6). unfold posix_setgid in Hs. creds; subst c'; try done;
    unfold unprivileged; cbn; split_and!; try done; lia.
Qed.

Lemma unprivileged_for_good p p' : becomes p p' -> unprivileged (ids p) -> unprivileged (ids p').
Proof.
  induction 1 as [p|p p1 p2 u Hs _ IH|p p1 p2 g Hs _ IH]; intros Hp; [done|..]; apply IH.
  - pose proof (setuid_inv u p) as Hi. rewrite Hs in Hi. by eapply unprivileged_setuid.
  - pose proof (setgid_inv g p) as Hi. rewrite Hs in Hi. by eapply unprivileged_setgid.
Qed.

(** After the checks at the end, nothing of the superuser is left. *)
Lemma checked_unprivileged u g c c1 c2 :
  posix_setgid g c = Some c1 -> posix_setuid u c1 = Some c2 -> posix_setgid 0 c2 = None -> posix_setuid 0 c2 = None ->
  unprivileged c2 /\ groups c2 = groups c.
Proof.
  intros E1 E2 E3 E4. unfold posix_setuid, posix_setgid in *. creds; subst c1; cbn in *; subst c2; cbn in *;
    unfold unprivileged; cbn; split; try done; lia.
Qed.

(** When [drop_privileges] succeeds, neither a user nor a group identity of the process is
    that of the superuser, and no sequence of [setuid] and [setgid] brings one back; it does
    not change the supplementary groups. Started by the superuser, it succeeds with the
    identities it is to drop to when both are ordinary, and fails otherwise. *)
Theorem privileges_dropped saved p :
  match drop_privileges saved p with
  | (Ok _, p') => (forall p'', becomes p' p'' -> unprivileged (ids p'')) /\ groups (ids p') = groups (ids p)
  | (Err _, _) => True
  end
  /\ (euid (ids p) = 0 -> forall u g, saved = Ok (u, g) ->
     match drop_privileges saved p with
     | (Ok _, p') => u <> 0 /\ g <> 0 /\ ids p' = mkCreds u u u g g g (groups (ids p))
     | (Err _, _) => u = 0 \/ g = 0
     end).
Proof.
  split.
  - unfold drop_privileges. destruct saved as [[u g]|e]; [|done].
    pose proof (setgid_inv g p) as E1. destruct (setgid g p) as [p1|]; [|done].
    pose proof (setuid_inv u p1) as E2. destruct (setuid u p1) as [p2|]; [|done].
    pose proof (setgid_inv 0 p2) as E3. destruct (setgid 0 p2); [done|].
    pose proof (setuid_inv 0 p2) as E4. destruct (setuid 0 p2); [done|].
    destruct (checked_unprivileged u g (ids p) (ids p1) (ids p2) E1 E2 E3 E4) as [Hu Hg].
    split; [|done]. intros p'' Hb. by eapply unprivileged_for_good.
  - intros He u g ->. unfold drop_privileges.
    pose proof (setgid_inv g p) as E1. unfold posix_setgid in E1. rewrite He, Z.eqb_refl in E1.
    destruct (setgid g p) as [p1|]; [|done]. injection E1 as E1.
    pose proof (setuid_inv u p1) as E2. rewrite <- E1 in E2. unfold posix_setuid in E2. cbn -[Z.eqb] in E2. rewrite Z.eqb_refl in E2.
    destruct (setuid u p1) as [p2|]; [|done]. injection E2 as E2.
    pose proof (setgid_inv 0 p2) as E3. rewrite <- E2 in E3. unfold posix_setgid in E3. cbn -[Z.eqb] in E3.
    pose proof (setuid_inv 0 p2) as E4. rewrite <- E2 in E4. unfold posix_setuid in E4. cbn -[Z.eqb] in E4.
    destruct (setgid 0 p2) as [p3|]; [|destruct (setuid 0 p2) as [p3|]]; creds; try done; try lia.
    split_and!; [lia|lia|done].
Qed.
End Privileges.

(** ** Examples *)

#[local] Instance posix_identity : Identity Creds := {| ids c := c; setuid := posix_setuid; setgid := posix_setgid |}.

#[local] Instance posix_identity_laws : IdentityLaws Creds.
Proof. split; intros u p; cbn; [by destruct (posix_setuid u p)|by destruct (posix_setgid u p)]. Qed.

Lemma privileges_dropped_witness :
  drop_privileges (Ok (1000, 100)) (mkCreds 0 0 0 0 0 0 [0; 27])
  = (Ok tt, mkCreds 1000 1000 1000 100 100 100 [0; 27])
  /\ forall p, becomes (mkCreds 1000 1000 1000 100 100 100 [0; 27]) p -> unprivileged (ids p).
Proof.
  split; [reflexivity|].
  destruct (privileges_dropped (Ok (1000, 100)) (mkCreds 0 0 0 0 0 0 [0; 27])) as [Hd _]. exact (proj1 Hd).
Defined.
