(* ===== verification/Device.v ===== *)
(** * The device: peers and their payments ([device/peer.rs], [device/mod.rs])

    [Peer], [Device] with its three maps, the operations that add, remove and
    re-key peers, and the payment handlers. A peer is shared ([Arc<Mutex<Peer>>])
    between the maps of the device, so the maps hold references into the heap of
    peers; a rate limiter is shared between the device and its tunnels and lives
    in a heap of its own. A handler runs with the peer's mutex held: the payment
    handlers take the locked peer, with its limiter in the tunnel, and return it.

    The model is of the build with the feature [payment]. *)

From Stdlib Require Import ZArith Lia.
From stdpp Require Import base numbers list option gmap.
From S2P Require Import Prelude Errors Clock Packet Crypto Session Handshake RateLimiter Tunnel IndexLfsr Quota PaymentProtocol RustText NetText Eip3009 Settlement AllowedIps.

Definition HANDSHAKE_RATE_LIMIT : Z := 100.
Definition MAX_UDP_SIZE : nat := Z.to_nat 65535.
Definition MAX_ITR : nat := 100.
Definition MAX_PAYMENT_PACKET_SIZE : nat := 512.

(** ** Peers *)

(** [conn] says whether the peer has a connected socket. *)
Record Endpoint := mkEndpoint { ep_addr : option SocketAddr; ep_conn : bool }.

(** The sockets of the device: the two listeners, and the connected socket of a
    peer, by its reference. *)
Inductive Sock := Udp4 | Udp6 | Conn (peer : nat).

(** What a handler does to the outside: datagrams and packets for the interface. *)
Inductive effect :=
| SendNet (sock : Sock) (dst : option SocketAddr) (packet : bytes)
| WriteTun4 (packet : bytes)
| WriteTun6 (packet : bytes).

Section Peer.
Context `{I : IpCrates}.

Record Peer := mkPeer {
  tunnel : Tunn;
  limiter_ref : nat;
  peer_index : Z;
  endpoint : Endpoint;
  peer_allowed_ips : AllowedIps unit;
  peer_preshared_key : option bytes;
  quota : option BandwidthQuota;
}.

Definition with_tunnel (t : Tunn) (p : Peer) : Peer :=
  mkPeer t (limiter_ref p) (peer_index p) (endpoint p) (peer_allowed_ips p)
    (peer_preshared_key p) (quota p).
Definition with_limiter_ref (r : nat) (p : Peer) : Peer :=
  mkPeer (tunnel p) r (peer_index p) (endpoint p) (peer_allowed_ips p)
    (peer_preshared_key p) (quota p).
Definition with_endpoint (e : Endpoint) (p : Peer) : Peer :=
  mkPeer (tunnel p) (limiter_ref p) (peer_index p) e (peer_allowed_ips p)
    (peer_preshared_key p) (quota p).
Definition with_quota (q : option BandwidthQuota) (p : Peer) : Peer :=
  mkPeer (tunnel p) (limiter_ref p) (peer_index p) (endpoint p) (peer_allowed_ips p)
    (peer_preshared_key p) q.

Definition peer_new (t : Tunn) (r : nat) (index : Z) (e : option SocketAddr)
    (allowed : list AllowedIP) (psk : option bytes) : outcome Peer :=
  let! ips := allowed_ips_from_iter ((fun ip => (ip, tt)) <$> allowed) in
  Ret (mkPeer t r index (mkEndpoint e false) ips psk None).

Definition shutdown_endpoint (p : Peer) : Peer :=
  with_endpoint (mkEndpoint (ep_addr (endpoint p)) false) p.

Definition set_endpoint (a : SocketAddr) (p : Peer) : Peer :=
  if bool_decide (ep_addr (endpoint p) = Some a) then p
  else with_endpoint (mkEndpoint (Some a) false) p.

(** [connect_endpoint]; [os] is whether the socket calls succeed. *)
Definition connect_endpoint (os : bool) (p : Peer) : outcome (bool * Peer) :=
  if ep_conn (endpoint p) then Ret (false, p)
  else
    let! _ := unwrap (ep_addr (endpoint p)) in
    if os then Ret (true, with_endpoint (mkEndpoint (ep_addr (endpoint p)) true) p)
    else Ret (false, p).

Definition is_allowed_ip (a : IpAddr) (p : Peer) : bool :=
  match allowed_ips_find a (peer_allowed_ips p) with Some _ => true | None => false end.

(** [self.allowed_ips()] *)
Definition peer_ips (p : Peer) : list (IpAddr * Z) :=
  (fun '(_, ip, c) => (ip, c)) <$> allowed_ips_iter (peer_allowed_ips p).

(** [match p.allowed_ips().next() { Some((IpAddr::V4(ip), _)) => ip, _ => return }] *)
Definition first_ipv4 (p : Peer) : option bytes :=
  match peer_ips p with (V4 ip, _) :: _ => Some ip | _ => None end.
End Peer.

(** ** The device *)

Section Device.
Context `{C : Crypto} `{E : Env} `{Eth : Ethereum} `{I : IpCrates} `{H : Hex}.

Record Device := mkDevice {
  key_pair : option (bytes * bytes);
  peers : gmap bytes nat;
  peers_by_ip : AllowedIps nat;
  peers_by_idx : gmap Z nat;
  next_index : IndexLfsr;
  use_connected_socket : bool;
  listen_port : Z;
  fwmark : option Z;
  (** whether [udp4] and [udp6] hold a socket *)
  udp4 : bool;
  udp6 : bool;
  dev_limiter : option nat;
  payment_wallet : option PaymentWallet;
  payment_config : PaymentConfig;
  settlement_client : option SettlementClient;
  (** What the references refer to. *)
  heap : gmap nat Peer;
  limiters : gmap nat RateLimiter;
  next_ref : nat;
}.

Definition with_maps (ps : gmap bytes nat) (ips : AllowedIps nat) (idx : gmap Z nat) (d : Device)
    : Device :=
  mkDevice (key_pair d) ps ips idx (next_index d) (use_connected_socket d) (listen_port d) (fwmark d) (udp4 d) (udp6 d) (dev_limiter d)
    (payment_wallet d) (payment_config d) (settlement_client d) (heap d) (limiters d) (next_ref d).
Definition with_lfsr (s : IndexLfsr) (d : Device) : Device :=
  mkDevice (key_pair d) (peers d) (peers_by_ip d) (peers_by_idx d) s (use_connected_socket d) (listen_port d) (fwmark d) (udp4 d) (udp6 d)
    (dev_limiter d) (payment_wallet d) (payment_config d) (settlement_client d) (heap d)
    (limiters d) (next_ref d).
Definition with_heap (h : gmap nat Peer) (d : Device) : Device :=
  mkDevice (key_pair d) (peers d) (peers_by_ip d) (peers_by_idx d) (next_index d)
    (use_connected_socket d) (listen_port d) (fwmark d) (udp4 d) (udp6 d) (dev_limiter d) (payment_wallet d) (payment_config d)
    (settlement_client d) h (limiters d) (next_ref d).
Definition with_limiters (l : gmap nat RateLimiter) (d : Device) : Device :=
  mkDevice (key_pair d) (peers d) (peers_by_ip d) (peers_by_idx d) (next_index d)
    (use_connected_socket d) (listen_port d) (fwmark d) (udp4 d) (udp6 d) (dev_limiter d) (payment_wallet d) (payment_config d)
    (settlement_client d) (heap d) l (next_ref d).

Definition with_sockets (port : Z) (u4 u6 : bool) (d : Device) : Device :=
  mkDevice (key_pair d) (peers d) (peers_by_ip d) (peers_by_idx d) (next_index d)
    (use_connected_socket d) port (fwmark d) u4 u6 (dev_limiter d) (payment_wallet d)
    (payment_config d) (settlement_client d) (heap d) (limiters d) (next_ref d).
Definition with_fwmark (mark : Z) (d : Device) : Device :=
  mkDevice (key_pair d) (peers d) (peers_by_ip d) (peers_by_idx d) (next_index d)
    (use_connected_socket d) (listen_port d) (Some mark) (udp4 d) (udp6 d) (dev_limiter d)
    (payment_wallet d) (payment_config d) (settlement_client d) (heap d) (limiters d) (next_ref d).

(** The fields of [Device::new] that are modelled; [s] is [IndexLfsr::default()],
    [c] is [PaymentConfig::default()]. *)
Definition device_new (s : IndexLfsr) (c : PaymentConfig) (connected_sockets : bool) : Device :=
  mkDevice None ∅ allowed_ips_new ∅ s connected_sockets 0 None false false None None c None ∅ ∅ 0.

(** A new shared peer with a limiter of its own, and a new shared limiter. *)
Definition alloc_peer (p : Peer) (d : Device) : nat * Device :=
  let r := next_ref d in
  let p := with_limiter_ref r p in
  (r, mkDevice (key_pair d) (peers d) (peers_by_ip d) (peers_by_idx d) (next_index d)
        (use_connected_socket d) (listen_port d) (fwmark d) (udp4 d) (udp6 d) (dev_limiter d) (payment_wallet d) (payment_config d)
        (settlement_client d) (<[r := p]> (heap d))
        (<[r := rate_limiter (tunnel p)]> (limiters d)) (S r)).

(** [peer.lock()], with the shared limiter in the tunnel, and its release. *)
Definition lock_peer (r : nat) (d : Device) : outcome Peer :=
  let! p := unwrap (heap d !! r) in
  let! l := unwrap (limiters d !! limiter_ref p) in
  Ret (with_tunnel (with_limiter l (tunnel p)) p).

Definition unlock_peer (r : nat) (p : Peer) (d : Device) : Device :=
  with_limiters (<[limiter_ref p := rate_limiter (tunnel p)]> (limiters d))
    (with_heap (<[r := p]> (heap d)) d).

(** ** Adding, removing and re-keying peers *)

Definition remove_peer (pub_key : bytes) (d : Device) : outcome Device :=
  match peers d !! pub_key with
  | None => Ret d
  | Some r =>
      let! p := unwrap (heap d !! r) in
      let d := with_heap (<[r := shutdown_endpoint p]> (heap d)) d in
      Ret (with_maps (delete pub_key (peers d))
             (allowed_ips_remove (fun r' => bool_decide (r' = r)) (peers_by_ip d))
             (delete (peer_index p) (peers_by_idx d)) d)
  end.

Definition update_peer (pub_key : bytes) (remove : bool) (e : option SocketAddr)
    (allowed : list AllowedIP) (keepalive : option Z) (psk : option bytes) (d : Device) (w : World)
    : outcome (Device * World) :=
  if remove then let! d := remove_peer pub_key d in Ret (d, w)
  else
    match peers d !! pub_key with
    | Some _ => Panic     (* "Modifying existing peers is not yet supported" *)
    | None =>
        let! (index, lfsr) := lfsr_next (next_index d) in
        let d := with_lfsr lfsr d in
        let! (private_key, _) := unwrap (key_pair d) in
        let '(t, w) := tunn_new private_key pub_key psk keepalive index None w in
        let! p := peer_new t 0 index e allowed psk in
        let p := with_quota (Some (quota_new DEFAULT_QUOTA_BYTES)) p in
        let '(r, d) := alloc_peer p d in
        let! ips := insert_all ((fun ip => (ip, r)) <$> allowed) (peers_by_ip d) in
        Ret (with_maps (<[pub_key := r]> (peers d)) ips (<[index := r]> (peers_by_idx d)) d, w)
    end.

(** [peer.lock().tunnel.set_static_private(..)] for every peer, with the shared
    limiter [lr]. *)
Fixpoint rekey_all (private_key public_key : bytes) (lr : nat) (rs : list nat) (d : Device) (w : World)
    : outcome (Device * World) :=
  match rs with
  | [] => Ret (d, w)
  | r :: rs =>
      let! p := lock_peer r d in
      let! rl := unwrap (limiters d !! lr) in
      let! (t, w) := tunn_set_static_private private_key public_key (Some rl) (tunnel p) w in
      let d := unlock_peer r (with_limiter_ref lr (with_tunnel t p)) d in
      rekey_all private_key public_key lr rs d w
  end.

(** [set_key]; the deposit a client makes here is a call to the chain whose result
    is only logged. *)
Definition set_key (private_key : bytes) (d : Device) (w : World) : outcome (Device * World) :=
  let public_key := x25519_public private_key in
  if bool_decide (snd <$> key_pair d = Some public_key) then Ret (d, w)
  else
    let '(rl, w) := rate_limiter_new public_key HANDSHAKE_RATE_LIMIT w in
    let lr := next_ref d in
    let d := mkDevice (key_pair d) (peers d) (peers_by_ip d) (peers_by_idx d) (next_index d)
               (use_connected_socket d) (listen_port d) (fwmark d) (udp4 d) (udp6 d) (dev_limiter d) (payment_wallet d) (payment_config d)
               (settlement_client d) (heap d) (<[lr := rl]> (limiters d)) (S lr) in
    let! (d, w) := rekey_all private_key public_key lr (snd <$> map_to_list (peers d)) d w in
    let! wallet := from_wireguard_key private_key in
    let client := if is_server (payment_config d)
                  then Some (settlement_client_new (gateway_api_url (payment_config d)))
                  else settlement_client d in
    Ret (mkDevice (Some (private_key, public_key)) (peers d) (peers_by_ip d) (peers_by_idx d)
           (next_index d) (use_connected_socket d) (listen_port d) (fwmark d) (udp4 d) (udp6 d) (Some lr) (Some wallet) (payment_config d)
           client (heap d) (limiters d) (next_ref d), w).

(** [for peer in self.peers.values() { peer.lock().shutdown_endpoint() }] *)
Fixpoint shutdown_all (rs : list nat) (d : Device) : outcome Device :=
  match rs with
  | [] => Ret d
  | r :: rs =>
      let! p := unwrap (heap d !! r) in
      shutdown_all rs (with_heap (<[r := shutdown_endpoint p]> (heap d)) d)
  end.

(** [open_listen_socket]: the old sockets go first. [os] is the outcome of the
    socket calls and of the registration of the handlers, with the port that the
    system chose when [port] is zero. The flag is whether it returns [Ok]. *)
Definition open_listen_socket (port : Z) (os : option Z) (d : Device) : outcome (bool * Device) :=
  let d := with_sockets (listen_port d) false false d in
  let! d := shutdown_all (snd <$> map_to_list (peers d)) d in
  match os with
  | None => Ret (false, d)
  | Some bound => Ret (true, with_sockets (if port =? 0 then bound else port) true true d)
  end.

(** [set_fwmark]; [os] is whether every [set_mark] succeeds. *)
Definition set_fwmark (mark : Z) (os : bool) (d : Device) : bool * Device := (os, with_fwmark mark d).

Definition clear_peers (d : Device) : Device :=
  with_maps ∅ (allowed_ips_clear (peers_by_ip d)) ∅ d.

(** ** Payments *)

(** [p.tunnel.encapsulate(&ip_packet, &mut enc_buf)] and [udp.send_to(enc, addr)] *)
Definition send_encapsulated (ip_packet : bytes) (sock : Sock) (a : SocketAddr) (p : Peer) (w : World)
    : outcome (list effect * Peer * World) :=
  let! (r, t, w) := encapsulate ip_packet MAX_PAYMENT_PACKET_SIZE (tunnel p) w in
  let p := with_tunnel t p in
  match r with
  | WriteToNetwork enc => Ret ([SendNet sock (Some a) enc], p, w)
  | _ => Ret ([], p, w)
  end.

(** The packet of [send_payment_required], before encapsulation. *)
Definition payment_required_packet (d : Device) (p : Peer) (w : World)
    : outcome (option bytes * World) :=
  match payment_wallet d with
  | None => Ret (None, w)
  | Some wallet =>
      match first_ipv4 p with
      | None => Ret (None, w)
      | Some peer_ip =>
          let '(nonce, w) := fill_bytes 32 w in
          let! (now, w) := unix_secs w in
          let msg := mkRequired (amount_per_quota (payment_config d)) nonce
                       (ethereum_address wallet) (wrap 64 (now + 300))
                       (cfg_chain_id (payment_config d)) (usdc_contract (payment_config d)) in
          let tlv := PaymentRequired_encode msg in
          let! ip_packet := build_signal_packet PAYMENT_GATEWAY_IP peer_ip tlv in
          Ret (Some ip_packet, w)
      end
  end.

Definition send_payment_required (d : Device) (p : Peer) (sock : Sock) (a : SocketAddr) (w : World)
    : outcome (list effect * Peer * World) :=
  let! (packet, w) := payment_required_packet d p w in
  match packet with
  | None => Ret ([], p, w)
  | Some ip_packet => send_encapsulated ip_packet sock a p w
  end.

(** The tail of [handle_payment_submit]: [PaymentAccepted] back to the peer. *)
Definition send_payment_accepted (d : Device) (p : Peer) (sock : Sock) (a : SocketAddr) (w : World)
    : outcome (list effect * Peer * World) :=
  match first_ipv4 p with
  | None => Ret ([], p, w)
  | Some peer_ip =>
      let tlv := PaymentAccepted_encode (mkAccepted (quota_bytes (payment_config d))) in
      let! ip_packet := build_signal_packet PAYMENT_GATEWAY_IP peer_ip tlv in
      send_encapsulated ip_packet sock a p w
  end.

Definition credit_peer (bytes : Z) (p : Peer) : Peer := with_quota (credit bytes <$> quota p) p.

(** The nonce check: a peer without quota passes. *)
Definition use_nonce (nonce : bytes) (p : Peer) : bool * Peer :=
  match quota p with
  | None => (true, p)
  | Some q => let '(b, q) := check_and_record_nonce nonce q in (b, with_quota (Some q) p)
  end.

Definition submit_auth (s : PaymentSubmit) : TransferAuthorization :=
  mkAuth (sub_from s) (sub_to s) (sub_value s) (sub_valid_after s) (sub_valid_before s) (sub_nonce s).
Definition submit_signed (s : PaymentSubmit) : SignedAuthorization :=
  mkSigned (submit_auth s) (sub_v s) (sub_r s) (sub_s s).

(** [handle_payment_submit] from the signature check on. [post] and [from_json]
    are the answer of the gateway to this payment. *)
Definition redeem_payment (post : bytes -> SettleRequest -> result bytes bytes)
    (from_json : bytes -> result bytes SettleResponse)
    (d : Device) (wallet : PaymentWallet) (submit : PaymentSubmit)
    (p : Peer) (sock : Sock) (a : SocketAddr) (w : World)
    : outcome (list effect * Peer * World) :=
  let! recovered :=
    verify_authorization (gateway_domain (payment_config d)) (submit_signed submit) in
  match recovered with
  | None => Ret ([], p, w)
  | Some signer =>
      if negb (bool_decide (signer = sub_from submit)) then Ret ([], p, w)
      else
        match settlement_client d with
        | None =>
            let p := credit_peer (quota_bytes (payment_config d)) p in
            send_payment_accepted d p sock a w
        | Some client =>
            let settle_req := build_settle_request (payment_config d) submit
                                (ethereum_address wallet) in
            match settle post from_json client settle_req with
            | Ok resp =>
                if success resp then
                  let p := credit_peer (quota_bytes (payment_config d)) p in
                  send_payment_accepted d p sock a w
                else Ret ([], p, w)
            | Err _ => Ret ([], p, w)
            end
        end
  end.

Definition handle_payment_submit (post : bytes -> SettleRequest -> result bytes bytes)
    (from_json : bytes -> result bytes SettleResponse)
    (d : Device) (p : Peer) (payload : bytes) (sock : Sock) (a : SocketAddr) (w : World)
    : outcome (list effect * Peer * World) :=
  match payment_wallet d with
  | None => Ret ([], p, w)
  | Some wallet =>
      let! decoded := PaymentSubmit_decode payload in
      match decoded with
      | None => Ret ([], p, w)
      | Some submit =>
          if negb (bool_decide (sub_to submit = ethereum_address wallet)) then Ret ([], p, w)
          else if sub_value submit <? amount_per_quota (payment_config d) then Ret ([], p, w)
          else
            let '(fresh, p) := use_nonce (sub_nonce submit) p in
            if negb fresh then Ret ([], p, w)
            else redeem_payment post from_json d wallet submit p sock a w
      end
  end.

(** The answer of a client to [PaymentRequired], before encapsulation. *)
Definition payment_submit_packet (d : Device) (p : Peer) (payload : bytes) (w : World)
    : outcome (option bytes * World) :=
  let! decoded := PaymentRequired_decode payload in
  match decoded, payment_wallet d with
  | Some req, Some wallet =>
      let! (now, w) := unix_secs w in
      let auth := mkAuth (ethereum_address wallet) (req_recipient req) (req_amount_usdc req) 0
                    (wrap 64 (now + 345600)) (req_nonce req) in
      let digest := compute_eip712_digest (gateway_domain (payment_config d)) auth in
      let! (v, r, s) := sign_digest wallet digest in
      let submit := mkSubmit (ethereum_address wallet) (req_recipient req)
                      (req_amount_usdc req) (auth_valid_after auth) (auth_valid_before auth)
                      (req_nonce req) v r s in
      let tlv := PaymentSubmit_encode submit in
      match first_ipv4 p with
      | None => Ret (None, w)
      | Some client_ip =>
          let! ip_packet := build_signal_packet client_ip PAYMENT_GATEWAY_IP tlv in
          Ret (Some ip_packet, w)
      end
  | _, _ => Ret (None, w)
  end.

Definition handle_payment_signal_client (d : Device) (p : Peer) (payload : bytes) (sock : Sock)
    (a : SocketAddr) (w : World) : outcome (list effect * Peer * World) :=
  match payload with
  | [] => Ret ([], p, w)
  | t :: _ =>
      if u8 t =? MSG_PAYMENT_REQUIRED then
        let! (packet, w) := payment_submit_packet d p payload w in
        match packet with
        | None => Ret ([], p, w)
        | Some ip_packet => send_encapsulated ip_packet sock a p w
        end
      else if u8 t =? MSG_PAYMENT_ACCEPTED then
        let! _ := PaymentAccepted_decode payload in Ret ([], p, w)
      else Ret ([], p, w)
  end.
End Device.
