(* ===== verification/DeviceHandlers.v ===== *)
(** * The packet handlers of the device ([device/mod.rs])

    The closures registered on the event queue: datagrams from the listening
    sockets, datagrams from a peer's connected socket, packets from the tunnel
    interface, and the two periodic events. Each is modelled on one input, with
    the batch loops over them; [post] is the payment gateway's answer, [os]
    whether the socket calls of a new connected socket succeed. *)

From Stdlib Require Import ZArith Lia.
From stdpp Require Import base numbers list option gmap.
From S2P Require Import Prelude Errors Clock Packet Crypto Session Handshake RateLimiter Tunnel IndexLfsr Quota PaymentProtocol RustText NetText Eip3009 Settlement AllowedIps Device.

Section Handlers.
Context `{C : Crypto} `{E : Env} `{Eth : Ethereum} `{I : IpCrates} `{H : Hex}.
Context (from_json : bytes -> result bytes SettleResponse).

(** ** Delivery of a decapsulated packet

    The [TunnResult::WriteToTunnelV4] and [V6] arms, which the two datagram
    handlers share but for the address a reply goes to. The first component says
    whether the arm ends in [continue]. *)

(** Quota enforcement: blocked, exhausted by this packet, or passed. *)
Inductive admission := Blocked | Exhausted | Passed.

Definition charge (d : Device) (n : nat) (p : Peer) : admission * Peer :=
  if is_server (payment_config d) then
    match quota p with
    | None => (Passed, p)
    | Some q =>
        if is_blocked q then (Blocked, p)
        else
          let '(b, q) := consume (Z.of_nat n) q in
          (if b then Passed else Exhausted, with_quota (Some q) p)
    end
  else (Passed, p).

(** A payment signal: dispatched on its addresses. *)
Definition deliver_signal (post : bytes -> SettleRequest -> result bytes bytes) (d : Device)
    (packet : bytes) (sock : Sock) (reply_to : Peer -> outcome SocketAddr) (p : Peer) (w : World)
    : outcome (list effect * Peer * World) :=
  let! payload := extract_signal_payload packet in
  match payload with
  | None => Ret ([], p, w)
  | Some payload =>
      let! dst := dst_ipv4 packet in
      match dst with
      | None => Ret ([], p, w)
      | Some dst =>
          if bool_decide (dst = PAYMENT_GATEWAY_IP) then
            let! a := reply_to p in
            handle_payment_submit post from_json d p payload sock a w
          else
            let! src := src_ipv4 packet in
            match src with
            | Some src =>
                if bool_decide (src = PAYMENT_GATEWAY_IP) then
                  let! a := reply_to p in
                  handle_payment_signal_client d p payload sock a w
                else Ret ([], p, w)
            | None => Ret ([], p, w)
            end
      end
  end.

Definition deliver_v4 (post : bytes -> SettleRequest -> result bytes bytes) (d : Device)
    (packet src_ip : bytes) (sock : Sock) (reply_to : Peer -> outcome SocketAddr) (p : Peer) (w : World)
    : outcome (bool * list effect * Peer * World) :=
  let! signal := is_payment_signal packet in
  if signal then
    let! (es, p, w) := deliver_signal post d packet sock reply_to p w in
    Ret (true, es, p, w)
  else if is_allowed_ip (V4 src_ip) p then
    let '(adm, p) := charge d (length packet) p in
    match adm with
    | Blocked => Ret (true, [], p, w)
    | Exhausted =>
        let! a := reply_to p in
        let! (es, p, w) := send_payment_required d p sock a w in
        Ret (true, es, p, w)
    | Passed => Ret (false, [WriteTun4 packet], p, w)
    end
  else Ret (false, [], p, w).

Definition deliver_v6 (d : Device) (packet src_ip : bytes) (p : Peer)
    : bool * list effect * Peer :=
  if is_allowed_ip (V6 src_ip) p then
    let '(adm, p) := charge d (length packet) p in
    match adm with
    | Blocked | Exhausted => (true, [], p)
    | Passed => (false, [WriteTun6 packet], p)
    end
  else (false, [], p).

(** [while let WriteToNetwork(packet) = p.tunnel.decapsulate(None, &[], dst)] *)
Fixpoint flush_loop (fuel : nat) (send : bytes -> effect) (t : Tunn) (w : World)
    : outcome (list effect * Tunn * World) :=
  match fuel with
  | O => Ret ([], t, w)
  | S fuel =>
      let! (r, t, w) := decapsulate None [] MAX_UDP_SIZE t w in
      match r with
      | WriteToNetwork packet =>
          let! (es, t, w) := flush_loop fuel send t w in
          Ret (send packet :: es, t, w)
      | _ => Ret ([], t, w)
      end
  end.

Definition flush_peer (send : bytes -> effect) (p : Peer) (w : World)
    : outcome (list effect * Peer * World) :=
  let! (es, t, w) := flush_loop (length (packet_queue (tunnel p)) + 2) send (tunnel p) w in
  Ret (es, with_tunnel t p, w).

(** ** Datagrams from the listening sockets *)

(** The peer a datagram is for. *)
Definition find_peer (private_key public_key : bytes) (packet : Packet) (d : Device)
    : outcome (option nat) :=
  match packet with
  | PHandshakeInit m =>
      let! half := parse_handshake_anon private_key public_key m in
      match half with
      | Ok hh => Ret (peers d !! half_peer_static_public hh)
      | Err _ => Ret None
      end
  | PHandshakeResponse m => Ret (peers_by_idx d !! Z.shiftr (resp_receiver_idx m) 8)
  | PPacketCookieReply m => Ret (peers_by_idx d !! Z.shiftr (cookie_receiver_idx m) 8)
  | PPacketData m => Ret (peers_by_idx d !! Z.shiftr (data_receiver_idx m) 8)
  end.

(** The locked part: what [handle_verified_packet] asks for is done; the flag is
    whether it ends in [continue]. *)
Definition udp_peer (post : bytes -> SettleRequest -> result bytes bytes) (os : bool) (d : Device)
    (sock : Sock) (a : SocketAddr) (packet : Packet) (p : Peer) (w : World)
    : outcome (bool * list effect * Peer * World) :=
  let send := SendNet sock (Some a) in
  let! (r, t, w) := handle_verified_packet packet MAX_UDP_SIZE (tunnel p) w in
  let p := with_tunnel t p in
  let! (skip, es, p, w) :=
    match r with
    | Done => Ret (false, [], p, w)
    | TunnErr _ => Ret (true, [], p, w)
    | WriteToNetwork pk =>
        let! (es, p, w) := flush_peer send p w in Ret (false, send pk :: es, p, w)
    | WriteToTunnelV4 pk src => deliver_v4 post d pk src sock (fun _ => Ret a) p w
    | WriteToTunnelV6 pk src =>
        let '(skip, es, p) := deliver_v6 d pk src p in Ret (skip, es, p, w)
    end in
  if skip then Ret (true, es, p, w)
  else
    let p := set_endpoint a p in
    if use_connected_socket d then
      let! (_, p) := connect_endpoint os p in Ret (false, es, p, w)
    else Ret (false, es, p, w).

Definition udp_datagram (post : bytes -> SettleRequest -> result bytes bytes) (os : bool)
    (sock : Sock) (a : SocketAddr) (datagram : bytes) (d : Device) (w : World)
    : outcome (bool * list effect * Device * World) :=
  let! (private_key, public_key) := unwrap (key_pair d) in
  let! lr := unwrap (dev_limiter d) in
  let! rl := unwrap (limiters d !! lr) in
  let! (v, rl, w) := verify_packet rl (Some (sa_ip a)) datagram MAX_UDP_SIZE w in
  let d := with_limiters (<[lr := rl]> (limiters d)) d in
  match v with
  | Err (WriteToNetwork cookie) => Ret (true, [SendNet sock (Some a) cookie], d, w)
  | Err _ => Ret (true, [], d, w)
  | Ok packet =>
      let! found := find_peer private_key public_key packet d in
      match found with
      | None => Ret (true, [], d, w)
      | Some r =>
          let! p := lock_peer r d in
          let! (skip, es, p, w) := udp_peer post os d sock a packet p w in
          Ret (skip, es, unlock_peer r p d, w)
      end
  end.

(** ** Datagrams from a connected socket *)

Definition conn_peer (post : bytes -> SettleRequest -> result bytes bytes) (d : Device)
    (self : nat) (peer_addr : IpAddr) (datagram : bytes) (p : Peer) (w : World)
    : outcome (bool * list effect * Peer * World) :=
  let sock := Conn self in
  let send := SendNet sock None in
  let! (r, t, w) := decapsulate (Some peer_addr) datagram MAX_UDP_SIZE (tunnel p) w in
  let p := with_tunnel t p in
  match r with
  | Done | TunnErr _ => Ret (false, [], p, w)
  | WriteToNetwork pk =>
      let! (es, p, w) := flush_peer send p w in Ret (false, send pk :: es, p, w)
  | WriteToTunnelV4 pk src =>
      deliver_v4 post d pk src sock (fun p => unwrap (ep_addr (endpoint p))) p w
  | WriteToTunnelV6 pk src =>
      let '(skip, es, p) := deliver_v6 d pk src p in Ret (skip, es, p, w)
  end.

Definition conn_datagram (post : bytes -> SettleRequest -> result bytes bytes)
    (self : nat) (peer_addr : IpAddr) (datagram : bytes) (d : Device) (w : World)
    : outcome (bool * list effect * Device * World) :=
  let! p := lock_peer self d in
  let! (skip, es, p, w) := conn_peer post d self peer_addr datagram p w in
  Ret (skip, es, unlock_peer self p d, w).

(** ** Packets from the tunnel interface *)

Definition send_to_endpoint (self : nat) (packet : bytes) (p : Peer) : list effect :=
  if ep_conn (endpoint p) then [SendNet (Conn self) None packet]
  else
    match ep_addr (endpoint p) with
    | Some a => [SendNet (match sa_ip a with V4 _ => Udp4 | V6 _ => Udp6 end) (Some a) packet]
    | None => []
    end.

Definition iface_peer (d : Device) (self : nat) (src : bytes) (p : Peer) (w : World)
    : outcome (list effect * Peer * World) :=
  let '(adm, p) := charge d (length src) p in
  match adm with
  | Blocked => Ret ([], p, w)
  | Exhausted =>
      match ep_addr (endpoint p) with
      | Some a => send_payment_required d p Udp4 a w
      | None => Ret ([], p, w)
      end
  | Passed =>
      let! (r, t, w) := encapsulate src MAX_UDP_SIZE (tunnel p) w in
      let p := with_tunnel t p in
      match r with
      | Done | TunnErr _ => Ret ([], p, w)
      | WriteToNetwork packet => Ret (send_to_endpoint self packet p, p, w)
      | _ => Panic
      end
  end.

Definition iface_packet (src : bytes) (d : Device) (w : World)
    : outcome (list effect * Device * World) :=
  let! dst_addr := dst_address src in
  match dst_addr with
  | None => Ret ([], d, w)
  | Some dst_addr =>
      match allowed_ips_find dst_addr (peers_by_ip d) with
      | None => Ret ([], d, w)
      | Some r =>
          let! p := lock_peer r d in
          let! (es, p, w) := iface_peer d r src p w in
          Ret (es, unlock_peer r p d, w)
      end
  end.

(** ** Periodic events *)

Definition reset_limiter_event (d : Device) (w : World) : outcome (Device * World) :=
  match dev_limiter d with
  | None => Ret (d, w)
  | Some lr =>
      let! rl := unwrap (limiters d !! lr) in
      let '(rl, w) := reset_count rl w in
      Ret (with_limiters (<[lr := rl]> (limiters d)) d, w)
  end.

Definition timer_peer (p : Peer) (w : World) : outcome (list effect * Peer * World) :=
  match ep_addr (endpoint p) with
  | None => Ret ([], p, w)
  | Some a =>
      let! (r, t, w) := update_timers MAX_UDP_SIZE (tunnel p) w in
      let p := with_tunnel t p in
      match r with
      | Done => Ret ([], p, w)
      | TunnErr ConnectionExpired => Ret ([], shutdown_endpoint p, w)
      | TunnErr _ => Ret ([], p, w)
      | WriteToNetwork packet =>
          Ret ([SendNet (match sa_ip a with V4 _ => Udp4 | V6 _ => Udp6 end) (Some a) packet], p, w)
      | _ => Panic
      end
  end.

(** The timers of the peers [rs], in this order. *)
Fixpoint timer_event (rs : list nat) (d : Device) (w : World) : outcome (list effect * Device * World) :=
  match rs with
  | [] => Ret ([], d, w)
  | r :: rs =>
      let! p := lock_peer r d in
      let! (es, p, w) := timer_peer p w in
      let d := unlock_peer r p d in
      let! (es', d, w) := timer_event rs d w in
      Ret (es ++ es', d, w)
  end.

Definition timer_handler (order : list nat) (d : Device) (w : World)
    : outcome (list effect * Device * World) :=
  if udp4 d && udp6 d then timer_event order d w else Ret ([], d, w).

(** ** Batches: at most [MAX_ITR] inputs, a [continue] not counted *)

Definition input : Type := (bytes -> SettleRequest -> result bytes bytes) * bool * SocketAddr * bytes.

Fixpoint udp_batch (iter : nat) (sock : Sock) (l : list input) (d : Device) (w : World)
    : outcome (list effect * Device * World) :=
  match l with
  | [] => Ret ([], d, w)
  | (post, os, a, datagram) :: l =>
      let! (skip, es, d, w) := udp_datagram post os sock a datagram d w in
      let iter := if skip then iter else (iter - 1)%nat in
      if bool_decide (iter = 0%nat) then Ret (es, d, w)
      else let! (es', d, w) := udp_batch iter sock l d w in Ret (es ++ es', d, w)
  end.

Definition udp_handler (sock : Sock) (l : list input) (d : Device) (w : World)
    : outcome (list effect * Device * World) :=
  let! _ := unwrap (key_pair d) in
  let! _ := unwrap (dev_limiter d) in
  udp_batch MAX_ITR sock l d w.

Fixpoint conn_batch (iter self : nat) (peer_addr : IpAddr)
    (l : list ((bytes -> SettleRequest -> result bytes bytes) * bytes)) (d : Device) (w : World)
    : outcome (list effect * Device * World) :=
  match l with
  | [] => Ret ([], d, w)
  | (post, datagram) :: l =>
      let! (skip, es, d, w) := conn_datagram post self peer_addr datagram d w in
      let iter := if skip then iter else (iter - 1)%nat in
      if bool_decide (iter = 0%nat) then Ret (es, d, w)
      else let! (es', d, w) := conn_batch iter self peer_addr l d w in Ret (es ++ es', d, w)
  end.

Definition conn_handler (self : nat) (peer_addr : IpAddr)
    (l : list ((bytes -> SettleRequest -> result bytes bytes) * bytes)) (d : Device) (w : World)
    : outcome (list effect * Device * World) := conn_batch MAX_ITR self peer_addr l d w.

(** [for _ in 0..MAX_ITR]: here a [continue] is counted. *)
Fixpoint iface_batch (iter : nat) (l : list bytes) (d : Device) (w : World)
    : outcome (list effect * Device * World) :=
  match iter, l with
  | S iter, src :: l =>
      let! (es, d, w) := iface_packet src d w in
      let! (es', d, w) := iface_batch iter l d w in
      Ret (es ++ es', d, w)
  | _, _ => Ret ([], d, w)
  end.

Definition iface_handler (l : list bytes) (d : Device) (w : World)
    : outcome (list effect * Device * World) :=
  let! _ := require (udp4 d) in
  let! _ := require (udp6 d) in
  iface_batch MAX_ITR l d w.

(** ** The event loop *)

(** What the device reacts to: readable sockets with what is read from them, the
    two timers (with the order in which the map of peers is walked), and the
    calls of the configuration interface. *)
Inductive device_event :=
| EvUdp (sock : Sock) (l : list input)
| EvConn (self : nat) (peer_addr : IpAddr) (l : list ((bytes -> SettleRequest -> result bytes bytes) * bytes))
| EvIface (l : list bytes)
| EvTimers (order : list nat)
| EvResetLimiter
| EvListen (port : Z) (os : option Z)
| EvFwmark (mark : Z) (os : bool)
| EvSetKey (private_key : bytes)
| EvUpdatePeer (pub_key : bytes) (remove : bool) (e : option SocketAddr) (allowed : list AllowedIP)
    (keepalive : option Z) (psk : option bytes)
| EvClearPeers.

Definition device_step (ev : device_event) (d : Device) (w : World)
    : outcome (list effect * Device * World) :=
  match ev with
  | EvUdp sock l => udp_handler sock l d w
  | EvConn self a l => conn_handler self a l d w
  | EvIface l => iface_handler l d w
  | EvTimers order => timer_handler order d w
  | EvResetLimiter => let! (d, w) := reset_limiter_event d w in Ret ([], d, w)
  | EvListen port os => let! (_, d) := open_listen_socket port os d in Ret ([], d, w)
  | EvFwmark mark os => Ret ([], snd (set_fwmark mark os d), w)
  | EvSetKey k => let! (d, w) := set_key k d w in Ret ([], d, w)
  | EvUpdatePeer k rm e allowed ka psk =>
      let! (d, w) := update_peer k rm e allowed ka psk d w in Ret ([], d, w)
  | EvClearPeers => Ret ([], clear_peers d, w)
  end.
End Handlers.
