(* ===== verification/Api.v ===== *)
(** * The control socket ([device/api.rs])

    The text protocol over the Unix socket: [get=1] prints the state of the
    device, [set=1] reads a configuration line by line and applies it as it goes. *)

From Stdlib Require Import ZArith Lia.
From Stdlib Require Strings.String.
From stdpp Require Import base numbers list option gmap.
From S2P Require Import Prelude Clock Packet Crypto Session Handshake RateLimiter Tunnel Quota PaymentProtocol RustText NetText Utf8 Serialization Eip3009 Settlement AllowedIps Device DeviceHandlers.

Import Stdlib.Strings.String.StringSyntax.

(** The error numbers of [libc] on Linux. *)
Definition EIO : Z := 5.
Definition EINVAL : Z := 22.
Definition EPROTO : Z := 71.
Definition EADDRINUSE : Z := 98.

(** ** Reading lines *)

(** What a connection still delivers; [broken] is whether reading past it fails,
    instead of reporting the end of the stream. *)
Record Stream := mkStream { pending : bytes; broken : bool }.

Definition newline : byte := ch 10.

(** The bytes up to and with the first newline, the rest, and whether there is one. *)
Fixpoint take_line (s : bytes) : bytes * bytes * bool :=
  match s with
  | [] => ([], [], false)
  | b :: r =>
      if bool_decide (b = newline) then ([b], r, true)
      else let '(l, r, found) := take_line r in (b :: l, r, found)
  end.

(** [reader.read_line(&mut cmd)] with [cmd] empty. *)
Definition read_line (s : Stream) : option bytes * Stream :=
  let '(l, r, found) := take_line (pending s) in
  let s' := mkStream r (broken s) in
  if broken s && negb found then (None, s')
  else if is_utf8 l then (Some l, s') else (None, s').

(** [s.splitn(2, c)] *)
Fixpoint splitn2 (c : byte) (s : bytes) : list bytes :=
  match s with
  | [] => [[]]
  | b :: r =>
      if bool_decide (b = c) then [[]; r]
      else match splitn2 c r with
           | piece :: pieces => (b :: piece) :: pieces
           | [] => [[b]]
           end
  end.

Definition equals : byte := ch 61.

(** [writeln!(writer, "{}={}", key, value)] *)
Definition field_line (key value : bytes) : bytes := key ++ [equals] ++ value ++ [newline].

Definition show_bool (b : bool) : bytes := if b then str "true" else str "false".

Section Get.
Context `{C : Crypto} `{E : Env} `{Eth : Ethereum} `{I : IpCrates} `{H : Hex}.

(** ** [get=1] *)

(** [stats], without the loss estimate and the round-trip time. *)
Definition stats (t : Tunn) (w : World) : outcome (option Duration * Z * Z * World) :=
  let! (time, w) := time_since_last_handshake t w in
  Ret (time, tx_bytes t, rx_bytes t, w).

Definition opt_line {A} (key : bytes) (show : A -> bytes) (v : option A) : bytes :=
  match v with Some v => field_line key (show v) | None => [] end.

Definition quota_lines (q : BandwidthQuota) : bytes :=
  field_line (str "quota_remaining") (show_uint (remaining_bytes q))
  ++ field_line (str "quota_blocked") (show_bool (is_blocked q))
  ++ field_line (str "quota_total_consumed") (show_uint (total_consumed q))
  ++ field_line (str "quota_payment_count") (show_uint (payment_count q)).

(** The body of the loop over the peers. *)
Definition get_peer (k : bytes) (p : Peer) (w : World) : outcome (bytes * World) :=
  let! (time, w) := time_since_last_handshake (tunnel p) w in
  let! (_, tx, rx, w) := stats (tunnel p) w in
  Ret (field_line (str "public_key") (hex_encode k)
       ++ opt_line (str "preshared_key") hex_encode (peer_preshared_key p)
       ++ opt_line (str "persistent_keepalive_interval") show_uint (persistent_keepalive (tunnel p))
       ++ opt_line (str "endpoint") show_socket_addr (ep_addr (endpoint p))
       ++ concat ((fun '(ip, c) => field_line (str "allowed_ip") (show_allowed_ip (mkAllowedIP ip c)))
                  <$> peer_ips p)
       ++ opt_line (str "last_handshake_time_sec") (fun t => show_uint (as_secs t)) time
       ++ opt_line (str "last_handshake_time_nsec") (fun t => show_uint (subsec_nanos t)) time
       ++ field_line (str "rx_bytes") (show_uint rx)
       ++ field_line (str "tx_bytes") (show_uint tx)
       ++ match quota p with Some q => quota_lines q | None => [] end, w).

(** [order] is the order in which the map of peers is walked. *)
Fixpoint get_peers (order : list (bytes * nat)) (d : Device) (w : World) : outcome (bytes * World) :=
  match order with
  | [] => Ret ([], w)
  | (k, r) :: order =>
      let! p := lock_peer r d in
      let! (out, w) := get_peer k p w in
      let! (rest, w) := get_peers order d w in
      Ret (out ++ rest, w)
  end.

Definition api_get (order : list (bytes * nat)) (d : Device) (w : World) : outcome (Z * bytes * World) :=
  let own := opt_line (str "own_public_key") (fun k => hex_encode (snd k)) (key_pair d) in
  let port := if listen_port d =? 0 then []
              else field_line (str "listen_port") (show_uint (listen_port d)) in
  let mark := opt_line (str "fwmark") show_uint (fwmark d) in
  let! (rest, w) := get_peers order d w in
  Ret (0, own ++ port ++ mark ++ rest, w).
End Get.

(** ** [set=1] *)

(** The answers of the system to the socket calls that line number [i] of a
    request makes: the port bound by [open_listen_socket], and whether
    [set_fwmark] succeeds. *)
Record OsAnswers := mkOs { os_listen : nat -> option Z; os_mark : nat -> bool }.

(** What the loop of [api_set] does after a line. *)
Inductive set_next :=
| SetNext                       (* go on *)
| SetReturn (status : Z)        (* [return status] *)
| SetPeer (pub_key : bytes).    (* [return api_set_peer(reader, device, pub_key)] *)

(** The locals of [api_set_peer]. *)
Record PeerSection := mkSection {
  sec_public_key : bytes;
  sec_remove : bool;
  sec_replace_ips : bool;
  sec_endpoint : option SocketAddr;
  sec_keepalive : option Z;
  sec_preshared_key : option bytes;
  sec_allowed_ips : list AllowedIP;
}.

Definition section_new (pub_key : bytes) : PeerSection := mkSection pub_key false false None None None [].

Section Set_.
Context `{C : Crypto} `{E : Env} `{Eth : Ethereum} `{I : IpCrates} `{H : Hex} `{B : Base64}.

(** The [match key] of [api_set]. *)
Definition set_command (os : OsAnswers) (i : nat) (key val : bytes) (d : Device) (w : World)
    : outcome (set_next * Device * World) :=
  if bool_decide (key = str "private_key") then
    let! k := key_from_str val in
    match k with
    | Ok k => let! (d, w) := set_key k d w in Ret (SetNext, d, w)
    | Err _ => Ret (SetReturn EINVAL, d, w)
    end
  else if bool_decide (key = str "listen_port") then
    match parse_uint 16 val with
    | Some port =>
        let! (ok, d) := open_listen_socket port (os_listen os i) d in
        Ret (if ok : bool then SetNext else SetReturn EADDRINUSE, d, w)
    | None => Ret (SetReturn EINVAL, d, w)
    end
  else if bool_decide (key = str "fwmark") then
    match parse_uint 32 val with
    | Some mark =>
        let '(ok, d) := set_fwmark mark (os_mark os i) d in
        Ret (if ok : bool then SetNext else SetReturn EADDRINUSE, d, w)
    | None => Ret (SetReturn EINVAL, d, w)
    end
  else if bool_decide (key = str "replace_peers") then
    match parse_bool val with
    | Some true => Ret (SetNext, clear_peers d, w)
    | Some false => Ret (SetNext, d, w)
    | None => Ret (SetReturn EINVAL, d, w)
    end
  else if bool_decide (key = str "public_key") then
    let! k := key_from_str val in
    match k with
    | Ok k => Ret (SetPeer k, d, w)
    | Err _ => Ret (SetReturn EINVAL, d, w)
    end
  else Ret (SetReturn EINVAL, d, w).

(** [d.update_peer(public_key, remove, replace_ips, ..)] *)
Definition commit_section (sec : PeerSection) (d : Device) (w : World) : outcome (Device * World) :=
  update_peer (sec_public_key sec) (sec_remove sec) (sec_endpoint sec) (sec_allowed_ips sec)
    (sec_keepalive sec) (sec_preshared_key sec) d w.

(** The [match key] of [api_set_peer]: the status it returns with, if it does. *)
Definition peer_command (key val : bytes) (sec : PeerSection) (d : Device) (w : World)
    : outcome (option Z * PeerSection * Device * World) :=
  let '(mkSection k rm rep ep ka psk ips) := sec in
  let go sec := Ret (None, sec, d, w) in
  let invalid := Ret (Some EINVAL, sec, d, w) in
  if bool_decide (key = str "remove") then
    match parse_bool val with
    | Some b => go (mkSection k b rep ep ka psk ips)
    | None => invalid
    end
  else if bool_decide (key = str "preshared_key") then
    let! r := key_from_str val in
    match r with
    | Ok b => go (mkSection k rm rep ep ka (Some b) ips)
    | Err _ => invalid
    end
  else if bool_decide (key = str "endpoint") then
    match parse_socket_addr val with
    | Some a => go (mkSection k rm rep (Some a) ka psk ips)
    | None => invalid
    end
  else if bool_decide (key = str "persistent_keepalive_interval") then
    match parse_uint 16 val with
    | Some z => go (mkSection k rm rep ep (Some z) psk ips)
    | None => invalid
    end
  else if bool_decide (key = str "replace_allowed_ips") then
    match parse_bool val with
    | Some b => go (mkSection k rm b ep ka psk ips)
    | None => invalid
    end
  else if bool_decide (key = str "allowed_ip") then
    match allowed_ip_from_str val with
    | Some ip => go (mkSection k rm rep ep ka psk (ips ++ [ip]))
    | None => invalid
    end
  else if bool_decide (key = str "public_key") then
    let! (d, w) := commit_section sec d w in
    let! r := key_from_str val in
    match r with
    | Ok b => Ret (None, mkSection b rm rep ep ka psk [], d, w)
    | Err _ => Ret (Some EINVAL, mkSection k rm rep ep ka psk [], d, w)
    end
  else if bool_decide (key = str "protocol_version") then
    match parse_uint 32 val with
    | Some 1 => go sec
    | _ => invalid
    end
  else invalid.

(** The two loops. [None] is the end of the fuel, which [api_set] never meets. *)
Fixpoint api_set_peer (fuel : nat) (sec : PeerSection) (s : Stream) (d : Device) (w : World)
    : outcome (option (Z * Device * World)) :=
  match fuel with
  | O => Ret None
  | S fuel =>
      match read_line s with
      | (None, _) => Ret (Some (0, d, w))
      | (Some cmd, s) =>
          let cmd := str_pop cmd in
          if bool_decide (cmd = []) then
            let! (d, w) := commit_section sec d w in Ret (Some (0, d, w))
          else
            match splitn2 equals cmd with
            | [key; val] =>
                let! (status, sec, d, w) := peer_command key val sec d w in
                match status with
                | Some status => Ret (Some (status, d, w))
                | None => api_set_peer fuel sec s d w
                end
            | _ => Ret (Some (EPROTO, d, w))
            end
      end
  end.

Fixpoint api_set_loop (os : OsAnswers) (fuel i : nat) (s : Stream) (d : Device) (w : World)
    : outcome (option (Z * Device * World)) :=
  match fuel with
  | O => Ret None
  | S fuel =>
      match read_line s with
      | (None, _) => Ret (Some (0, d, w))
      | (Some cmd, s) =>
          let cmd := str_pop cmd in
          if bool_decide (cmd = []) then Ret (Some (0, d, w))
          else
            match split_on equals cmd with
            | [key; val] =>
                let! (next, d, w) := set_command os i key val d w in
                match next with
                | SetNext => api_set_loop os fuel (S i) s d w
                | SetReturn status => Ret (Some (status, d, w))
                | SetPeer k => api_set_peer fuel (section_new k) s d w
                end
            | _ => Ret (Some (EPROTO, d, w))
            end
      end
  end.

(** Every round but the last one reads at least a byte. *)
Definition enough_fuel (s : Stream) : nat := S (length (pending s)).

Definition api_set (os : OsAnswers) (s : Stream) (d : Device) (w : World)
    : outcome (Z * Device * World) :=
  let! r := api_set_loop os (enough_fuel s) 0 s d w in unwrap r.

(** ** The handlers of the socket *)

Definition errno_lines (status : Z) : bytes := field_line (str "errno") (show_uint status) ++ [newline].

Inductive Action := Continue | Exit.

(** After [read_line] has given the command. *)
Definition api_command (os : OsAnswers) (order : list (bytes * nat)) (cmd : bytes) (s : Stream)
    (d : Device) (w : World) : outcome (bytes * Device * World) :=
  let cmd := str_pop cmd in
  let! (status, out, d, w) :=
    if bool_decide (cmd = str "get=1") then
      let! (status, out, w) := api_get order d w in Ret (status, out, d, w)
    else if bool_decide (cmd = str "set=1") then
      let! (status, d, w) := api_set os s d w in Ret (status, [], d, w)
    else Ret (EIO, [], d, w) in
  Ret (out ++ errno_lines status, d, w).

(** The closure of [register_api_handler], for one accepted connection. *)
Definition api_handler (os : OsAnswers) (order : list (bytes * nat)) (s : Stream) (d : Device) (w : World)
    : outcome (Action * bytes * Device * World) :=
  match read_line s with
  | (None, _) => Ret (Continue, [], d, w)
  | (Some cmd, s) =>
      let! (out, d, w) := api_command os order cmd s d w in Ret (Continue, out, d, w)
  end.

(** The closure of [register_api_fd]; [Exit] comes with [d.trigger_exit()]. *)
Definition api_fd_handler (os : OsAnswers) (order : list (bytes * nat)) (s : Stream) (d : Device) (w : World)
    : outcome (Action * bytes * Device * World) :=
  match read_line s with
  | (None, _) => Ret (Exit, [], d, w)
  | (Some cmd, s) =>
      let! (out, d, w) := api_command os order cmd s d w in Ret (Continue, out, d, w)
  end.
End Set_.
