(* ===== verification/Registration.v ===== *)
(** * The registration server ([device/http_api.rs])

    The HTTP server that hands out tunnel addresses to clients, and the reaper that
    takes them back. It talks to the device over the control socket only: [Uapi] is
    that connection, with the state [S] at its other end. The crates [serde_json],
    [base64], [hex] and [reqwest], and the order in which a hash set is walked, are
    parameters. *)

From Stdlib Require Import ZArith Lia Floats.SpecFloat.
From Stdlib Require Strings.String.
From stdpp Require Import base numbers list option gmap.
From S2P Require Import Prelude Clock Packet Eip3009 RustText Json NetText Utf8 Serialization Api.

Import Stdlib.Strings.String.StringSyntax.

Definition MAX_BODY_BYTES : nat := 8192.
Definition STALE_PEER_SECS : Z := 600.
Definition STALE_NEVER_CONNECTED_SECS : Z := 600.
Definition RATE_LIMIT_BURST : Z := 10.
Definition RATE_LIMITER_PRUNE_SECS : Z := 300.

(** ** Strings *)

(** A string literal in which an apostrophe stands for a double quote. *)
Definition json (s : String.string) : bytes :=
  (fun b => if bool_decide (b = ch 39) then ch 34 else b) <$> str s.
Arguments json _%_string_scope.

(** [reader.lines()] up to the first error, [None]; a carriage return before the
    newline goes too. *)
Definition strip_eol (l : bytes) : bytes :=
  match reverse l with
  | b :: r => if bool_decide (b = newline)
              then reverse (match r with c :: r' => if u8 c =? 13 then r' else r | [] => r end)
              else l
  | [] => []
  end.

Fixpoint lines (fuel : nat) (s : Stream) : list (option bytes) :=
  match fuel with
  | O => []
  | S fuel =>
      match read_line s with
      | (None, _) => [None]
      | (Some [], _) => []
      | (Some l, s) => Some (strip_eol l) :: lines fuel s
      end
  end.

(** ** [f64], as the rate limiter uses it *)

Module F64.
Definition prec : Z := 53.
Definition emax : Z := 1024.
Definition f64 : Type := spec_float.

(** [z as f64] *)
Definition of_int (z : Z) : f64 := binary_normalize prec emax z 0 false.
Definition add : f64 -> f64 -> f64 := SFadd prec emax.
Definition sub : f64 -> f64 -> f64 := SFsub prec emax.
Definition mul : f64 -> f64 -> f64 := SFmul prec emax.
Definition div : f64 -> f64 -> f64 := SFdiv prec emax.
Definition le : f64 -> f64 -> bool := SFleb.

(** [a.min(b)] *)
Definition min (a b : f64) : f64 :=
  match a, b with
  | S754_nan, _ => b
  | _, S754_nan => a
  | _, _ => if SFleb a b then a else b
  end.
End F64.

(** [duration.as_secs_f64()] *)
Definition as_secs_f64 (d : Duration) : F64.f64 :=
  F64.add (F64.of_int (as_secs d)) (F64.div (F64.of_int (subsec_nanos d)) (F64.of_int NANOS_PER_SEC)).

Definition RATE_LIMIT_PER_SEC : F64.f64 := F64.of_int 1.

Record TokenBucket := mkBucket { tokens : F64.f64; last_refill : Instant }.

Section Buckets.
Context `{E : Env}.

Definition bucket_new (w : World) : TokenBucket * World :=
  let '(now, w) := instant_now w in (mkBucket (F64.of_int RATE_LIMIT_BURST) now, w).

Definition try_consume (b : TokenBucket) (w : World) : bool * TokenBucket * World :=
  let '(now, w) := instant_now w in
  let elapsed := as_secs_f64 (duration_since now (last_refill b)) in
  let t := F64.min (F64.add (tokens b) (F64.mul elapsed RATE_LIMIT_PER_SEC))
             (F64.of_int RATE_LIMIT_BURST) in
  if F64.le (F64.of_int 1) t
  then (true, mkBucket (F64.sub t (F64.of_int 1)) now, w)
  else (false, mkBucket t now, w).
End Buckets.

(** ** State *)

Record PaymentConfigSnapshot := mkSnapshot {
  snap_chain_id : Z;
  snap_gateway_wallet : bytes;
  snap_usdc_contract : bytes;
  snap_amount_per_quota : Z;
  snap_quota_bytes : Z;
}.

Record RegistrationInner := mkInner {
  registered_peers : gset bytes;
  available_ips : gset Z;
  peer_to_octet : gmap bytes Z;
  peer_registered_at : gmap bytes Instant;
  server_pubkey_cache : option bytes;
  listen_port_cache : option Z;
  used_nullifiers : gset bytes;
}.

#[global] Instance IpAddr_eq_dec : EqDecision IpAddr.
Proof. solve_decision. Defined.

#[global] Instance IpAddr_countable : Countable IpAddr.
Proof.
  refine (inj_countable' (fun a => match a with V4 o => (false, o) | V6 o => (true, o) end)
            (fun x => if x.1 then V6 x.2 else V4 x.2) _). by intros [].
Defined.

Record RegistrationState := mkState {
  inner : RegistrationInner;
  reg_rate_limiter : gmap IpAddr TokenBucket;
  tun_name : bytes;
  subnet_prefix : byte * byte * byte;
  reg_payment_config : PaymentConfigSnapshot;
  public_ip : bytes;
  world_rp_id : bytes;
  world_action : bytes;
  world_signing_key : option bytes;
}.

Definition with_inner (i : RegistrationInner) (st : RegistrationState) : RegistrationState :=
  mkState i (reg_rate_limiter st) (tun_name st) (subnet_prefix st) (reg_payment_config st) (public_ip st)
    (world_rp_id st) (world_action st) (world_signing_key st).
Definition with_buckets (m : gmap IpAddr TokenBucket) (st : RegistrationState) : RegistrationState :=
  mkState (inner st) m (tun_name st) (subnet_prefix st) (reg_payment_config st) (public_ip st)
    (world_rp_id st) (world_action st) (world_signing_key st).

(** [for octet in 2..=254u8 { available_ips.insert(octet) }] *)
Definition all_octets : gset Z := list_to_set (seqZ 2 253).

Lemma all_octets_range o : o ∈ all_octets <-> 2 <= o <= 254.
Proof. unfold all_octets. rewrite elem_of_list_to_set, elem_of_seqZ. lia. Qed.
#[global] Opaque all_octets.

(** [RegistrationState::new] *)
Definition registration_new `{H : Hex} (env_var : bytes -> option bytes) (tun : bytes)
    (prefix : byte * byte * byte) (pc : PaymentConfigSnapshot) (ip : bytes) : RegistrationState :=
  let signing_key :=
    match env_var (str "BT_WORLD_SIGNING_KEY") with
    | None => None
    | Some s =>
        let s := match strip_prefix (str "0x") s with Some r => r | None => s end in
        match hex_decode s with
        | Some b => if bool_decide (length b = 32%nat) then Some b else None
        | None => None
        end
    end in
  let rp_id := default [] (env_var (str "BT_WORLD_RP_ID")) in
  let action := default (str "veil-vpn-connect") (env_var (str "BT_WORLD_ACTION")) in
  mkState (mkInner ∅ all_octets ∅ ∅ None None ∅) ∅ tun prefix pc ip rp_id action signing_key.

(** ** The client of the control socket *)

(** A connection that writes a request and then reads what comes back: the text of
    the error of connecting or writing, or the stream of the answer. The text of a
    read error is the same for every read. *)
Class Uapi (S : Type) := {
  uapi_exchange : bytes -> S -> result bytes Stream * S;
  uapi_read_error : bytes;
}.

Definition nl (s : bytes) : bytes := s ++ [newline].

Definition get_request : bytes := nl (str "get=1").
Definition set_peer_request (pubkey_hex allowed_ip : bytes) : bytes :=
  nl (str "set=1") ++ nl (str "public_key=" ++ pubkey_hex) ++ nl (str "replace_allowed_ips=true")
  ++ nl (str "allowed_ip=" ++ allowed_ip ++ str "/32") ++ [newline].
Definition remove_peer_request (pubkey_hex : bytes) : bytes :=
  nl (str "set=1") ++ nl (str "public_key=" ++ pubkey_hex) ++ nl (str "remove=true") ++ [newline].

(** The locals of the loop of [uapi_get_peers]. *)
Record Report := mkReport {
  rep_peers : gmap bytes (option Z);
  rep_current_pubkey : option bytes;
  rep_current_handshake : option Z;
  rep_own_pubkey : option bytes;
  rep_listen_port : option Z;
}.

Definition report_new : Report := mkReport ∅ None None None None.

(** [if let Some(pk) = current_pubkey.take() { peers.insert(pk, current_handshake.take()) }] *)
Definition flush_report (r : Report) : Report :=
  match rep_current_pubkey r with
  | Some pk => mkReport (<[pk := rep_current_handshake r]> (rep_peers r)) None None
                 (rep_own_pubkey r) (rep_listen_port r)
  | None => r
  end.

Section Client.
Context {S : Type} `{U : Uapi S} `{H : Hex} `{B : Base64}.

(** One field of the answer. *)
Definition report_field (key val : bytes) (r : Report) : Report :=
  if bool_decide (key = str "own_public_key") then
    match hex_decode val with
    | Some b => mkReport (rep_peers r) (rep_current_pubkey r) (rep_current_handshake r)
                  (Some (base64_encode b)) (rep_listen_port r)
    | None => r
    end
  else if bool_decide (key = str "listen_port") then
    mkReport (rep_peers r) (rep_current_pubkey r) (rep_current_handshake r) (rep_own_pubkey r)
      (parse_uint 16 val)
  else if bool_decide (key = str "public_key") then
    let r := flush_report r in
    mkReport (rep_peers r) (Some val) None (rep_own_pubkey r) (rep_listen_port r)
  else if bool_decide (key = str "last_handshake_time_sec") then
    mkReport (rep_peers r) (rep_current_pubkey r) (parse_uint 64 val) (rep_own_pubkey r)
      (rep_listen_port r)
  else r.

(** The loop over the lines; [None] is a read error. *)
Fixpoint report_lines (l : list (option bytes)) (r : Report) : option Report :=
  match l with
  | [] => Some (flush_report r)
  | None :: _ => None
  | Some line :: l =>
      if bool_decide (line = []) then report_lines l (flush_report r)
      else match strip_prefix (str "errno=") line with
           | Some _ => Some (flush_report r)
           | None =>
               match splitn2 equals line with
               | [key; val] => report_lines l (report_field key val r)
               | _ => report_lines l r
               end
           end
  end.

Definition read_failed : bytes := str "UAPI read: " ++ uapi_read_error.

Definition uapi_get_peers (s : S)
    : result bytes (option bytes * option Z * gmap bytes (option Z)) * S :=
  match uapi_exchange get_request s with
  | (Err e, s) => (Err e, s)
  | (Ok answer, s) =>
      match report_lines (lines (enough_fuel answer) answer) report_new with
      | Some r => (Ok (rep_own_pubkey r, rep_listen_port r, rep_peers r), s)
      | None => (Err read_failed, s)
      end
  end.

Definition uapi_set_peer (pubkey_hex allowed_ip : bytes) (s : S) : result bytes unit * S :=
  match uapi_exchange (set_peer_request pubkey_hex allowed_ip) s with
  | (Err e, s) => (Err e, s)
  | (Ok answer, s) =>
      match fst (read_line answer) with
      | None => (Err read_failed, s)
      | Some response =>
          if bool_decide (trim response = str "errno=0") then (Ok tt, s)
          else (Err (str "UAPI set failed: " ++ trim response), s)
      end
  end.

Definition uapi_remove_peer (pubkey_hex : bytes) (s : S) : result bytes bool * S :=
  match uapi_exchange (remove_peer_request pubkey_hex) s with
  | (Err e, s) => (Err e, s)
  | (Ok answer, s) =>
      match fst (read_line answer) with
      | None => (Err read_failed, s)
      | Some response => (Ok (bool_decide (trim response = str "errno=0")), s)
      end
  end.
End Client.

(** ** Registration *)

(** [set.iter().next()] of a hash set: some element of it. *)
Class Pick := { pick : gset Z -> option Z }.

Class PickLaws (P : Pick) : Prop := {
  pick_some : forall s x, pick s = Some x -> x ∈ s;
  pick_none : forall s, pick s = None -> s = ∅;
}.

Definition Response : Type := Z * bytes.

(** [Ipv4Addr::new(prefix[0], prefix[1], prefix[2], octet)] *)
Definition tunnel_ip (st : RegistrationState) (octet : Z) : bytes :=
  let '(a, b, c) := subnet_prefix st in [a; b; c; of_u8 octet].

Definition build_success_response `{H : Hex} (ip : bytes) (pc : PaymentConfigSnapshot)
    (public_ip server_pubkey : bytes) (listen_port : Z) : bytes :=
  json "{'status':'ok','server_public_key':'" ++ server_pubkey
  ++ json "','endpoint':'" ++ public_ip ++ str ":" ++ show_uint listen_port
  ++ json "','assigned_ip':'" ++ show_ipv4 ip
  ++ json "/32','chain_id':" ++ show_uint (snap_chain_id pc)
  ++ json ",'gateway_wallet':'0x" ++ hex_encode (snap_gateway_wallet pc)
  ++ json "','usdc_contract':'0x" ++ hex_encode (snap_usdc_contract pc)
  ++ json "','amount_per_quota':" ++ show_uint (snap_amount_per_quota pc)
  ++ json ",'quota_bytes':" ++ show_uint (snap_quota_bytes pc) ++ str "}".

Definition internal_error (e : bytes) : bytes := json "{'error':'internal error: " ++ e ++ json "'}".

Section Handlers.
Context {S : Type} `{U : Uapi S} `{H : Hex} `{B : Base64} `{J : Json} `{P : Pick} `{E : Env}.

(** The answer for an address that the peer holds, from the caches. *)
Definition success_response (st : RegistrationState) (i : RegistrationInner) (octet : Z) : Response :=
  (200, build_success_response (tunnel_ip st octet) (reg_payment_config st) (public_ip st)
          (default [] (server_pubkey_cache i)) (default 51820 (listen_port_cache i))).

(** The key and port of the server, asked for once. The response is an early
    return. *)
Definition fill_caches (i : RegistrationInner) (s : S) : result Response RegistrationInner * S :=
  match server_pubkey_cache i with
  | Some _ => (Ok i, s)
  | None =>
      match uapi_get_peers s with
      | (Ok (Some pk, port, _), s) =>
          (Ok (mkInner (registered_peers i) (available_ips i) (peer_to_octet i) (peer_registered_at i)
                 (Some pk) port (used_nullifiers i)), s)
      | (Ok (None, _, _), s) => (Err (503, json "{'error':'server not configured yet'}"), s)
      | (Err e, s) => (Err (500, internal_error e), s)
      end
  end.

(** The four insertions after the device has taken the peer. *)
Definition assign (pubkey_hex : bytes) (octet : Z) (now : Instant) (i : RegistrationInner) : RegistrationInner :=
  mkInner ({[pubkey_hex]} ∪ registered_peers i) (available_ips i ∖ {[octet]})
    (<[pubkey_hex := octet]> (peer_to_octet i)) (<[pubkey_hex := now]> (peer_registered_at i))
    (server_pubkey_cache i) (listen_port_cache i) (used_nullifiers i).

(** From [if inner.registered_peers.contains(&pubkey_hex)] on. *)
Definition register_peer (st : RegistrationState) (pubkey_hex : bytes) (i : RegistrationInner)
    (s : S) (w : World) : Response * RegistrationInner * S * World :=
  match (if bool_decide (pubkey_hex ∈ registered_peers i) then peer_to_octet i !! pubkey_hex else None) with
  | Some octet => (success_response st i octet, i, s, w)
  | None =>
      match pick (available_ips i) with
      | None => ((503, json "{'error':'no addresses available'}"), i, s, w)
      | Some octet =>
          match uapi_set_peer pubkey_hex (show_ipv4 (tunnel_ip st octet)) s with
          | (Ok _, s) =>
              let '(now, w) := instant_now w in
              (success_response st i octet, assign pubkey_hex octet now i, s, w)
          | (Err e, s) => ((500, internal_error e), i, s, w)
          end
      end
  end.

Definition handle_registration (pubkey_base64 : bytes) (st : RegistrationState) (s : S) (w : World)
    : Response * RegistrationState * S * World :=
  match base64_decode (trim pubkey_base64) with
  | None => ((400, json "{'error':'invalid base64 encoding'}"), st, s, w)
  | Some pubkey_bytes =>
      if negb (bool_decide (length pubkey_bytes = 32%nat))
      then ((400, json "{'error':'public key must be exactly 32 bytes'}"), st, s, w)
      else
        match fill_caches (inner st) s with
        | (Err r, s) => (r, st, s, w)
        | (Ok i, s) =>
            let '(r, i, s, w) := register_peer st (hex_encode pubkey_bytes) i s w in
            (r, with_inner i st, s, w)
        end
  end.

(** ** World ID *)

(** The request to the verification service: the text of a transport error, or the
    body of its answer. *)
Context (world_post : bytes -> Value -> result bytes bytes).

Definition nullifier_of (body : Value) : bytes :=
  let direct := value_get (str "nullifier") body ≫= as_str in
  let first := (value_get (str "results") body ≫= as_array) ≫= head in
  let nested := (first ≫= value_get (str "nullifier")) ≫= as_str in
  default [] (match direct with Some n => Some n | None => nested end).

Definition verify_world_proof (st : RegistrationState) (proof : Value) : result bytes bytes :=
  if bool_decide (world_rp_id st = []) then Err (str "World ID not configured (missing BT_WORLD_RP_ID)")
  else
    match world_post (str "https://developer.world.org/api/v4/verify/" ++ world_rp_id st) proof with
    | Err e => Err e
    | Ok body_text =>
        match json_from_str body_text with
        | Err e => Err (str "World API parse failed: " ++ e ++ str " body=" ++ body_text)
        | Ok body =>
            if bool_decide (value_get (str "success") body ≫= as_bool = Some true) then
              let nullifier := nullifier_of body in
              if bool_decide (nullifier = []) then Err (str "World API returned success but no nullifier")
              else Ok nullifier
            else
              Err (str "World API rejected: "
                   ++ default (str "unknown error") (value_get (str "detail") body ≫= as_str))
        end
    end.

Definition record_nullifier (n : bytes) (i : RegistrationInner) : RegistrationInner :=
  mkInner (registered_peers i) (available_ips i) (peer_to_octet i) (peer_registered_at i)
    (server_pubkey_cache i) (listen_port_cache i) ({[n]} ∪ used_nullifiers i).

Definition human_only (env_var : bytes -> option bytes) : bool :=
  match env_var (str "BT_HUMAN_ONLY") with
  | Some v => bool_decide (v = str "1") || eq_ignore_ascii_case v (str "true")
  | None => false
  end.

(** The check of [handle_registration_v2] before it registers; the response is an
    early return. *)
Definition check_human (env_var : bytes -> option bytes) (v : Value) (st : RegistrationState)
    : result Response RegistrationState :=
  if human_only env_var then
    match value_get (str "world_proof") v with
    | None => Err (400, json "{'error':'world_proof required for human-only nodes'}")
    | Some proof =>
        match verify_world_proof st proof with
        | Ok n => Ok (with_inner (record_nullifier n (inner st)) st)
        | Err e => Err (400, json "{'error':'World ID verification failed: " ++ e ++ json "'}")
        end
    end
  else Ok st.

Definition handle_registration_v2 (env_var : bytes -> option bytes) (body : bytes)
    (st : RegistrationState) (s : S) (w : World) : Response * RegistrationState * S * World :=
  match json_from_str (trim body) with
  | Err _ => ((400, json "{'error':'invalid JSON'}"), st, s, w)
  | Ok v =>
      match value_get (str "public_key") v ≫= as_str with
      | None => ((400, json "{'error':'missing public_key field'}"), st, s, w)
      | Some pubkey_base64 =>
          match check_human env_var v st with
          | Err r => (r, st, s, w)
          | Ok st => handle_registration pubkey_base64 st s w
          end
      end
  end.

(** [extract_pubkey] *)
Definition extract_pubkey (body : bytes) : option bytes :=
  match json_from_str (trim body) with
  | Ok v => value_get (str "public_key") v ≫= as_str
  | Err _ => None
  end.
End Handlers.

(** ** The context of a proof request *)

Section RpContext.
Context `{Eth : Ethereum} `{H : Hex} `{E : Env}.
(** The texts of the two errors of the signature crate. *)
Context (key_error sign_error : bytes).

Definition hash_to_field (input : bytes) : bytes := ch 0 :: take 31 (keccak256 input).

(** The signature, the nonce, and the two times. *)
Definition generate_rp_signature (signing_key_bytes : bytes) (w : World)
    : outcome (result bytes (bytes * bytes * Z * Z) * World) :=
  match signing_key_from_bytes signing_key_bytes with
  | None => Ret (Err (str "Invalid signing key: " ++ key_error), w)
  | Some signing_key =>
      let '(nonce_raw, w) := fill_bytes 32 w in
      let nonce := hash_to_field nonce_raw in
      let '(t, w) := system_time_now w in
      let! _ := require (0 <=? t) in
      let created_at := as_secs t in
      let expires_at := wrap 64 (created_at + 300) in
      let msg := nonce ++ to_be 8 created_at ++ to_be 8 expires_at in
      match sign_prehash_recoverable signing_key (keccak256 msg) with
      | None => Ret (Err (str "Signing failed: " ++ sign_error), w)
      | Some (sig_bytes, recovery_id) =>
          let sig_out := sig_bytes ++ [of_u8 (recovery_id + 27)] in
          Ret (Ok (str "0x" ++ hex_encode sig_out, str "0x" ++ hex_encode nonce, created_at, expires_at), w)
      end
  end.

Definition handle_rp_context (st : RegistrationState) (w : World) : outcome (Response * World) :=
  match world_signing_key st with
  | None => Ret ((503, json "{'error':'World ID not configured'}"), w)
  | Some key =>
      let! (r, w) := generate_rp_signature key w in
      match r with
      | Ok (sig, nonce, created_at, expires_at) =>
          Ret ((200, json "{'rp_id':'" ++ world_rp_id st ++ json "','nonce':'" ++ nonce
                     ++ json "','created_at':" ++ show_uint created_at
                     ++ json ",'expires_at':" ++ show_uint expires_at
                     ++ json ",'signature':'" ++ sig
                     ++ json "','action':'" ++ world_action st ++ json "'}"), w)
      | Err e => Ret ((500, json "{'error':'RP signature failed: " ++ e ++ json "'}"), w)
      end
  end.
End RpContext.

(** ** The HTTP server *)

Inductive Method := Get | Post | Options | OtherMethod.

(** A request: the declared length, the address of the sender, and what its body
    reads as, at most [MAX_BODY_BYTES + 1] bytes of it. *)
Record Request := mkHttpRequest {
  body_length : option nat;
  remote_addr : option IpAddr;
  method : Method;
  url : bytes;
  body : option bytes;
}.

Definition too_large : Response := (413, json "{'error':'request body too large'}").

Section Server.
Context {S : Type} `{U : Uapi S} `{H : Hex} `{B : Base64} `{J : Json} `{P : Pick} `{E : Env} `{Eth : Ethereum}.
Context (world_post : bytes -> Value -> result bytes bytes).
Context (env_var : bytes -> option bytes).
Context (key_error sign_error : bytes).

(** [rl.entry(ip).or_insert_with(TokenBucket::new).try_consume()] *)
Definition rate_limit (ip : option IpAddr) (st : RegistrationState) (w : World)
    : bool * RegistrationState * World :=
  match ip with
  | None => (true, st, w)
  | Some ip =>
      let '(b, w) := match reg_rate_limiter st !! ip with
                     | Some b => (b, w)
                     | None => bucket_new w
                     end in
      let '(ok, b, w) := try_consume b w in
      (ok, with_buckets (<[ip := b]> (reg_rate_limiter st)) st, w)
  end.

Definition health (st : RegistrationState) : Response :=
  (200, json "{'pool_available':" ++ show_uint (Z.of_nat (size (available_ips (inner st))))
        ++ json ",'peer_count':" ++ show_uint (Z.of_nat (size (registered_peers (inner st)))) ++ str "}").

(** The [match (request.method(), request.url())]. *)
Definition dispatch (req : Request) (st : RegistrationState) (s : S) (w : World)
    : outcome (Response * RegistrationState * S * World) :=
  match method req with
  | Get =>
      if bool_decide (url req = str "/health") then Ret (health st, st, s, w)
      else if bool_decide (url req = str "/v1/rp-context") then
        let! (r, w) := handle_rp_context key_error sign_error st w in Ret (r, st, s, w)
      else Ret ((404, json "{'error':'not found'}"), st, s, w)
  | Post =>
      if bool_decide (url req = str "/v1/register") then
        match body req with
        | None => Ret ((400, json "{'error':'failed to read body'}"), st, s, w)
        | Some body_buf =>
            if bool_decide (MAX_BODY_BYTES < length body_buf)%nat then Ret (too_large, st, s, w)
            else Ret (handle_registration_v2 world_post env_var (from_utf8_lossy body_buf) st s w)
        end
      else Ret ((404, json "{'error':'not found'}"), st, s, w)
  | Options => Ret ((204, []), st, s, w)
  | OtherMethod => Ret ((404, json "{'error':'not found'}"), st, s, w)
  end.

(** One round of the loop of [run_http_server], for a request that has arrived. *)
Definition serve (req : Request) (st : RegistrationState) (s : S) (w : World)
    : outcome (Response * RegistrationState * S * World) :=
  if bool_decide (MAX_BODY_BYTES < default 0 (body_length req))%nat then Ret (too_large, st, s, w)
  else
    let '(ok, st, w) := rate_limit (remote_addr req) st w in
    if negb ok then Ret ((429, json "{'error':'rate limited'}"), st, s, w)
    else dispatch req st s w.

(** ** The reaper *)

(** Whether a peer with this entry in the report is removed, [registered] being the
    age of its registration. *)
Definition is_stale (entry : option (option Z)) (registered : option Duration) : bool :=
  match entry with
  | Some handshake =>
      match handshake with
      | Some handshake_sec =>
          if 0 <? handshake_sec then STALE_PEER_SECS <? handshake_sec
          else match registered with
               | Some age => STALE_NEVER_CONNECTED_SECS <? as_secs age
               | None => false
               end
      | None => match registered with
                | Some age => STALE_NEVER_CONNECTED_SECS <? as_secs age
                | None => false
                end
      end
  | None => true
  end.

(** [to_remove], for the registered peers in the order of the map. *)
Definition stale_peers (order : list (bytes * Z)) (report : gmap bytes (option Z)) (now : Instant)
    (i : RegistrationInner) : list (bytes * Z) :=
  List.filter (fun '(k, _) => is_stale (report !! k) (duration_since now <$> (peer_registered_at i !! k))) order.

(** The four updates after the device has dropped the peer. *)
Definition release (pubkey_hex : bytes) (octet : Z) (i : RegistrationInner) : RegistrationInner :=
  mkInner (registered_peers i ∖ {[pubkey_hex]}) ({[octet]} ∪ available_ips i)
    (delete pubkey_hex (peer_to_octet i)) (delete pubkey_hex (peer_registered_at i))
    (server_pubkey_cache i) (listen_port_cache i) (used_nullifiers i).

Fixpoint remove_stale (l : list (bytes * Z)) (i : RegistrationInner) (s : S) : RegistrationInner * S :=
  match l with
  | [] => (i, s)
  | (k, octet) :: l =>
      match uapi_remove_peer k s with
      | (Ok true, s) => remove_stale l (release k octet i) s
      | (_, s) => remove_stale l i s
      end
  end.

(** [rl.retain(|_, bucket| bucket.last_refill.elapsed().as_secs() < ..)], the
    buckets in the order of the map. *)
Fixpoint prune (order : list (IpAddr * TokenBucket)) (w : World) : gmap IpAddr TokenBucket * World :=
  match order with
  | [] => (∅, w)
  | (ip, b) :: order =>
      let '(age, w) := elapsed (last_refill b) w in
      let '(m, w) := prune order w in
      (if as_secs age <? RATE_LIMITER_PRUNE_SECS then <[ip := b]> m else m, w)
  end.

(** The rest of a round of [run_reaper], once the device has reported its peers. The
    tables are only locked here: the report may be older than they are. *)
Definition sweep (order : list (bytes * Z)) (buckets : list (IpAddr * TokenBucket)) (report : gmap bytes (option Z))
    (st : RegistrationState) (s : S) (w : World) : outcome (RegistrationState * S * World) :=
  let '(t, w) := system_time_now w in
  let! _ := require (0 <=? t) in
  let '(now, w) := instant_now w in
  let '(i, s) := remove_stale (stale_peers order report now (inner st)) (inner st) s in
  let '(m, w) := prune buckets w in
  Ret (with_buckets m (with_inner i st), s, w).

(** One round of the loop of [run_reaper] that nothing interrupts. *)
Definition reap (order : list (bytes * Z)) (buckets : list (IpAddr * TokenBucket))
    (st : RegistrationState) (s : S) (w : World) : outcome (RegistrationState * S * World) :=
  match uapi_get_peers s with
  | (Err _, s) => Ret (st, s, w)
  | (Ok (_, _, report), s) => sweep order buckets report st s w
  end.

(** ** The loops *)

(** What [recv_timeout] returns. *)
Inductive Arrival := Arrived (req : Request) | NothingArrived | AcceptError.

(** The loop of [run_http_server], for what each round finds: the flag of the end, and the
    arrival. The responses, in their order. *)
Fixpoint serve_loop (rounds : list (bool * Arrival)) (st : RegistrationState) (s : S) (w : World)
    : outcome (list Response * RegistrationState * S * World) :=
  match rounds with
  | [] | (true, _) :: _ => Ret ([], st, s, w)
  | (false, Arrived req) :: rounds =>
      let! (r, st, s, w) := serve req st s w in
      let! (rs, st, s, w) := serve_loop rounds st s w in
      Ret (r :: rs, st, s, w)
  | (false, _) :: rounds => serve_loop rounds st s w
  end.

(** [bound] is whether the address could be bound. *)
Definition run_http_server (bound : bool) (rounds : list (bool * Arrival)) (st : RegistrationState) (s : S) (w : World)
    : outcome (list Response * RegistrationState * S * World) :=
  if bound then serve_loop rounds st s w else Ret ([], st, s, w).

(** The loop of [run_reaper]: the flag after each sleep, and the orders of the maps. *)
Fixpoint run_reaper (rounds : list (bool * (RegistrationState -> list (bytes * Z) * list (IpAddr * TokenBucket))))
    (st : RegistrationState) (s : S) (w : World) : outcome (RegistrationState * S * World) :=
  match rounds with
  | [] | (true, _) :: _ => Ret (st, s, w)
  | (false, orders) :: rounds =>
      let! (st, s, w) := reap (orders st).1 (orders st).2 st s w in run_reaper rounds st s w
  end.
End Server.

(** ** Routes of the kernel, which nothing calls *)

Inductive RouteResult := RouteDone | RouteExists | RouteFailed | RouteNotRun.

Definition route_command (linux add : bool) (tun_name ip : bytes) : bytes * list bytes :=
  if linux then (str "ip", [str "route"; if add then str "add" else str "del"; show_ipv4 ip ++ str "/32"; str "dev"; tun_name])
  else (str "route", [if add then str "add" else str "delete"; str "-host"; show_ipv4 ip; str "-interface"; tun_name]).

(** [stderr.contains(t)] *)
Fixpoint text_contains (t s : bytes) : bool :=
  bool_decide (take (length t) s = t) || match s with [] => false | _ :: s => text_contains t s end.

(** [output] is what the command leaves: whether it succeeded, and its errors. *)
Definition add_kernel_route (output : bytes * list bytes -> option (bool * bytes)) (linux : bool) (tun_name ip : bytes) : RouteResult :=
  match output (route_command linux true tun_name ip) with
  | Some (true, _) => RouteDone
  | Some (false, stderr) => if text_contains (str "exist") (from_utf8_lossy stderr) then RouteExists else RouteFailed
  | None => RouteNotRun
  end.

Definition remove_kernel_route (output : bytes * list bytes -> option (bool * bytes)) (linux : bool) (tun_name ip : bytes) : RouteResult :=
  match output (route_command linux false tun_name ip) with
  | Some (true, _) => RouteDone
  | Some (false, _) => RouteFailed
  | None => RouteNotRun
  end.

(** ** Instances to evaluate examples with *)

Definition toy_pick : Pick := {| pick s := head (elements s) |}.

Lemma toy_pick_laws : PickLaws toy_pick.
Proof.
  split; cbn; intros s.
  - intros x Hx. apply elem_of_elements. destruct (elements s) as [|y l]; [done|]. injection Hx as ->. by left.
  - intros Hx. apply leibniz_equiv, elements_empty_inv. destruct (elements s); done.
Qed.

(** A parser that knows one body. *)
Definition toy_json `{B : Base64} : Json := {|
  json_from_str s := if bool_decide (s = str "key")
                     then Ok (VObject [(str "public_key", VString (base64_encode (replicate 32 x07)))])
                     else Err (str "expected value");
  json_to_string _ := str "value";
|}.

(** A device that answers nothing. *)
Definition silent_uapi : Uapi unit := {|
  uapi_exchange _ s := (Err (str "UAPI connect: refused"), s);
  uapi_read_error := [];
|}.
