(* ===== verification/DevLock.v ===== *)
(** * The lock of the device ([device/dev_lock.rs])

    A read/write lock whose readers hold it for long and give way to a writer that
    announces itself in [wants_write]. The state is the flag and, for every thread,
    the point it has reached in [read] or [try_writeable]; who holds the mutex, the
    read lock and the write lock follows from those. The mutex, the condition
    variable and the read/write lock are those of [parking_lot]: a waiting writer
    holds back new readers, a thread waits until it is notified. *)

From Stdlib Require Import Lia.
From stdpp Require Import base list option.

(** The points of a thread, with the line that comes next. *)
Inductive phase :=
| Out             (* without a guard *)
| ReadCheck       (* [read]: holds the mutex, at [while *wants_write] *)
| ReadWait        (* [read]: in [cvar.wait] *)
| ReadWake        (* [read]: notified, takes the mutex again *)
| ReadDone        (* [read]: holds the mutex and the read lock *)
| Guard           (* holds a [LockReadGuard] *)
| TryMutex        (* [try_writeable]: holds the mutex and the read lock *)
| TryCheck        (* at [while *wants_write], without the read lock *)
| TryWait         (* in [cvar.wait] *)
| TryWake         (* notified, takes the mutex again *)
| TryReread       (* has set the flag, [unlocked] takes the read lock back *)
| Prep            (* in [prep_func], with the read lock *)
| WaitWrite       (* in [lock.write()] *)
| Mutating        (* in [mut_func], with the write lock *)
| MutReread       (* [unlocked] takes the read lock back *)
| ClearMutex      (* holds the read lock, takes the mutex *)
| Clear           (* holds the mutex and the read lock, clears the flag *)
| Dead.           (* has panicked in [prep_func] or [mut_func] *)

#[global] Instance phase_eq_dec : EqDecision phase.
Proof. solve_decision. Defined.

Definition holds_mutex (p : phase) : bool :=
  match p with ReadCheck | ReadDone | TryMutex | TryCheck | Clear => true | _ => false end.
Definition holds_read (p : phase) : bool :=
  match p with ReadDone | Guard | TryMutex | Prep | ClearMutex | Clear => true | _ => false end.
Definition holds_write (p : phase) : bool := match p with Mutating => true | _ => false end.

(** Between setting and clearing [wants_write]. *)
Definition writing (p : phase) : bool :=
  match p with TryReread | Prep | WaitWrite | Mutating | MutReread | ClearMutex | Clear => true | _ => false end.

Record Lock := mkLock { wants_write : bool; phases : list phase }.

(** Where thread [t] is. *)
Definition threads (s : Lock) (t : nat) : phase := default Out (phases s !! t).

(** [Lock::new], shared by [n] threads. *)
Definition lock_new (n : nat) : Lock := mkLock false (replicate n Out).

Definition goto (t : nat) (p : phase) (s : Lock) : Lock := mkLock (wants_write s) (<[t := p]> (phases s)).
Definition with_flag (b : bool) (s : Lock) : Lock := mkLock b (phases s).

(** [cvar.notify_all()] *)
Definition wake (p : phase) : phase := match p with ReadWait => ReadWake | TryWait => TryWake | p => p end.
Definition notify_all (s : Lock) : Lock := mkLock (wants_write s) (wake <$> phases s).

Definition mutex_free (s : Lock) : Prop := forall t, holds_mutex (threads s t) = false.
Definition can_read (s : Lock) : Prop :=
  forall t, holds_write (threads s t) = false /\ threads s t <> WaitWrite.
Definition can_write (s : Lock) : Prop :=
  forall t, holds_read (threads s t) = false /\ holds_write (threads s t) = false.

(** The steps inside of the two operations. *)
Inductive internal : nat -> Lock -> Lock -> Prop :=
| read_wait t s : threads s t = ReadCheck -> wants_write s = true -> internal t s (goto t ReadWait s)
| read_wake t s : threads s t = ReadWake -> mutex_free s -> internal t s (goto t ReadCheck s)
| read_take t s :
    threads s t = ReadCheck -> wants_write s = false -> can_read s -> internal t s (goto t ReadDone s)
| read_return t s : threads s t = ReadDone -> internal t s (goto t Guard s)
| try_unlock t s : threads s t = TryMutex -> internal t s (goto t TryCheck s)
| try_wait t s : threads s t = TryCheck -> wants_write s = true -> internal t s (goto t TryWait s)
| try_wake t s : threads s t = TryWake -> mutex_free s -> internal t s (goto t TryCheck s)
| try_set t s :
    threads s t = TryCheck -> wants_write s = false -> internal t s (with_flag true (goto t TryReread s))
| try_reread t s : threads s t = TryReread -> can_read s -> internal t s (goto t Prep s)
| try_write t s : threads s t = WaitWrite -> can_write s -> internal t s (goto t Mutating s)
| mut_reread t s : threads s t = MutReread -> can_read s -> internal t s (goto t ClearMutex s)
| clear_lock t s : threads s t = ClearMutex -> mutex_free s -> internal t s (goto t Clear s)
| clear_flag t s : threads s t = Clear -> internal t s (notify_all (with_flag false (goto t Guard s))).

(** The steps of the callers: a call, a guard that is dropped, a closure that ends. *)
Inductive external : nat -> Lock -> Lock -> Prop :=
| call_read t s : phases s !! t = Some Out -> mutex_free s -> external t s (goto t ReadCheck s)
| drop_guard t s : threads s t = Guard -> external t s (goto t Out s)
| call_try t s : threads s t = Guard -> mutex_free s -> external t s (goto t TryMutex s)
| prep_ends t s : threads s t = Prep -> external t s (goto t WaitWrite s)
| mut_ends t s : threads s t = Mutating -> external t s (goto t MutReread s).

(** A closure panics: unwinding releases the locks, and the flag stays. *)
Inductive panics : nat -> Lock -> Lock -> Prop :=
| prep_panics t s : threads s t = Prep -> panics t s (goto t Dead s)
| mut_panics t s : threads s t = Mutating -> panics t s (goto t Dead s).

Inductive lock_reachable : Lock -> Prop :=
| lock_start n : lock_reachable (lock_new n)
| lock_internal t s s' : lock_reachable s -> internal t s s' -> lock_reachable s'
| lock_external t s s' : lock_reachable s -> external t s s' -> lock_reachable s'.

(** ** Invariant *)

Record lock_inv (s : Lock) : Prop := {
  li_mutex : forall t t', holds_mutex (threads s t) = true -> holds_mutex (threads s t') = true -> t = t';
  li_writing : forall t t', writing (threads s t) = true -> writing (threads s t') = true -> t = t';
  li_flag : wants_write s = true <-> exists t, writing (threads s t) = true;
  li_exclusive : forall t t', holds_write (threads s t) = true -> holds_read (threads s t') = false;
  li_waiting : forall t, threads s t = ReadWait \/ threads s t = TryWait -> wants_write s = true;
  li_alive : forall t, threads s t <> Dead;
}.

Lemma lock_new_threads n t : threads (lock_new n) t = Out.
Proof. unfold threads. cbn. destruct (replicate n Out !! t) as [p|] eqn:E; [|done]. by apply lookup_replicate in E as [-> _]. Qed.

Lemma lock_new_inv n : lock_inv (lock_new n).
Proof.
  split; intros *; rewrite ?lock_new_threads; try done; [|by intros [|]].
  split; [done|]. intros [t Ht]. by rewrite lock_new_threads in Ht.
Qed.

Lemma thread_lt s t : threads s t <> Out -> (t < length (phases s))%nat.
Proof. unfold threads. intros Ht. apply lookup_lt_is_Some. destruct (phases s !! t); [eauto|done]. Qed.

Lemma goto_here t p s : (t < length (phases s))%nat -> threads (goto t p s) t = p.
Proof. intros Ht. unfold threads, goto. cbn. by rewrite list_lookup_insert_eq. Qed.

Lemma goto_other t t' p s : t' <> t -> threads (goto t p s) t' = threads s t'.
Proof. intros Ht. unfold threads, goto. cbn. by rewrite list_lookup_insert_ne. Qed.

Lemma notify_threads s t : threads (notify_all s) t = wake (threads s t).
Proof. unfold threads, notify_all. cbn. rewrite list_lookup_fmap. by destruct (phases s !! t). Qed.

(** A thread that moves on without touching the flag. *)
Lemma goto_inv t q s :
  lock_inv s -> (t < length (phases s))%nat ->
  (holds_mutex q = true -> holds_mutex (threads s t) = true \/ mutex_free s) ->
  writing q = writing (threads s t) ->
  (holds_write q = true -> can_write s) ->
  (holds_read q = true -> holds_read (threads s t) = true \/ can_read s) ->
  (q = ReadWait \/ q = TryWait -> wants_write s = true) -> q <> Dead ->
  lock_inv (goto t q s).
Proof.
  intros [L1 L2 L3 L4 L5 L6] Ht Hm Hw Hx Hr Hq Hd.
  assert (forall t', writing (threads (goto t q s) t') = writing (threads s t')) as Hwr.
  { intros t'. destruct (decide (t' = t)) as [->|]; [by rewrite goto_here|by rewrite goto_other]. }
  split.
  - intros t1 t2. destruct (decide (t1 = t)) as [->|H1], (decide (t2 = t)) as [->|H2];
      rewrite ?goto_here by done; rewrite ?goto_other by done; try done; [| |apply L1]; intros A1 A2.
    + destruct (Hm A1) as [|Hf]; [by apply L1|]. by rewrite Hf in A2.
    + destruct (Hm A2) as [|Hf]; [by apply L1|]. by rewrite Hf in A1.
  - intros t1 t2. rewrite !Hwr. apply L2.
  - cbn [goto wants_write]. rewrite L3. by split; intros [t' Ht']; exists t'; rewrite Hwr in *.
  - intros t1 t2 A1. destruct (holds_read (threads (goto t q s) t2)) eqn:A2; [exfalso|done]. revert A1 A2.
    destruct (decide (t1 = t)) as [->|H1], (decide (t2 = t)) as [->|H2]; rewrite ?goto_here by done; rewrite ?goto_other by done;
      intros A1 A2.
    + by destruct q.
    + destruct (Hx A1 t2). congruence.
    + destruct (Hr A2) as [Hh|Hc]; [by rewrite (L4 t1 t A1) in Hh|]. destruct (Hc t1). congruence.
    + by rewrite (L4 t1 t2 A1) in A2.
  - intros t'. destruct (decide (t' = t)) as [->|]; [rewrite goto_here by done; exact Hq|rewrite goto_other by done; apply L5].
  - intros t'. destruct (decide (t' = t)) as [->|]; [by rewrite goto_here|rewrite goto_other by done; apply L6].
Qed.

Lemma try_set_inv t s :
  lock_inv s -> threads s t = TryCheck -> wants_write s = false ->
  lock_inv (with_flag true (goto t TryReread s)).
Proof.
  intros [L1 L2 L3 L4 L5 L6] Ht Hw. assert (t < length (phases s))%nat as Hlt by (apply thread_lt; by rewrite Ht).
  assert (forall t', writing (threads s t') = false) as Hnone.
  { intros t'. destruct (writing (threads s t')) eqn:E; [|done].
    assert (wants_write s = true) by (apply L3; by exists t'). congruence. }
  assert (forall t', t' <> t -> threads (goto t TryReread s) t' = threads s t') as Ho by (intros; by apply goto_other).
  split; change (threads (with_flag true (goto t TryReread s))) with (threads (goto t TryReread s)).
  - intros t1 t2. destruct (decide (t1 = t)) as [->|]; [by rewrite goto_here|].
    destruct (decide (t2 = t)) as [->|]; [by rewrite goto_here|]. rewrite !Ho by done. apply L1.
  - assert (forall t', writing (threads (goto t TryReread s) t') = true -> t' = t) as Hone.
    { intros t'. destruct (decide (t' = t)); [done|]. by rewrite Ho, Hnone. }
    intros t1 t2 ->%Hone ->%Hone. done.
  - split; [|done]. intros _. exists t. by rewrite goto_here.
  - intros t1 t2. destruct (decide (t1 = t)) as [->|]; [by rewrite goto_here|].
    destruct (decide (t2 = t)) as [->|]; [by rewrite goto_here|]. rewrite !Ho by done. apply L4.
  - done.
  - intros t'. destruct (decide (t' = t)) as [->|]; [by rewrite goto_here|]. rewrite Ho by done. apply L6.
Qed.

Lemma clear_flag_inv t s :
  lock_inv s -> threads s t = Clear -> lock_inv (notify_all (with_flag false (goto t Guard s))).
Proof.
  intros [L1 L2 L3 L4 L5 L6] Ht.
  assert (forall t', t' <> t -> writing (threads s t') = false) as Hnone.
  { intros t' Hne. destruct (writing (threads s t')) eqn:E; [|done].
    exfalso. apply Hne. apply (L2 t' t); [done|by rewrite Ht]. }
  assert (threads (notify_all (with_flag false (goto t Guard s))) t = Guard) as Hh
    by (rewrite notify_threads; change (threads (with_flag false ?x)) with (threads x); rewrite goto_here; [done|]; apply thread_lt; by rewrite Ht).
  assert (forall t', t' <> t ->
    let p := threads (notify_all (with_flag false (goto t Guard s))) t' in
    holds_mutex p = false /\ writing p = false /\ holds_write p = false /\ p <> ReadWait /\ p <> TryWait /\ p <> Dead) as Ho.
  { intros t' Hne. cbv zeta. rewrite notify_threads. change (threads (with_flag false ?x)) with (threads x).
    rewrite goto_other by done. specialize (Hnone t' Hne). specialize (L6 t').
    destruct (threads s t') eqn:E; try done; exfalso; apply Hne, (L1 t' t); rewrite ?E, ?Ht; done. }
  split.
  - intros t1 t2. destruct (decide (t1 = t)) as [->|H1]; [by rewrite Hh|].
    destruct (Ho t1 H1) as [-> _]. done.
  - intros t1 t2. destruct (decide (t1 = t)) as [->|H1]; [by rewrite Hh|]. destruct (Ho t1 H1) as (_ & -> & _). done.
  - split; [done|]. intros [t' Hw]. destruct (decide (t' = t)) as [->|H1]; [by rewrite Hh in Hw|].
    destruct (Ho t' H1) as (_ & E & _). congruence.
  - intros t1 t2 Hw. destruct (decide (t1 = t)) as [->|H1]; [by rewrite Hh in Hw|].
    destruct (Ho t1 H1) as (_ & _ & E & _). congruence.
  - intros t' Hw. destruct (decide (t' = t)) as [->|H1]; [rewrite Hh in Hw; by destruct Hw|].
    destruct (Ho t' H1) as (_ & _ & _ & E1 & E2 & _). by destruct Hw.
  - intros t'. destruct (decide (t' = t)) as [->|H1]; [by rewrite Hh|]. apply Ho, H1.
Qed.

Lemma lock_reachable_inv s : lock_reachable s -> lock_inv s.
Proof.
  induction 1 as [|t s s' _ IH Hs|t s s' _ IH Hs]; [apply lock_new_inv| |].
  - destruct Hs as [t s Ht Hw|t s Ht Hf|t s Ht Hw Hc|t s Ht|t s Ht|t s Ht Hw|t s Ht Hf|t s Ht Hw|t s Ht Hc
                   |t s Ht Hc|t s Ht Hc|t s Ht Hf|t s Ht];
      [..|by apply clear_flag_inv]; try (by apply try_set_inv);
      (apply goto_inv; [done|by apply thread_lt; rewrite Ht|rewrite ?Ht; auto; try done; by intros []..]).
  - destruct Hs as [t s Ht Hf|t s Ht|t s Ht Hf|t s Ht|t s Ht];
      [|apply goto_inv; [done|by apply thread_lt; rewrite Ht|rewrite ?Ht; auto; try done; by intros []..]..].
    pose proof (lookup_lt_Some _ _ _ Ht). assert (threads s t = Out) as Ht' by (unfold threads; by rewrite Ht).
    apply goto_inv; rewrite ?Ht'; auto; try done; by intros [].
Qed.

(** ** Properties *)

(** Write access is exclusive: while a thread runs its closure under the write
    lock, no other thread holds the read lock or the write lock, and no other is on
    its way between announcing a write and ending it. *)
Theorem lock_exclusive s (Hr : lock_reachable s) t (Hm : threads s t = Mutating) :
  forall t', t' <> t ->
    holds_read (threads s t') = false /\ holds_write (threads s t') = false /\ writing (threads s t') = false.
Proof.
  apply lock_reachable_inv in Hr as [_ L2 _ L4 _ _]. intros t' Hne.
  assert (writing (threads s t') = false) as Hw.
  { destruct (writing (threads s t')) eqn:E; [|done]. exfalso. apply Hne, (L2 t' t); [done|by rewrite Hm]. }
  split_and!; [apply (L4 t t'); by rewrite Hm| |done]. by destruct (threads s t').
Qed.

(** Where a caller's code runs with the lock. *)
Definition in_user_code (p : phase) : Prop := p = Guard \/ p = Prep \/ p = Mutating.

#[local] Instance in_user_code_dec p : Decision (in_user_code p).
Proof. unfold in_user_code. apply _. Defined.

(** Either some thread is in a phase, or none is. *)
Lemma search (P : phase -> Prop) `{!forall p, Decision (P p)} s :
  ~ P Out -> (exists t, P (threads s t)) \/ forall t, ~ P (threads s t).
Proof.
  intros Hout. destruct (decide (Exists P (phases s))) as [He|Hn].
  - left. apply Exists_exists in He as (p & [t Ht]%list_elem_of_In%list_elem_of_lookup & Hp). exists t. unfold threads. by rewrite Ht.
  - right. intros t Hp. apply Hn, Exists_exists. unfold threads in Hp.
    destruct (phases s !! t) as [p|] eqn:E; [|done]. exists p. split; [by eapply list_elem_of_In, list_elem_of_lookup_2|done].
Qed.

(** The thread that holds the mutex goes on. *)
Lemma mutex_holder_moves s t :
  lock_inv s -> holds_mutex (threads s t) = true -> exists s', internal t s s'.
Proof.
  intros [_ _ L3 _ _ _] E. destruct (threads s t) eqn:Et; try done; clear E.
  - destruct (wants_write s) eqn:Ew; [by eexists; apply read_wait|]. eexists. apply read_take; [done|done|].
    intros t'. destruct (writing (threads s t')) eqn:E; [|by destruct (threads s t')].
    assert (false = true) by (apply L3; eauto). done.
  - by eexists; apply read_return.
  - by eexists; apply try_unlock.
  - destruct (wants_write s) eqn:Ew; eexists; [by apply try_wait|by apply try_set].
  - by eexists; apply clear_flag.
Qed.

(** So does the one that has announced a write, if the mutex is free and no caller
    is in the way. *)
Lemma writer_moves s t :
  lock_inv s -> mutex_free s -> (forall t', ~ in_user_code (threads s t')) ->
  writing (threads s t) = true -> exists s', internal t s s'.
Proof.
  intros [_ L2 _ _ _ _] Hm Hu Hw.
  assert (forall t', t' <> t -> writing (threads s t') = false) as Ho.
  { intros t' Hne. destruct (writing (threads s t')) eqn:E; [|done]. exfalso. by apply Hne, (L2 t' t). }
  assert (threads s t <> WaitWrite -> can_read s) as Hc.
  { intros Hne t'. destruct (decide (t' = t)) as [->|Hd].
    - specialize (Hu t). unfold in_user_code in Hu. destruct (threads s t); try done; naive_solver.
    - specialize (Ho t' Hd). by destruct (threads s t'). }
  specialize (Hm t) as Hmt. specialize (Hu t) as Hut. unfold in_user_code in Hut.
  destruct (threads s t) eqn:Et; try done; try (exfalso; by apply Hut; auto).
  - eexists. apply try_reread; [done|by apply Hc].
  - eexists. apply try_write; [done|]. intros t'. destruct (decide (t' = t)) as [->|Hd]; [by rewrite Et|].
    specialize (Ho t' Hd). specialize (Hm t'). specialize (Hu t'). unfold in_user_code in Hu.
    destruct (threads s t'); try done; exfalso; by apply Hu; auto.
  - eexists. apply mut_reread; [done|by apply Hc].
  - by eexists; apply clear_lock.
Qed.

(** As long as a thread is inside of [read] or [try_writeable], some thread can take a
    step there, or a caller is running its own code under the lock. *)
Lemma lock_moves s (Hr : lock_reachable s) t (Hin : threads s t <> Out) :
  (exists t' s', internal t' s s') \/ exists t', in_user_code (threads s t').
Proof.
  apply lock_reachable_inv in Hr. destruct (search in_user_code s) as [|Hu]; [by intros [|[|]]|auto|]. left.
  destruct (search (fun p => holds_mutex p = true) s) as [[t' Ht']|Hm]; [done| |].
  { exists t'. by apply mutex_holder_moves. }
  assert (mutex_free s) as Hf by (intros t'; by apply not_true_is_false).
  destruct (writing (threads s t)) eqn:Ew; [exists t; by apply writer_moves|].
  specialize (Hf t) as Hft. specialize (Hu t) as Hut. pose proof (li_alive _ Hr t).
  assert (threads s t = ReadWait \/ threads s t = TryWait -> exists t' s', internal t' s s') as Hwait.
  { intros Ht%(li_waiting _ Hr). apply (li_flag _ Hr) in Ht as [t' Ht']. exists t'. by apply writer_moves. }
  destruct (threads s t) eqn:Et; try done; try (by apply Hwait; auto).
  - exists t. eexists. by apply read_wake.
  - by destruct Hut; left.
  - exists t. eexists. by apply try_wake.
Qed.

(** Steps a thread has before it at most until it leaves, runs code of its caller or
    waits, *)
Definition rank (p : phase) : nat :=
  match p with
  | ReadWake => 4 | ReadCheck => 3 | ReadDone => 1
  | TryMutex | TryWake => 5 | TryCheck => 4 | TryReread => 1
  | WaitWrite => 1 | MutReread => 3 | ClearMutex => 2 | Clear => 1
  | _ => 0
  end.

(** and whether it will clear the flag and wake the others. *)
Definition will_wake (p : phase) : nat :=
  match p with
  | TryMutex | TryCheck | TryWait | TryWake | TryReread | Prep | WaitWrite | Mutating | MutReread | ClearMutex
  | Clear => 1
  | _ => 0
  end.

(** A bound of the steps of all threads, the wake-ups of [n] threads included. *)
Definition weight (n : nat) (p : phase) : nat := 6 * n * will_wake p + rank p.
Definition effort (s : Lock) : nat := sum_list (weight (length (phases s)) <$> phases s).

Lemma sum_insert (f : phase -> nat) l t p q :
  l !! t = Some p -> sum_list (f <$> <[t := q]> l) + f p = sum_list (f <$> l) + f q.
Proof.
  revert t. induction l as [|x l IH]; intros [|t] Hl; [done..| |].
  - injection Hl as ->. cbn [insert list_insert fmap list_fmap sum_list_with id]. lia.
  - cbn [insert list_insert fmap list_fmap sum_list_with id]. rewrite <- !Nat.add_assoc. f_equal. exact (IH t Hl).
Qed.

Lemma threads_lookup s t p : threads s t = p -> p <> Out -> phases s !! t = Some p.
Proof. unfold threads. by destruct (phases s !! t) as [q|]; cbn; intros; subst. Qed.

Lemma goto_effort t p s : threads s t <> Out ->
  effort (goto t p s) + weight (length (phases s)) (threads s t) = effort s + weight (length (phases s)) p.
Proof.
  intros Ht. unfold effort, goto. cbn [phases]. rewrite length_insert. apply sum_insert. by apply threads_lookup.
Qed.

Lemma wake_effort s : effort (notify_all s) <= effort s + 5 * length (phases s).
Proof.
  assert (forall n l, sum_list (weight n <$> (wake <$> l)) <= sum_list (weight n <$> l) + 5 * length l) as Hl.
  { intros n. induction l as [|p l IH]; [apply Nat.le_0_l|]. cbn [fmap list_fmap sum_list_with id length] in *.
    assert (weight n (wake p) <= weight n p + 5) by (destruct p; unfold weight; cbn; lia). lia. }
  unfold effort, notify_all. cbn [phases]. rewrite length_fmap. apply Hl.
Qed.

Lemma internal_effort t s s' : internal t s s' -> effort s' < effort s.
Proof.
  intros Hs. assert (threads s t <> Out) as Hne by (by destruct Hs as [? ? E|? ? E|? ? E|? ? E|? ? E|? ? E|? ? E|? ? E|? ? E|? ? E|? ? E|? ? E|? ? E]; rewrite E).
  destruct Hs as [t s E|t s E|t s E|t s E|t s E|t s E|t s E|t s E|t s E|t s E|t s E|t s E|t s E];
    try match goal with |- context [goto t ?p s] => pose proof (goto_effort t p s Hne) as Hg end; rewrite E in Hg.
  13: { pose proof (wake_effort (with_flag false (goto t Guard s))) as Hw.
    change (effort (with_flag _ ?x)) with (effort x) in Hw.
    replace (length (phases (with_flag _ _))) with (length (phases s)) in Hw by (cbn; by rewrite length_insert).
    pose proof (thread_lt s t Hne). unfold weight in Hg. cbn [will_wake rank] in Hg. lia. }
  all: unfold weight in Hg; cbn [will_wake rank] in Hg; try change (effort (with_flag _ ?x)) with (effort x); lia.
Qed.

(** [k] steps inside of the lock, by any threads. *)
Inductive proceeds : nat -> Lock -> Lock -> Prop :=
| proceeds_0 s : proceeds 0 s s
| proceeds_S k t s s' s'' : internal t s s' -> proceeds k s' s'' -> proceeds (S k) s s''.

(** C22. Calls to the lock complete: without a deadlock, a livelock or a lost wake-up.
    From every reachable state, in whatever order the threads are scheduled, the
    steps inside of [read] and [try_writeable] come to an end after at most [effort]
    many, and they only stop when every thread is out of the lock or when one is
    running code of its caller under it. *)
Theorem lock_never_stuck s (Hr : lock_reachable s) k s' (Hp : proceeds k s s') :
  k <= effort s
  /\ ((forall t s'', ~ internal t s' s'') ->
      (forall t, threads s' t = Out) \/ exists t, in_user_code (threads s' t)).
Proof.
  induction Hp as [s|k t s s1 s' Hi _ IH].
  - split; [lia|]. intros Hn. destruct (search (fun p => p <> Out) s) as [[t Ht]|Ho]; [tauto| |].
    + destruct (lock_moves s Hr t Ht) as [(t' & s' & Hi)|]; [by apply Hn in Hi|auto].
    + left. intros t. apply dec_stable. apply Ho.
  - destruct IH as [Hk Hend]; [by eapply lock_internal|]. apply internal_effort in Hi. split; [lia|exact Hend].
Qed.

(** Every step, with or without a panic. *)
Inductive runs : Lock -> Lock -> Prop :=
| runs_refl s : runs s s
| runs_internal t s s' s'' : runs s s' -> internal t s' s'' -> runs s s''
| runs_external t s s' s'' : runs s s' -> external t s' s'' -> runs s s''
| runs_panic t s s' s'' : runs s s' -> panics t s' s'' -> runs s s''.

(** Outside of the lock, or on the way into [read]. *)
Definition outside (p : phase) : bool :=
  match p with Out | ReadCheck | ReadWait | ReadWake => true | _ => false end.

Lemma goto_cases t t' p s : threads (goto t p s) t' = threads s t' \/ (t' = t /\ threads (goto t p s) t' = p).
Proof.
  destruct (decide (t' = t)) as [->|]; [|left; by apply goto_other].
  destruct (decide (t < length (phases s))%nat); [right; by rewrite goto_here|left].
  unfold threads, goto. cbn. by rewrite list_insert_ge by lia.
Qed.

(** The flag that nobody is left to clear. *)
Lemma orphaned s s' :
  runs s s' -> wants_write s = true -> (forall t, writing (threads s t) = false) ->
  wants_write s' = true /\ (forall t, writing (threads s' t) = false)
  /\ forall t, outside (threads s t) = true -> outside (threads s' t) = true.
Proof.
  intros Hrun Hw Hn.
  assert (forall t p s, (forall t, writing (threads s t) = false) -> writing p = false ->
            (outside (threads s t) = true -> outside p = true) ->
            (forall t', writing (threads (goto t p s) t') = false)
            /\ forall t', outside (threads s t') = true -> outside (threads (goto t p s) t') = true) as Hgo.
  { intros t p x Hx Hp Ho. split; intros t'; destruct (goto_cases t t' p x) as [->|[-> ->]]; auto. }
  induction Hrun as [|t s s' s'' _ IH Hs|t s s' s'' _ IH Hs|t s s' s'' _ IH Hs]; [done|..];
    destruct (IH Hw Hn) as (IW & IN & IO); clear IH;
    destruct Hs as [t s' Ht|t s' Ht|t s' Ht|t s' Ht|t s' Ht|t s' Ht|t s' Ht|t s' Ht|t s' Ht|t s' Ht|t s' Ht|t s' Ht|t s' Ht]
      || destruct Hs as [t s' Ht|t s' Ht|t s' Ht|t s' Ht|t s' Ht] || destruct Hs as [t s' Ht|t s' Ht];
    try congruence; try (specialize (IN t); rewrite Ht in IN; done);
    match goal with |- wants_write (goto _ ?p _) = _ /\ _ =>
      destruct (Hgo t p s' IN) as [G1 G2]; [done|rewrite ?Ht; done|split_and!; auto] end.
Qed.

(** A panic of [prep_func] or [mut_func] shuts everybody out: the flag stays set,
    and a thread that is not holding a guard at that moment never gets one again. *)
Theorem panic_locks_out s t s' (Hr : lock_reachable s) (Hp : panics t s s') s'' (Hrun : runs s' s'') :
  forall t', outside (threads s' t') = true -> outside (threads s'' t') = true.
Proof.
  apply lock_reachable_inv in Hr.
  assert (writing (threads s t) = true /\ s' = goto t Dead s) as [Ht ->] by (by destruct Hp as [t s Ht|t s Ht]; rewrite Ht).
  assert (t < length (phases s))%nat as Hlt by (apply thread_lt; by destruct (threads s t)).
  apply (orphaned _ _ Hrun).
  - apply (li_flag _ Hr). by exists t.
  - intros t'. destruct (decide (t' = t)) as [->|Hne]; [by rewrite goto_here|]. rewrite goto_other by done.
    destruct (writing (threads s t')) eqn:E; [|done]. exfalso. by apply Hne, (li_writing _ Hr).
Qed.

(** ** Examples: two threads, the first one upgrades *)

Ltac two_threads := intros [|[|?]]; cbn; split_and?; done.

Lemma example_guard : lock_reachable (mkLock false [Guard; Out]).
Proof.
  assert (lock_reachable (mkLock false [ReadCheck; Out])) as H1.
  { apply (lock_external 0 (lock_new 2)); [constructor|]. apply (call_read 0 (lock_new 2)); [done|two_threads]. }
  assert (lock_reachable (mkLock false [ReadDone; Out])) as H2.
  { apply (lock_internal 0 _ _ H1). apply (read_take 0 (mkLock false [ReadCheck; Out])); [done|done|two_threads]. }
  apply (lock_internal 0 _ _ H2). by apply (read_return 0 (mkLock false [ReadDone; Out])).
Qed.

Lemma example_waits : lock_reachable (mkLock true [WaitWrite; Out]).
Proof.
  assert (lock_reachable (mkLock false [TryMutex; Out])) as H1.
  { apply (lock_external 0 _ _ example_guard). apply (call_try 0 (mkLock false [Guard; Out])); [done|two_threads]. }
  assert (lock_reachable (mkLock false [TryCheck; Out])) as H2.
  { apply (lock_internal 0 _ _ H1). by apply (try_unlock 0 (mkLock false [TryMutex; Out])). }
  assert (lock_reachable (mkLock true [TryReread; Out])) as H3.
  { apply (lock_internal 0 _ _ H2). by apply (try_set 0 (mkLock false [TryCheck; Out])). }
  assert (lock_reachable (mkLock true [Prep; Out])) as H4.
  { apply (lock_internal 0 _ _ H3). apply (try_reread 0 (mkLock true [TryReread; Out])); [done|two_threads]. }
  apply (lock_external 0 _ _ H4). by apply (prep_ends 0 (mkLock true [Prep; Out])).
Qed.

Lemma example_mutating : lock_reachable (mkLock true [Mutating; Out]).
Proof.
  apply (lock_internal 0 _ _ example_waits). apply (try_write 0 (mkLock true [WaitWrite; Out])); [done|two_threads].
Qed.

Lemma lock_exclusive_witness :
  lock_reachable (mkLock true [Mutating; Out])
  /\ forall t', t' <> 0%nat ->
       holds_read (threads (mkLock true [Mutating; Out]) t') = false
       /\ holds_write (threads (mkLock true [Mutating; Out]) t') = false
       /\ writing (threads (mkLock true [Mutating; Out]) t') = false.
Proof. split; [exact example_mutating|]. exact (lock_exclusive _ example_mutating 0 eq_refl). Defined.

Lemma lock_never_stuck_witness :
  1 <= effort (mkLock true [WaitWrite; Out])
  /\ ((forall t s'', ~ internal t (mkLock true [Mutating; Out]) s'') ->
      (forall t, threads (mkLock true [Mutating; Out]) t = Out)
      \/ exists t, in_user_code (threads (mkLock true [Mutating; Out]) t)).
Proof.
  apply (lock_never_stuck _ example_waits).
  apply (proceeds_S 0 0 _ (mkLock true [Mutating; Out])); [|constructor].
  apply (try_write 0 (mkLock true [WaitWrite; Out])); [done|two_threads].
Defined.

Lemma panic_locks_out_witness :
  outside (threads (mkLock true [Dead; ReadWait]) 1) = true.
Proof.
  refine (panic_locks_out (mkLock true [Mutating; Out]) 0 (mkLock true [Dead; Out]) example_mutating _
            (mkLock true [Dead; ReadWait]) _ 1 eq_refl).
  - by apply (mut_panics 0 (mkLock true [Mutating; Out])).
  - apply (runs_internal 1 _ (mkLock true [Dead; ReadCheck])).
    + apply (runs_external 1 _ (mkLock true [Dead; Out])); [constructor|].
      apply (call_read 1 (mkLock true [Dead; Out])); [done|two_threads].
    + by apply (read_wait 1 (mkLock true [Dead; ReadCheck])).
Defined.
