(* ===== verification/Epoll.v ===== *)
(** * The event queue ([device/epoll.rs])

    The queue keeps every event in a box of its own and gives the address of the box to
    the kernel, which returns it when the event is triggered; the thread that receives it
    works on the box through a guard. Boxes are entries of a heap, so that the use of a
    freed one is visible. The kernel is the class [Kernel], with the documented behaviour
    of epoll, including that a registration belongs to a descriptor and the open file
    behind it, and outlives the descriptor when another one refers to the file. *)

From Stdlib Require Import ZArith Lia.
From stdpp Require Import base numbers list option gmap sets.
From S2P Require Import Prelude Effects.

(** ** The kernel *)

Abbreviation ptr := nat (only parsing).

Record epoll_event := mkEpollEvent { ee_events : Z; ee_u64 : ptr }.

Definition EPOLLIN : Z := 1.
Definition EPOLLOUT : Z := 4.
Definition EPOLLHUP : Z := 16.
Definition EPOLLONESHOT : Z := 2 ^ 30.
Definition EPOLLET : Z := 2 ^ 31.

Definition oneshot (flags : Z) : bool := Z.testbit flags 30.

(** A registration is disarmed when a one-shot event is delivered. *)
Record Registration := mkReg { reg_event : epoll_event; reg_armed : bool }.

Class Kernel (K : Type) := {
  epoll_ctl_add : Z -> epoll_event -> K -> bool * K;    (* whether it succeeds *)
  epoll_ctl_mod : Z -> epoll_event -> K -> bool * K;
  epoll_ctl_del : Z -> K -> bool * K;
  epoll_wait : K -> option (list epoll_event) * K;      (* [None] is an error *)
  timerfd_create : bool -> K -> option Z * K;           (* [true] is CLOCK_BOOTTIME *)
  timerfd_settime : Z -> Z -> Z -> K -> bool * K;       (* seconds, nanoseconds *)
  eventfd : K -> option Z * K;
  signalfd : Z -> K -> option Z * K;
  drain : Z -> K -> K;                                  (* reads until it fails *)
  fd_read : Z -> K -> K;
  fd_write : Z -> K -> K;
  fd_close : Z -> K -> K;
}.

(** The descriptors with the open files they refer to, and the registrations. *)
Class KernelView (K : Type) := {
  files : K -> gmap Z nat;
  interest : K -> gmap (nat * Z) Registration;
}.

(** A call that touches neither descriptors nor registrations. *)
Definition undisturbed {K} `{V : KernelView K} (k k' : K) : Prop := files k' = files k /\ interest k' = interest k.

(** A new descriptor of a new file. *)
Definition opens {K} `{V : KernelView K} (r : option Z) (k k' : K) : Prop :=
  match r with
  | None => undisturbed k k'
  | Some fd => 0 <= fd /\ files k !! fd = None /\ interest k' = interest k
      /\ exists f, files k' = <[fd := f]> (files k)
         /\ (forall fd', files k !! fd' <> Some f) /\ (forall fd', interest k !! (f, fd') = None)
  end.

Class KernelLaws (K : Type) `{Kn : Kernel K} `{V : KernelView K} : Prop := {
  add_law : forall fd e k, let '(ok, k') := epoll_ctl_add fd e k in
    if ok then files k' = files k /\ exists f, files k !! fd = Some f /\ interest k !! (f, fd) = None
                 /\ interest k' = <[(f, fd) := mkReg e true]> (interest k)
    else undisturbed k k';
  mod_law : forall fd e k, let '(ok, k') := epoll_ctl_mod fd e k in
    if ok then files k' = files k /\ exists f, files k !! fd = Some f /\ is_Some (interest k !! (f, fd))
                 /\ interest k' = <[(f, fd) := mkReg e true]> (interest k)
    else undisturbed k k';
  del_law : forall fd k, let k' := (epoll_ctl_del fd k).2 in
    files k' = files k
    /\ interest k' = match files k !! fd with Some f => delete (f, fd) (interest k) | None => interest k end;
  wait_law : forall k, let '(r, k') := epoll_wait k in
    files k' = files k
    /\ match r with
       | Some [e] => exists key r, interest k !! key = Some r /\ reg_armed r = true /\ ee_u64 e = ee_u64 (reg_event r)
           /\ interest k' = if oneshot (ee_events (reg_event r))
                            then <[key := mkReg (reg_event r) false]> (interest k) else interest k
       | Some _ => False
       | None => interest k' = interest k
       end;
  timerfd_law : forall c k, let '(r, k') := timerfd_create c k in opens r k k';
  settime_law : forall fd s n k, undisturbed k (timerfd_settime fd s n k).2;
  eventfd_law : forall k, let '(r, k') := eventfd k in opens r k k';
  signalfd_law : forall sig k, let '(r, k') := signalfd sig k in opens r k k';
  drain_law : forall fd k, undisturbed k (drain fd k);
  read_law : forall fd k, undisturbed k (fd_read fd k);
  write_law : forall fd k, undisturbed k (fd_write fd k);
  (** A file is released with its last descriptor, and its registrations with it. *)
  close_law : forall fd k, files (fd_close fd k) = delete fd (files k)
    /\ interest (fd_close fd k) =
       match files k !! fd with
       | Some f => if bool_decide (map_Exists (fun fd' f' => fd' <> fd /\ f' = f) (files k)) then interest k
                   else filter (fun kr => kr.1.1 <> f) (interest k)
       | None => interest k
       end;
}.

(** ** [EventPoll] *)

Record Event (H : Type) := mkEvent {
  ev_event : epoll_event;
  ev_fd : Z;
  ev_handler : H;
  ev_notifier : bool;
  ev_needs_read : bool;
}.
Arguments mkEvent {H}.
Arguments ev_event {H}.
Arguments ev_fd {H}.
Arguments ev_handler {H}.
Arguments ev_notifier {H}.
Arguments ev_needs_read {H}.

(** The events by descriptor, and the heap of their boxes. *)
Record EventPoll (H K : Type) := mkPoll {
  events : list (option ptr);
  boxes : gmap ptr (Event H);
  next_box : ptr;
  kernel : K;
}.
Arguments mkPoll {H K}.
Arguments events {H K}.
Arguments boxes {H K}.
Arguments next_box {H K}.
Arguments kernel {H K}.

Inductive QueueError := ErrorEventQueue | ErrorTimer.

Record EventRef := mkEventRef { trigger : Z }.

Inductive WaitResult := WaitOk (guard : ptr) | WaitEoF (guard : ptr) | WaitError.

Section Poll.
Context {H K : Type} `{Kn : Kernel K}.
(** Whether dropping the handler closes the descriptor of its event. *)
Context (owns : H -> bool).

Definition event_poll_new (k : K) : EventPoll H K := mkPoll [] ∅ 1 k.

Definition with_kernel (k : K) (p : EventPoll H K) : EventPoll H K := mkPoll (events p) (boxes p) (next_box p) k.

(** The end of the life of a box. *)
Definition drop_box (b : ptr) (p : EventPoll H K) : EventPoll H K :=
  match boxes p !! b with
  | Some ev =>
      mkPoll (events p) (delete b (boxes p)) (next_box p)
        (if owns (ev_handler ev) then fd_close (ev_fd ev) (kernel p) else kernel p)
  | None => p
  end.

(** [events[index].take().is_some()] and what follows: the box is dropped before the
    kernel is told. *)
Definition take_event (index : nat) (p : EventPoll H K) : EventPoll H K :=
  match events p !! index with
  | Some (Some b) =>
      let p := drop_box b (mkPoll (<[index := None]> (events p)) (boxes p) (next_box p) (kernel p)) in
      with_kernel (epoll_ctl_del (Z.of_nat index) (kernel p)).2 p
  | _ => p
  end.

Definition insert_at (index : nat) (data : ptr) (p : EventPoll H K) : EventPoll H K :=
  let grown := events p ++ replicate (S index - length (events p)) None in
  let p := take_event index (mkPoll grown (boxes p) (next_box p) (kernel p)) in
  mkPoll (<[index := Some data]> (events p)) (boxes p) (next_box p) (kernel p).

(** The descriptor is not negative. *)
Definition register_event (flags fd : Z) (handler : H) (notifier needs_read : bool) (p : EventPoll H K)
    : result QueueError EventRef * EventPoll H K :=
  let b := next_box p in
  let desc := mkEpollEvent flags b in
  let p := mkPoll (events p) (<[b := mkEvent desc fd handler notifier needs_read]> (boxes p)) (S b) (kernel p) in
  let p := insert_at (Z.to_nat fd) b p in
  let '(ok, k) := epoll_ctl_add fd desc (kernel p) in
  (if ok then Ok (mkEventRef fd) else Err ErrorEventQueue, with_kernel k p).

Definition READ_ONCE : Z := Z.lor EPOLLIN EPOLLONESHOT.
Definition WRITE_ONCE : Z := Z.lor (Z.lor EPOLLOUT EPOLLET) EPOLLONESHOT.

Definition new_event (trigger : Z) (handler : H) := register_event READ_ONCE trigger handler false false.

Definition new_write_event (trigger : Z) (handler : H) := register_event WRITE_ONCE trigger handler false false.

Definition new_periodic_event (handler : H) (secs nanos : Z) (p : EventPoll H K)
    : result QueueError EventRef * EventPoll H K :=
  let '(tfd, k) :=
    match timerfd_create true (kernel p) with
    | (Some tfd, k) => (Some tfd, k)
    | (None, k) => timerfd_create false k
    end in
  match tfd with
  | None => (Err ErrorTimer, with_kernel k p)
  | Some tfd =>
      let '(ok, k) := timerfd_settime tfd secs nanos k in
      if ok then register_event READ_ONCE tfd handler false true (with_kernel k p)
      else (Err ErrorTimer, with_kernel (fd_close tfd k) p)
  end.

Definition new_notifier (handler : H) (p : EventPoll H K) : result QueueError EventRef * EventPoll H K :=
  match eventfd (kernel p) with
  | (None, k) => (Err ErrorEventQueue, with_kernel k p)
  | (Some efd, k) => register_event EPOLLIN efd handler true false (with_kernel k p)
  end.

Definition new_signal_event (signal : Z) (handler : H) (p : EventPoll H K) : result QueueError EventRef * EventPoll H K :=
  match signalfd signal (kernel p) with
  | (None, k) => (Err ErrorEventQueue, with_kernel k p)
  | (Some sfd, k) => register_event READ_ONCE sfd handler false true (with_kernel k p)
  end.

(** A box that is used. *)
Definition deref (b : ptr) (p : EventPoll H K) : run (Event H) :=
  match boxes p !! b with Some ev => Runs ev | None => Faults end.

(** The address of the event comes back from the kernel; a null one is refused. *)
Definition queue_wait (p : EventPoll H K) : run (WaitResult * EventPoll H K) :=
  match epoll_wait (kernel p) with
  | (Some [e], k) =>
      if bool_decide (ee_u64 e = 0%nat) then Panics
      else
        let^ _ := deref (ee_u64 e) p in
        Runs (if Z.land (ee_events e) EPOLLHUP =? 0 then WaitOk (ee_u64 e) else WaitEoF (ee_u64 e), with_kernel k p)
  | (_, k) => Runs (WaitError, with_kernel k p)
  end.

Definition clear_event_by_fd (index : Z) (p : EventPoll H K) : run (EventPoll H K) :=
  if index <? 0 then Panics
  else if Z.of_nat (length (events p)) <=? index then Panics
  else Runs (take_event (Z.to_nat index) p).

(** The event of a reference, which has to be a notifier. *)
Definition notifier_of (r : EventRef) (p : EventPoll H K) : run unit :=
  if (trigger r <? 0) || (Z.of_nat (length (events p)) <=? trigger r) then Panics
  else
    match events p !! Z.to_nat (trigger r) with
    | Some (Some b) => let^ ev := deref b p in if ev_notifier ev then Runs tt else Panics
    | _ => Panics
    end.

Definition trigger_notification (r : EventRef) (p : EventPoll H K) : run (EventPoll H K) :=
  let^ _ := notifier_of r p in Runs (with_kernel (fd_write (trigger r) (kernel p)) p).

Definition stop_notification (r : EventRef) (p : EventPoll H K) : run (EventPoll H K) :=
  let^ _ := notifier_of r p in Runs (with_kernel (fd_read (trigger r) (kernel p)) p).

(** *** [EventGuard] *)

Definition guard_deref (b : ptr) (p : EventPoll H K) : run H := let^ ev := deref b p in Runs (ev_handler ev).

Definition guard_fd (b : ptr) (p : EventPoll H K) : run Z := let^ ev := deref b p in Runs (ev_fd ev).

Definition set_box (b : ptr) (ev : Event H) (p : EventPoll H K) : EventPoll H K :=
  mkPoll (events p) (<[b := ev]> (boxes p)) (next_box p) (kernel p).

Definition guard_get_mut (b : ptr) (f : H -> H) (p : EventPoll H K) : run (EventPoll H K) :=
  let^ ev := deref b p in
  Runs (set_box b (mkEvent (ev_event ev) (ev_fd ev) (f (ev_handler ev)) (ev_notifier ev) (ev_needs_read ev)) p).

Definition guard_notify_writable (b : ptr) (enabled : bool) (p : EventPoll H K) : run (EventPoll H K) :=
  let^ ev := deref b p in
  let flags := if enabled then Z.lor (Z.lor (Z.lor EPOLLOUT EPOLLIN) EPOLLET) EPOLLONESHOT else READ_ONCE in
  Runs (set_box b (mkEvent (mkEpollEvent flags (ee_u64 (ev_event ev))) (ev_fd ev) (ev_handler ev)
                     (ev_notifier ev) (ev_needs_read ev)) p).

Definition guard_drop (b : ptr) (p : EventPoll H K) : run (EventPoll H K) :=
  let^ ev := deref b p in
  let k := if ev_needs_read ev then drain (ev_fd ev) (kernel p) else kernel p in
  Runs (with_kernel (epoll_ctl_mod (ev_fd ev) (ev_event ev) k).2 p).

Definition guard_cancel (b : ptr) (p : EventPoll H K) : run (EventPoll H K) :=
  let^ ev := deref b p in clear_event_by_fd (ev_fd ev) p.
End Poll.

(** ** The queue in use

    Threads share the queue; [held] are the boxes of the guards they hold, one entry for
    each guard. *)

Record Sys (H K : Type) := mkSys { poll : EventPoll H K; held : list ptr }.
Arguments mkSys {H K}.
Arguments poll {H K}.
Arguments held {H K}.

Inductive Label (H K : Type) :=
| NewEvent (fd : Z) (h : H)
| NewWriteEvent (fd : Z) (h : H)
| NewPeriodic (h : H) (secs nanos : Z)
| NewNotifier (h : H)
| NewSignal (sig : Z) (h : H)
| Wait
| DropGuard (i : nat)
| CancelGuard (i : nat)
| UseGuard (i : nat) (f : H -> H)          (* the handler runs, or is changed *)
| Writable (i : nat) (enabled : bool)
| ClearByFd (fd : Z)
| Trigger (r : EventRef)
| Stop (r : EventRef)
| Outside (k : K).                         (* descriptors opened, duplicated or closed elsewhere *)
Arguments NewEvent {H K}.
Arguments NewWriteEvent {H K}.
Arguments NewPeriodic {H K}.
Arguments NewNotifier {H K}.
Arguments NewSignal {H K}.
Arguments Wait {H K}.
Arguments DropGuard {H K}.
Arguments CancelGuard {H K}.
Arguments UseGuard {H K}.
Arguments Writable {H K}.
Arguments ClearByFd {H K}.
Arguments Trigger {H K}.
Arguments Stop {H K}.
Arguments Outside {H K}.

Section System.
Context {H K : Type} `{Kn : Kernel K} (owns : H -> bool).

Definition exec (l : Label H K) (s : Sys H K) : run (Sys H K) :=
  let on_poll m := let^ p := m in Runs (mkSys p (held s)) in
  let on_guard i m := match held s !! i with Some b => m b | None => Panics end in
  match l with
  | NewEvent fd h => Runs (mkSys (new_event owns fd h (poll s)).2 (held s))
  | NewWriteEvent fd h => Runs (mkSys (new_write_event owns fd h (poll s)).2 (held s))
  | NewPeriodic h secs nanos => Runs (mkSys (new_periodic_event owns h secs nanos (poll s)).2 (held s))
  | NewNotifier h => Runs (mkSys (new_notifier owns h (poll s)).2 (held s))
  | NewSignal sig h => Runs (mkSys (new_signal_event owns sig h (poll s)).2 (held s))
  | Wait =>
      let^ r := queue_wait (poll s) in
      Runs (mkSys r.2 (match r.1 with WaitOk b | WaitEoF b => held s ++ [b] | WaitError => held s end))
  | DropGuard i => on_guard i (fun b => let^ p := guard_drop b (poll s) in Runs (mkSys p (remove_nth i (held s))))
  | CancelGuard i => on_guard i (fun b => let^ p := guard_cancel owns b (poll s) in Runs (mkSys p (remove_nth i (held s))))
  | UseGuard i f => on_guard i (fun b => on_poll (guard_get_mut b f (poll s)))
  | Writable i enabled => on_guard i (fun b => on_poll (guard_notify_writable b enabled (poll s)))
  | ClearByFd fd => on_poll (clear_event_by_fd owns fd (poll s))
  | Trigger r => on_poll (trigger_notification r (poll s))
  | Stop r => on_poll (stop_notification r (poll s))
  | Outside k => Runs (mkSys (with_kernel k (poll s)) (held s))
  end.
End System.

(** ** What keeps the boxes safe *)

Section Safety.
Context {H K : Type} `{KL : KernelLaws K} (owns : H -> bool).

Implicit Types (s : Sys H K) (p : EventPoll H K) (b : ptr).

Definition registered p (key : nat * Z) (r : Registration) : Prop :=
  interest (kernel p) !! key = Some r /\ reg_armed r = true.

Record inv s : Prop := mkInv {
  (** an entry has a box of its descriptor, *)
  inv_events : forall n b, events (poll s) !! n = Some (Some b) ->
    exists ev, boxes (poll s) !! b = Some ev /\ ev_fd ev = Z.of_nat n;
  (** a box has an entry and its own address, and is one-shot unless a notifier, *)
  inv_boxes : forall b ev, boxes (poll s) !! b = Some ev ->
    (0 < b < next_box (poll s))%nat /\ ee_u64 (ev_event ev) = b
    /\ (ev_notifier ev = false -> oneshot (ee_events (ev_event ev)) = true)
    /\ exists n, ev_fd ev = Z.of_nat n /\ events (poll s) !! n = Some (Some b);
  (** an armed registration has the address of a box, which nobody holds unless it is a notifier, *)
  inv_armed : forall key r, registered (poll s) key r ->
    exists ev, boxes (poll s) !! ee_u64 (reg_event r) = Some ev /\ ev_fd ev = key.2
      /\ (ev_notifier ev = false -> oneshot (ee_events (reg_event r)) = true /\ ee_u64 (reg_event r) ∉ held s);
  inv_once : forall key r key' r' ev, registered (poll s) key r -> registered (poll s) key' r' ->
    ee_u64 (reg_event r) = ee_u64 (reg_event r') -> boxes (poll s) !! ee_u64 (reg_event r) = Some ev ->
    ev_notifier ev = false -> key = key';
  (** and so are guards. *)
  inv_held : forall b, b ∈ held s -> is_Some (boxes (poll s) !! b);
  inv_exclusive : forall i j b ev, held s !! i = Some b -> held s !! j = Some b ->
    boxes (poll s) !! b = Some ev -> ev_notifier ev = false -> i = j;
  inv_next : (0 < next_box (poll s))%nat;
}.

(** An event whose box can be dropped without leaving its address with the kernel: each
    armed registration is that of the open descriptor, and of no other descriptor if the
    handler closes it. *)
Definition removable p b : Prop :=
  forall key r, registered p key r -> ee_u64 (reg_event r) = b ->
    files (kernel p) !! key.2 = Some key.1
    /\ forall ev, boxes p !! b = Some ev -> owns (ev_handler ev) = true ->
       forall fd', fd' <> key.2 -> files (kernel p) !! fd' <> Some key.1.

Definition entry p (fd : Z) : option ptr := mjoin (events p !! Z.to_nat fd).

Definition vacant s (fd : Z) : Prop := forall b, entry (poll s) fd = Some b -> b ∉ held s /\ removable (poll s) b.

(** The entries of closed descriptors are not in use. *)
Definition closed_idle s : Prop := forall fd b, 0 <= fd -> files (kernel (poll s)) !! fd = None -> entry (poll s) fd = Some b ->
  b ∉ held s /\ forall key r, registered (poll s) key r -> ee_u64 (reg_event r) <> b.

Definition names_notifier p (r : EventRef) : Prop :=
  0 <= trigger r /\ exists b ev, entry p (trigger r) = Some b /\ boxes p !! b = Some ev /\ ev_notifier ev = true.

Definition admissible (l : Label H K) s : Prop :=
  match l with
  | NewEvent fd _ | NewWriteEvent fd _ => 0 <= fd /\ vacant s fd
  | NewPeriodic _ _ _ | NewNotifier _ | NewSignal _ _ => closed_idle s
  | Wait => True
  | DropGuard i | UseGuard i _ | Writable i _ => (i < length (held s))%nat
  | CancelGuard i => exists b ev, held s !! i = Some b /\ boxes (poll s) !! b = Some ev /\ ev_notifier ev = false
  | ClearByFd fd => 0 <= fd < Z.of_nat (length (events (poll s))) /\ vacant s fd
  | Trigger r | Stop r => names_notifier (poll s) r
  | Outside k => interest k ⊆ interest (kernel (poll s))
  end.

Lemma entry_Some p n b : entry p (Z.of_nat n) = Some b <-> events p !! n = Some (Some b).
Proof.
  unfold entry. rewrite Nat2Z.id. destruct (events p !! n) as [[c|]|]; cbn; split; congruence.
Qed.

(** *** Changes of the kernel, of guards, of boxes *)

(** Fewer armed registrations. *)
Lemma inv_kernel s k :
  inv s -> (forall key r, registered (with_kernel k (poll s)) key r -> registered (poll s) key r) ->
  inv (mkSys (with_kernel k (poll s)) (held s)).
Proof. intros [He Hb Ha Ho Hh Hx Hnx] Hk. split; cbn; try done; eauto. Qed.

Lemma undisturbed_registered p k : undisturbed (kernel p) k -> forall key r, registered (with_kernel k p) key r -> registered p key r.
Proof. intros [_ Hi] key r. unfold registered. cbn. by rewrite Hi. Qed.

Lemma opens_registered p fd k : opens fd (kernel p) k -> forall key r, registered (with_kernel k p) key r -> registered p key r.
Proof.
  destruct fd as [fd|]; cbn; [|apply undisturbed_registered]. intros (_ & _ & Hi & _) key r. unfold registered. cbn. by rewrite Hi.
Qed.

(** A guard that is given up. *)
Lemma inv_release s i : inv s -> inv (mkSys (poll s) (remove_nth i (held s))).
Proof.
  intros [He Hb Ha Ho Hh Hx Hnx]. split; cbn; try done.
  - intros key r Hr. destruct (Ha key r Hr) as (ev & Hev & Hfd & Hn). exists ev. split_and!; [done..|].
    intros Hf. destruct (Hn Hf) as [H1 H2]. split; [done|]. intros Hin. by apply elem_of_remove_nth in Hin.
  - intros b Hin. apply Hh. by eapply elem_of_remove_nth.
  - intros j1 j2 b ev H1 H2 Hev Hn. apply lookup_remove_nth in H1, H2. pose proof (Hx _ _ _ _ H1 H2 Hev Hn) as Hj.
    destruct (Nat.ltb_spec j1 i), (Nat.ltb_spec j2 i); lia.
Qed.

Lemma release_free s i b ev :
  inv s -> held s !! i = Some b -> boxes (poll s) !! b = Some ev -> ev_notifier ev = false -> b ∉ remove_nth i (held s).
Proof.
  intros Hinv Hi Hev Hn [j Hj]%list_elem_of_lookup. apply lookup_remove_nth in Hj.
  pose proof (inv_exclusive s Hinv _ _ _ _ Hi Hj Hev Hn) as Hij. destruct (Nat.ltb_spec j i); lia.
Qed.

(** A box that is written through its guard. *)
Lemma inv_set_box s b ev ev' :
  inv s -> boxes (poll s) !! b = Some ev -> ev_fd ev' = ev_fd ev -> ev_notifier ev' = ev_notifier ev ->
  ee_u64 (ev_event ev') = b -> (ev_notifier ev' = false -> oneshot (ee_events (ev_event ev')) = true) ->
  inv (mkSys (set_box b ev' (poll s)) (held s)).
Proof.
  intros [He Hb Ha Ho Hh Hx Hnx] Hev Hfd Hnot Hu Hone.
  assert (forall b0 ev0, <[b := ev']> (boxes (poll s)) !! b0 = Some ev0 ->
    exists ev1, boxes (poll s) !! b0 = Some ev1 /\ ev_fd ev1 = ev_fd ev0 /\ ev_notifier ev1 = ev_notifier ev0) as Hold.
  { intros b0 ev0. destruct (decide (b0 = b)) as [->|Hne].
    - rewrite lookup_insert_eq. intros [= <-]. by exists ev.
    - rewrite lookup_insert_ne by done. by exists ev0. }
  assert (forall b0 ev0, boxes (poll s) !! b0 = Some ev0 ->
    exists ev1, <[b := ev']> (boxes (poll s)) !! b0 = Some ev1 /\ ev_fd ev1 = ev_fd ev0 /\ ev_notifier ev1 = ev_notifier ev0) as Hnew.
  { intros b0 ev0 Hb0. destruct (decide (b0 = b)) as [->|Hne].
    - rewrite lookup_insert_eq. exists ev'. by simplify_eq.
    - rewrite lookup_insert_ne by done. by exists ev0. }
  split; cbn.
  - intros n b0 Hn. destruct (He n b0 Hn) as (ev0 & H0 & Hf). destruct (Hnew _ _ H0) as (ev1 & H1 & Hf1 & _).
    exists ev1. by rewrite Hf1.
  - intros b0 ev0. destruct (decide (b0 = b)) as [->|Hne].
    + rewrite lookup_insert_eq. intros [= <-]. destruct (Hb b ev Hev) as (H1 & H2 & H3 & H4). by rewrite Hfd.
    + rewrite lookup_insert_ne by done. apply Hb.
  - intros key r Hr. destruct (Ha key r Hr) as (ev0 & H0 & Hf & Hn). destruct (Hnew _ _ H0) as (ev1 & H1 & Hf1 & Hn1).
    exists ev1. by rewrite Hf1, Hn1.
  - intros key r key' r' ev0 Hr Hr' Hrr H0 Hn. destruct (Hold _ _ H0) as (ev1 & H1 & _ & Hn1). rewrite <- Hn1 in Hn. by eapply Ho.
  - intros b0 Hin. destruct (Hh b0 Hin) as [ev0 H0]. destruct (Hnew _ _ H0) as (ev1 & H1 & _). by exists ev1.
  - intros i j b0 ev0 Hi Hj H0 Hn. destruct (Hold _ _ H0) as (ev1 & H1 & _ & Hn1). rewrite <- Hn1 in Hn. by eapply Hx.
  - done.
Qed.

(** *** An event that is removed *)

Lemma registered_del p fd : forall key r, registered (with_kernel (epoll_ctl_del fd (kernel p)).2 p) key r -> registered p key r.
Proof.
  intros key r [Hr Ha]. split; [|done]. cbn in Hr. destruct (del_law fd (kernel p)) as [_ Hi]. rewrite Hi in Hr.
  destruct (files (kernel p) !! fd); [|done]. by apply lookup_delete_Some in Hr as [_ Hr].
Qed.

Lemma registered_close p fd : forall key r, registered (with_kernel (fd_close fd (kernel p)) p) key r -> registered p key r.
Proof.
  intros key r [Hr Ha]. split; [|done]. cbn in Hr. destruct (close_law fd (kernel p)) as [_ Hi]. rewrite Hi in Hr.
  destruct (files (kernel p) !! fd); [|done]. destruct (bool_decide _); [done|]. by apply map_lookup_filter_Some in Hr as [Hr _].
Qed.

Lemma take_event_shape n p b ev :
  events p !! n = Some (Some b) -> boxes p !! b = Some ev -> ev_fd ev = Z.of_nat n ->
  let k := if owns (ev_handler ev) then fd_close (Z.of_nat n) (kernel p) else kernel p in
  take_event owns n p = mkPoll (<[n := None]> (events p)) (delete b (boxes p)) (next_box p) (epoll_ctl_del (Z.of_nat n) k).2.
Proof. intros Hn Hb Hfd. unfold take_event. rewrite Hn. unfold drop_box. cbn [boxes events next_box kernel]. by rewrite Hb, Hfd. Qed.

Lemma take_event_registered n p b ev key r :
  events p !! n = Some (Some b) -> boxes p !! b = Some ev -> ev_fd ev = Z.of_nat n ->
  registered (take_event owns n p) key r -> registered p key r.
Proof.
  intros Hn Hb Hfd. rewrite (take_event_shape n p b ev) by done. cbv zeta. intros Hr.
  set (k := if owns (ev_handler ev) then _ else _) in *.
  assert (registered (with_kernel k p) key r) as Hr' by (by apply (registered_del (with_kernel k p) (Z.of_nat n))).
  revert Hr'. subst k. destruct (owns _); [apply registered_close|done].
Qed.

(** Its address is not left with the kernel. *)
Lemma take_event_gone n p b ev key r :
  events p !! n = Some (Some b) -> boxes p !! b = Some ev -> ev_fd ev = Z.of_nat n -> removable p b ->
  key.2 = Z.of_nat n -> registered (take_event owns n p) key r -> ee_u64 (reg_event r) <> b.
Proof.
  intros Hn Hb Hfd Hrem Hkey Hr Hu. pose proof (take_event_registered _ _ _ _ _ _ Hn Hb Hfd Hr) as Hold.
  destruct (Hrem key r Hold Hu) as [Hfile Hsole]. rewrite (take_event_shape n p b ev) in Hr by done.
  destruct Hr as [Hr _]. cbn in Hr. destruct key as [f fd]. cbn [fst snd] in *. subst fd.
  destruct (owns (ev_handler ev)) eqn:Eo.
  - destruct (close_law (Z.of_nat n) (kernel p)) as [Hf Hi]. rewrite Hfile in Hi.
    rewrite bool_decide_eq_false_2 in Hi.
    2: { intros (fd' & f' & Hl & Hne & ->). by apply (Hsole ev Hb Eo fd' Hne). }
    destruct (del_law (Z.of_nat n) (fd_close (Z.of_nat n) (kernel p))) as [_ Hd]. rewrite Hd, Hf, lookup_delete_eq, Hi in Hr.
    by apply map_lookup_filter_Some in Hr as [_ Hr].
  - destruct (del_law (Z.of_nat n) (kernel p)) as [_ Hd]. rewrite Hd, Hfile in Hr. by rewrite lookup_delete_eq in Hr.
Qed.

Lemma inv_take s n b :
  inv s -> events (poll s) !! n = Some (Some b) -> b ∉ held s ->
  (forall key r, registered (take_event owns n (poll s)) key r -> ee_u64 (reg_event r) <> b) ->
  inv (mkSys (take_event owns n (poll s)) (held s)).
Proof.
  intros [He Hb Ha Ho Hh Hx Hnx] Hn Hfree Hgone. destruct (He n b Hn) as (ev & Hev & Hfd).
  assert (forall key r, registered (take_event owns n (poll s)) key r -> registered (poll s) key r) as Hreg
    by (intros key r; by apply take_event_registered with (b := b) (ev := ev)).
  pose proof (take_event_shape n (poll s) b ev Hn Hev Hfd) as Hshape. cbv zeta in Hshape.
  split; cbn [poll held].
  - intros m c. rewrite Hshape. cbn [events boxes]. intros [(_ & [= ] & _)|[Hne Hm]]%list_lookup_insert_Some.
    destruct (He m c Hm) as (ev' & Hev' & Hfd'). exists ev'. split; [|done]. apply lookup_delete_Some. split; [|done].
    intros ->. simplify_eq. lia.
  - intros c ev'. rewrite Hshape. cbn [events boxes next_box]. intros [Hne Hc]%lookup_delete_Some.
    destruct (Hb c ev' Hc) as (H1 & H2 & H3 & m & Hm & Hm'). split_and!; [lia..|done|done|]. exists m. split; [done|].
    rewrite list_lookup_insert_ne; [done|]. intros ->. simplify_eq.
  - intros key r Hr. destruct (Ha key r (Hreg _ _ Hr)) as (ev' & Hev' & H2). exists ev'. split; [|done].
    rewrite Hshape. cbn [boxes]. apply lookup_delete_Some. split; [|done]. apply not_eq_sym. by eapply Hgone.
  - intros key r key' r' ev' Hr Hr' Hu. rewrite Hshape. cbn [boxes]. intros [_ Hl]%lookup_delete_Some. by eapply Ho; eauto.
  - intros c Hc. destruct (Hh c Hc) as [ev' Hev']. exists ev'. rewrite Hshape. cbn [boxes]. apply lookup_delete_Some.
    split; [|done]. by intros ->.
  - intros i j c ev' Hi Hj. rewrite Hshape. cbn [boxes]. intros [_ Hl]%lookup_delete_Some. by eapply Hx.
  - by rewrite Hshape.
Qed.

Lemma inv_vacate s n :
  inv s -> vacant s (Z.of_nat n) -> inv (mkSys (take_event owns n (poll s)) (held s)).
Proof.
  intros Hinv Hv. destruct (events (poll s) !! n) as [[b|]|] eqn:En.
  - destruct (Hv b) as [Hfree Hrem]; [by apply entry_Some|].
    destruct (inv_events s Hinv n b En) as (ev & Hev & Hfd). apply (inv_take s n b); [done..|].
    intros key r Hr Hu. pose proof (take_event_registered _ _ _ _ _ _ En Hev Hfd Hr) as Hold.
    destruct (inv_armed s Hinv key r Hold) as (ev' & Hev' & Hkey & _). rewrite Hu, Hev in Hev'. injection Hev' as <-.
    eapply take_event_gone; [exact En|exact Hev|done|done|by rewrite <- Hkey|exact Hr|done].
  - unfold take_event. rewrite En. destruct s. by destruct poll0.
  - unfold take_event. rewrite En. destruct s. by destruct poll0.
Qed.

(** *** An event that is registered *)

Definition with_events (es : list (option ptr)) p : EventPoll H K := mkPoll es (boxes p) (next_box p) (kernel p).

Lemma lookup_grown {A} (l : list (option A)) m n a : (l ++ replicate m None) !! n = Some (Some a) <-> l !! n = Some (Some a).
Proof.
  split.
  - intros [Hl|[_ Hl]]%lookup_app_Some; [done|]. by apply lookup_replicate in Hl as [[= ] _].
  - intros Hl. by apply lookup_app_l_Some.
Qed.

Lemma inv_grow s m : inv s -> inv (mkSys (with_events (events (poll s) ++ replicate m None) (poll s)) (held s)).
Proof.
  intros [He Hb Ha Ho Hh Hx Hnx]. split; cbn; try done.
  - intros n b Hn%lookup_grown. by apply He.
  - intros b ev Hev. destruct (Hb b ev Hev) as (H1 & H2 & H3 & n & Hn & Hn'). split_and!; [lia..|done|done|].
    exists n. split; [done|]. by apply lookup_grown.
Qed.

(** A new box, with its entry. *)
Lemma inv_insert s n ev :
  inv s -> events (poll s) !! n = Some None -> ev_fd ev = Z.of_nat n -> ee_u64 (ev_event ev) = next_box (poll s) ->
  (ev_notifier ev = false -> oneshot (ee_events (ev_event ev)) = true) ->
  let b := next_box (poll s) in
  inv (mkSys (mkPoll (<[n := Some b]> (events (poll s))) (<[b := ev]> (boxes (poll s))) (S b) (kernel (poll s))) (held s)).
Proof.
  intros [He Hb Ha Ho Hh Hx Hnx] Hn Hfd Hu Hone b.
  assert (boxes (poll s) !! b = None) as Hnone.
  { destruct (boxes (poll s) !! b) as [ev'|] eqn:E; [|done]. apply Hb in E as [? _]. unfold b in *. lia. }
  assert (forall c ev', boxes (poll s) !! c = Some ev' -> <[b := ev]> (boxes (poll s)) !! c = Some ev') as Hkeep
    by (intros c ev' Hc; rewrite lookup_insert_ne; [done|]; intros ->; congruence).
  assert (forall c ev', is_Some (boxes (poll s) !! c) -> <[b := ev]> (boxes (poll s)) !! c = Some ev' -> boxes (poll s) !! c = Some ev')
    as Hback by (intros c ev' [ev0 H0]; rewrite (Hkeep _ _ H0); congruence).
  split; cbn.
  - intros m c [(<- & [= <-] & _)|[Hne Hm]]%list_lookup_insert_Some; [exists ev; by rewrite lookup_insert_eq|].
    destruct (He m c Hm) as (ev' & Hev' & Hfd'). eauto.
  - intros c ev' Hc. destruct (decide (c = b)) as [->|Hne].
    + rewrite lookup_insert_eq in Hc. injection Hc as <-. split_and!; [lia..|done|done|]. exists n. split; [done|].
      apply list_lookup_insert_eq. by apply lookup_lt_Some in Hn.
    + rewrite lookup_insert_ne in Hc by done. destruct (Hb c ev' Hc) as (H1 & H2 & H3 & m & Hm & Hm').
      split_and!; [lia..|done|done|]. exists m. split; [done|]. rewrite list_lookup_insert_ne; [done|]. intros ->. congruence.
  - intros key r Hr. destruct (Ha key r Hr) as (ev' & Hev' & H2). eauto.
  - intros key r key' r' ev' Hr Hr' Hrr Hl Hnot. destruct (Ha key r Hr) as (ev0 & H0 & _).
    eapply (Ho key r key' r' ev'); [done..| |done]. by apply Hback; [exists ev0|].
  - intros c Hc. destruct (Hh c Hc) as [ev' Hev']. eauto.
  - intros i j c ev' Hi Hj Hl Hnot. eapply Hx; eauto. apply Hback; [|done]. apply Hh. by eapply list_elem_of_lookup_2.
  - lia.
Qed.

(** A box that is armed; one that is not a notifier must not be in use. *)
Lemma inv_arm s b ev f k :
  inv s -> boxes (poll s) !! b = Some ev ->
  (ev_notifier ev = false -> b ∉ held s /\ forall key r, registered (poll s) key r -> ee_u64 (reg_event r) <> b) ->
  interest k = <[(f, ev_fd ev) := mkReg (ev_event ev) true]> (interest (kernel (poll s))) ->
  inv (mkSys (with_kernel k (poll s)) (held s)).
Proof.
  intros Hinv Hev Hfree Hi. destruct (inv_boxes s Hinv b ev Hev) as (_ & Hu & Hone & _).
  assert (forall key r, registered (with_kernel k (poll s)) key r ->
    key = (f, ev_fd ev) /\ r = mkReg (ev_event ev) true \/ registered (poll s) key r) as Hreg.
  { intros key r [Hr Hr']. cbn in Hr. rewrite Hi in Hr. apply lookup_insert_Some in Hr as [[<- <-]|[_ Hr]]; [by left|by right]. }
  destruct Hinv as [He Hb Ha Ho Hh Hx Hnx]. split; cbn; try done.
  - intros key r [[-> ->]|Hr]%Hreg; [|by apply Ha]. cbn. rewrite Hu. exists ev. split_and!; [done..|].
    intros Hn. destruct (Hfree Hn). auto.
  - intros key r key' r' ev' Hr Hr' Hrr Hl Hnot. apply Hreg in Hr as [[-> ->]|Hr], Hr' as [[-> ->]|Hr']; [done|..|by eapply Ho].
    + cbn in Hrr, Hl. rewrite Hu in Hrr, Hl. simplify_eq. destruct (Hfree Hnot) as [_ Hun]. by apply Hun in Hr'.
    + cbn in Hrr. rewrite Hu in Hrr. rewrite Hrr in Hl. simplify_eq. destruct (Hfree Hnot) as [_ Hun]. by apply Hun in Hr.
Qed.

(** The registration of a box that nobody uses yet. *)
Lemma inv_add s b ev :
  inv s -> boxes (poll s) !! b = Some ev -> b ∉ held s ->
  (forall key r, registered (poll s) key r -> ee_u64 (reg_event r) <> b) ->
  inv (mkSys (with_kernel (epoll_ctl_add (ev_fd ev) (ev_event ev) (kernel (poll s))).2 (poll s)) (held s)).
Proof.
  intros Hinv Hev Hfree Hnew. pose proof (add_law (ev_fd ev) (ev_event ev) (kernel (poll s))) as Hlaw.
  destruct (epoll_ctl_add _ _ _) as [[|] k]; cbn [snd]; [|by apply inv_kernel, undisturbed_registered].
  destruct Hlaw as (_ & f & _ & _ & Hi). by eapply inv_arm.
Qed.

Lemma fresh_box s : inv s -> boxes (poll s) !! next_box (poll s) = None.
Proof.
  intros Hinv. destruct (boxes (poll s) !! _) as [ev|] eqn:E; [|done]. apply (inv_boxes s Hinv) in E as [? _]. lia.
Qed.

(** Removing an event does not touch a box that is not in the table. *)
Lemma take_event_fresh n p b ev nb :
  boxes p !! b = None -> (forall c, events p !! n = Some (Some c) -> is_Some (boxes p !! c)) ->
  let t := take_event owns n p in
  take_event owns n (mkPoll (events p) (<[b := ev]> (boxes p)) nb (kernel p))
  = mkPoll (events t) (<[b := ev]> (boxes t)) nb (kernel t).
Proof.
  intros Hb Hc. unfold take_event. cbn [events]. destruct (events p !! n) as [[c|]|] eqn:En; [|done|done].
  destruct (Hc c eq_refl) as [ev' Hev']. assert (c <> b) as Hne by congruence.
  unfold drop_box. cbn [boxes events next_box kernel]. rewrite lookup_insert_ne by done. rewrite Hev'. cbn.
  by rewrite delete_insert_ne by done.
Qed.

Lemma take_event_length n p : length (events (take_event owns n p)) = length (events p).
Proof.
  unfold take_event. destruct (events p !! n) as [[c|]|]; [|done|done]. unfold drop_box. cbn [boxes].
  destruct (boxes p !! c); cbn; by rewrite length_insert.
Qed.

Lemma take_event_entry n p : (n < length (events p))%nat -> events (take_event owns n p) !! n = Some None.
Proof.
  intros Hn. unfold take_event. destruct (events p !! n) as [[c|]|] eqn:En; [|by rewrite En|].
  - unfold drop_box. cbn [boxes]. destruct (boxes p !! c); cbn; by rewrite list_lookup_insert_eq.
  - apply lookup_ge_None in En. lia.
Qed.

Lemma take_event_next n p : next_box (take_event owns n p) = next_box p.
Proof.
  unfold take_event. destruct (events p !! n) as [[c|]|]; [|done|done]. unfold drop_box. cbn [boxes]. by destruct (boxes p !! c).
Qed.

Lemma register_inv s flags fd h notifier needs_read :
  inv s -> 0 <= fd -> vacant s fd -> (notifier = false -> oneshot flags = true) ->
  inv (mkSys (register_event owns flags fd h notifier needs_read (poll s)).2 (held s)).
Proof.
  intros Hinv Hfd Hv Hone. set (n := Z.to_nat fd). assert (fd = Z.of_nat n) as En by (unfold n; lia). clearbody n. subst fd.
  set (b := next_box (poll s)). set (ev := mkEvent (mkEpollEvent flags b) (Z.of_nat n) h notifier needs_read).
  set (g := with_events (events (poll s) ++ replicate (S n - length (events (poll s))) None) (poll s)).
  assert (inv (mkSys g (held s))) as Hg by (by apply inv_grow).
  assert (vacant (mkSys g (held s)) (Z.of_nat n)) as Hvg.
  { intros c Hc%entry_Some. cbn in Hc. rewrite lookup_grown in Hc. apply (Hv c). by apply entry_Some. }
  pose proof (inv_vacate _ _ Hg Hvg) as Ht. set (t := take_event owns n (poll (mkSys g (held s)))) in *. cbn [poll held] in *.
  assert (n < length (events g))%nat as Hlen by (cbn; rewrite length_app, length_replicate; lia).
  assert (events t !! n = Some None) as Hent by (by apply take_event_entry).
  assert (next_box t = b) as Hnb by apply take_event_next.
  pose proof (inv_insert (mkSys t (held s)) n ev Ht Hent eq_refl) as Hins. cbn [poll held] in Hins. rewrite Hnb in Hins.
  specialize (Hins eq_refl Hone). cbv zeta in Hins.
  unfold register_event. rewrite Nat2Z.id. fold b. fold ev. unfold insert_at.
  cbn [events boxes next_box kernel].
  change (take_event owns n (mkPoll (events (poll s) ++ replicate (S n - length (events (poll s))) None) (<[b:=ev]> (boxes (poll s))) (S b) (kernel (poll s))))
    with (take_event owns n (mkPoll (events g) (<[b:=ev]> (boxes g)) (S b) (kernel g))).
  rewrite take_event_fresh.
  2: { exact (fresh_box _ Hinv). }
  2: { intros c Hc. destruct (inv_events _ Hg n c Hc) as (ev' & Hev' & _). by exists ev'. }
  fold t. cbn [events boxes next_box kernel].
  pose proof (inv_add _ b ev Hins) as Hadd. cbn [poll held kernel boxes] in Hadd.
  assert (boxes t !! b = None) as Hfb by (rewrite <- Hnb; exact (fresh_box _ Ht)).
  destruct (epoll_ctl_add _ _ _) as [ok k]. apply Hadd; [by rewrite lookup_insert_eq|..].
  - intros Hin. destruct (inv_held s Hinv b Hin) as [ev' Hev']. pose proof (fresh_box _ Hinv). unfold b in *. congruence.
  - intros key r Hr Hu. destruct (inv_armed _ Ht key r Hr) as (ev' & Hev' & _). cbn in Hev'. congruence.
Qed.

(** A descriptor from the kernel. *)
Lemma register_new_inv s fd k flags h notifier needs_read :
  inv s -> closed_idle s -> opens (Some fd) (kernel (poll s)) k -> (notifier = false -> oneshot flags = true) ->
  inv (mkSys (register_event owns flags fd h notifier needs_read (with_kernel k (poll s))).2 (held s)).
Proof.
  intros Hinv Hidle Hopen Hone. pose proof (opens_registered (poll s) _ _ Hopen) as Hreg.
  assert (inv (mkSys (with_kernel k (poll s)) (held s))) as Hk by (by apply inv_kernel).
  destruct Hopen as (Hfd & Hclosed & _). apply (register_inv (mkSys (with_kernel k (poll s)) (held s))); [done|done| |done].
  intros b Hb. destruct (Hidle fd b Hfd Hclosed Hb) as [Hfree Hun]. split; [exact Hfree|].
  intros key r Hr Hu. by apply Hreg, Hun in Hr.
Qed.

(** A triggered event. *)
Lemma inv_wake s key r k :
  inv s -> registered (poll s) key r ->
  interest k = (if oneshot (ee_events (reg_event r)) then <[key := mkReg (reg_event r) false]> (interest (kernel (poll s)))
                else interest (kernel (poll s))) ->
  inv (mkSys (with_kernel k (poll s)) (held s ++ [ee_u64 (reg_event r)])).
Proof.
  intros Hinv Hr Hi. destruct (inv_armed s Hinv key r Hr) as (ev & Hev & Hfd & Hnot).
  assert (forall key' r', registered (with_kernel k (poll s)) key' r' ->
    registered (poll s) key' r' /\ (oneshot (ee_events (reg_event r)) = true -> key' <> key)) as Hreg.
  { intros key' r' [Hk Ha]. cbn in Hk. rewrite Hi in Hk. destruct (oneshot _); [|by split].
    apply lookup_insert_Some in Hk as [[<- <-]|[Hne Hk]]; [done|]. split; [by split|]. auto. }
  destruct Hinv as [He Hb Ha Ho Hh Hx Hnx]. split; cbn; try done.
  - intros key' r' Hr'. destruct (Hreg _ _ Hr') as [Hold Hne]. destruct (Ha key' r' Hold) as (ev' & Hev' & Hfd' & Hnot').
    exists ev'. split_and!; [done..|]. intros Hn. destruct (Hnot' Hn) as [H1 H2]. split; [done|].
    intros [Hin|Hin%list_elem_of_singleton]%elem_of_app; [done|]. rewrite Hin in Hev'. simplify_eq.
    destruct (Hnot Hn) as [Hone _]. apply (Hne Hone). symmetry. by eapply Ho.
  - intros key1 r1 key2 r2 ev' [H1 _]%Hreg [H2 _]%Hreg. by apply Ho.
  - intros b [Hin|Hin%list_elem_of_singleton]%elem_of_app; [by apply Hh|]. subst b. by exists ev.
  - assert (forall i b ev', (held s ++ [ee_u64 (reg_event r)]) !! i = Some b -> boxes (poll s) !! b = Some ev' ->
      ev_notifier ev' = false -> b = ee_u64 (reg_event r) -> i = length (held s)) as Hlast.
    { intros i b ev' Hl Hev' Hn ->. simplify_eq. apply lookup_app_Some in Hl as [Hl|[Hge Hl]].
      - apply list_elem_of_lookup_2 in Hl. by destruct (Hnot Hn).
      - apply list_lookup_singleton_Some in Hl as [? _]. lia. }
    intros i j b ev' Hl1 Hl2 Hev' Hn. destruct (decide (b = ee_u64 (reg_event r))) as [E|Hne].
    + by rewrite (Hlast i b ev'), (Hlast j b ev').
    + apply lookup_app_Some in Hl1 as [Hl1|[_ Hl1]]; [|apply list_lookup_singleton_Some in Hl1 as [_ ?]; congruence].
      apply lookup_app_Some in Hl2 as [Hl2|[_ Hl2]]; [|apply list_lookup_singleton_Some in Hl2 as [_ ?]; congruence].
      by eapply Hx.
Qed.

Lemma wait_inv s : inv s -> exists r p, queue_wait (poll s) = Runs (r, p)
  /\ inv (mkSys p (match r with WaitOk b | WaitEoF b => held s ++ [b] | WaitError => held s end)).
Proof.
  intros Hinv. unfold queue_wait. pose proof (wait_law (kernel (poll s))) as Hw.
  destruct (epoll_wait (kernel (poll s))) as [[[|e [|]]|] k]; destruct Hw as [Hf Hw]; [done| |done|].
  2: { eexists _, _. split; [done|]. by apply inv_kernel, undisturbed_registered. }
  destruct Hw as (key & r & Hr & Harm & Hu & Hi).
  destruct (inv_armed s Hinv key r (conj Hr Harm)) as (ev & Hev & _). rewrite <- Hu in Hev.
  destruct (inv_boxes s Hinv _ _ Hev) as (Hpos & _). rewrite bool_decide_eq_false_2 by lia.
  unfold deref. rewrite Hev. cbn [run_bind].
  assert (inv (mkSys (with_kernel k (poll s)) (held s ++ [ee_u64 e]))) as Hnew by (rewrite Hu; by eapply inv_wake).
  eexists _, _. split; [done|]. by destruct (Z.land _ _ =? 0).
Qed.

(** A guard that is dropped arms its event again. *)
Lemma drop_inv s i b : inv s -> held s !! i = Some b ->
  exists p, guard_drop b (poll s) = Runs p /\ inv (mkSys p (remove_nth i (held s))).
Proof.
  intros Hinv Hi. assert (b ∈ held s) as Hin by (by eapply list_elem_of_lookup_2).
  destruct (inv_held s Hinv b Hin) as [ev Hev]. destruct (inv_boxes s Hinv b ev Hev) as (_ & Hu & Hone & _).
  unfold guard_drop, deref. rewrite Hev. cbn [run_bind]. eexists. split; [done|].
  set (k0 := if ev_needs_read ev then _ else _). assert (undisturbed (kernel (poll s)) k0) as [Hf0 Hi0]
    by (unfold k0; destruct (ev_needs_read ev); [apply drain_law|done]). clearbody k0.
  pose proof (mod_law (ev_fd ev) (ev_event ev) k0) as Hlaw. destruct (epoll_ctl_mod _ _ k0) as [ok k]. cbn [snd].
  pose proof (inv_release s i Hinv) as Hrel.
  destruct ok; [|apply (inv_kernel (mkSys (poll s) (remove_nth i (held s)))); [done|]; apply undisturbed_registered;
    destruct Hlaw as [Hl1 Hl2]; split; cbn; congruence].
  destruct Hlaw as (_ & f & _ & _ & Hl). rewrite Hi0 in Hl.
  apply (inv_arm (mkSys (poll s) (remove_nth i (held s))) b ev f); [done|done| |done].
  intros Hn. split; [by eapply release_free|]. intros key r Hr Hur.
  destruct (inv_armed s Hinv key r Hr) as (ev' & Hev' & _ & Hno). rewrite Hur in Hev', Hno. simplify_eq. by destruct (Hno Hn).
Qed.

(** A guard that is cancelled removes its event. *)
Lemma cancel_inv s i b ev : inv s -> held s !! i = Some b -> boxes (poll s) !! b = Some ev -> ev_notifier ev = false ->
  exists p, guard_cancel owns b (poll s) = Runs p /\ inv (mkSys p (remove_nth i (held s))).
Proof.
  intros Hinv Hi Hev Hn. assert (b ∈ held s) as Hin by (by eapply list_elem_of_lookup_2).
  destruct (inv_boxes s Hinv b ev Hev) as (_ & Hu & Hone & n & Hfd & Hent).
  unfold guard_cancel, deref. rewrite Hev. cbn [run_bind]. unfold clear_event_by_fd. rewrite Hfd.
  apply lookup_lt_Some in Hent as Hlt. rewrite (proj2 (Z.ltb_ge _ _)), (proj2 (Z.leb_gt _ _)), Nat2Z.id by lia.
  eexists. split; [done|]. apply (inv_take (mkSys (poll s) (remove_nth i (held s))) n b).
  - by apply inv_release.
  - done.
  - by eapply release_free.
  - intros key r Hr Hur. apply (take_event_registered n (poll s) b ev) in Hr; [|done..].
    destruct (inv_armed s Hinv key r Hr) as (ev' & Hev' & _ & Hno). rewrite Hur in Hev', Hno. simplify_eq. by destruct (Hno Hn).
Qed.

Lemma periodic_inv s h secs nanos : inv s -> closed_idle s ->
  inv (mkSys (new_periodic_event owns h secs nanos (poll s)).2 (held s)).
Proof.
  intros Hinv Hidle. unfold new_periodic_event.
  assert (exists tfd k0 k, undisturbed (kernel (poll s)) k0 /\ opens tfd k0 k
    /\ (match timerfd_create true (kernel (poll s)) with (Some tfd, k) => (Some tfd, k) | (None, k) => timerfd_create false k end)
       = (tfd, k)) as (tfd & k0 & k & [Hf0 Hi0] & Hopen & ->).
  { pose proof (timerfd_law true (kernel (poll s))) as Hl. destruct (timerfd_create true _) as [[tfd|] k1]; [by eexists _, _, _|].
    pose proof (timerfd_law false k1) as Hl2. destruct (timerfd_create false k1) as [tfd k2]. by exists tfd, k1, k2. }
  assert (opens tfd (kernel (poll s)) k) as Ho.
  { unfold opens, undisturbed in *. by rewrite Hf0, Hi0 in Hopen. }
  destruct tfd as [tfd|]; cbn [snd]; [|by apply inv_kernel, undisturbed_registered].
  pose proof (settime_law tfd secs nanos k) as [Hf1 Hi1]. destruct (timerfd_settime tfd secs nanos k) as [[|] k2]; cbn [snd] in *.
  - apply register_new_inv; [done|done| |done]. cbn in Ho |- *. by rewrite Hf1, Hi1.
  - apply inv_kernel; [done|]. intros key r Hr. apply (registered_close (with_kernel k2 (poll s)) tfd) in Hr.
    apply (opens_registered (poll s) (Some tfd) k Ho). unfold registered in *. cbn in *. by rewrite <- Hi1.
Qed.

Lemma notifier_runs s r : inv s -> names_notifier (poll s) r -> notifier_of r (poll s) = Runs tt.
Proof.
  intros Hinv (Hr & b & ev & Hb & Hev & Hn). replace (trigger r) with (Z.of_nat (Z.to_nat (trigger r))) in Hb by lia.
  apply entry_Some in Hb. apply lookup_lt_Some in Hb as Hlt. unfold notifier_of.
  rewrite (proj2 (Z.ltb_ge _ _)), (proj2 (Z.leb_gt _ _)) by lia. cbn [orb]. rewrite Hb. unfold deref. rewrite Hev.
  cbn [run_bind]. by rewrite Hn.
Qed.

Lemma oneshot_once : oneshot READ_ONCE = true /\ oneshot WRITE_ONCE = true.
Proof. done. Qed.

(** Every admissible step is made, and keeps the invariant. *)
Lemma exec_inv l s : inv s -> admissible l s -> exists s', exec owns l s = Runs s' /\ inv s'.
Proof.
  intros Hinv Hl. destruct l as [fd h|fd h|h secs nanos|h|sig h| |i|i|i f|i enabled|fd|r|r|k]; cbn [admissible exec] in *.
  - destruct Hl. eexists. split; [done|]. by apply register_inv.
  - destruct Hl. eexists. split; [done|]. by apply register_inv.
  - eexists. split; [done|]. by apply periodic_inv.
  - eexists. split; [done|]. unfold new_notifier. pose proof (eventfd_law (kernel (poll s))) as Ho.
    destruct (eventfd _) as [[fd|] k]; cbn [snd]; [by apply register_new_inv|by apply inv_kernel, undisturbed_registered].
  - eexists. split; [done|]. unfold new_signal_event. pose proof (signalfd_law sig (kernel (poll s))) as Ho.
    destruct (signalfd _ _) as [[fd|] k]; cbn [snd]; [by apply register_new_inv|by apply inv_kernel, undisturbed_registered].
  - destruct (wait_inv s Hinv) as (r & p & -> & Hp). by eexists.
  - apply lookup_lt_is_Some_2 in Hl as [b Hb]. rewrite Hb. destruct (drop_inv s i b Hinv Hb) as (p & -> & Hp). by eexists.
  - destruct Hl as (b & ev & Hb & Hev & Hn). rewrite Hb. destruct (cancel_inv s i b ev Hinv Hb Hev Hn) as (p & -> & Hp). by eexists.
  - apply lookup_lt_is_Some_2 in Hl as [b Hb]. rewrite Hb. destruct (inv_held s Hinv b) as [ev Hev]; [by eapply list_elem_of_lookup_2|].
    destruct (inv_boxes s Hinv b ev Hev) as (_ & Hu & Hone & _). unfold guard_get_mut, deref. rewrite Hev. cbn [run_bind].
    eexists. split; [done|]. by eapply inv_set_box.
  - apply lookup_lt_is_Some_2 in Hl as [b Hb]. rewrite Hb. destruct (inv_held s Hinv b) as [ev Hev]; [by eapply list_elem_of_lookup_2|].
    destruct (inv_boxes s Hinv b ev Hev) as (_ & Hu & _). unfold guard_notify_writable, deref. rewrite Hev. cbn [run_bind].
    eexists. split; [done|]. eapply inv_set_box; [done|done|done|done|done|]. intros _. by destruct enabled.
  - destruct Hl as [Hfd Hv]. unfold clear_event_by_fd. rewrite (proj2 (Z.ltb_ge _ _)), (proj2 (Z.leb_gt _ _)) by lia.
    eexists. split; [done|]. apply inv_vacate; [done|]. by rewrite Z2Nat.id by lia.
  - unfold trigger_notification. rewrite notifier_runs by done. eexists. split; [done|].
    apply inv_kernel, undisturbed_registered; [done|]. apply write_law.
  - unfold stop_notification. rewrite notifier_runs by done. eexists. split; [done|].
    apply inv_kernel, undisturbed_registered; [done|]. apply read_law.
  - eexists. split; [done|]. apply inv_kernel; [done|]. intros key r [Hr Ha]. split; [|done]. by eapply lookup_weaken.
Qed.

Inductive reachable (k : K) : Sys H K -> Prop :=
| reach_new : reachable k (mkSys (event_poll_new k) [])
| reach_step s l s' : reachable k s -> admissible l s -> exec owns l s = Runs s' -> reachable k s'.

Lemma queue_inv k s : interest k = ∅ -> reachable k s -> inv s.
Proof.
  intros Hk. induction 1 as [|s l s' Hr IH Ha He].
  - assert (forall key r, ~ registered (event_poll_new k : EventPoll H K) key r) as Hno
      by (intros key r [Hl _]; cbn in Hl; by rewrite Hk in Hl).
    split; cbn [poll held]; [by intros n b|by intros b ev| | |by intros b Hb%elem_of_nil|by intros i j b ev|cbn; lia].
    + by intros key r Hr%Hno.
    + by intros key r key' r' ev Hr%Hno.
  - destruct (exec_inv l s IH Ha) as (s1 & H1 & H2). rewrite He in H1. by injection H1 as <-.
Qed.

(** C12. The event queue never uses a freed box and never panics, whatever order threads
    register, wait, drop, cancel and change their guards in, and what descriptors are
    opened, duplicated or closed meanwhile; a box that is not that of a notifier has at most
    one guard, so that its handler runs in one thread at a time. Required is only that an
    event is removed or replaced when nobody holds it and the kernel can still find its
    registration; the guard of a one-shot event may always cancel it. *)
Theorem queue_safe k s :
  interest k = ∅ -> reachable k s ->
  (forall l, admissible l s -> exists s', exec owns l s = Runs s')
  /\ (forall b, b ∈ held s -> exists ev, deref b (poll s) = Runs ev)
  /\ (forall i j b ev, held s !! i = Some b -> held s !! j = Some b -> deref b (poll s) = Runs ev ->
      ev_notifier ev = false -> i = j).
Proof.
  intros Hk Hr. pose proof (queue_inv k s Hk Hr) as Hinv. split_and!.
  - intros l Hl. destruct (exec_inv l s Hinv Hl) as (s' & He & _). by exists s'.
  - intros b Hb. destruct (inv_held s Hinv b Hb) as [ev Hev]. exists ev. unfold deref. by rewrite Hev.
  - intros i j b ev Hi Hj. unfold deref. destruct (boxes (poll s) !! b) as [ev'|] eqn:E; [|done]. intros [= ->] Hn.
    by eapply inv_exclusive.
Qed.
End Safety.

(** ** The event loop ([DeviceHandle::event_loop]) *)

Inductive LoopAction := LoopContinue | LoopYield | LoopExit.

(** What a round of the loop ends with: another round, a release of the device lock, or
    the end of the thread. *)
Definition RoundEnd : Type := LoopAction.

Section Loop.
Context {H K : Type} `{Kn : Kernel K} (owns : H -> bool).
(** A handler may work on the queue. *)
Context (handle : H -> EventPoll H K -> LoopAction * EventPoll H K).

Definition loop_round (uapi_fd : Z) (exit_notice : EventRef) (p : EventPoll H K) : run (RoundEnd * EventPoll H K) :=
  let^ r := queue_wait p in
  let p := r.2 in
  match r.1 with
  | WaitOk guard =>
      let^ handler := guard_deref guard p in
      let '(action, p) := handle handler p in
      match action with
      | LoopContinue => let^ p := guard_drop guard p in Runs (LoopContinue, p)
      | LoopYield => let^ p := guard_drop guard p in Runs (LoopYield, p)
      | LoopExit =>
          let^ p := trigger_notification exit_notice p in
          let^ p := guard_drop guard p in Runs (LoopExit, p)
      end
  | WaitEoF guard =>
      let^ fd := guard_fd guard p in
      if (0 <=? uapi_fd) && (uapi_fd =? fd) then
        let^ p := trigger_notification exit_notice p in
        let^ p := guard_drop guard p in Runs (LoopExit, p)
      else let^ p := guard_cancel owns guard p in Runs (LoopContinue, p)
  | WaitError => Runs (LoopContinue, p)
  end.
End Loop.

Section LoopSafe.
Context {H K : Type} `{KL : KernelLaws K} (owns : H -> bool).
Context (handle : H -> EventPoll H K -> LoopAction * EventPoll H K) (exit_notice : EventRef).

Implicit Types (p : EventPoll H K) (held : list ptr).

(** Handlers keep the queue in order, also while other threads hold guards. *)
Hypothesis handlers_behave : forall h p held, inv (mkSys p held) -> inv (mkSys (handle h p).2 held).
(** The notifier of the exit is registered, and stays. *)
Hypothesis handlers_keep_exit : forall h p, names_notifier p exit_notice -> names_notifier (handle h p).2 exit_notice.
(** The end of file is not reported for a notifier. *)
Hypothesis notifiers_stay_open : forall (p : EventPoll H K) b ev p', queue_wait p = Runs (WaitEoF b, p') -> boxes p !! b = Some ev -> ev_notifier ev = false.

Lemma trigger_inv p held r : inv (mkSys p held) -> names_notifier p r ->
  exists p', trigger_notification r p = Runs p' /\ inv (mkSys p' held).
Proof.
  intros Hinv Hr. destruct (exec_inv owns (Trigger r) (mkSys p held) Hinv Hr) as (s' & He & Hs). cbn [exec poll] in He.
  destruct (trigger_notification r p) as [p'| |]; [|done|done]. injection He as <-. by exists p'.
Qed.

Lemma drop_last_inv p held b : inv (mkSys p (held ++ [b])) -> exists p', guard_drop b p = Runs p' /\ inv (mkSys p' held).
Proof.
  intros Hinv. destruct (drop_inv (mkSys p (held ++ [b])) (length held) b Hinv) as (p' & Hd & Hp).
  - by apply list_lookup_middle.
  - exists p'. split; [done|]. cbn [Epoll.held] in Hp. by rewrite remove_last in Hp.
Qed.

Lemma exit_inv p held b : inv (mkSys p (held ++ [b])) -> names_notifier p exit_notice ->
  exists e p', (let^ p := trigger_notification exit_notice p in let^ p := guard_drop b p in Runs (LoopExit, p)) = Runs (e, p')
    /\ inv (mkSys p' held).
Proof.
  intros Hinv Hr. destruct (trigger_inv p _ exit_notice Hinv Hr) as (p2 & -> & H2). cbn [run_bind].
  destruct (drop_last_inv p2 held b H2) as (p3 & -> & H3). cbn [run_bind]. by eauto.
Qed.

Lemma wait_table p r p' : queue_wait (p : EventPoll H K) = Runs (r, p') -> events p' = events p /\ boxes p' = boxes p.
Proof.
  unfold queue_wait. destruct (epoll_wait (kernel p)) as [[[|e [|]]|] k]; [by intros [= _ <-]| |by intros [= _ <-]..].
  destruct (bool_decide _); [done|]. unfold deref. destruct (boxes p !! ee_u64 e); [|done]. by intros [= _ <-].
Qed.

(** A round of the loop of one thread, with what the other threads hold: it returns, and
    gives up the guard it got. *)
Theorem loop_round_safe uapi_fd p held :
  inv (mkSys p held) -> names_notifier p exit_notice ->
  exists e p', loop_round owns handle uapi_fd exit_notice p = Runs (e, p') /\ inv (mkSys p' held).
Proof.
  intros Hinv Hexit. destruct (wait_inv (mkSys p held) Hinv) as (r & p1 & Hw & H1). cbn [poll Epoll.held] in *.
  destruct (wait_table p r p1 Hw) as [Het Hbt]. unfold loop_round. rewrite Hw. cbn [run_bind fst snd].
  assert (names_notifier p1 exit_notice) as Hexit1 by (unfold names_notifier, entry in *; by rewrite Het, Hbt).
  destruct r as [b|b|]; [| |by eauto].
  - destruct (inv_held _ H1 b) as [ev Hev]; [set_solver|]. cbn [poll] in Hev. unfold guard_deref, deref. rewrite Hev. cbn [run_bind].
    pose proof (handlers_behave (ev_handler ev) p1 _ H1) as H2. pose proof (handlers_keep_exit (ev_handler ev) p1 Hexit1) as Hexit2.
    destruct (handle (ev_handler ev) p1) as [action p2]. cbn [snd] in *. destruct action.
    1,2: destruct (drop_last_inv p2 held b H2) as (p3 & -> & H3); cbn [run_bind]; by eauto.
    by apply exit_inv.
  - destruct (inv_held _ H1 b) as [ev Hev]; [set_solver|]. cbn [poll] in Hev. unfold guard_fd, deref. rewrite Hev. cbn [run_bind].
    destruct (_ && _); [by apply exit_inv|].
    destruct (cancel_inv owns (mkSys p1 (held ++ [b])) (length held) b ev H1) as (p3 & Hc & H3).
    + by apply list_lookup_middle.
    + done.
    + eapply notifiers_stay_open; [exact Hw|]. by rewrite <- Hbt.
    + cbn [poll] in Hc. rewrite Hc. cbn [run_bind]. cbn [Epoll.held] in H3. rewrite remove_last in H3. by eauto.
Qed.
End LoopSafe.

(** ** The listening sockets ([Device::open_listen_socket])

    At the level of descriptors: each socket has a descriptor of the device and a duplicate,
    which the event is registered for and its handler owns. *)

Class Sockets (K : Type) := {
  bound_socket : bool -> Z -> K -> option Z * K;   (* IPv6?, port; [None]: a call failed and the socket is closed *)
  local_port : Z -> K -> option Z;
  try_clone : Z -> K -> option Z * K;
}.

Class SocketLaws (K : Type) `{So : Sockets K} `{V : KernelView K} : Prop := {
  socket_law : forall v6 port k, let '(r, k') := bound_socket v6 port k in opens r k k';
  clone_law : forall fd k, let '(r, k') := try_clone fd k in
    match r with
    | None => undisturbed k k'
    | Some fd' => 0 <= fd' /\ files k !! fd' = None /\ interest k' = interest k
        /\ exists f, files k !! fd = Some f /\ files k' = <[fd' := f]> (files k)
    end;
}.

Record Listener := mkListener { udp4_fd : option Z; udp6_fd : option Z; port_of : Z }.

Section Listen.
Context {H K : Type} `{Kn : Kernel K} `{So : Sockets K} (owns : H -> bool) (udp_handler : H).

Definition close_fd (fd : Z) (p : EventPoll H K) : EventPoll H K := with_kernel (fd_close fd (kernel p)) p.

(** [if let Some(s) = self.udp4.take() { ... }] *)
Definition close_listener (s : option Z) (p : EventPoll H K) : run (EventPoll H K) :=
  match s with
  | Some s => let^ p := clear_event_by_fd owns s p in Runs (close_fd s p)
  | None => Runs p
  end.

(** [self.register_udp_handler(sock.try_clone().unwrap())] *)
Definition register_clone (s : Z) (p : EventPoll H K) : run (bool * EventPoll H K) :=
  match try_clone s (kernel p) with
  | (None, _) => Panics
  | (Some c, k) =>
      let '(r, p) := new_event owns c udp_handler (with_kernel k p) in
      Runs (match r with Ok _ => true | Err _ => false end, p)
  end.

(** [conns] are the descriptors that [shutdown_endpoint] closes; the Boolean is whether the call succeeds. *)
Definition open_listen_fds (conns : list Z) (port : Z) (l : Listener) (p : EventPoll H K)
    : run (bool * Listener * EventPoll H K) :=
  let^ p := close_listener (udp4_fd l) p in
  let^ p := close_listener (udp6_fd l) p in
  let l := mkListener None None (port_of l) in
  let p := foldl (fun p fd => close_fd fd p) p conns in
  match bound_socket false port (kernel p) with
  | (None, k) => Runs (false, l, with_kernel k p)
  | (Some s4, k) =>
      let p := with_kernel k p in
      match (if port =? 0 then local_port s4 k else Some port) with
      | None => Runs (false, l, close_fd s4 p)
      | Some port =>
          match bound_socket true port (kernel p) with
          | (None, k) => Runs (false, l, close_fd s4 (with_kernel k p))
          | (Some s6, k) =>
              let^ r4 := register_clone s4 (with_kernel k p) in
              if negb r4.1 then Runs (false, l, close_fd s4 (close_fd s6 r4.2))
              else
                let^ r6 := register_clone s6 r4.2 in
                if negb r6.1 then Runs (false, l, close_fd s4 (close_fd s6 r6.2))
                else Runs (true, mkListener (Some s4) (Some s6) port, r6.2)
          end
      end
  end.
End Listen.

Section ListenStays.
Context {H K : Type} `{KL : KernelLaws K} `{So : Sockets K} `{SL : !SocketLaws K} (owns : H -> bool) (udp_handler : H).

(** An event that is registered for the descriptor [c] of the file [f]. *)
Record watched (c : Z) (f : nat) (r : Registration) (b : ptr) (ev : Event H) (p : EventPoll H K) : Prop := mkWatched {
  w_pos : 0 <= c;
  w_file : files (kernel p) !! c = Some f;
  w_reg : registered p (f, c) r;
  w_entry : events p !! Z.to_nat c = Some (Some b);
  w_box : boxes p !! b = Some ev;
  w_entries : forall n b', events p !! n = Some (Some b') ->
    (b' < next_box p)%nat /\ forall ev', boxes p !! b' = Some ev' -> ev_fd ev' = Z.of_nat n;
}.

Section Watched.
Context (c : Z) (f : nat) (r : Registration) (b : ptr) (ev : Event H).
Abbreviation stays := (watched c f r b ev).

Lemma watched_kernel p k :
  stays p -> files k !! c = Some f -> interest k !! (f, c) = interest (kernel p) !! (f, c) -> stays (with_kernel k p).
Proof. intros [Hc Hf [Hr Ha] He Hb Hn] Hk Hi. split; cbn; try done. split; cbn; by rewrite ?Hi. Qed.

Lemma watched_opens p fd k : stays p -> opens fd (kernel p) k -> stays (with_kernel k p).
Proof.
  intros Hw Ho. pose proof (w_file _ _ _ _ _ _ Hw) as Hf. destruct fd as [fd|]; cbn in Ho.
  - destruct Ho as (_ & Hn & Hi & f' & Hf' & _). apply watched_kernel; [done| |by rewrite Hi].
    rewrite Hf', lookup_insert_ne; [done|]. intros ->. congruence.
  - destruct Ho as [H1 H2]. apply watched_kernel; [done|by rewrite H1|by rewrite H2].
Qed.

Lemma watched_close p fd : stays p -> fd <> c -> stays (close_fd fd p).
Proof.
  intros Hw Hne. pose proof Hw as [_ Hf [Hr _] _ _ _]. destruct (close_law fd (kernel p)) as [H1 H2].
  apply watched_kernel; [done|by rewrite H1, lookup_delete_ne|]. rewrite H2.
  destruct (files (kernel p) !! fd) as [f'|]; [|done].
  destruct (bool_decide _) eqn:E; [done|]. apply bool_decide_eq_false in E. rewrite Hr. apply map_lookup_filter_Some.
  split; [done|]. cbn. intros <-. apply E. by exists c, f.
Qed.

Lemma watched_del p fd : stays p -> fd <> c -> stays (with_kernel (epoll_ctl_del fd (kernel p)).2 p).
Proof.
  intros Hw Hne. pose proof (w_file _ _ _ _ _ _ Hw) as Hf. destruct (del_law fd (kernel p)) as [H1 H2].
  apply watched_kernel; [done|by rewrite H1|].
  rewrite H2. destruct (files (kernel p) !! fd); [|done]. rewrite lookup_delete_ne; [done|congruence].
Qed.

Lemma watched_take p n : stays p -> Z.of_nat n <> c -> stays (take_event owns n p).
Proof.
  intros Hw Hne. pose proof Hw as [Hc Hf Hr He Hb Hn]. unfold take_event.
  destruct (events p !! n) as [[b'|]|] eqn:En; [|done|done]. apply watched_del; [|done].
  set (q := with_events (<[n := None]> (events p)) p). assert (stays q) as Hq.
  { split; cbn; try done; [rewrite list_lookup_insert_ne by lia; done|].
    intros m b0 [(_ & [= ] & _)|[_ Hm]]%list_lookup_insert_Some. by apply Hn. }
  change (mkPoll (<[n:=None]> (events p)) (boxes p) (next_box p) (kernel p)) with q. unfold drop_box.
  destruct (boxes q !! b') as [ev'|] eqn:Eb; [|done]. destruct (Hn n b' En) as [_ Hfd]. pose proof (Hfd ev' Eb) as Hfd'.
  assert (b' <> b) as Hbb.
  { intros ->. destruct (Hn (Z.to_nat c) b He) as [_ H2]. pose proof (H2 ev' Eb). lia. }
  assert (stays (mkPoll (events q) (delete b' (boxes q)) (next_box q) (kernel q))) as Hd.
  { destruct Hq as [_ Hf2 Hr2 He2 Hb2 Hn2]. split; try done; cbn; [by rewrite lookup_delete_ne|].
    intros m b0 Hm. destruct (Hn2 m b0 Hm) as [H1 H2]. split; [done|]. intros ev0 [_ Hl]%lookup_delete_Some. by apply H2. }
  destruct (owns _); [|done]. apply (watched_close _ (ev_fd ev')) in Hd; [exact Hd|]. by rewrite Hfd'.
Qed.

Lemma take_event_box p n x : events p !! n <> Some (Some x) -> boxes (take_event owns n p) !! x = boxes p !! x.
Proof.
  intros Hx. unfold take_event. destruct (events p !! n) as [[b'|]|] eqn:En; [|done|done]. unfold drop_box. cbn [boxes].
  destruct (boxes p !! b') eqn:Eb; [|done]. cbn. apply lookup_delete_ne. congruence.
Qed.

Lemma watched_register p flags fd h notifier needs_read :
  0 <= fd -> fd <> c -> stays p -> stays (register_event owns flags fd h notifier needs_read p).2.
Proof.
  intros Hfd Hne Hw. pose proof Hw as [Hc Hf Hr He Hb Hn]. unfold register_event. set (nb := next_box p).
  set (e := mkEvent (mkEpollEvent flags nb) fd h notifier needs_read).
  destruct (Hn _ _ He) as [Hlt _]. assert (b <> nb) as Hbn by (unfold nb; lia).
  set (p1 := mkPoll (events p ++ replicate (S (Z.to_nat fd) - length (events p)) None) (<[nb := e]> (boxes p)) (S nb) (kernel p)).
  assert (stays p1) as H1.
  { split; cbn; try done; [by apply lookup_grown|by rewrite lookup_insert_ne|].
    intros m b0 Hm%lookup_grown. destruct (Hn m b0 Hm) as [H1 H2]. split; [lia|]. intros ev0.
    rewrite lookup_insert_ne by (unfold nb; lia). apply H2. }
  assert (stays (take_event owns (Z.to_nat fd) p1)) as H2 by (apply watched_take; [done|lia]).
  unfold insert_at. cbn [events boxes next_box kernel]. fold p1. set (t := take_event owns (Z.to_nat fd) p1) in *.
  assert (stays (mkPoll (<[Z.to_nat fd := Some nb]> (events t)) (boxes t) (next_box t) (kernel t))) as H3.
  { pose proof H2 as [_ Hf2 Hr2 He2 Hb2 Hn2]. assert (next_box t = S nb) as Ht by apply take_event_next.
    split; cbn; try done; [rewrite list_lookup_insert_ne by lia; done|].
    intros m b0 [(<- & [= <-] & _)|[_ Hm]]%list_lookup_insert_Some; [|by apply Hn2]. split; [lia|].
    intros ev0. unfold t. rewrite take_event_box; [cbn; rewrite lookup_insert_eq; intros [= <-]; cbn; lia|].
    cbn. intros Hm%lookup_grown. destruct (Hn _ _ Hm). unfold nb in *. lia. }
  pose proof (add_law fd (mkEpollEvent flags nb) (kernel t)) as Hlaw. cbn [kernel].
  destruct (epoll_ctl_add _ _ _) as [[|] k]; cbn [snd].
  - destruct Hlaw as (Hf3 & f' & _ & _ & Hi). apply (watched_kernel _ k) in H3; [exact H3|..].
    + rewrite Hf3. by apply (w_file _ _ _ _ _ _ H2).
    + rewrite Hi, lookup_insert_ne by congruence. done.
  - destruct Hlaw as [Hf3 Hi]. apply (watched_kernel _ k) in H3; [exact H3|rewrite Hf3; by apply (w_file _ _ _ _ _ _ H2)|by rewrite Hi].
Qed.

Lemma watched_listener p s :
  stays p -> (forall fd, s = Some fd -> fd <> c) ->
  fine (close_listener owns s p) stays.
Proof.
  intros Hw Hs. unfold close_listener. destruct s as [fd|]; [|done]. specialize (Hs fd eq_refl).
  unfold clear_event_by_fd. destruct (Z.ltb_spec fd 0); [done|]. destruct (Z.leb_spec (Z.of_nat (length (events p))) fd); [done|].
  cbn [run_bind]. apply watched_close; [|done]. apply watched_take; [done|]. lia.
Qed.

Lemma watched_clone p s :
  stays p -> fine (register_clone owns udp_handler s p) (fun r => stays r.2).
Proof.
  intros Hw. unfold register_clone. pose proof (clone_law s (kernel p)) as Hl.
  destruct (try_clone s (kernel p)) as [[fd|] k]; [|done]. destruct Hl as (Hfd & Hn & Hi & f' & _ & Hf).
  pose proof (w_file _ _ _ _ _ _ Hw) as Hc. assert (fd <> c) as Hne by congruence.
  assert (stays (with_kernel k p)) as Hk by (apply watched_kernel; [done|by rewrite Hf, lookup_insert_ne|by rewrite Hi]).
  pose proof (watched_register _ READ_ONCE fd udp_handler false false Hfd Hne Hk) as Hr. fold (new_event owns fd udp_handler) in Hr.
  by destruct (new_event owns fd udp_handler (with_kernel k p)) as [res q].
Qed.

Lemma watched_closes p fds : stays p -> c ∉ fds -> stays (foldl (fun p fd => close_fd fd p) p fds).
Proof.
  revert p. induction fds as [|fd fds IH]; intros p Hw Hc; [done|]. apply not_elem_of_cons in Hc as [H1 H2].
  apply IH; [|done]. by apply watched_close.
Qed.

Lemma opens_other p fd k : stays p -> opens (Some fd) (kernel p) k -> fd <> c.
Proof. intros Hw (_ & Hn & _) ->. pose proof (w_file _ _ _ _ _ _ Hw). congruence. Qed.

(** Changing the port leaves the old sockets in the event loop. An event that is registered for a duplicate [c]
    of a listening socket stays registered and armed, with its handler, through
    [open_listen_socket]: the call removes the events of the descriptors of the device, and
    the duplicate is neither of them. *)
Theorem old_listener_stays conns port l p :
  stays p -> udp4_fd l <> Some c -> udp6_fd l <> Some c -> c ∉ conns ->
  fine (open_listen_fds owns udp_handler conns port l p) (fun r => stays r.2).
Proof.
  intros Hw H4 H6 Hconns. unfold open_listen_fds.
  eapply fine_bind; [apply watched_listener; [exact Hw|intros fd Hfd ->; congruence]|]. intros p4 W4.
  eapply fine_bind; [apply watched_listener; [exact W4|intros fd Hfd ->; congruence]|]. intros p6 W6. cbv zeta.
  pose proof (watched_closes p6 conns W6 Hconns) as Wc. set (q := foldl _ p6 conns) in *. clearbody q.
  pose proof (socket_law false port (kernel q)) as Ho4. destruct (bound_socket false port (kernel q)) as [[s4|] k4];
    pose proof (watched_opens q _ k4 Wc Ho4) as W1; [|done]. pose proof (opens_other q s4 k4 Wc Ho4) as Hs4.
  destruct (if port =? 0 then _ else _) as [port'|]; [|by apply watched_close].
  pose proof (socket_law true port' (kernel (with_kernel k4 q))) as Ho6.
  destruct (bound_socket true port' (kernel (with_kernel k4 q))) as [[s6|] k6];
    pose proof (watched_opens _ _ k6 W1 Ho6) as W2; [|by apply watched_close]. pose proof (opens_other _ s6 k6 W1 Ho6) as Hs6.
  eapply fine_bind; [apply watched_clone, W2|]. intros r4 R4. destruct (negb r4.1); [by apply watched_close; [apply watched_close|]|].
  eapply fine_bind; [apply watched_clone, R4|]. intros r6 R6. destruct (negb r6.1); [by apply watched_close; [apply watched_close|]|done].
Qed.
End Watched.
End ListenStays.

(** ** An example kernel *)

Record ToyKernel := mkToy {
  toy_files : gmap Z nat;
  toy_interest : gmap (nat * Z) Registration;
  toy_ready : list (nat * Z);              (* what is delivered next *)
}.

Definition toy_fd (k : ToyKernel) : Z := Z.of_nat (fresh (list_to_set (Z.to_nat <$> (map_to_list (toy_files k)).*1) : gset nat)).
Definition toy_file (k : ToyKernel) : nat :=
  fresh (list_to_set (((map_to_list (toy_files k)).*2) ++ ((map_to_list (toy_interest k)).*1).*1) : gset nat).

Definition toy_open (k : ToyKernel) : option Z * ToyKernel :=
  (Some (toy_fd k), mkToy (<[toy_fd k := toy_file k]> (toy_files k)) (toy_interest k) (toy_ready k)).

Definition toy_register (new : bool) (fd : Z) (e : epoll_event) (k : ToyKernel) : bool * ToyKernel :=
  match toy_files k !! fd with
  | Some f =>
      if bool_decide (is_Some (toy_interest k !! (f, fd))) then
        if new then (false, k) else (true, mkToy (toy_files k) (<[(f, fd) := mkReg e true]> (toy_interest k)) (toy_ready k))
      else if new then (true, mkToy (toy_files k) (<[(f, fd) := mkReg e true]> (toy_interest k)) (toy_ready k)) else (false, k)
  | None => (false, k)
  end.

Definition toy_wait (k : ToyKernel) : option (list epoll_event) * ToyKernel :=
  match toy_ready k with
  | key :: ready =>
      match toy_interest k !! key with
      | Some r =>
          if reg_armed r then
            (Some [reg_event r],
             mkToy (toy_files k)
               (if oneshot (ee_events (reg_event r)) then <[key := mkReg (reg_event r) false]> (toy_interest k)
                else toy_interest k) ready)
          else (None, mkToy (toy_files k) (toy_interest k) ready)
      | None => (None, mkToy (toy_files k) (toy_interest k) ready)
      end
  | [] => (None, k)
  end.

#[local] Instance toy_kernel : Kernel ToyKernel := {|
  epoll_ctl_add := toy_register true;
  epoll_ctl_mod := toy_register false;
  epoll_ctl_del fd k :=
    match toy_files k !! fd with
    | Some f => (true, mkToy (toy_files k) (delete (f, fd) (toy_interest k)) (toy_ready k))
    | None => (false, k)
    end;
  epoll_wait := toy_wait;
  timerfd_create _ := toy_open;
  timerfd_settime _ _ _ k := (true, k);
  eventfd := toy_open;
  signalfd _ := toy_open;
  drain _ k := k;
  fd_read _ k := k;
  fd_write _ k := k;
  fd_close fd k :=
    mkToy (delete fd (toy_files k))
      (match toy_files k !! fd with
       | Some f => if bool_decide (map_Exists (fun fd' f' => fd' <> fd /\ f' = f) (toy_files k)) then toy_interest k
                   else filter (fun kr => kr.1.1 <> f) (toy_interest k)
       | None => toy_interest k
       end) (toy_ready k);
|}.

#[local] Instance toy_view : KernelView ToyKernel := {| files := toy_files; interest := toy_interest |}.

Lemma toy_opens k : let '(r, k') := toy_open k in opens r k k'.
Proof.
  unfold toy_open, opens. cbn. split_and!; [unfold toy_fd; lia| |done|].
  - destruct (toy_files k !! toy_fd k) as [f|] eqn:E; [|done]. exfalso.
    apply (is_fresh (list_to_set (Z.to_nat <$> (map_to_list (toy_files k)).*1) : gset nat)).
    apply elem_of_list_to_set, list_elem_of_fmap. exists (toy_fd k). split; [unfold toy_fd; lia|].
    apply list_elem_of_fmap. exists (toy_fd k, f). split; [done|]. by apply elem_of_map_to_list.
  - exists (toy_file k). assert (forall f, f = toy_file k -> f ∈ (map_to_list (toy_files k)).*2 ++ (map_to_list (toy_interest k)).*1.*1 -> False) as Hno.
    { intros f -> Hin. apply (is_fresh (list_to_set (((map_to_list (toy_files k)).*2) ++ ((map_to_list (toy_interest k)).*1).*1) : gset nat)).
      by apply elem_of_list_to_set. }
    split_and!; [done|..].
    + intros fd' Hf. apply (Hno (toy_file k)); [done|]. apply elem_of_app. left. apply list_elem_of_fmap. exists (fd', toy_file k).
      split; [done|]. by apply elem_of_map_to_list.
    + intros fd'. destruct (toy_interest k !! (toy_file k, fd')) as [r|] eqn:E; [|done]. exfalso. apply (Hno (toy_file k)); [done|].
      apply elem_of_app. right. apply list_elem_of_fmap. exists (toy_file k, fd'). split; [done|]. apply list_elem_of_fmap.
      exists ((toy_file k, fd'), r). split; [done|]. by apply elem_of_map_to_list.
Qed.

#[local] Instance toy_kernel_laws : KernelLaws ToyKernel.
Proof.
  split; cbn.
  - intros fd e k. unfold toy_register. destruct (toy_files k !! fd) as [f|] eqn:Ef; [|done].
    case_bool_decide as Hi; [done|]. cbn. split; [done|]. exists f. split_and!; [done| |done]. by apply eq_None_not_Some.
  - intros fd e k. unfold toy_register. destruct (toy_files k !! fd) as [f|] eqn:Ef; [|done].
    case_bool_decide as Hi; [|done]. cbn. split; [done|]. by exists f.
  - intros fd k. by destruct (toy_files k !! fd).
  - intros k. unfold toy_wait. destruct (toy_ready k) as [|key ready]; [done|].
    destruct (toy_interest k !! key) as [r|] eqn:Er; [|done]. destruct (reg_armed r) eqn:Ea; [|done]. cbn. split; [done|].
    by exists key, r.
  - intros _ k. apply toy_opens.
  - done.
  - apply toy_opens.
  - intros _ k. apply toy_opens.
  - done.
  - done.
  - done.
  - done.
Qed.

#[local] Instance toy_sockets : Sockets ToyKernel := {|
  bound_socket _ _ := toy_open;
  local_port _ _ := Some 51820;
  try_clone fd k :=
    match toy_files k !! fd with
    | Some f => (Some (toy_fd k), mkToy (<[toy_fd k := f]> (toy_files k)) (toy_interest k) (toy_ready k))
    | None => (None, k)
    end
|}.

#[local] Instance toy_socket_laws : SocketLaws ToyKernel.
Proof.
  split; [intros v6 port k; apply toy_opens|]. intros fd k. cbn. destruct (toy_files k !! fd) as [f|] eqn:Ef; [|done].
  destruct (toy_opens k) as (H1 & H2 & _). split_and!; [done|done|done|]. by exists f.
Qed.

(** An event is registered for descriptor 3 and triggered. *)
Lemma queue_safe_witness : exists s : Sys unit ToyKernel,
  held s = [1%nat]
  /\ (forall l, admissible (fun _ => true) l s -> exists s', exec (fun _ => true) l s = Runs s')
  /\ (forall b, b ∈ held s -> exists ev, deref b (poll s) = Runs ev).
Proof.
  set (k0 := mkToy {[3 := 0%nat]} ∅ [(0%nat, 3)]).
  assert (exists s : Sys unit ToyKernel, reachable (fun _ => true) k0 s /\ held s = [1%nat]) as (s & Hr & Hs).
  { eexists. split.
    - eapply (reach_step _ _ _ Wait); [eapply (reach_step _ _ _ (NewEvent 3 tt)); [apply reach_new| |]| |].
      + split; [lia|]. by intros b.
      + reflexivity.
      + exact I.
      + vm_compute. reflexivity.
    - reflexivity. }
  exists s. split; [exact Hs|]. destruct (queue_safe (fun _ => true) k0 s) as (H1 & H2 & _); [reflexivity|exact Hr|]. by split.
Defined.

(** After the first call the sockets are 0 and 1 and the events belong to 2 and 3; the
    second call leaves the event of 2. *)
Lemma old_listener_stays_witness : exists l (p : EventPoll unit ToyKernel) f r b ev,
  open_listen_fds (fun _ => true) tt [] 0 (mkListener None None 0) (event_poll_new (mkToy ∅ ∅ [])) = Runs (true, l, p)
  /\ fine (open_listen_fds (fun _ => true) tt [] 51821 l p) (fun q => watched 2 f r b ev q.2).
Proof.
  eexists _, _, _, _, _, _. split; [vm_compute; reflexivity|].
  apply old_listener_stays; [|done|done|apply not_elem_of_nil]. split.
  - lia.
  - vm_compute. reflexivity.
  - split; vm_compute; reflexivity.
  - vm_compute. reflexivity.
  - vm_compute. reflexivity.
  - intros [|[|[|[|n]]]] b' Hb; vm_compute in Hb; try discriminate Hb; injection Hb as <-; (split; [vm_compute; lia|]);
      intros ev' Hev; vm_compute in Hev; injection Hev as <-; vm_compute; reflexivity.
Defined.
