(* ===== verification/Kqueue.v ===== *)
(** * The event queue of macOS and the BSDs ([device/kqueue.rs])

    The queue has the interface of the one over epoll and keeps its events the same way,
    in boxes whose address the kernel returns. It has three tables: events of descriptors,
    timers and notifiers under negative identifiers, and signals. Boxes are entries of a
    heap, so that the use of a freed one is visible. The kernel is the class [Kqueue], with
    the documented behaviour of [kevent]: an event is known by its identifier and filter, a
    dispatched event is disabled until it is enabled again, and closing a descriptor
    removes its event. *)

From Stdlib Require Import ZArith Lia.
From stdpp Require Import base numbers list option gmap sets.
From S2P Require Import Prelude Effects.

(** ** The kernel *)

Abbreviation ptr := nat (only parsing).

Inductive Filter := EVFILT_READ | EVFILT_TIMER | EVFILT_USER | EVFILT_SIGNAL.

#[global] Instance filter_eq_dec : EqDecision Filter.
Proof. solve_decision. Defined.

Definition filter_number (f : Filter) : nat :=
  match f with EVFILT_READ => 0 | EVFILT_TIMER => 1 | EVFILT_USER => 2 | EVFILT_SIGNAL => 3 end.

Definition filter_of_number (n : nat) : option Filter :=
  [EVFILT_READ; EVFILT_TIMER; EVFILT_USER; EVFILT_SIGNAL] !! n.

#[global] Program Instance filter_countable : Countable Filter :=
  inj_countable filter_number filter_of_number _.
Next Obligation. by intros []. Qed.

Record kevent := mkKevent { ident : Z; kfilter : Filter; flags : Z; fflags : Z; data : Z; udata : ptr }.

Definition EV_ADD : Z := 0x1.
Definition EV_DELETE : Z := 0x2.
Definition EV_ENABLE : Z := 0x4.
Definition EV_DISABLE : Z := 0x8.
Definition EV_DISPATCH : Z := 0x80.
Definition EV_EOF : Z := 0x8000.
Definition NOTE_TRIGGER : Z := 0x01000000.
Definition NOTE_NSECONDS : Z := 0x4.

Definition has (bits flag : Z) : bool := negb (Z.land bits flag =? 0).

(** What the kernel keeps of an event. *)
Record Knote := mkKnote { kn_udata : ptr; kn_enabled : bool; kn_dispatch : bool; kn_triggered : bool }.

Definition key_of (e : kevent) : Z * Filter := (ident e, kfilter e).

(** The effect of a change that is accepted. *)
Definition apply_change (e : kevent) (m : gmap (Z * Filter) Knote) : gmap (Z * Filter) Knote :=
  if has (flags e) EV_DELETE then delete (key_of e) m
  else
    match m !! key_of e with
    | Some kn =>
        <[key_of e := mkKnote (udata e)
                        (if has (flags e) EV_DISABLE then false else has (flags e) EV_ADD || has (flags e) EV_ENABLE || kn_enabled kn)
                        (kn_dispatch kn) (has (fflags e) NOTE_TRIGGER || kn_triggered kn)]> m
    | None =>
        if has (flags e) EV_ADD
        then <[key_of e := mkKnote (udata e) (negb (has (flags e) EV_DISABLE)) (has (flags e) EV_DISPATCH)
                             (has (fflags e) NOTE_TRIGGER)]> m
        else m
    end.

Class Kqueue (K : Type) := {
  kevent_change : kevent -> K -> bool * K;           (* whether it succeeds *)
  kevent_wait : K -> option kevent * K;              (* [None] is an error *)
  signal_ignore : Z -> K -> K;
  fd_close : Z -> K -> K;
}.

Class KqueueView (K : Type) := { knotes : K -> gmap (Z * Filter) Knote }.

(** [as usize] of a descriptor, which extends the sign, and [as RawFd] back. *)
Definition as_usize (fd : Z) : Z := fd mod 2 ^ 64.
Definition as_raw_fd (ident : Z) : Z := (ident + 2 ^ 31) mod 2 ^ 32 - 2 ^ 31.

Class KqueueLaws (K : Type) `{Kq : Kqueue K} `{V : KqueueView K} : Prop := {
  change_law : forall e k, let '(ok, k') := kevent_change e k in
    knotes k' = if ok then apply_change e (knotes k) else knotes k;
  (** An event that is there can be changed and deleted. *)
  existing_law : forall e k, is_Some (knotes k !! key_of e) -> has (flags e) EV_ADD = false -> (kevent_change e k).1 = true;
  wait_law : forall k, let '(r, k') := kevent_wait k in
    match r with
    | None => knotes k' = knotes k
    | Some e => exists kn, knotes k !! key_of e = Some kn /\ kn_enabled kn = true /\ udata e = kn_udata kn
        /\ (kfilter e = EVFILT_USER -> kn_triggered kn = true)
        /\ knotes k' = if kn_dispatch kn
                       then <[key_of e := mkKnote (kn_udata kn) false true (kn_triggered kn)]> (knotes k) else knotes k
    end;
  signal_law : forall sig k, knotes (signal_ignore sig k) = knotes k;
  close_law : forall fd k, knotes (fd_close fd k) = delete (as_usize fd, EVFILT_READ) (knotes k);
}.

(** ** [EventPoll] *)

Inductive EventKind := FD | Notifier | Signal | Timer.

#[global] Instance kind_eq_dec : EqDecision EventKind.
Proof. solve_decision. Defined.

Record Event (H : Type) := mkEvent { ev_event : kevent; ev_handler : H; ev_kind : EventKind }.
Arguments mkEvent {H}.
Arguments ev_event {H}.
Arguments ev_handler {H}.
Arguments ev_kind {H}.

(** The three tables, and the heap of the boxes. *)
Record EventPoll (H K : Type) := mkPoll {
  events : list (option ptr);
  custom : list (option ptr);
  signals : list (option ptr);
  boxes : gmap ptr (Event H);
  next_box : ptr;
  kernel : K;
}.
Arguments mkPoll {H K}.
Arguments events {H K}.
Arguments custom {H K}.
Arguments signals {H K}.
Arguments boxes {H K}.
Arguments next_box {H K}.
Arguments kernel {H K}.

Inductive QueueError := ErrorEventQueue.

Record EventRef := mkEventRef { trigger : Z }.

Inductive WaitResult := WaitOk (guard : ptr) | WaitEoF (guard : ptr) | WaitError.

Inductive Table := Events | Custom | Signals.

Definition table_of (kind : EventKind) : Table :=
  match kind with FD => Events | Timer | Notifier => Custom | Signal => Signals end.

Section Poll.
Context {H K : Type} `{Kq : Kqueue K}.
(** Whether dropping the handler closes the descriptor of its event. *)
Context (owns : H -> bool).

Definition event_poll_new (k : K) : EventPoll H K := mkPoll [] [] [] ∅ 1 k.

Definition with_kernel (k : K) (p : EventPoll H K) : EventPoll H K :=
  mkPoll (events p) (custom p) (signals p) (boxes p) (next_box p) k.

Definition table (t : Table) (p : EventPoll H K) : list (option ptr) :=
  match t with Events => events p | Custom => custom p | Signals => signals p end.

Definition with_table (t : Table) (l : list (option ptr)) (p : EventPoll H K) : EventPoll H K :=
  match t with
  | Events => mkPoll l (custom p) (signals p) (boxes p) (next_box p) (kernel p)
  | Custom => mkPoll (events p) l (signals p) (boxes p) (next_box p) (kernel p)
  | Signals => mkPoll (events p) (custom p) l (boxes p) (next_box p) (kernel p)
  end.

(** The end of the life of a box. *)
Definition drop_box (b : ptr) (p : EventPoll H K) : EventPoll H K :=
  match boxes p !! b with
  | Some ev =>
      mkPoll (events p) (custom p) (signals p) (delete b (boxes p)) (next_box p)
        (if bool_decide (ev_kind ev = FD) && owns (ev_handler ev)
         then fd_close (as_raw_fd (ident (ev_event ev))) (kernel p) else kernel p)
  | None => p
  end.

(** The box of an event that is taken out of its table is dropped after the kernel is told. *)
Definition take_event (t : Table) (index : nat) (p : EventPoll H K) : run (EventPoll H K) :=
  match table t p !! index with
  | None => Panics
  | Some None => Runs p
  | Some (Some b) =>
      let p := with_table t (<[index := None]> (table t p)) p in
      match boxes p !! b with
      | None => Faults
      | Some ev =>
          let e := ev_event ev in
          let k := (kevent_change (mkKevent (ident e) (kfilter e) EV_DELETE (fflags e) (data e) (udata e)) (kernel p)).2 in
          Runs (drop_box b (with_kernel k p))
      end
  end.

(** The identifier of a new event and its index in a table of [len] entries. *)
Definition place (kind : EventKind) (ident : Z) (len : nat) : Z * nat :=
  match kind with
  | FD | Signal => (as_raw_fd ident, Z.to_nat ident)
  | Timer | Notifier => (as_raw_fd (- as_raw_fd (Z.of_nat len) - 1), len)
  end.

Definition register_event (ev : Event H) (p : EventPoll H K) : run (result QueueError EventRef * EventPoll H K) :=
  let t := table_of (ev_kind ev) in
  let len := length (table t p) in
  let '(trigger, index) := place (ev_kind ev) (ident (ev_event ev)) len in
  let p := with_table t (table t p ++ replicate (S index - len) None) p in
  let b := next_box p in
  let e := ev_event ev in
  let e := mkKevent (as_usize trigger) (kfilter e) (flags e) (fflags e) (data e) b in
  let p := mkPoll (events p) (custom p) (signals p) (<[b := mkEvent e (ev_handler ev) (ev_kind ev)]> (boxes p)) (S b)
             (kernel p) in
  let kev := mkKevent (ident e) (kfilter e) (Z.lor (flags e) EV_ADD) (fflags e) (data e) (udata e) in
  let '(ok, k) := kevent_change kev (kernel p) in
  let p := with_kernel k p in
  if ok then
    let^ p := take_event t index p in
    let p := if bool_decide (ev_kind ev = Signal) then with_kernel (signal_ignore trigger (kernel p)) p else p in
    Runs (Ok (mkEventRef trigger), with_table t (<[index := Some b]> (table t p)) p)
  else Runs (Err ErrorEventQueue, drop_box b p).

Definition ONCE : Z := Z.lor EV_ENABLE EV_DISPATCH.

Definition new_event (trigger : Z) (handler : H) :=
  register_event (mkEvent (mkKevent (as_usize trigger) EVFILT_READ ONCE 0 0 0) handler FD).

(** The period is a whole number of nanoseconds of 64 bits, or the call panics. *)
Definition new_periodic_event (handler : H) (secs nanos : Z) (p : EventPoll H K)
    : run (result QueueError EventRef * EventPoll H K) :=
  if 2 ^ 64 <=? secs * 1000000000 then Panics
  else if 2 ^ 64 <=? secs * 1000000000 + nanos then Panics
  else
    let data := (secs * 1000000000 + nanos + 2 ^ 63) mod 2 ^ 64 - 2 ^ 63 in
    register_event (mkEvent (mkKevent 0 EVFILT_TIMER ONCE NOTE_NSECONDS data 0) handler Timer) p.

Definition new_notifier (handler : H) :=
  register_event (mkEvent (mkKevent 0 EVFILT_USER EV_ENABLE 0 0 0) handler Notifier).

Definition new_signal_event (signal : Z) (handler : H) :=
  register_event (mkEvent (mkKevent (as_usize signal) EVFILT_SIGNAL ONCE 0 0 0) handler Signal).

(** A box that is used. *)
Definition deref (b : ptr) (p : EventPoll H K) : run (Event H) :=
  match boxes p !! b with Some ev => Runs ev | None => Faults end.

(** The address of the event comes back from the kernel; a null one is refused. *)
Definition queue_wait (p : EventPoll H K) : run (WaitResult * EventPoll H K) :=
  match kevent_wait (kernel p) with
  | (Some e, k) =>
      if bool_decide (udata e = 0%nat) then Panics
      else
        let^ _ := deref (udata e) p in
        Runs (if has (flags e) EV_EOF then WaitEoF (udata e) else WaitOk (udata e), with_kernel k p)
  | (None, k) => Runs (WaitError, with_kernel k p)
  end.

(** The event of a reference, which has to be a notifier. *)
Definition notifier_of (r : EventRef) (p : EventPoll H K) : run (Event H) :=
  let ev_index := as_raw_fd (- trigger r - 1) in
  match custom p !! Z.to_nat (as_usize ev_index) with
  | Some (Some b) => let^ ev := deref b p in if bool_decide (ev_kind ev = Notifier) then Runs ev else Panics
  | _ => Panics
  end.

Definition trigger_notification (r : EventRef) (p : EventPoll H K) : run (EventPoll H K) :=
  let^ ev := notifier_of r p in
  let e := ev_event ev in
  Runs (with_kernel (kevent_change (mkKevent (ident e) (kfilter e) (flags e) NOTE_TRIGGER (data e) (udata e)) (kernel p)).2 p).

Definition stop_notification (r : EventRef) (p : EventPoll H K) : run (EventPoll H K) :=
  let^ ev := notifier_of r p in
  let e := ev_event ev in
  Runs (with_kernel (kevent_change (mkKevent (ident e) (kfilter e) EV_DISABLE 0 (data e) (udata e)) (kernel p)).2 p).

Definition clear_event_by_fd (index : Z) (p : EventPoll H K) : run (EventPoll H K) :=
  if 0 <=? index then take_event Events (Z.to_nat index) p
  else take_event Custom (Z.to_nat (as_usize (as_raw_fd (- index - 1)))) p.

(** *** [EventGuard] *)

Definition guard_deref (b : ptr) (p : EventPoll H K) : run H := let^ ev := deref b p in Runs (ev_handler ev).

Definition guard_drop (b : ptr) (p : EventPoll H K) : run (EventPoll H K) :=
  let^ ev := deref b p in Runs (with_kernel (kevent_change (ev_event ev) (kernel p)).2 p).

Definition guard_cancel (b : ptr) (p : EventPoll H K) : run (EventPoll H K) :=
  let^ ev := deref b p in clear_event_by_fd (as_raw_fd (ident (ev_event ev))) p.
End Poll.

(** ** The queue in use

    Threads share the queue; [held] are the boxes of the guards they hold, one entry for
    each guard. *)

Record Sys (H K : Type) := mkSys { poll : EventPoll H K; held : list ptr }.
Arguments mkSys {H K}.
Arguments poll {H K}.
Arguments held {H K}.

Inductive Label (H K : Type) :=
| NewEvent (fd : Z) (h : H)
| NewPeriodic (h : H) (secs nanos : Z)
| NewNotifier (h : H)
| NewSignal (sig : Z) (h : H)
| Wait
| DropGuard (i : nat)
| CancelGuard (i : nat)
| UseGuard (i : nat)                       (* the handler runs *)
| ClearByFd (fd : Z)
| Trigger (r : EventRef)
| Stop (r : EventRef)
| Outside (k : K).                         (* descriptors opened or closed elsewhere *)
Arguments NewEvent {H K}.
Arguments NewPeriodic {H K}.
Arguments NewNotifier {H K}.
Arguments NewSignal {H K}.
Arguments Wait {H K}.
Arguments DropGuard {H K}.
Arguments CancelGuard {H K}.
Arguments UseGuard {H K}.
Arguments ClearByFd {H K}.
Arguments Trigger {H K}.
Arguments Stop {H K}.
Arguments Outside {H K}.

Section System.
Context {H K : Type} `{Kq : Kqueue K} (owns : H -> bool).

Definition exec (l : Label H K) (s : Sys H K) : run (Sys H K) :=
  let on_poll m := let^ p := m in Runs (mkSys p (held s)) in
  let registers m := let^ r := m in Runs (mkSys r.2 (held s)) in
  let on_guard i m := match held s !! i with Some b => m b | None => Panics end in
  match l with
  | NewEvent fd h => registers (new_event owns fd h (poll s))
  | NewPeriodic h secs nanos => registers (new_periodic_event owns h secs nanos (poll s))
  | NewNotifier h => registers (new_notifier owns h (poll s))
  | NewSignal sig h => registers (new_signal_event owns sig h (poll s))
  | Wait =>
      let^ r := queue_wait (poll s) in
      Runs (mkSys r.2 (match r.1 with WaitOk b | WaitEoF b => held s ++ [b] | WaitError => held s end))
  | DropGuard i => on_guard i (fun b => let^ p := guard_drop b (poll s) in Runs (mkSys p (remove_nth i (held s))))
  | CancelGuard i => on_guard i (fun b => let^ p := guard_cancel owns b (poll s) in Runs (mkSys p (remove_nth i (held s))))
  | UseGuard i => on_guard i (fun b => let^ _ := guard_deref b (poll s) in Runs s)
  | ClearByFd fd => on_poll (clear_event_by_fd owns fd (poll s))
  | Trigger r => on_poll (trigger_notification r (poll s))
  | Stop r => on_poll (stop_notification r (poll s))
  | Outside k => Runs (mkSys (with_kernel k (poll s)) (held s))
  end.
End System.

(** ** Identifiers *)

Lemma raw_usize t : - 2 ^ 31 <= t < 2 ^ 31 -> as_raw_fd (as_usize t) = t.
Proof.
  intros Ht. unfold as_raw_fd, as_usize.
  assert ((t mod 2 ^ 64 + 2 ^ 31) mod 2 ^ 32 = t + 2 ^ 31) as ->; [|lia].
  rewrite (Z.mod_eq t (2 ^ 64)) by lia.
  replace (t - 2 ^ 64 * (t / 2 ^ 64) + 2 ^ 31) with (t + 2 ^ 31 + - 2 ^ 32 * (t / 2 ^ 64) * 2 ^ 32) by lia.
  rewrite Z.mod_add by lia. apply Z.mod_small. lia.
Qed.

Lemma raw_small t : - 2 ^ 31 <= t < 2 ^ 31 -> as_raw_fd t = t.
Proof. intros Ht. unfold as_raw_fd. rewrite Z.mod_small; lia. Qed.

Lemma usize_small t : 0 <= t < 2 ^ 64 -> as_usize t = t.
Proof. apply Z.mod_small. Qed.

Definition filter_of (kind : EventKind) : Filter :=
  match kind with FD => EVFILT_READ | Timer => EVFILT_TIMER | Notifier => EVFILT_USER | Signal => EVFILT_SIGNAL end.

Definition flags_of (kind : EventKind) : Z := match kind with Notifier => EV_ENABLE | _ => ONCE end.

(** Where the event of an identifier is. *)
Definition index_of (kind : EventKind) (trigger : Z) : Z :=
  match kind with FD | Signal => trigger | Timer | Notifier => - trigger - 1 end.

(** An event in a box. *)
Record well_made {H} (b : ptr) (trigger : Z) (ev : Event H) : Prop := mkWellMade {
  made_udata : udata (ev_event ev) = b;
  made_ident : ident (ev_event ev) = as_usize trigger;
  made_filter : kfilter (ev_event ev) = filter_of (ev_kind ev);
  made_flags : flags (ev_event ev) = flags_of (ev_kind ev);
  made_range : - 2 ^ 31 <= trigger < 2 ^ 31;
  made_index : 0 <= index_of (ev_kind ev) trigger;
}.

Definition home {H} (ev : Event H) : Table * nat :=
  (table_of (ev_kind ev), Z.to_nat (index_of (ev_kind ev) (as_raw_fd (ident (ev_event ev))))).

Lemma home_made {H} b trigger (ev : Event H) :
  well_made b trigger ev -> home ev = (table_of (ev_kind ev), Z.to_nat (index_of (ev_kind ev) trigger)).
Proof. intros [_ Hi _ _ Hr _]. unfold home. by rewrite Hi, raw_usize. Qed.

#[global] Instance table_eq_dec : EqDecision Table.
Proof. solve_decision. Defined.

Section Tables.
Context {H K : Type}.
Implicit Types (p : EventPoll H K).

Lemma table_with_table t t' l p : table t' (with_table t l p) = if decide (t' = t) then l else table t' p.
Proof. by destruct t, t'. Qed.

Lemma table_with_kernel t k p : table t (with_kernel k p) = table t p.
Proof. by destruct t. Qed.

Lemma boxes_with_table t l p : boxes (with_table t l p) = boxes p.
Proof. by destruct t. Qed.

Lemma next_with_table t l p : next_box (with_table t l p) = next_box p.
Proof. by destruct t. Qed.

Lemma kernel_with_table t l p : kernel (with_table t l p) = kernel p.
Proof. by destruct t. Qed.
End Tables.

#[local] Arguments table : simpl never.
#[local] Arguments with_table : simpl never.
#[local] Arguments home : simpl never.
#[local] Hint Rewrite @table_with_table @table_with_kernel @boxes_with_table @next_with_table @kernel_with_table : kqueue.

(** ** What keeps the boxes safe *)

Section Safety.
Context {H K : Type} `{KL : KqueueLaws K} (owns : H -> bool).

Implicit Types (s : Sys H K) (p : EventPoll H K) (b : ptr).

(** [fl] are the boxes of events that are being registered or removed. *)
Record inv (fl : list ptr) s : Prop := mkInv {
  (** an entry has a box that belongs there, *)
  inv_tables : forall t n b, table t (poll s) !! n = Some (Some b) ->
    exists ev, boxes (poll s) !! b = Some ev /\ home ev = (t, n);
  (** a box has an entry, *)
  inv_boxes : forall b ev, boxes (poll s) !! b = Some ev ->
    (0 < b < next_box (poll s))%nat /\ (exists trigger, well_made b trigger ev)
    /\ (b ∈ fl \/ table (home ev).1 (poll s) !! (home ev).2 = Some (Some b));
  (** the kernel has the address of a box, which nobody holds when the event is enabled and
      not a notifier, *)
  inv_knotes : forall key kn, knotes (kernel (poll s)) !! key = Some kn ->
    kn_dispatch kn = negb (bool_decide (key.2 = EVFILT_USER))
    /\ exists ev, boxes (poll s) !! kn_udata kn = Some ev /\ key_of (ev_event ev) = key
       /\ (kn_enabled kn = true -> ev_kind ev <> Notifier -> kn_udata kn ∉ held s);
  (** and so are guards. *)
  inv_held : forall b, b ∈ held s -> is_Some (boxes (poll s) !! b);
  inv_exclusive : forall i j b ev, held s !! i = Some b -> held s !! j = Some b ->
    boxes (poll s) !! b = Some ev -> ev_kind ev <> Notifier -> i = j;
  inv_next : (0 < next_box (poll s))%nat;
}.

Lemma kq_inv_kernel fl s k : inv fl s -> knotes k ⊆ knotes (kernel (poll s)) -> inv fl (mkSys (with_kernel k (poll s)) (held s)).
Proof.
  intros [Ht Hb Hk Hh Hx Hn] Hs. split; cbn; try done.
  intros key kn Hl. apply Hk. by eapply lookup_weaken.
Qed.

(** A table that is extended. *)
Lemma kq_inv_grow s t m : inv [] s -> inv [] (mkSys (with_table t (table t (poll s) ++ replicate m None) (poll s)) (held s)).
Proof.
  intros [Ht Hb Hk Hh Hx Hn]. split; cbn; autorewrite with kqueue; try done.
  - intros t' n b. autorewrite with kqueue. destruct (decide (t' = t)) as [->|]; [|apply Ht].
    intros [Hl|[_ Hl]]%lookup_app_Some; [by apply Ht|]. by apply lookup_replicate in Hl as [[=] _].
  - intros b ev. autorewrite with kqueue. intros Hev. destruct (Hb b ev Hev) as (H1 & H2 & [[]%elem_of_nil|H3]). split; [done|]. split; [done|]. right.
    destruct (decide _) as [<-|]; [|done]. by apply lookup_app_l_Some.
Qed.

Definition with_box b ev p : EventPoll H K :=
  mkPoll (events p) (custom p) (signals p) (<[b := ev]> (boxes p)) (S b) (kernel p).

Lemma table_with_box t b ev p : table t (with_box b ev p) = table t p.
Proof. by destruct t. Qed.

Lemma box_fresh fl s : inv fl s -> boxes (poll s) !! next_box (poll s) = None.
Proof.
  intros Hi. destruct (boxes (poll s) !! next_box (poll s)) as [ev|] eqn:E; [|done].
  apply (inv_boxes fl s Hi) in E as ((? & ?) & _). lia.
Qed.

Lemma inv_alloc s trigger ev :
  inv [] s -> well_made (next_box (poll s)) trigger ev ->
  inv [next_box (poll s)] (mkSys (with_box (next_box (poll s)) ev (poll s)) (held s)).
Proof.
  intros Hi Hev. pose proof (box_fresh _ _ Hi) as Hf. destruct Hi as [Ht Hb Hk Hh Hx Hn].
  assert (forall b ev', boxes (poll s) !! b = Some ev' -> <[next_box (poll s) := ev]> (boxes (poll s)) !! b = Some ev') as Hw.
  { intros b ev' Hl. rewrite lookup_insert_ne; [done|]. congruence. }
  split; cbn; try lia.
  - intros t n b. rewrite table_with_box. intros (ev' & H1 & H2)%Ht. eauto.
  - intros b ev' [[<- <-]|[Hne Hl]]%lookup_insert_Some; [split; [lia|]; split; [by eauto|]; left; by apply list_elem_of_singleton|].
    destruct (Hb b ev' Hl) as (H1 & H2 & [[]%elem_of_nil|H3]). rewrite table_with_box. split; [lia|]. split; [done|by right].
  - intros key kn Hl. destruct (Hk key kn Hl) as (H1 & ev' & H2 & H3). eauto.
  - intros b Hin. destruct (Hh b Hin) as [ev' ?]. exists ev'. eauto.
  - intros i j b ev' H1 H2 Hl. assert (b ∈ held s) as [ev'' He]%Hh by by eapply list_elem_of_lookup_2.
    rewrite (Hw _ _ He) in Hl. injection Hl as <-. by eapply Hx.
Qed.

(** A change of the event of a box that is not deleted. *)
Lemma inv_change fl s b ev e :
  inv fl s -> boxes (poll s) !! b = Some ev -> key_of e = key_of (ev_event ev) -> udata e = b ->
  has (flags e) EV_DELETE = false ->
  (has (flags e) EV_ADD = true -> has (flags e) EV_DISPATCH = negb (bool_decide (kfilter e = EVFILT_USER))) ->
  (ev_kind ev <> Notifier -> b ∉ held s) ->
  inv fl (mkSys (with_kernel (kevent_change e (kernel (poll s))).2 (poll s)) (held s)).
Proof.
  intros Hi Hev Hkey Hu Hd Ha Hb. pose proof (change_law e (kernel (poll s))) as Hc.
  destruct (kevent_change e (kernel (poll s))) as [[] k]; cbn in *; [|apply kq_inv_kernel; [done|by rewrite Hc]].
  pose proof (inv_knotes _ _ Hi) as Hk. split; cbn; try apply Hi.
  intros key kn. rewrite Hc. unfold apply_change. rewrite Hd.
  destruct (knotes (kernel (poll s)) !! key_of e) as [kn0|] eqn:E; [|destruct (has (flags e) EV_ADD); [|apply Hk]];
    (intros [[<- <-]|[_ Hl]]%lookup_insert_Some; [|by apply Hk]); cbn.
  - split; [by apply Hk in E as [? _]|]. exists ev. rewrite Hu. auto.
  - split; [auto|]. exists ev. rewrite Hu. auto.
Qed.

(** An event that is removed, if it is there. *)
Lemma delete_event e k : has (flags e) EV_DELETE = true -> has (flags e) EV_ADD = false ->
  knotes (kevent_change e k).2 = delete (key_of e) (knotes k).
Proof.
  intros Hd Ha. pose proof (change_law e k) as Hc. pose proof (existing_law e k) as He.
  destruct (kevent_change e k) as [[] k']; cbn in *; rewrite Hc; [unfold apply_change; by rewrite Hd|].
  symmetry. apply delete_id. destruct (knotes k !! key_of e) as [kn|]; [|done]. discriminate He; eauto.
Qed.

Definition delete_box b p : EventPoll H K :=
  mkPoll (events p) (custom p) (signals p) (delete b (boxes p)) (next_box p) (kernel p).

Definition close_of (ev : Event H) (k : K) : K :=
  if bool_decide (ev_kind ev = FD) && owns (ev_handler ev) then fd_close (as_raw_fd (ident (ev_event ev))) k else k.

Lemma close_knotes ev k : knotes (close_of ev k) ⊆ knotes k.
Proof. unfold close_of. destruct (_ && _); [rewrite close_law; apply delete_subseteq|done]. Qed.

Lemma drop_box_eq b ev p : boxes p !! b = Some ev -> drop_box owns b p = with_kernel (close_of ev (kernel p)) (delete_box b p).
Proof. intros Hev. unfold drop_box. by rewrite Hev. Qed.

(** A box that no table, no guard and no event of the kernel refers to. *)
Lemma inv_drop fl s b ev :
  inv (b :: fl) s -> boxes (poll s) !! b = Some ev -> b ∉ held s -> (forall t n, table t (poll s) !! n <> Some (Some b)) ->
  (forall key kn, knotes (kernel (poll s)) !! key = Some kn -> kn_udata kn <> b) ->
  inv fl (mkSys (drop_box owns b (poll s)) (held s)).
Proof.
  intros [Ht Hb Hk Hh Hx Hn] Hev Hnh Hnt Hnk. rewrite (drop_box_eq b ev) by done.
  apply (kq_inv_kernel _ (mkSys (delete_box b (poll s)) (held s))); [|apply close_knotes].
  assert (forall b' ev', b' <> b -> boxes (poll s) !! b' = Some ev' -> delete b (boxes (poll s)) !! b' = Some ev') as Hw
    by (intros; by rewrite lookup_delete_ne).
  split; cbn; try done.
  - intros t n b' Hl. destruct (Ht t n b' Hl) as (ev' & H1 & H2). exists ev'. split; [|done]. apply Hw; [|done].
    intros ->. by eapply Hnt.
  - intros b' ev' [Hne Hl]%lookup_delete_Some. destruct (Hb b' ev' Hl) as (H1 & H2 & H3). split; [done|]. split; [done|].
    destruct H3 as [[->|]%elem_of_cons|]; [done|by left|by right].
  - intros key kn Hl. destruct (Hk key kn Hl) as (H1 & ev' & H2 & H3). split; [done|]. exists ev'. split; [|done]. eauto.
  - intros b' Hin. destruct (Hh b' Hin) as [ev' ?]. exists ev'. apply Hw; [congruence|done].
  - intros i j b' ev' H1 H2 [_ Hl]%lookup_delete_Some. eauto.
Qed.

Lemma home_unique fl s t n t' n' b :
  inv fl s -> table t (poll s) !! n = Some (Some b) -> table t' (poll s) !! n' = Some (Some b) -> (t, n) = (t', n').
Proof.
  intros Hi (ev & Hev & <-)%(inv_tables _ _ Hi) (ev' & Hev' & <-)%(inv_tables _ _ Hi). congruence.
Qed.

(** The entry [n] of [t] is cleared, and filled. *)
Lemma kq_inv_vacate fl s t n b :
  inv fl s -> table t (poll s) !! n = Some (Some b) ->
  inv (b :: fl) (mkSys (with_table t (<[n := None]> (table t (poll s))) (poll s)) (held s)).
Proof.
  intros [Ht Hb Hk Hh Hx Hn] Hl. split; cbn; autorewrite with kqueue; try done.
  - intros t' n' b'. autorewrite with kqueue. destruct (decide (t' = t)) as [->|]; [|apply Ht].
    intros [(-> & [=] & _)|[_ Hl']]%list_lookup_insert_Some. by apply Ht.
  - intros b' ev'. autorewrite with kqueue. intros Hev. destruct (Hb b' ev' Hev) as (H1 & H2 & H3). split; [done|].
    split; [done|]. destruct H3 as [?|H3]; [left; by right|]. destruct (decide (b' = b)) as [->|Hne]; [left; by left|right].
    destruct (decide _) as [<-|]; [|done]. rewrite list_lookup_insert_ne; [done|]. intros ->. congruence.
Qed.

Lemma inv_place fl s t n b ev :
  inv (b :: fl) s -> boxes (poll s) !! b = Some ev -> home ev = (t, n) -> table t (poll s) !! n = Some None ->
  inv fl (mkSys (with_table t (<[n := Some b]> (table t (poll s))) (poll s)) (held s)).
Proof.
  intros [Ht Hb Hk Hh Hx Hn] Hev Hhome Hl. pose proof (lookup_lt_Some _ _ _ Hl) as Hlt.
  split; cbn; autorewrite with kqueue; try done.
  - intros t' n' b'. autorewrite with kqueue. destruct (decide (t' = t)) as [->|]; [|apply Ht].
    intros [(-> & [= <-] & _)|[_ Hl']]%list_lookup_insert_Some; [by exists ev|by apply Ht].
  - intros b' ev'. autorewrite with kqueue. intros Hev'. destruct (Hb b' ev' Hev') as (H1 & H2 & H3). split; [done|].
    split; [done|]. destruct H3 as [[->|]%elem_of_cons|H3]; [right|by left|right].
    + assert (ev' = ev) as -> by congruence. rewrite Hhome. cbn. rewrite decide_True by done. by apply list_lookup_insert_eq.
    + destruct (decide _) as [<-|]; [|done]. rewrite list_lookup_insert_ne; [done|]. intros ->. congruence.
Qed.

(** An event that nobody holds is taken out of its table. *)
Lemma kq_inv_take fl s t n :
  inv fl s -> (n < length (table t (poll s)))%nat ->
  (forall b, table t (poll s) !! n = Some (Some b) -> b ∉ held s /\ b ∉ fl) ->
  exists p, take_event owns t n (poll s) = Runs p /\ inv fl (mkSys p (held s)) /\ table t p = <[n := None]> (table t (poll s))
    /\ (forall b, table t (poll s) !! n <> Some (Some b) -> boxes p !! b = boxes (poll s) !! b).
Proof.
  intros Hi Hlt Hfree. unfold take_event. destruct (lookup_lt_is_Some_2 _ _ Hlt) as [[b|] Hl]; rewrite Hl.
  2: { eexists. split; [done|]. destruct s as [p g]; cbn in *. split; [done|]. split; [|done]. by rewrite list_insert_id. }
  destruct (inv_tables _ _ Hi t n b Hl) as (ev & Hev & Hhome). destruct (Hfree b Hl) as [Hnh Hnf]. autorewrite with kqueue.
  rewrite Hev. eexists. split; [done|]. set (e := mkKevent _ _ EV_DELETE _ _ _).
  set (p := with_table t (<[n := None]> (table t (poll s))) (poll s)).
  assert (knotes (kevent_change e (kernel (poll s))).2 = delete (key_of e) (knotes (kernel (poll s)))) as Hd by by apply delete_event.
  set (k := (kevent_change e (kernel (poll s))).2) in *.
  assert (boxes (with_kernel k p) !! b = Some ev) as Hbp by (cbn; unfold p; by autorewrite with kqueue).
  split; [|rewrite (drop_box_eq b ev) by done; split].
  - apply (inv_drop fl (mkSys (with_kernel k p) (held s)) b ev); [|done|done| |].
    + apply (kq_inv_kernel _ (mkSys p (held s))); [by apply kq_inv_vacate|]. unfold p. cbn. autorewrite with kqueue. rewrite Hd.
      apply delete_subseteq.
    + intros t' n'. cbn. rewrite table_with_kernel. unfold p. autorewrite with kqueue.
      destruct (decide (t' = t)) as [->|Hne].
      * intros [(-> & [=] & _)|[Hn Hl']]%list_lookup_insert_Some. pose proof (home_unique _ _ _ _ _ _ _ Hi Hl Hl'). congruence.
      * intros Hl'. pose proof (home_unique _ _ _ _ _ _ _ Hi Hl Hl'). congruence.
    + cbn. rewrite Hd. intros key kn [Hne Hk]%lookup_delete_Some Hu.
      destruct (inv_knotes _ _ Hi key kn Hk) as (_ & ev' & Hev' & Hkey & _). rewrite Hu, Hev in Hev'. injection Hev' as <-. done.
  - change (table t p = <[n := None]> (table t (poll s))). unfold p. autorewrite with kqueue. by rewrite decide_True.
  - intros b' Hb'. cbn. unfold p. autorewrite with kqueue. rewrite lookup_delete_ne; [done|congruence].
Qed.

(** *** Registration *)

(** An event to register in a table of [len] entries. *)
Record to_register (ev : Event H) (len : nat) (trigger : Z) : Prop := mkToRegister {
  reg_filter : kfilter (ev_event ev) = filter_of (ev_kind ev);
  reg_flags : flags (ev_event ev) = flags_of (ev_kind ev);
  reg_fflags : has (fflags (ev_event ev)) NOTE_TRIGGER = false;
  reg_ident : match ev_kind ev with
              | FD | Signal => ident (ev_event ev) = as_usize trigger /\ 0 <= trigger < 2 ^ 31
              | Timer | Notifier => trigger = - Z.of_nat len - 1 /\ Z.of_nat len < 2 ^ 31
              end;
}.

Lemma place_eq ev len trigger : to_register ev len trigger ->
  place (ev_kind ev) (ident (ev_event ev)) len = (trigger, Z.to_nat (index_of (ev_kind ev) trigger))
  /\ - 2 ^ 31 <= trigger < 2 ^ 31 /\ 0 <= index_of (ev_kind ev) trigger.
Proof.
  intros [_ _ _ Hi]. unfold place, index_of. destruct (ev_kind ev); destruct Hi as [Hi Hr].
  - rewrite Hi, raw_usize by lia. rewrite usize_small by lia. split_and!; [done|lia..].
  - rewrite (raw_small (Z.of_nat len)) by lia. rewrite <- Hi, raw_small by lia. split_and!; [f_equal; lia|lia..].
  - rewrite Hi, raw_usize by lia. rewrite usize_small by lia. split_and!; [done|lia..].
  - rewrite (raw_small (Z.of_nat len)) by lia. rewrite <- Hi, raw_small by lia. split_and!; [f_equal; lia|lia..].
Qed.

(** The box of a new event, and the change that adds it. *)
Definition boxed b trigger (ev : Event H) : Event H :=
  let e := ev_event ev in
  mkEvent (mkKevent (as_usize trigger) (kfilter e) (flags e) (fflags e) (data e) b) (ev_handler ev) (ev_kind ev).

Definition addition (e : kevent) : kevent :=
  mkKevent (ident e) (kfilter e) (Z.lor (flags e) EV_ADD) (fflags e) (data e) (udata e).

Lemma boxed_made b trigger ev len : to_register ev len trigger -> well_made b trigger (boxed b trigger ev).
Proof. intros Hr. destruct (place_eq ev len trigger Hr) as (_ & H1 & H2). destruct Hr. by split. Qed.

Lemma flags_of_facts kind :
  has (Z.lor (flags_of kind) EV_ADD) EV_DELETE = false
  /\ has (Z.lor (flags_of kind) EV_ADD) EV_DISABLE = false
  /\ has (Z.lor (flags_of kind) EV_ADD) EV_ADD = true
  /\ has (Z.lor (flags_of kind) EV_ADD) EV_DISPATCH = negb (bool_decide (filter_of kind = EVFILT_USER))
  /\ has (flags_of kind) EV_DELETE = false /\ has (flags_of kind) EV_ADD = false
  /\ has (flags_of kind) EV_DISABLE = false /\ has (flags_of kind) EV_ENABLE = true.
Proof. by destruct kind. Qed.

(** The state in which a new event is added, with its table extended and its box made. *)
Definition prepared (ev : Event H) (trigger : Z) p : EventPoll H K :=
  let t := table_of (ev_kind ev) in
  let index := Z.to_nat (index_of (ev_kind ev) trigger) in
  with_box (next_box p) (boxed (next_box p) trigger ev)
    (with_table t (table t p ++ replicate (S index - length (table t p)) None) p).

Lemma register_eq ev p trigger :
  to_register ev (length (table (table_of (ev_kind ev)) p)) trigger ->
  let t := table_of (ev_kind ev) in
  let index := Z.to_nat (index_of (ev_kind ev) trigger) in
  let b := next_box p in
  register_event owns ev p =
    let '(ok, k) := kevent_change (addition (ev_event (boxed b trigger ev))) (kernel p) in
    let p := with_kernel k (prepared ev trigger p) in
    if ok then
      let^ p := take_event owns t index p in
      let p := if bool_decide (ev_kind ev = Signal) then with_kernel (signal_ignore trigger (kernel p)) p else p in
      Runs (Ok (mkEventRef trigger), with_table t (<[index := Some b]> (table t p)) p)
    else Runs (Err ErrorEventQueue, drop_box owns b p).
Proof.
  intros Hr t index b. unfold register_event. destruct (place_eq ev _ trigger Hr) as (-> & _).
  unfold prepared, with_box. autorewrite with kqueue. done.
Qed.

Lemma inv_prepared ev s trigger :
  inv [] s -> to_register ev (length (table (table_of (ev_kind ev)) (poll s))) trigger ->
  inv [next_box (poll s)] (mkSys (prepared ev trigger (poll s)) (held s)).
Proof.
  intros Hi Hr. unfold prepared. set (t := table_of (ev_kind ev)). set (m := (S _ - _)%nat).
  pose proof (inv_alloc (mkSys (with_table t (table t (poll s) ++ replicate m None) (poll s)) (held s)) trigger) as Ha.
  cbn in Ha. rewrite next_with_table in Ha. apply Ha; [by apply kq_inv_grow|]. by eapply boxed_made.
Qed.

Definition entry p (t : Table) (n : nat) : option ptr := mjoin (table t p !! n).

Lemma kq_entry_Some p t n b : entry p t n = Some b <-> table t p !! n = Some (Some b).
Proof. unfold entry. destruct (table t p !! n) as [[c|]|]; cbn; split; congruence. Qed.

Lemma prepared_entry ev trigger p t n : entry (prepared ev trigger p) t n = entry p t n.
Proof.
  unfold entry, prepared. rewrite table_with_box. autorewrite with kqueue. destruct (decide _) as [->|]; [|done].
  set (l := table _ p). destruct (decide (n < length l)%nat) as [Hn|Hn]; [by rewrite lookup_app_l|].
  rewrite lookup_app_r, (lookup_ge_None_2 l) by lia. destruct (replicate _ _ !! _) as [o|] eqn:E; [|done].
  by apply lookup_replicate in E as [-> _].
Qed.

Lemma prepared_length ev trigger p :
  (Z.to_nat (index_of (ev_kind ev) trigger) < length (table (table_of (ev_kind ev)) (prepared ev trigger p)))%nat.
Proof.
  unfold prepared. rewrite table_with_box. autorewrite with kqueue. rewrite decide_True by done.
  rewrite length_app, length_replicate. lia.
Qed.

Lemma entry_known s t n b : inv [] s -> entry (poll s) t n = Some b -> b <> next_box (poll s).
Proof.
  intros Hi (ev & Hev & _)%kq_entry_Some%(inv_tables _ _ Hi) ->. by rewrite (box_fresh _ _ Hi) in Hev.
Qed.

Lemma prepared_box ev trigger p :
  boxes (prepared ev trigger p) !! next_box p = Some (boxed (next_box p) trigger ev).
Proof. unfold prepared. cbn. apply lookup_insert_eq. Qed.

Lemma kernel_prepared ev trigger p : kernel (prepared ev trigger p) = kernel p.
Proof. unfold prepared. cbn. apply kernel_with_table. Qed.

Lemma next_not_held s : inv [] s -> next_box (poll s) ∉ held s.
Proof. intros Hi [ev Hev]%(inv_held _ _ Hi). by rewrite (box_fresh _ _ Hi) in Hev. Qed.

(** The event is refused. *)
Lemma inv_refused ev s trigger k :
  inv [] s -> to_register ev (length (table (table_of (ev_kind ev)) (poll s))) trigger ->
  knotes k = knotes (kernel (poll s)) ->
  inv [] (mkSys (drop_box owns (next_box (poll s)) (with_kernel k (prepared ev trigger (poll s)))) (held s)).
Proof.
  intros Hi Hr Hk.
  apply (inv_drop [] (mkSys (with_kernel k (prepared ev trigger (poll s))) (held s)) _ (boxed (next_box (poll s)) trigger ev)).
  - apply (kq_inv_kernel _ (mkSys (prepared ev trigger (poll s)) (held s))); [by apply inv_prepared|]. cbn [poll].
    by rewrite Hk, kernel_prepared.
  - apply prepared_box.
  - exact (next_not_held s Hi).
  - intros t n. cbn. rewrite table_with_kernel, <- kq_entry_Some, prepared_entry. intros He. by apply (entry_known s t n _ Hi) in He.
  - cbn. rewrite Hk. intros key kn (_ & ev' & Hev & _)%(inv_knotes _ _ Hi) Hu. rewrite Hu in Hev.
    by rewrite (box_fresh _ _ Hi) in Hev.
Qed.

(** The event is added. *)
Lemma inv_added ev s trigger :
  inv [] s -> to_register ev (length (table (table_of (ev_kind ev)) (poll s))) trigger ->
  let b := next_box (poll s) in
  inv [b] (mkSys (with_kernel (kevent_change (addition (ev_event (boxed b trigger ev))) (kernel (poll s))).2
                    (prepared ev trigger (poll s))) (held s)).
Proof.
  intros Hi Hr b. pose proof (inv_prepared ev s trigger Hi Hr) as Hp.
  pose proof (inv_change _ _ b (boxed b trigger ev) (addition (ev_event (boxed b trigger ev))) Hp) as Hc.
  destruct (flags_of_facts (ev_kind ev)) as (H1 & H2 & H3 & H4 & _). destruct Hr as [Hf Hfl _ _].
  cbn [poll] in Hc. rewrite kernel_prepared in Hc.
  apply Hc; [apply prepared_box|done|done| | |].
  - cbn. by rewrite Hfl.
  - intros _. cbn. by rewrite Hfl, Hf.
  - intros _. exact (next_not_held s Hi).
Qed.

Lemma kq_register_inv ev s trigger :
  inv [] s -> to_register ev (length (table (table_of (ev_kind ev)) (poll s))) trigger ->
  (forall b, entry (poll s) (table_of (ev_kind ev)) (Z.to_nat (index_of (ev_kind ev) trigger)) = Some b -> b ∉ held s) ->
  exists r p, register_event owns ev (poll s) = Runs (r, p) /\ inv [] (mkSys p (held s)).
Proof.
  intros Hi Hr Hfree. rewrite (register_eq ev _ trigger) by done. cbv zeta. set (b := next_box (poll s)).
  set (t := table_of (ev_kind ev)) in *. set (n := Z.to_nat (index_of (ev_kind ev) trigger)) in *.
  pose proof (inv_added ev s trigger Hi Hr) as Ha. cbv zeta in Ha. fold b in Ha.
  pose proof (change_law (addition (ev_event (boxed b trigger ev))) (kernel (poll s))) as Hc.
  destruct (kevent_change _ _) as [[] k]; cbn [snd] in Ha; [|eexists _, _; split; [done|]; by apply inv_refused].
  set (s1 := mkSys (with_kernel k (prepared ev trigger (poll s))) (held s)) in *.
  destruct (kq_inv_take [b] s1 t n Ha) as (p & Hp & Hip & Ht & Hb).
  { apply prepared_length. }
  { intros b'. cbn. rewrite table_with_kernel, <- kq_entry_Some, prepared_entry. intros He. split; [by apply Hfree|].
    rewrite list_elem_of_singleton. by eapply entry_known. }
  cbn [poll s1] in Hp. rewrite Hp. cbn [run_bind]. eexists _, _. split; [done|].
  set (p' := if bool_decide _ then _ else p).
  assert (inv [b] (mkSys p' (held s)) /\ table t p' = table t p /\ boxes p' = boxes p) as (H1 & H2 & H3).
  { unfold p'. destruct (bool_decide _); [|done]. split; [|by destruct t]. apply (kq_inv_kernel _ (mkSys p (held s)) _ Hip). cbn.
    by rewrite signal_law. }
  apply (inv_place [] (mkSys p' (held s)) t n b (boxed b trigger ev)); [done| | |].
  - cbn [poll]. rewrite H3, Hb; [apply prepared_box|]. cbn [s1 poll]. rewrite table_with_kernel, <- kq_entry_Some, prepared_entry.
    intros He. by apply (entry_known s _ _ _ Hi) in He.
  - apply (home_made b trigger). by eapply boxed_made.
  - cbn [poll]. rewrite H2, Ht. apply list_lookup_insert_eq, prepared_length.
Qed.

(** *** The steps of threads *)

(** The entry that a number or a reference stands for. *)
Definition place_of_fd (fd : Z) : Table * nat := if 0 <=? fd then (Events, Z.to_nat fd) else (Custom, Z.to_nat (- fd - 1)).

Definition free s (place : Table * nat) : Prop := forall b, entry (poll s) place.1 place.2 = Some b -> b ∉ held s.

Definition names_notifier p (r : EventRef) : Prop :=
  - 2 ^ 31 <= trigger r < 0
  /\ exists b ev, entry p Custom (Z.to_nat (- trigger r - 1)) = Some b /\ boxes p !! b = Some ev /\ ev_kind ev = Notifier.

Definition admissible (l : Label H K) s : Prop :=
  match l with
  | NewEvent fd _ => 0 <= fd < 2 ^ 31 /\ free s (Events, Z.to_nat fd)
  | NewPeriodic _ secs nanos =>
      0 <= secs /\ 0 <= nanos /\ secs * 1000000000 + nanos < 2 ^ 64 /\ Z.of_nat (length (custom (poll s))) < 2 ^ 31
  | NewNotifier _ => Z.of_nat (length (custom (poll s))) < 2 ^ 31
  | NewSignal sig _ => 0 <= sig < 2 ^ 31 /\ free s (Signals, Z.to_nat sig)
  | Wait => True
  | DropGuard i | UseGuard i => (i < length (held s))%nat
  | CancelGuard i => exists b ev, held s !! i = Some b /\ boxes (poll s) !! b = Some ev /\ (ev_kind ev = FD \/ ev_kind ev = Timer)
  | ClearByFd fd => - 2 ^ 31 <= fd < 2 ^ 31 /\ ((place_of_fd fd).2 < length (table (place_of_fd fd).1 (poll s)))%nat
      /\ free s (place_of_fd fd)
  | Trigger r | Stop r => names_notifier (poll s) r
  | Outside k => knotes k ⊆ knotes (kernel (poll s))
  end.

(** A guard that is given up. *)
Lemma kq_inv_release s i : inv [] s -> inv [] (mkSys (poll s) (remove_nth i (held s))).
Proof.
  intros [Ht Hb Hk Hh Hx Hn]. split; cbn; try done.
  - intros key kn Hl. destruct (Hk key kn Hl) as (H1 & ev & H2 & H3 & H4). split; [done|]. exists ev. split_and!; [done..|].
    intros He Hkind Hin. apply elem_of_remove_nth in Hin. by apply H4.
  - intros b Hin. apply Hh. by eapply elem_of_remove_nth.
  - intros j1 j2 b ev H1 H2 Hev Hkind. apply lookup_remove_nth in H1, H2. pose proof (Hx _ _ _ _ H1 H2 Hev Hkind) as Hj.
    destruct (Nat.ltb_spec j1 i), (Nat.ltb_spec j2 i); lia.
Qed.

Lemma kq_release_free s i b ev :
  inv [] s -> held s !! i = Some b -> boxes (poll s) !! b = Some ev -> ev_kind ev <> Notifier -> b ∉ remove_nth i (held s).
Proof.
  intros Hinv Hi Hev Hn [j Hj]%list_elem_of_lookup. apply lookup_remove_nth in Hj.
  pose proof (inv_exclusive _ s Hinv _ _ _ _ Hi Hj Hev Hn) as Hij. destruct (Nat.ltb_spec j i); lia.
Qed.

Lemma held_box s i : inv [] s -> (i < length (held s))%nat ->
  exists b ev trigger, held s !! i = Some b /\ boxes (poll s) !! b = Some ev /\ well_made b trigger ev.
Proof.
  intros Hi [b Hb]%lookup_lt_is_Some_2. destruct (inv_held _ _ Hi b) as [ev Hev]; [by eapply list_elem_of_lookup_2|].
  destruct (inv_boxes _ _ Hi b ev Hev) as (_ & [trigger Hm] & _). eauto 6.
Qed.

(** A box that a thread gets from the kernel. *)
Lemma inv_hold s b ev k :
  inv [] s -> boxes (poll s) !! b = Some ev -> (ev_kind ev <> Notifier -> b ∉ held s) ->
  (forall key kn, knotes k !! key = Some kn ->
     exists kn0, knotes (kernel (poll s)) !! key = Some kn0 /\ kn_dispatch kn = kn_dispatch kn0 /\ kn_udata kn = kn_udata kn0
       /\ (kn_enabled kn = true -> kn_enabled kn0 = true /\ (ev_kind ev <> Notifier -> kn_udata kn <> b))) ->
  inv [] (mkSys (with_kernel k (poll s)) (held s ++ [b])).
Proof.
  intros [Ht Hb Hk Hh Hx Hn] Hev Hfree Hkn. split; cbn; try done.
  - intros key kn (kn0 & H1 & -> & H2 & H3)%Hkn. destruct (Hk key kn0 H1) as (H4 & ev0 & H5 & H6 & H7). split; [done|].
    exists ev0. rewrite H2. split_and!; [done..|]. intros (H8 & H9)%H3 Hkind [Hin|Heq%list_elem_of_singleton]%elem_of_app.
    + by apply H7.
    + rewrite Heq in H5. rewrite H5 in Hev. injection Hev as ->. rewrite H2 in H9. by apply H9.
  - intros b' [Hin| ->%list_elem_of_singleton]%elem_of_app; [by apply Hh|by eexists].
  - intros i j b' ev' Hi Hj Hev' Hkind.
    apply lookup_snoc_Some in Hi as [[Hi1 Hi]|[-> ->]]; apply lookup_snoc_Some in Hj as [[Hj1 Hj]|[-> Hbb]].
    + by eapply Hx.
    + subst b'. rewrite Hev in Hev'. injection Hev' as ->. destruct (Hfree Hkind). by eapply list_elem_of_lookup_2.
    + rewrite Hev in Hev'. injection Hev' as ->. destruct (Hfree Hkind). by eapply list_elem_of_lookup_2.
    + done.
Qed.

Lemma user_notifier b trigger (ev : Event H) : well_made b trigger ev -> ev_kind ev = Notifier <-> kfilter (ev_event ev) = EVFILT_USER.
Proof. intros [_ _ -> _ _ _]. by destruct (ev_kind ev). Qed.

Lemma kq_wait_inv s : inv [] s ->
  exists r p, queue_wait (poll s) = Runs (r, p)
    /\ inv [] (mkSys p (match r with WaitOk b | WaitEoF b => held s ++ [b] | WaitError => held s end)).
Proof.
  intros Hi. unfold queue_wait. pose proof (wait_law (kernel (poll s))) as Hw.
  destruct (kevent_wait (kernel (poll s))) as [[e|] k]; [|eexists _, _; split; [done|]; apply kq_inv_kernel; [done|by rewrite Hw]].
  destruct Hw as (kn & Hl & He & Hu & _ & Hk). destruct (inv_knotes _ _ Hi _ _ Hl) as (Hd & ev & Hev & Hkey & Hfree).
  destruct (inv_boxes _ _ Hi _ _ Hev) as (Hpos & [tr Hm] & _). rewrite Hu. rewrite bool_decide_false by lia.
  unfold deref. rewrite Hev. cbn [run_bind]. eexists _, _. split; [done|].
  assert (inv [] (mkSys (with_kernel k (poll s)) (held s ++ [kn_udata kn]))) as Hres; [|by destruct (has _ _)].
  apply (inv_hold s _ ev); [done|done|auto|].
  intros key kn' Hl'. rewrite Hk in Hl'. destruct (kn_dispatch kn) eqn:Ed.
  - apply lookup_insert_Some in Hl' as [[<- <-]|[Hne Hl']]; [by exists kn; cbn; rewrite Ed|]. exists kn'. split_and!; [done..|].
    intros He'. split; [done|]. intros _ Hb. destruct (inv_knotes _ _ Hi _ _ Hl') as (_ & ev' & Hev' & Hkey' & _). congruence.
  - exists kn'. split_and!; [done..|]. intros He'. split; [done|]. intros []. apply (user_notifier _ _ _ Hm).
    symmetry in Hd. apply negb_false_iff, bool_decide_eq_true in Hd. by rewrite <- Hkey in Hd.
Qed.

Lemma kq_drop_inv s i b : inv [] s -> held s !! i = Some b ->
  exists p, guard_drop b (poll s) = Runs p /\ inv [] (mkSys p (remove_nth i (held s))).
Proof.
  intros Hi Hb. destruct (held_box s i Hi) as (b' & ev & tr & Hb' & Hev & Hm); [by eapply lookup_lt_Some|].
  rewrite Hb in Hb'. injection Hb' as <-. unfold guard_drop, deref. rewrite Hev. cbn [run_bind]. eexists. split; [done|].
  destruct (flags_of_facts (ev_kind ev)) as (_ & _ & _ & _ & H1 & H2 & _).
  apply (inv_change _ (mkSys (poll s) (remove_nth i (held s))) b ev).
  - by apply kq_inv_release.
  - done.
  - done.
  - apply Hm.
  - by rewrite (made_flags _ _ _ Hm).
  - rewrite (made_flags _ _ _ Hm). congruence.
  - by eapply kq_release_free.
Qed.

Lemma clear_inv s fd :
  inv [] s -> - 2 ^ 31 <= fd < 2 ^ 31 -> ((place_of_fd fd).2 < length (table (place_of_fd fd).1 (poll s)))%nat ->
  free s (place_of_fd fd) -> exists p, clear_event_by_fd owns fd (poll s) = Runs p /\ inv [] (mkSys p (held s)).
Proof.
  intros Hi Hfd Hlt Hf. unfold clear_event_by_fd, place_of_fd in *. destruct (Z.leb_spec 0 fd).
  2: rewrite raw_small, usize_small by lia.
  all: edestruct (kq_inv_take [] s) as (p & Hp & Hip & _); [done|exact Hlt| |by exists p].
  all: intros b Hb%kq_entry_Some; split; [by apply Hf|apply not_elem_of_nil].
Qed.

(** The guard of a descriptor or a timer takes its own event out. *)
Lemma cancel_place s b ev :
  inv [] s -> boxes (poll s) !! b = Some ev -> ev_kind ev = FD \/ ev_kind ev = Timer ->
  guard_cancel owns b (poll s) = take_event owns (home ev).1 (home ev).2 (poll s)
  /\ table (home ev).1 (poll s) !! (home ev).2 = Some (Some b).
Proof.
  intros Hi Hev Hkind. destruct (inv_boxes _ _ Hi b ev Hev) as (_ & [tr Hm] & [[]%elem_of_nil|Hhome]). split; [|done].
  unfold guard_cancel, deref. rewrite Hev. cbn [run_bind]. rewrite (made_ident _ _ _ Hm), raw_usize by apply Hm.
  pose proof (made_index _ _ _ Hm) as H0. pose proof (made_range _ _ _ Hm) as Hr.
  rewrite (home_made _ _ _ Hm). unfold clear_event_by_fd. destruct Hkind as [Hk|Hk]; rewrite Hk in *; cbn in *.
  - by destruct (Z.leb_spec 0 tr); [|lia].
  - destruct (Z.leb_spec 0 tr); [lia|]. by rewrite raw_small, usize_small by lia.
Qed.

Lemma kq_cancel_inv s i b ev :
  inv [] s -> held s !! i = Some b -> boxes (poll s) !! b = Some ev -> ev_kind ev = FD \/ ev_kind ev = Timer ->
  exists p, guard_cancel owns b (poll s) = Runs p /\ inv [] (mkSys p (remove_nth i (held s))).
Proof.
  intros Hi Hb Hev Hkind. destruct (cancel_place s b ev Hi Hev Hkind) as [-> Hhome].
  edestruct (kq_inv_take [] (mkSys (poll s) (remove_nth i (held s)))) as (p & Hp & Hip & _); [by apply kq_inv_release| | |by exists p].
  - by eapply lookup_lt_Some.
  - intros b'. cbn [poll held]. rewrite Hhome. intros [= <-]. split; [|apply not_elem_of_nil]. eapply kq_release_free; [done..|].
    by destruct Hkind as [-> | ->].
Qed.

Lemma notifier_facts s r :
  inv [] s -> names_notifier (poll s) r ->
  exists b ev, notifier_of r (poll s) = Runs ev /\ boxes (poll s) !! b = Some ev /\ ev_kind ev = Notifier
    /\ well_made b (trigger r) ev.
Proof.
  intros Hi (Hr & b & ev & He & Hev & Hk). exists b, ev. unfold notifier_of. rewrite raw_small, usize_small by lia.
  apply kq_entry_Some in He. change (custom (poll s)) with (table Custom (poll s)). rewrite He. unfold deref. rewrite Hev.
  cbn [run_bind]. rewrite bool_decide_true by done. split_and!; [done..|].
  destruct (inv_boxes _ _ Hi b ev Hev) as (_ & [tr Hm] & _). destruct (inv_tables _ _ Hi _ _ _ He) as (ev' & Hev' & Hh).
  rewrite Hev in Hev'. injection Hev' as <-. rewrite (home_made _ _ _ Hm), Hk in Hh. injection Hh as Hh. cbn in Hh.
  pose proof (made_index _ _ _ Hm) as H0. rewrite Hk in H0. cbn in H0. by replace (trigger r) with tr by lia.
Qed.

(** A change of a notifier that is not added or deleted. *)
Lemma notify_inv s r ev e :
  inv [] s -> names_notifier (poll s) r -> notifier_of r (poll s) = Runs ev ->
  key_of e = key_of (ev_event ev) -> udata e = udata (ev_event ev) ->
  has (flags e) EV_DELETE = false -> has (flags e) EV_ADD = false ->
  inv [] (mkSys (with_kernel (kevent_change e (kernel (poll s))).2 (poll s)) (held s)).
Proof.
  intros Hi Hr Hn Hkey Hu Hd Ha. destruct (notifier_facts s r Hi Hr) as (b & ev' & Hn' & Hev & Hk & Hm).
  rewrite Hn in Hn'. injection Hn' as <-. eapply inv_change; [done|exact Hev|done| |done|congruence|congruence].
  rewrite Hu. apply Hm.
Qed.

(** The steps that register an event, with the event and its identifier. *)
Definition registration (l : Label H K) s : option (Event H * Z) :=
  let next := - Z.of_nat (length (custom (poll s))) - 1 in
  match l with
  | NewEvent fd h => Some (mkEvent (mkKevent (as_usize fd) EVFILT_READ ONCE 0 0 0) h FD, fd)
  | NewPeriodic h secs nanos =>
      let data := (secs * 1000000000 + nanos + 2 ^ 63) mod 2 ^ 64 - 2 ^ 63 in
      Some (mkEvent (mkKevent 0 EVFILT_TIMER ONCE NOTE_NSECONDS data 0) h Timer, next)
  | NewNotifier h => Some (mkEvent (mkKevent 0 EVFILT_USER EV_ENABLE 0 0 0) h Notifier, next)
  | NewSignal sig h => Some (mkEvent (mkKevent (as_usize sig) EVFILT_SIGNAL ONCE 0 0 0) h Signal, sig)
  | _ => None
  end.

Lemma registration_exec l s ev tr : admissible l s -> registration l s = Some (ev, tr) ->
  exec owns l s = (let^ r := register_event owns ev (poll s) in Runs (mkSys r.2 (held s)))
  /\ to_register ev (length (table (table_of (ev_kind ev)) (poll s))) tr
  /\ free s (table_of (ev_kind ev), Z.to_nat (index_of (ev_kind ev) tr)).
Proof.
  assert (forall tr', tr' = - Z.of_nat (length (custom (poll s))) - 1 -> free s (Custom, Z.to_nat (- tr' - 1))) as Hc.
  { intros tr' -> b He%kq_entry_Some%lookup_lt_Some. cbn in He. unfold table in He. lia. }
  intros Ha Hr. destruct l as [fd h|h secs nanos|h|sig h| |i|i|i|fd|r|r|k]; try done; cbn in Ha; injection Hr as <- <-.
  - destruct Ha. by split_and!.
  - destruct Ha as (H1 & H2 & H3 & H4). split_and!; [|by split|by apply Hc]. unfold exec, new_periodic_event.
    destruct (Z.leb_spec (2 ^ 64) (secs * 1000000000)); [lia|].
    by destruct (Z.leb_spec (2 ^ 64) (secs * 1000000000 + nanos)); [lia|].
  - split_and!; [done|by split|by apply Hc].
  - destruct Ha. by split_and!.
Qed.

Lemma kq_exec_inv l s : inv [] s -> admissible l s -> exists s', exec owns l s = Runs s' /\ inv [] s'.
Proof.
  intros Hi Ha. destruct (registration l s) as [[ev tr]|] eqn:Hreg.
  { destruct (registration_exec l s ev tr Ha Hreg) as (-> & Hr & Hf).
    destruct (kq_register_inv ev s tr Hi Hr Hf) as (r & p & -> & Hp). by eexists. }
  destruct l as [fd h|h secs nanos|h|sig h| |i|i|i|fd|r|r|k]; try done; cbn in Ha; unfold exec.
  - destruct (kq_wait_inv s Hi) as (r & p & -> & Hp). by eexists.
  - destruct (lookup_lt_is_Some_2 _ _ Ha) as [b Hb]. rewrite Hb. destruct (kq_drop_inv s i b Hi Hb) as (p & -> & Hp). by eexists.
  - destruct Ha as (b & ev & Hb & Hev & Hk). rewrite Hb. destruct (kq_cancel_inv s i b ev Hi Hb Hev Hk) as (p & -> & Hp). by eexists.
  - destruct (held_box s i Hi Ha) as (b & ev & tr & Hb & Hev & _). rewrite Hb. unfold guard_deref, deref. rewrite Hev. by eexists.
  - destruct Ha as (H1 & H2 & H3). destruct (clear_inv s fd Hi H1 H2 H3) as (p & -> & Hp). by eexists.
  - destruct (notifier_facts s r Hi Ha) as (b & ev & Hn & _ & Hk & Hm). unfold trigger_notification. rewrite Hn. eexists.
    split; [done|]. destruct (flags_of_facts (ev_kind ev)) as (_ & _ & _ & _ & H1 & H2 & _).
    eapply notify_inv; [done|done|exact Hn|done|done| |]; cbn; by rewrite (made_flags _ _ _ Hm).
  - destruct (notifier_facts s r Hi Ha) as (b & ev & Hn & _ & Hk & Hm). unfold stop_notification. rewrite Hn. eexists.
    split; [done|]. by eapply notify_inv.
  - eexists. split; [done|]. by apply kq_inv_kernel.
Qed.

Lemma exec_preserves l s s' : inv [] s -> admissible l s -> exec owns l s = Runs s' -> inv [] s'.
Proof. intros Hi Ha He. destruct (kq_exec_inv l s Hi Ha) as (s1 & H1 & H2). rewrite He in H1. by injection H1 as <-. Qed.

Inductive reachable (k : K) : Sys H K -> Prop :=
| reach_new : reachable k (mkSys (event_poll_new k) [])
| reach_step s l s' : reachable k s -> admissible l s -> exec owns l s = Runs s' -> reachable k s'.

Lemma kqueue_inv k s : knotes k = ∅ -> reachable k s -> inv [] s.
Proof.
  intros Hk. induction 1 as [|s l s' Hr IH Ha He].
  - split; cbn; try done; [by intros []|by intros key kn; rewrite Hk|by intros b Hb%elem_of_nil|lia].
  - by eapply exec_preserves.
Qed.

(** The event queue of macOS and the BSDs never uses a freed box and never panics,
    whatever order threads register, wait, drop and cancel their guards in, and what
    descriptors are opened or closed meanwhile; a box that is not that of a notifier has at
    most one guard. Required is that an event is removed or replaced when nobody holds it,
    that notifiers are referred to as such, and that a guard is cancelled only when it is
    that of a descriptor or a timer. *)
Theorem kqueue_safe k s :
  knotes k = ∅ -> reachable k s ->
  (forall l, admissible l s -> exists s', exec owns l s = Runs s')
  /\ (forall b, b ∈ held s -> exists ev, deref b (poll s) = Runs ev)
  /\ (forall i j b ev, held s !! i = Some b -> held s !! j = Some b -> deref b (poll s) = Runs ev ->
      ev_kind ev <> Notifier -> i = j).
Proof.
  intros Hk Hr. pose proof (kqueue_inv k s Hk Hr) as Hinv. split_and!.
  - intros l Hl. destruct (kq_exec_inv l s Hinv Hl) as (s' & He & _). by exists s'.
  - intros b Hb. destruct (inv_held _ s Hinv b Hb) as [ev Hev]. exists ev. unfold deref. by rewrite Hev.
  - intros i j b ev Hi Hj. unfold deref. destruct (boxes (poll s) !! b) as [ev'|] eqn:E; [|done]. intros [= ->] Hn.
    by eapply inv_exclusive.
Qed.

(** *** What a registration leaves with the kernel *)

Definition key_for (kind : EventKind) (trigger : Z) : Z * Filter := (as_usize trigger, filter_of kind).

Lemma usize_inj tr tr' : - 2 ^ 31 <= tr < 2 ^ 31 -> - 2 ^ 31 <= tr' < 2 ^ 31 -> as_usize tr = as_usize tr' -> tr = tr'.
Proof. intros H1 H2 He. rewrite <- (raw_usize tr), <- (raw_usize tr') by lia. by rewrite He. Qed.

Lemma key_made b trigger (ev : Event H) : well_made b trigger ev -> key_of (ev_event ev) = key_for (ev_kind ev) trigger.
Proof. intros [_ Hi Hf _ _ _]. unfold key_of, key_for. by rewrite Hi, Hf. Qed.

Lemma key_for_inj kind tr kind' tr' : - 2 ^ 31 <= tr < 2 ^ 31 -> - 2 ^ 31 <= tr' < 2 ^ 31 ->
  key_for kind tr = key_for kind' tr' -> kind = kind' /\ tr = tr'.
Proof. intros H1 H2 [= Hi Hf]. split; [by destruct kind, kind'|by apply usize_inj]. Qed.

(** The kernel has no event for an entry that is empty. *)
Lemma no_knote s kind trigger :
  inv [] s -> - 2 ^ 31 <= trigger < 2 ^ 31 -> entry (poll s) (table_of kind) (Z.to_nat (index_of kind trigger)) = None ->
  knotes (kernel (poll s)) !! key_for kind trigger = None.
Proof.
  intros Hi Ht He. destruct (knotes _ !! _) as [kn|] eqn:E; [|done].
  destruct (inv_knotes _ _ Hi _ _ E) as (_ & ev & Hev & Hkey & _).
  destruct (inv_boxes _ _ Hi _ _ Hev) as (_ & [tr Hm] & [[]%elem_of_nil|Hh]).
  rewrite (key_made _ _ _ Hm) in Hkey. apply key_for_inj in Hkey as [Hk ->]; [|apply Hm|done].
  rewrite (home_made _ _ _ Hm) in Hh. cbn in Hh. rewrite Hk in Hh. apply kq_entry_Some in Hh. congruence.
Qed.

(** An entry that is not of a timer or notifier has the event of its number. *)
Lemma entry_key s kind trigger b :
  inv [] s -> - 2 ^ 31 <= trigger < 2 ^ 31 -> 0 <= index_of kind trigger -> table_of kind <> Custom ->
  entry (poll s) (table_of kind) (Z.to_nat (index_of kind trigger)) = Some b ->
  exists ev, boxes (poll s) !! b = Some ev /\ key_of (ev_event ev) = key_for kind trigger.
Proof.
  intros Hi Ht Hx Hc (ev & Hev & Hh)%kq_entry_Some%(inv_tables _ _ Hi). exists ev. split; [done|].
  destruct (inv_boxes _ _ Hi _ _ Hev) as (_ & [tr Hm] & _). rewrite (key_made _ _ _ Hm).
  rewrite (home_made _ _ _ Hm) in Hh. injection Hh as Hh1 Hh2. pose proof (made_index _ _ _ Hm) as H0.
  assert (ev_kind ev = kind) as Hk by (by destruct (ev_kind ev), kind). rewrite Hk in *.
  assert (index_of kind tr = index_of kind trigger) as Hi' by lia. f_equal. destruct kind; cbn in Hi', Hc; congruence || lia.
Qed.

Lemma take_knotes p t n b ev p' :
  table t p !! n = Some (Some b) -> boxes p !! b = Some ev -> take_event owns t n p = Runs p' ->
  knotes (kernel p') !! key_of (ev_event ev) = None.
Proof.
  intros Hl Hev. unfold take_event. rewrite Hl. autorewrite with kqueue. rewrite Hev. intros [= <-].
  set (e := mkKevent _ _ EV_DELETE _ _ _). rewrite (drop_box_eq b ev) by (cbn; by rewrite boxes_with_table). cbn.
  eapply lookup_weaken_None; [|apply close_knotes]. rewrite delete_event by done. apply lookup_delete_eq.
Qed.

Lemma added_knote ev s trigger k b :
  inv [] s -> to_register ev (length (table (table_of (ev_kind ev)) (poll s))) trigger ->
  entry (poll s) (table_of (ev_kind ev)) (Z.to_nat (index_of (ev_kind ev) trigger)) = None ->
  knotes k = apply_change (addition (ev_event (boxed b trigger ev))) (knotes (kernel (poll s))) ->
  knotes k !! key_for (ev_kind ev) trigger = Some (mkKnote b true (negb (bool_decide (ev_kind ev = Notifier))) false).
Proof.
  intros Hi Hr He ->. destruct (place_eq _ _ _ Hr) as (_ & Ht & Hx). pose proof (no_knote s _ _ Hi Ht He) as Hn.
  destruct (flags_of_facts (ev_kind ev)) as (H1 & H2 & H3 & H4 & _). destruct Hr as [Hf Hfl Hff _].
  unfold apply_change. cbn. unfold key_of. cbn. rewrite Hf, Hfl, Hff, H1, H2, H3, H4. unfold key_for in *. rewrite Hn.
  rewrite lookup_insert_eq. by destruct (ev_kind ev).
Qed.

Lemma register_knote ev s trigger r p :
  inv [] s -> to_register ev (length (table (table_of (ev_kind ev)) (poll s))) trigger ->
  register_event owns ev (poll s) = Runs (Ok r, p) ->
  knotes (kernel p) !! key_for (ev_kind ev) trigger =
    match entry (poll s) (table_of (ev_kind ev)) (Z.to_nat (index_of (ev_kind ev) trigger)) with
    | None => Some (mkKnote (next_box (poll s)) true (negb (bool_decide (ev_kind ev = Notifier))) false)
    | Some _ => None
    end.
Proof.
  intros Hi Hr. rewrite (register_eq ev _ trigger) by done. cbv zeta.
  pose proof (change_law (addition (ev_event (boxed (next_box (poll s)) trigger ev))) (kernel (poll s))) as Hc.
  destruct (kevent_change _ _) as [[] k]; [|done]. set (t := table_of (ev_kind ev)) in *.
  set (n := Z.to_nat (index_of (ev_kind ev) trigger)) in *. set (p1 := with_kernel k (prepared ev trigger (poll s))).
  destruct (take_event owns t n p1) as [p2| |] eqn:Htk; [|done..]. cbn [run_bind]. intros [= <- <-]. rewrite kernel_with_table.
  match goal with |- knotes (kernel ?q) !! _ = _ => assert (knotes (kernel q) = knotes (kernel p2)) as -> end.
  { destruct (bool_decide _); [apply signal_law|done]. }
  assert (entry p1 t n = entry (poll s) t n) as He1 by apply prepared_entry.
  destruct (entry (poll s) t n) as [b|] eqn:He.
  - destruct (place_eq _ _ _ Hr) as (_ & Ht & Hx). destruct (entry_key s (ev_kind ev) trigger b Hi Ht Hx) as (ev' & Hev & <-).
    { intros Hcu. apply kq_entry_Some, lookup_lt_Some in He. pose proof (reg_ident _ _ _ Hr) as Hid. unfold n, t in He, Hid.
      destruct (ev_kind ev); try done; cbn in He; destruct Hid as [-> _]; cbn in He; lia. }
    { done. }
    eapply take_knotes; [by apply kq_entry_Some| |exact Htk]. unfold p1. cbn. rewrite lookup_insert_ne; [by rewrite boxes_with_table|].
    intros <-. by apply (entry_known s t n _ Hi) in He.
  - assert (table t p1 !! n = Some None) as Hl.
    { destruct (lookup_lt_is_Some_2 (table t p1) n) as [[b|] Hl]; [apply prepared_length| |done].
      apply kq_entry_Some in Hl. congruence. }
    unfold take_event in Htk. rewrite Hl in Htk. injection Htk as <-. by eapply added_knote.
Qed.

(** A descriptor that has no event gets one that is armed. For a descriptor that has one,
    the call succeeds, but the kernel is left without an event for the descriptor: the new
    event takes the place of the old one in the kernel, and is then deleted as the old
    one. *)
Theorem new_event_outcome k s fd h r p :
  knotes k = ∅ -> reachable k s -> 0 <= fd < 2 ^ 31 -> new_event owns fd h (poll s) = Runs (Ok r, p) ->
  knotes (kernel p) !! (as_usize fd, EVFILT_READ) =
    match entry (poll s) Events (Z.to_nat fd) with
    | None => Some (mkKnote (next_box (poll s)) true true false)
    | Some _ => None
    end.
Proof.
  intros Hk Hr Hfd Hn. pose proof (kqueue_inv k s Hk Hr) as Hi.
  exact (register_knote (mkEvent (mkKevent (as_usize fd) EVFILT_READ ONCE 0 0 0) h FD) s fd r p Hi ltac:(by split) Hn).
Qed.

(** Cancelling the guard of a signal removes the event of the descriptor that has the
    number of the signal, or panics if there is no entry for it; the event of the signal
    stays. *)
Theorem signal_cancel k s b ev :
  knotes k = ∅ -> reachable k s -> b ∈ held s -> deref b (poll s) = Runs ev -> ev_kind ev = Signal ->
  let sig := ident (ev_event ev) in
  (Z.of_nat (length (events (poll s))) <= sig -> guard_cancel owns b (poll s) = Panics)
  /\ (sig < Z.of_nat (length (events (poll s))) -> free s (Events, Z.to_nat sig) ->
      exists p, guard_cancel owns b (poll s) = Runs p /\ entry p Events (Z.to_nat sig) = None
        /\ entry p Signals (Z.to_nat sig) = Some b).
Proof.
  intros Hk Hr Hb Hd Hkind sig. pose proof (kqueue_inv k s Hk Hr) as Hi.
  unfold guard_cancel. rewrite Hd. cbn [run_bind]. unfold deref in Hd.
  destruct (boxes (poll s) !! b) as [ev'|] eqn:Hev; [|done]. injection Hd as ->.
  destruct (inv_boxes _ _ Hi b ev Hev) as (_ & [tr Hm] & [[]%elem_of_nil|Hh]).
  rewrite (home_made _ _ _ Hm), Hkind in Hh. cbn in Hh.
  pose proof (made_index _ _ _ Hm) as H0. rewrite Hkind in H0. cbn in H0. pose proof (made_range _ _ _ Hm) as Hrg.
  assert (sig = tr) as Hs by (unfold sig; rewrite (made_ident _ _ _ Hm); apply usize_small; lia).
  fold sig. rewrite Hs in *. rewrite raw_small by done. unfold clear_event_by_fd. rewrite Zle_imp_le_bool by done. split.
  - intros Hle. unfold take_event. rewrite (lookup_ge_None_2 (table Events (poll s))); [done|]. unfold table. lia.
  - intros Hlt Hf. destruct (kq_inv_take [] s Events (Z.to_nat tr) Hi) as (p & Hp & Hip & Ht & Hbx).
    { unfold table. lia. }
    { intros b' Hb'%kq_entry_Some. split; [by apply Hf|apply not_elem_of_nil]. }
    exists p. split_and!; [done| |].
    + unfold entry. rewrite Ht, list_lookup_insert_eq; [done|unfold table; lia].
    + assert (boxes p !! b = Some ev) as Hbp.
      { rewrite Hbx; [done|]. intros Hl. pose proof (home_unique _ _ _ _ _ _ _ Hi Hl Hh). done. }
      destruct (inv_boxes _ _ Hip b ev Hbp) as (_ & _ & [[]%elem_of_nil|Hh']). apply kq_entry_Some.
      rewrite (home_made _ _ _ Hm), Hkind in Hh'. exact Hh'.
Qed.

(** *** Notifications *)

(** The notifier [r] is triggered and enabled. *)
Definition raised (r : EventRef) (k : K) : Prop :=
  exists kn, knotes k !! key_for Notifier (trigger r) = Some kn /\ kn_enabled kn = true /\ kn_triggered kn = true.

Lemma change_raised r e k :
  has (flags e) EV_DELETE = false /\ has (flags e) EV_DISABLE = false \/ key_of e <> key_for Notifier (trigger r) ->
  raised r k -> raised r (kevent_change e k).2.
Proof.
  intros He (kn & Hl & Hen & Htr). unfold raised. pose proof (change_law e k) as Hc.
  destruct (kevent_change e k) as [[] k']; cbn; rewrite Hc; [|eauto]. unfold apply_change.
  destruct (decide (key_of e = key_for Notifier (trigger r))) as [Hkey|Hne].
  - destruct He as [[H1 H2]|]; [|done]. rewrite H1, H2, Hkey, Hl, lookup_insert_eq, Hen, Htr. eexists. split; [done|]. cbn.
    by rewrite !orb_true_r.
  - exists kn. split; [|done]. destruct (has _ EV_DELETE); [by rewrite lookup_delete_ne|].
    destruct (_ !! key_of e); [by rewrite lookup_insert_ne|]. destruct (has _ EV_ADD); [by rewrite lookup_insert_ne|done].
Qed.

Lemma close_raised r ev k : raised r k -> raised r (close_of ev k).
Proof.
  intros (kn & Hl & H1). exists kn. split; [|done]. unfold close_of. destruct (_ && _); [|done]. rewrite close_law.
  by rewrite lookup_delete_ne.
Qed.

(** An event other than that of the notifier is taken out of its table. *)
Lemma take_raised r p t n p' :
  take_event owns t n p = Runs p' -> raised r (kernel p) ->
  (forall b ev, table t p !! n = Some (Some b) -> boxes p !! b = Some ev -> key_of (ev_event ev) <> key_for Notifier (trigger r)) ->
  raised r (kernel p').
Proof.
  unfold take_event. intros Hp Hr Hk. destruct (table t p !! n) as [[b|]|] eqn:Hl; [|by injection Hp as <-|done].
  rewrite boxes_with_table in Hp. destruct (boxes p !! b) as [ev|] eqn:Hev; [|done]. injection Hp as <-.
  rewrite (drop_box_eq b ev) by (cbn; by rewrite boxes_with_table). cbn. apply close_raised, change_raised.
  - right. by eapply Hk.
  - by rewrite kernel_with_table.
Qed.

Lemma other_key fl s t n b ev r :
  inv fl s -> table t (poll s) !! n = Some (Some b) -> boxes (poll s) !! b = Some ev -> - 2 ^ 31 <= trigger r < 0 ->
  (t, n) <> (Custom, Z.to_nat (- trigger r - 1)) -> key_of (ev_event ev) <> key_for Notifier (trigger r).
Proof.
  intros Hi Hl Hev Hr Hne Hkey. destruct (inv_boxes _ _ Hi b ev Hev) as (_ & [tr Hm] & _).
  destruct (inv_tables _ _ Hi _ _ _ Hl) as (ev' & Hev' & Hh). rewrite Hev in Hev'. injection Hev' as <-.
  rewrite (key_made _ _ _ Hm) in Hkey. apply key_for_inj in Hkey as [Hk Htr]; [|apply Hm|lia].
  apply Hne. by rewrite <- Hh, (home_made _ _ _ Hm), Hk, Htr.
Qed.

Lemma register_raised ev s trigger r q p :
  inv [] s -> to_register ev (length (table (table_of (ev_kind ev)) (poll s))) trigger ->
  register_event owns ev (poll s) = Runs (q, p) -> - 2 ^ 31 <= Kqueue.trigger r < 0 -> raised r (kernel (poll s)) ->
  raised r (kernel p).
Proof.
  intros Hi Hr. rewrite (register_eq ev _ trigger) by done. cbv zeta. intros Hp Htr Hra.
  pose proof (inv_added ev s trigger Hi Hr) as Ha. cbv zeta in Ha.
  destruct (flags_of_facts (ev_kind ev)) as (H1 & H2 & _).
  apply (change_raised r (addition (ev_event (boxed (next_box (poll s)) trigger ev)))) in Hra.
  2: { left. cbn. by rewrite (reg_flags _ _ _ Hr). }
  destruct (kevent_change _ _) as [ok k]. cbn [snd] in *. set (p1 := with_kernel k (prepared ev trigger (poll s))) in *.
  destruct ok.
  2: { injection Hp as <- <-. rewrite (drop_box_eq _ _ _ (prepared_box ev trigger (poll s) : boxes p1 !! _ = _)).
       by apply close_raised. }
  set (t := table_of (ev_kind ev)) in *. set (n := Z.to_nat (index_of (ev_kind ev) trigger)) in *.
  destruct (take_event owns t n p1) as [p2| |] eqn:Htk; [|done..]. cbn [run_bind] in Hp. injection Hp as <- <-.
  assert (raised r (kernel p2)) as H3.
  { eapply take_raised; [exact Htk|done|]. intros b ev' Hl Hev'. eapply (other_key _ _ _ _ b ev' r Ha Hl Hev' Htr).
    intros [= Hct Hcn]. assert (entry (poll s) t n = Some b) as He%kq_entry_Some%lookup_lt_Some.
    { rewrite <- (prepared_entry ev trigger). by apply kq_entry_Some. }
    pose proof (reg_ident _ _ _ Hr) as Hid. unfold n, t in He, Hid.
    destruct (ev_kind ev); try done; cbn in He; destruct Hid as [-> _]; cbn in He; lia. }
  rewrite kernel_with_table. destruct (bool_decide _); [|done]. destruct H3 as (kn & Hl & H3). exists kn. split; [|done]. cbn.
  by rewrite signal_law.
Qed.

(** Nothing but stopping or clearing the notifier ends a notification. *)
Definition keeps (r : EventRef) (l : Label H K) s : Prop :=
  match l with
  | Stop r' => trigger r' <> trigger r
  | ClearByFd fd => fd <> trigger r
  | Outside k => knotes k !! key_for Notifier (trigger r) = knotes (kernel (poll s)) !! key_for Notifier (trigger r)
  | _ => True
  end.

Lemma wait_raised s r q p : queue_wait (poll s) = Runs (q, p) -> inv [] s -> raised r (kernel (poll s)) -> raised r (kernel p).
Proof.
  unfold queue_wait. intros Hq Hi (kn & Hl & Hen & Htr). pose proof (wait_law (kernel (poll s))) as Hw. unfold raised.
  destruct (kevent_wait (kernel (poll s))) as [[e|] k].
  2: { injection Hq as <- <-. cbn. rewrite Hw. eauto. }
  destruct Hw as (kn' & Hl' & _ & _ & _ & Hk). destruct (bool_decide _); [done|].
  destruct (deref (udata e) (poll s)); [|done..]. injection Hq as _ <-. cbn. rewrite Hk. exists kn. split; [|done].
  destruct (kn_dispatch kn') eqn:Ed; [|done]. rewrite lookup_insert_ne; [done|]. intros Hkey.
  destruct (inv_knotes _ _ Hi _ _ Hl') as (Hd & _). by rewrite Hkey, Ed in Hd.
Qed.

Lemma clear_raised s fd r p :
  inv [] s -> - 2 ^ 31 <= fd < 2 ^ 31 -> fd <> trigger r -> - 2 ^ 31 <= trigger r < 0 ->
  clear_event_by_fd owns fd (poll s) = Runs p -> raised r (kernel (poll s)) -> raised r (kernel p).
Proof.
  intros Hi Hfd Hne Htr. unfold clear_event_by_fd. destruct (Z.leb_spec 0 fd) as [Hpos|Hneg].
  2: rewrite raw_small, usize_small by lia.
  all: intros Ht Hra; eapply take_raised; [exact Ht|done|]; intros b ev Hl Hev; eapply other_key; [done|exact Hl|done|done|].
  - done.
  - intros [= Heq]. lia.
Qed.

Lemma cancel_raised s b ev r p :
  inv [] s -> boxes (poll s) !! b = Some ev -> ev_kind ev = FD \/ ev_kind ev = Timer -> - 2 ^ 31 <= trigger r < 0 ->
  guard_cancel owns b (poll s) = Runs p -> raised r (kernel (poll s)) -> raised r (kernel p).
Proof.
  intros Hi Hev Hkind Htr Hc Hra. destruct (cancel_place s b ev Hi Hev Hkind) as [Hg Hl].
  rewrite Hg in Hc. eapply take_raised; [exact Hc|done|]. intros b' ev'. rewrite Hl. intros [= <-]. rewrite Hev. intros [= <-].
  destruct (inv_boxes _ _ Hi b ev Hev) as (_ & [tr Hm] & _). rewrite (key_made _ _ _ Hm).
  intros [Hk _]%key_for_inj; [|apply Hm|lia]. by destruct Hkind as [Hk'|Hk']; rewrite Hk' in Hk.
Qed.

Lemma step_raised r l s s' :
  inv [] s -> admissible l s -> keeps r l s -> - 2 ^ 31 <= trigger r < 0 -> exec owns l s = Runs s' ->
  raised r (kernel (poll s)) -> raised r (kernel (poll s')).
Proof.
  intros Hi Ha Hk Htr He Hra. destruct (registration l s) as [[ev tr]|] eqn:Hreg.
  { destruct (registration_exec l s ev tr Ha Hreg) as (Hx & Hr & _). rewrite Hx in He.
    destruct (register_event owns ev (poll s)) as [[q p]| |] eqn:Hn; [|done..]. injection He as <-. by eapply register_raised. }
  destruct l as [fd h|h secs nanos|h|sig h| |i|i|i|fd|r'|r'|k]; try done; cbn in Ha, Hk; unfold exec in He.
  - destruct (queue_wait (poll s)) as [[q p]| |] eqn:Hq; [|done..]. injection He as <-. by eapply wait_raised.
  - destruct (held_box s i Hi Ha) as (b & ev & tr & Hb & Hev & Hm). rewrite Hb in He. unfold guard_drop, deref in He.
    rewrite Hev in He. injection He as <-. apply change_raised; [|done]. left. rewrite (made_flags _ _ _ Hm).
    by destruct (ev_kind ev).
  - destruct Ha as (b & ev & Hb & Hev & Hkind). rewrite Hb in He. destruct (guard_cancel owns b (poll s)) as [p| |] eqn:Hc; [|done..].
    injection He as <-. by eapply cancel_raised.
  - destruct (held_box s i Hi Ha) as (b & ev & tr & Hb & Hev & Hm). rewrite Hb in He. unfold guard_deref, deref in He.
    rewrite Hev in He. by injection He as <-.
  - destruct (clear_event_by_fd _ _ _) as [p| |] eqn:Hc; [|done..]. injection He as <-. destruct Ha as [Ha _].
    by eapply clear_raised.
  - destruct (notifier_facts s r' Hi Ha) as (b & ev & Hn & _ & Hkind & Hm). unfold trigger_notification in He.
    rewrite Hn in He. injection He as <-. apply change_raised; [|done]. left. cbn. rewrite (made_flags _ _ _ Hm).
    by destruct (ev_kind ev).
  - destruct (notifier_facts s r' Hi Ha) as (b & ev & Hn & _ & Hkind & Hm). unfold stop_notification in He.
    rewrite Hn in He. injection He as <-. apply change_raised; [|done]. right. unfold key_of. cbn.
    change (key_of (ev_event ev) <> key_for Notifier (trigger r)). rewrite (key_made _ _ _ Hm).
    intros [_ Heq]%key_for_inj; [done|apply Hm|lia].
  - injection He as <-. unfold raised in *. cbn. by rewrite Hk.
Qed.

Definition quiet_step (r : EventRef) s s' : Prop := exists l, admissible l s /\ keeps r l s /\ exec owns l s = Runs s'.

(** A notification reaches every thread that waits: once the notifier is triggered it
    stays triggered and enabled, whatever the threads do with it and with other events,
    until it is stopped or cleared. *)
Theorem notification_stays k s r kn s1 s2 :
  knotes k = ∅ -> reachable k s -> names_notifier (poll s) r ->
  knotes (kernel (poll s)) !! key_for Notifier (trigger r) = Some kn ->
  exec owns (Trigger r) s = Runs s1 -> rtc (quiet_step r) s1 s2 ->
  raised r (kernel (poll s2)).
Proof.
  intros Hk Hr Hn Hkn He Hst. pose proof (kqueue_inv k s Hk Hr) as Hi.
  assert (inv [] s1) as Hi1 by (exact (exec_preserves (Trigger r) s s1 Hi Hn He)).
  assert (raised r (kernel (poll s1))) as H1.
  { destruct (notifier_facts s r Hi Hn) as (b & ev & Hnf & _ & Hkind & Hm). unfold exec, trigger_notification in He.
    rewrite Hnf in He. injection He as <-. cbn [poll with_kernel kernel]. set (e := mkKevent _ _ _ NOTE_TRIGGER _ _).
    assert (key_of e = key_for Notifier (trigger r)) as Hkey by (rewrite <- Hkind; exact (key_made _ _ _ Hm)).
    assert (flags e = EV_ENABLE) as Hf by (cbn; by rewrite (made_flags _ _ _ Hm), Hkind).
    pose proof (change_law e (kernel (poll s))) as Hc. pose proof (existing_law e (kernel (poll s))) as Hx.
    rewrite Hkey, Hkn, Hf in Hx. destruct (kevent_change e _) as [ok k']. cbn in Hx. rewrite Hx in Hc by by eexists.
    unfold raised. cbn. rewrite Hc. unfold apply_change. rewrite Hf, Hkey, Hkn. change (has EV_ENABLE EV_DELETE) with false.
    cbv iota. rewrite lookup_insert_eq. by eexists. }
  clear - Hi1 H1 Hst Hn KL. destruct Hn as [Htr _]. induction Hst as [|s1 s1' s2 (l & Ha & Hk & He) _ IH]; [done|].
  apply IH; [by eapply exec_preserves|]. by eapply step_raised.
Qed.

(** What a thread gets is the address of an enabled event. *)
Lemma wait_delivers p q p' b :
  queue_wait p = Runs (q, p') -> q = WaitOk b \/ q = WaitEoF b ->
  exists key kn, knotes (kernel p) !! key = Some kn /\ kn_enabled kn = true /\ kn_udata kn = b.
Proof.
  unfold queue_wait. intros Hq Hb. pose proof (wait_law (kernel p)) as Hw. destruct (kevent_wait (kernel p)) as [[e|] k].
  2: { injection Hq as <- _. by destruct Hb. }
  destruct Hw as (kn & Hl & Hen & Hu & _). exists (key_of e), kn. split_and!; [done..|]. rewrite <- Hu.
  destruct (bool_decide _); [done|]. destruct (deref (udata e) p); [|done..]. injection Hq as <- _.
  destruct (has _ _), Hb; congruence.
Qed.

(** A notifier that was stopped is not delivered to the next thread that waits. *)
Theorem notification_stops k s r s1 b q p :
  knotes k = ∅ -> reachable k s -> names_notifier (poll s) r -> exec owns (Stop r) s = Runs s1 ->
  entry (poll s1) Custom (Z.to_nat (- trigger r - 1)) = Some b ->
  queue_wait (poll s1) = Runs (q, p) -> ~ (q = WaitOk b \/ q = WaitEoF b).
Proof.
  intros Hk Hr Hn He Hb Hq Hd. pose proof (kqueue_inv k s Hk Hr) as Hi.
  assert (inv [] s1) as Hi1 by exact (exec_preserves (Stop r) s s1 Hi Hn He).
  destruct (wait_delivers _ _ _ _ Hq Hd) as (key & kn & Hl & Hen & Hu).
  destruct (inv_knotes _ _ Hi1 _ _ Hl) as (_ & ev' & Hev' & Hkey' & _). rewrite Hu in Hev'.
  destruct (notifier_facts s r Hi Hn) as (b0 & ev & Hnf & Hev & Hkind & Hm). unfold exec, stop_notification in He.
  rewrite Hnf in He. injection He as <-. set (e := mkKevent _ _ EV_DISABLE _ _ _) in *. cbn in Hev', Hl.
  assert (b = b0) as ->.
  { destruct (inv_boxes _ _ Hi _ _ Hev) as (_ & _ & [[]%elem_of_nil|Hh]). rewrite (home_made _ _ _ Hm), Hkind in Hh.
    apply kq_entry_Some in Hb. cbn [poll] in Hb. rewrite table_with_kernel in Hb. cbn in Hh. congruence. }
  rewrite Hev in Hev'. injection Hev' as <-. change (key_of e = key) in Hkey'. subst key.
  pose proof (change_law e (kernel (poll s))) as Hc. pose proof (existing_law e (kernel (poll s))) as Hx.
  destruct (kevent_change e (kernel (poll s))) as [[] k1]; cbn in Hl, Hx; rewrite Hc in Hl; [|discriminate Hx; by eexists].
  unfold apply_change in Hl. change (has (flags e) EV_DELETE) with false in Hl. change (has (flags e) EV_ADD) with false in Hl.
  cbv iota in Hl. destruct (knotes (kernel (poll s)) !! key_of e) as [kn0|] eqn:E; [|congruence].
  rewrite lookup_insert_eq in Hl. by injection Hl as <-.
Qed.
End Safety.

(** ** A kernel

    It delivers the first event that is enabled. *)

Abbreviation ToyKqueue := (gmap (Z * Filter) Knote) (only parsing).

Definition deliverable (x : (Z * Filter) * Knote) : bool :=
  kn_enabled x.2 && (negb (bool_decide (x.1.2 = EVFILT_USER)) || kn_triggered x.2).

#[local] Instance toy_kqueue : Kqueue ToyKqueue := {|
  kevent_change e m :=
    if bool_decide (is_Some (m !! key_of e)) || has (flags e) EV_ADD then (true, apply_change e m) else (false, m);
  kevent_wait m :=
    match list_find deliverable (map_to_list m) with
    | Some (_, (key, kn)) =>
        (Some (mkKevent key.1 key.2 0 0 0 (kn_udata kn)),
         if kn_dispatch kn then <[key := mkKnote (kn_udata kn) false true (kn_triggered kn)]> m else m)
    | None => (None, m)
    end;
  signal_ignore _ m := m;
  fd_close fd m := delete (as_usize fd, EVFILT_READ) m
|}.

#[local] Instance toy_view : KqueueView ToyKqueue := {| knotes m := m |}.

#[local] Instance toy_kqueue_laws : KqueueLaws ToyKqueue.
Proof.
  split.
  - intros e k. cbn. by destruct (_ || _).
  - intros e k He _. cbn. by rewrite bool_decide_true.
  - intros k. cbn. destruct (list_find deliverable (map_to_list k)) as [[i [[n f] kn]]|] eqn:E; [|done].
    apply list_find_Some in E as (Hl & Hd & _). exists kn. apply list_elem_of_lookup_2, elem_of_map_to_list in Hl.
    unfold deliverable in Hd. cbn in Hd. apply Is_true_eq_true, andb_true_iff in Hd as [H1 H2]. split_and!; [done..| |done].
    cbn. intros ->. by rewrite bool_decide_true in H2.
  - done.
  - done.
Qed.

(** An event is registered for descriptor 3 and triggered. *)
Lemma kqueue_safe_witness : exists s : Sys unit ToyKqueue,
  held s = [1%nat]
  /\ (forall l, admissible l s -> exists s', exec (fun _ => false) l s = Runs s')
  /\ (forall b, b ∈ held s -> exists ev, deref b (poll s) = Runs ev).
Proof.
  assert (exists s : Sys unit ToyKqueue, reachable (fun _ => false) ∅ s /\ held s = [1%nat]) as (s & Hr & Hs).
  { eexists. split.
    - eapply (reach_step _ _ _ Wait); [eapply (reach_step _ _ _ (NewEvent 3 tt)); [apply reach_new| |]| |].
      + split; [lia|]. by intros b.
      + vm_compute. reflexivity.
      + exact I.
      + vm_compute. reflexivity.
    - reflexivity. }
  exists s. split; [exact Hs|]. destruct (kqueue_safe (fun _ => false) ∅ s) as (H1 & H2 & _); [reflexivity|exact Hr|]. by split.
Defined.

(** The second event for descriptor 3 is lost. *)
Lemma new_event_outcome_witness : exists (s : Sys unit ToyKqueue) r p,
  new_event (fun _ => false) 3 tt (poll s) = Runs (Ok r, p) /\ knotes (kernel p) !! (as_usize 3, EVFILT_READ) = None.
Proof.
  assert (exists s : Sys unit ToyKqueue, reachable (fun _ => false) ∅ s /\ entry (poll s) Events 3 = Some 1%nat
    /\ exists r p, new_event (fun _ => false) 3 tt (poll s) = Runs (Ok r, p)) as (s & Hr & He & r & p & Hn).
  { eexists. split.
    - eapply (reach_step _ _ _ (NewEvent 3 tt)); [apply reach_new| |].
      + split; [lia|]. by intros b.
      + vm_compute. reflexivity.
    - split; [reflexivity|]. eexists _, _. vm_compute. reflexivity. }
  exists s, r, p. split; [exact Hn|].
  rewrite (new_event_outcome (fun _ => false) ∅ s 3 tt r p); [by change (Z.to_nat 3) with 3%nat; rewrite He|reflexivity|exact Hr|lia|exact Hn].
Defined.

(** A notifier that is registered is there to be triggered. *)
Lemma toy_notifier : exists s s1 kn,
  reachable (H := unit) (fun _ => false) ∅ s /\ names_notifier (poll s) (mkEventRef (-1))
  /\ knotes (kernel (poll s)) !! key_for Notifier (-1) = Some kn
  /\ exec (fun _ => false) (Trigger (mkEventRef (-1))) s = Runs s1.
Proof.
  set (m := exec (fun _ => false) (NewNotifier tt) (mkSys (event_poll_new (∅ : ToyKqueue)) [])).
  assert (match m with
          | Runs s =>
              match entry (poll s) Custom 0 with
              | Some b =>
                  match boxes (poll s) !! b with Some ev => bool_decide (ev_kind ev = Notifier) | None => false end
              | None => false
              end && bool_decide (is_Some (knotes (kernel (poll s)) !! key_for Notifier (-1)))
          | _ => false
          end = true) as Hm by (vm_compute; reflexivity).
  destruct m as [s| |] eqn:Es; [|done..]. apply andb_true_iff in Hm as [Hb [kn Hkn]%bool_decide_eq_true].
  assert (reachable (fun _ => false) ∅ s) as Hr by (eapply (reach_step _ _ _ (NewNotifier tt)); [apply reach_new|cbn; lia|exact Es]).
  assert (names_notifier (poll s) (mkEventRef (-1))) as Hn.
  { split; [cbn; lia|]. destruct (entry (poll s) Custom 0) as [b|] eqn:Ee; [|done].
    destruct (boxes (poll s) !! b) as [ev|] eqn:Ev; [|done]. apply bool_decide_eq_true in Hb. by exists b, ev. }
  destruct (kq_exec_inv (fun _ => false) (Trigger (mkEventRef (-1))) s) as (s1 & Hs1 & _); [by eapply kqueue_inv|done|].
  by exists s, s1, kn.
Qed.

Lemma notification_stays_witness : exists s : Sys unit ToyKqueue, raised (mkEventRef (-1)) (kernel (poll s)).
Proof.
  destruct toy_notifier as (s & s1 & kn & Hr & Hn & Hkn & He). exists s1.
  exact (notification_stays (fun _ => false) ∅ s _ kn s1 s1 eq_refl Hr Hn Hkn He (rtc_refl _ _)).
Defined.
