(* ===== verification/Startup.v ===== *)
(** * The start and the end of the process ([boringtun-cli/src/main.rs], [device/mod.rs],
    [device/api.rs])

    [main] creates the device, tells the process that started it how that went, gives up
    its privileges, starts its threads and waits for them. The device is created on the
    event queue of Epoll, with the interface of Unix and the sockets of the listener, on one
    kernel. What else [main] does to the system is an [Op]; the record of these is part of
    the state. What the command line gives is an argument. Linux
    only: on Darwin the queue is that of Kqueue. *)

From Stdlib Require Import ZArith Lia.
From Stdlib Require Strings.String.
From stdpp Require Import base numbers list option gmap.
From S2P Require Import Prelude Effects Clock Crypto RustText Utf8 NetText Eip3009 Settlement AllowedIps Device DeviceHandlers Registration Unix Epoll.

Import Stdlib.Strings.String.StringSyntax.

Local Open Scope Z_scope.

(** ** Calls of the system *)

Inductive Thread :=
| Worker (i : nat)
| HttpApi (st : RegistrationState) (bind : bytes)
| Reaper (st : RegistrationState)
| WsProxy (bind : bytes) (wg_port : Z)
| WsBridge (local_port : Z) (url : bytes).

Inductive Op :=
| OpEpollCreate
| OpCreateDir (path : bytes)
| OpChown (path : bytes) (uid gid : Z)
| OpRemove (path : bytes)
| OpExists (path : bytes)
| OpBind (path : bytes)                  (* [UnixListener::bind]: the descriptor *)
| OpCreateLog (path : bytes)
| OpDaemonize                            (* whether it succeeds, in the process that goes on *)
| OpSend (b : byte)                      (* to the process that waits *)
| OpSpawn (t : Thread)
| OpReadDir (path : bytes).              (* names, in some order *)

Definition answer (op : Op) : Type :=
  match op with
  | OpCreateDir _ | OpChown _ _ _ | OpRemove _ => unit
  | OpExists _ | OpEpollCreate | OpCreateLog _ | OpDaemonize | OpSend _ | OpSpawn _ => bool
  | OpBind _ => option Z
  | OpReadDir _ => option (list bytes)
  end.

Abbreviation Process := (Machine answer).
Abbreviation Event := (Effects.Event answer).

(** ** Events of the device *)

(** The closures, with what they capture, and the signal they are for. A socket that only
    the closure holds is closed with it. *)
Inductive Handler :=
| ApiListener (fd : Z)
| ApiStream (fd : Z)
| MonitorSocket (path : bytes)
| ExitOnSignal (signal : Z)
| ReadIface (fd : Z)
| ReadUdp
| YieldLoop
| ExitLoop
| ResetLimiter
| PeerTimers.

Definition owns (h : Handler) : bool := match h with ApiListener _ | ApiStream _ | ReadUdp => true | _ => false end.

Record DeviceConfig := mkDeviceConfig {
  n_threads : nat;
  cfg_connected_socket : bool;
  use_multi_queue : bool;
  cfg_uapi_fd : Z;
}.

Definition device_config_default : DeviceConfig := mkDeviceConfig 4 true true (-1).

Inductive StartError := StartTun (e : TunError) | StartQueue | StartListen | StartApiSocket.

(** The part of [Device] that belongs to the system. *)
Record Dev := mkDev {
  dev_iface : LinuxTun;
  dev_mtu : Z;
  yield_notice : option EventRef;
  exit_notice : option EventRef;
  dev_listener : Listener;
  cleanup_paths : list bytes;
  dev_config : DeviceConfig;
  dev_payment : PaymentConfig;
}.

(** The queue, on the kernel, and what has been done. *)
Record Boot (M : Type) := mkBoot { queue : EventPoll Handler M; record : list Event }.
Arguments mkBoot {M}.
Arguments queue {M}.
Arguments record {M}.

Section Start.
Context {M : Type} `{Kn : Kernel M} `{So : Sockets M} `{Ux : Unix M} `{Id : Identity M} `{Pr : Process M} `{Hx : Hex}.
(** [std::env::var], the user to fall back to, the users, and [O_NONBLOCK]. *)
Context (env_var : bytes -> option bytes) (user : option bytes).
Context (getpwnam : bytes -> result PrivError (option (Z * Z))) (O_NONBLOCK : Z).

(** A step that can fail, panic, or use memory that is not there. *)
Definition St (A : Type) : Type := Boot M -> run (result StartError A * Boot M).

Definition st_ret {A} (a : A) : St A := fun b => Runs (Ok a, b).
Definition st_fail {A} (e : StartError) : St A := fun b => Runs (Err e, b).
Definition st_bind {A B} (m : St A) (k : A -> St B) : St B := fun b =>
  let^ r := m b in
  match r.1 with
  | Ok a => k a r.2
  | Err e => Runs (Err e, r.2)
  end.
Notation "'do' x := m 'in' k" := (st_bind m (fun x => k)) (at level 200, x name, k at level 200).

Definition st_panic {A} : St A := fun _ => Panics.

(** A call of the system. *)
Definition os (op : Op) : St (answer op) := fun b =>
  let '(a, k) := Effects.perform op (kernel (queue b)) in
  Runs (Ok a, mkBoot (with_kernel k (queue b)) (record b ++ [existT op a])).

(** Calls of the interface, and of the queue. *)
Definition on_tun {A} (m : M -> outcome (result TunError A) * M) : St A := fun b =>
  let '(r, k) := m (kernel (queue b)) in
  let b := mkBoot (with_kernel k (queue b)) (record b) in
  match r with
  | Ret (Ok a) => Runs (Ok a, b)
  | Ret (Err e) => Runs (Err (StartTun e), b)
  | Panic => Panics
  end.

Definition on_queue {A} (m : EventPoll Handler M -> result QueueError A * EventPoll Handler M) : St A := fun b =>
  let '(r, p) := m (queue b) in
  Runs (match r with Ok a => Ok a | Err _ => Err StartQueue end, mkBoot p (record b)).

(** [let _ = ...], [.ok()] *)
Definition st_ok {A} (m : St A) : St unit := fun b => let^ r := m b in Runs (Ok tt, r.2).

(** The result, to be told apart. *)
Definition st_result {A} (m : St A) : St (result StartError A) := fun b => let^ r := m b in Runs (Ok r.1, r.2).

(** [.unwrap()] *)
Definition st_unwrap {A} (m : St A) : St A := fun b =>
  let^ r := m b in match r.1 with Ok a => Runs (Ok a, r.2) | Err _ => Panics end.

(** ** The control socket ([api.rs]) *)

Definition SOCK_DIR : bytes := str "/var/run/wireguard/".

Definition create_sock_dir : St unit :=
  do _ := os (OpCreateDir SOCK_DIR) in
  match get_saved_ids user getpwnam with
  | Ok (uid, gid) => os (OpChown SOCK_DIR uid gid)
  | Err _ => st_ret tt
  end.

Definition register_monitor (path : bytes) : St EventRef :=
  on_queue (new_periodic_event owns (MonitorSocket path) 1 0).

Definition SIGINT : Z := 2.
Definition SIGTERM : Z := 15.

Definition register_api_signal_handlers : St EventRef :=
  do _ := on_queue (new_signal_event owns SIGINT (ExitOnSignal SIGINT)) in
  on_queue (new_signal_event owns SIGTERM (ExitOnSignal SIGTERM)).

Definition sock_path (name : bytes) : bytes := SOCK_DIR ++ str "/" ++ name ++ str ".sock".

(** The paths to remove at the end. *)
Definition register_api_handler (name : bytes) : St (list bytes) :=
  let path := sock_path name in
  do _ := create_sock_dir in
  do _ := os (OpRemove path) in
  do listener := os (OpBind path) in
  match listener with
  | None => st_fail StartApiSocket
  | Some fd =>
      do _ := on_queue (new_event owns fd (ApiListener fd)) in
      do _ := register_monitor path in
      do _ := register_api_signal_handlers in
      st_ret [path]
  end.

Definition register_api_fd (fd : Z) : St EventRef := on_queue (new_event owns fd (ApiStream fd)).

(** ** The device ([device/mod.rs]) *)

Definition register_iface_handler (fd : Z) : St EventRef := on_queue (new_event owns fd (ReadIface fd)).

Definition register_notifiers : St (EventRef * EventRef) :=
  do yield_ev := on_queue (new_notifier owns YieldLoop) in
  do exit_ev := on_queue (new_notifier owns ExitLoop) in
  st_ret (yield_ev, exit_ev).

Definition register_timers : St EventRef :=
  do _ := on_queue (new_periodic_event owns ResetLimiter 1 0) in
  on_queue (new_periodic_event owns PeerTimers 0 250000000).

(** [TunSocket::new(name)?.set_non_blocking()?] *)
Definition open_iface (name : bytes) : St LinuxTun :=
  do t := on_tun (linux_new name) in
  do _ := on_tun (fun s => let '(r, s) := set_non_blocking O_NONBLOCK (ltun_fd t) s in (Ret r, s)) in
  st_ret t.

Definition device_start (name : bytes) (config : DeviceConfig) : St Dev :=
  do created := os OpEpollCreate in
  if negb created then st_fail StartQueue
  else
    do iface := open_iface name in
    do mtu := on_tun (linux_mtu iface) in
    match config_default env_var with
    | Panic => st_panic
    | Ret payment =>
        do paths := (if 0 <=? cfg_uapi_fd config
                     then do _ := register_api_fd (cfg_uapi_fd config) in st_ret []
                     else register_api_handler (ltun_name iface)) in
        do _ := register_iface_handler (ltun_fd iface) in
        do notices := register_notifiers in
        do _ := register_timers in
        st_ret (mkDev iface mtu (Some notices.1) (Some notices.2) (mkListener None None 0) paths config payment)
    end.

(** [open_listen_socket(0)]: a random port. *)
Definition start_listening (d : Dev) : St Dev := fun b =>
  let^ r := open_listen_fds owns ReadUdp [] 0 (dev_listener d) (queue b) in
  let '(ok, l, p) := r in
  let b := mkBoot p (record b) in
  if ok
  then Runs (Ok (mkDev (dev_iface d) (dev_mtu d) (yield_notice d) (exit_notice d) l (cleanup_paths d) (dev_config d) (dev_payment d)), b)
  else Runs (Err StartListen, b).

(** [thread::spawn], which panics when it cannot. *)
Definition spawn (t : Thread) : St unit := do ok := os (OpSpawn t) in if ok then st_ret tt else st_panic.

Fixpoint spawn_all (ts : list Thread) : St unit :=
  match ts with
  | [] => st_ret tt
  | t :: ts => do _ := spawn t in spawn_all ts
  end.

(** [DeviceHandle::new] *)
Definition device_handle_new (name : bytes) (config : DeviceConfig) : St Dev :=
  do d := device_start name config in
  do d := start_listening d in
  do _ := spawn_all (Worker <$> seq 0 (n_threads config)) in
  st_ret d.

(** The start of [event_loop]: the interface that the thread reads. *)
Definition worker_iface (i : nat) (d : Dev) : St LinuxTun :=
  if bool_decide (i = 0%nat) || negb (use_multi_queue (dev_config d)) then st_ret (dev_iface d)
  else
    do t := st_unwrap (open_iface (ltun_name (dev_iface d))) in
    do _ := st_ok (register_iface_handler (ltun_fd t)) in
    st_ret t.

(** [DeviceHandle::clean] and [Drop]. *)
Fixpoint remove_paths (paths : list bytes) : St unit :=
  match paths with
  | [] => st_ret tt
  | path :: paths => do _ := os (OpRemove path) in remove_paths paths
  end.

Definition trigger_yield (d : Dev) : St unit := fun b =>
  match yield_notice d with
  | None => Panics
  | Some r => let^ p := trigger_notification r (queue b) in Runs (Ok tt, mkBoot p (record b))
  end.

Definition cancel_yield (d : Dev) : St unit := fun b =>
  match yield_notice d with
  | None => Panics
  | Some r => let^ p := stop_notification r (queue b) in Runs (Ok tt, mkBoot p (record b))
  end.

Definition trigger_exit (d : Dev) : St unit := fun b =>
  match exit_notice d with
  | None => Panics
  | Some r => let^ p := trigger_notification r (queue b) in Runs (Ok tt, mkBoot p (record b))
  end.

Definition with_mtu (mtu : Z) (d : Dev) : Dev :=
  mkDev (dev_iface d) mtu (yield_notice d) (exit_notice d) (dev_listener d) (cleanup_paths d) (dev_config d) (dev_payment d).

(** The closure of [register_monitor]. *)
Definition monitor_handler (path : bytes) (d : Dev) : St (LoopAction * Dev) :=
  do there := os (OpExists path) in
  if negb there then do _ := trigger_exit d in st_ret (LoopExit, d)
  else
    do mtu := st_result (on_tun (linux_mtu (dev_iface d))) in
    st_ret (LoopContinue, match mtu with Ok mtu => with_mtu mtu d | Err _ => d end).

Definition handle_drop (d : Dev) : St unit := do _ := trigger_exit d in remove_paths (cleanup_paths d).

(** ** The program ([main.rs]) *)

(** The options, as text where [main] parses them. *)
Record Matches := mkMatches {
  opt_interface : bytes;
  opt_foreground : bool;
  opt_threads : bytes;
  opt_uapi_fd : bytes;
  opt_tun_fd : bytes;
  opt_log : bytes;
  opt_keep_privileges : bool;
  opt_disable_connected_udp : bool;
  opt_ws_bind : bytes;
  opt_ws_connect : bytes;
  opt_ws_local_port : bytes;
  opt_disable_multi_queue : bool;
}.

(** The options that take a value: their name, variable and default. *)
Record Arg := mkArg { arg_name : bytes; arg_env : option bytes; arg_default : option bytes }.

Definition args : list Arg := [
  mkArg (str "INTERFACE_NAME") None None;
  mkArg (str "threads") (Some (str "WG_THREADS")) (Some (str "4"));
  mkArg (str "verbosity") (Some (str "WG_LOG_LEVEL")) (Some (str "error"));
  mkArg (str "uapi-fd") (Some (str "WG_UAPI_FD")) (Some (str "-1"));
  mkArg (str "tun-fd") (Some (str "WG_TUN_FD")) (Some (str "-1"));
  mkArg (str "log") (Some (str "WG_LOG_FILE")) (Some (str "/tmp/boringtun.out"));
  mkArg (str "ws-bind") (Some (str "BT_WS_BIND")) (Some []);
  mkArg (str "ws-connect") (Some (str "BT_WS_CONNECT")) (Some []);
  mkArg (str "ws-local-port") (Some (str "BT_WS_LOCAL_PORT")) (Some (str "51821"))].

Definition verbosities : list bytes := [str "error"; str "info"; str "debug"; str "trace"].

(** [matches.value_of(name)]: the command line, before the variable, before the default. *)
Definition value_of (given : bytes -> option bytes) (name : bytes) : option bytes :=
  match list_find (fun a => arg_name a = name) args with
  | None => None
  | Some (_, a) =>
      match given name, arg_env a ≫= env_var with
      | Some v, _ => Some v
      | None, Some v => Some v
      | None, None => arg_default a
      end
  end.

(** [get_matches], with what the command line gives and the flags that are present; [None]
    is a refusal. *)
Definition get_matches (given : bytes -> option bytes) (flag : bytes -> bool) : option Matches :=
  let value name := default [] (value_of given name) in
  match value_of given (str "INTERFACE_NAME") with
  | None => None
  | Some name =>
      if bool_decide (value (str "verbosity") ∈ verbosities) then
        Some (mkMatches name (flag (str "foreground")) (value (str "threads")) (value (str "uapi-fd")) (value (str "tun-fd")) (value (str "log"))
                (flag (str "disable-drop-privileges")) (flag (str "disable-connected-udp"))
                (value (str "ws-bind")) (value (str "ws-connect")) (value (str "ws-local-port")) (flag (str "disable-multi-queue")))
      else None
  end.

Definition starts_with (t s : bytes) : bool := bool_decide (take (length t) s = t).
Definition ends_with (t s : bytes) : bool := bool_decide (drop (length s - length t) s = t) && bool_decide (length t <= length s)%nat.

(** [s.trim_end_matches(t)], which removes every repetition; a text has fewer than its bytes. *)
Fixpoint trim_end_text (fuel : nat) (t s : bytes) : bytes :=
  match fuel with
  | O => s
  | S fuel => if ends_with t s then trim_end_text fuel t (take (length s - length t) s) else s
  end.

(** [find_uapi_interface] *)
Definition uapi_interface_of (hint : bytes) (names : list bytes) : option bytes :=
  match list_find (fun n => Is_true (starts_with hint n && ends_with (str ".sock") n)) (from_utf8_lossy <$> names) with
  | Some (_, n) => Some (trim_end_text (length n) (str ".sock") n)
  | None => None
  end.

Definition find_uapi_interface (hint : bytes) : St (option bytes) :=
  do names := os (OpReadDir SOCK_DIR) in
  st_ret (names ≫= uapi_interface_of hint).

(** The names of interfaces that are accepted, on Darwin and elsewhere. *)
Definition check_tun_name (darwin : bool) (name : bytes) : bool :=
  if darwin then is_ok (parse_utun_name name) else true.

Definition is_payment_server : bool :=
  match env_var (str "BT_PAYMENT_SERVER") with
  | Some v => bool_decide (v = str "1") || eq_ignore_ascii_case v (str "true")
  | None => false
  end.

Definition snapshot_of (c : PaymentConfig) : PaymentConfigSnapshot :=
  mkSnapshot (cfg_chain_id c) (gateway_wallet c) (usdc_contract c) (amount_per_quota c) (quota_bytes c).

(** The threads of the server: the registration API, the reaper, the proxy. *)
Definition start_server (m : Matches) (tun_name : bytes) : St unit :=
  let bind_addr := env_or env_var (str "BT_HTTP_BIND") (str "0.0.0.0:8080") in
  let public_ip := env_or env_var (str "BT_PUBLIC_IP") (str "127.0.0.1") in
  match config_default env_var with
  | Panic => st_panic
  | Ret payment_config =>
      do found := find_uapi_interface tun_name in
      let state := registration_new env_var (default tun_name found) (of_u8 10, of_u8 0, of_u8 0) (snapshot_of payment_config) public_ip in
      do _ := spawn (HttpApi state bind_addr) in
      do _ := spawn (Reaper state) in
      let ws_bind := env_or env_var (str "BT_WS_BIND") (opt_ws_bind m) in
      if bool_decide (ws_bind = []) then st_ret tt
      else
        let wg_port := default 51820 (env_var (str "BT_WG_PORT") ≫= parse_uint 16) in
        spawn (WsProxy ws_bind wg_port)
  end.

Definition start_bridge (m : Matches) : St unit :=
  let ws_connect := env_or env_var (str "BT_WS_CONNECT") (opt_ws_connect m) in
  if bool_decide (ws_connect = []) then st_ret tt
  else
    let port := default (default 51821 (parse_uint 16 (opt_ws_local_port m))) (env_var (str "BT_WS_LOCAL_PORT") ≫= parse_uint 16) in
    spawn (WsBridge port ws_connect).

Definition start_services (m : Matches) (tun_name : bytes) : St unit :=
  do _ := (if is_payment_server then start_server m tun_name else st_ret tt) in
  start_bridge m.

(** How the process ends: [exit], or the end of [main], which drops the device. A panic
    is the [Panics] of the run, and is not followed further. *)
Inductive MainEnd := Exits (code : Z) | Returns (code : Z).

Definition notify (b : byte) : St unit := do ok := os (OpSend b) in if ok then st_ret tt else st_panic.

(** [tun_name]: the descriptor, when one is given. *)
Definition tun_name_of (m : Matches) (tun_fd : Z) : bytes := if 0 <=? tun_fd then opt_tun_fd m else opt_interface m.

(** [Some code]: to leave at once. *)
Definition to_background (m : Matches) : St (option Z) :=
  if opt_foreground m then st_ret None
  else
    do log := os (OpCreateLog (opt_log m)) in
    if negb log then st_panic
    else do ok := os OpDaemonize in st_ret (if ok then None else Some 1).

(** [drop_privileges()]: whether it succeeds. *)
Definition drop_now : St bool := fun b =>
  let '(r, k) := drop_privileges (get_saved_ids user getpwnam) (kernel (queue b)) in
  Runs (Ok (match r with Ok _ => true | Err _ => false end), mkBoot (with_kernel k (queue b)) (record b)).

(** The workers, from their start to their end: what they leave of the queue, and which of
    them end without a panic. *)
Record Workers := mkWorkers { leave : EventPoll Handler M -> EventPoll Handler M; joined : nat -> bool }.

(** [wait], which joins them from the last on, and panics at one that has panicked. *)
Definition wait_workers (w : Workers) (d : Dev) : St bool := fun b =>
  Runs (Ok (forallb (joined w) (rev (seq 0 (n_threads (dev_config d))))), mkBoot (leave w (queue b)) (record b)).

(** After the device was created. The handle is dropped at the end, also when [wait] panics. *)
Definition main_with_device (m : Matches) (tun_name : bytes) (w : Workers) (d : Dev) : St MainEnd :=
  do dropped := (if opt_keep_privileges m then st_ret true else drop_now) in
  if negb dropped then
    do _ := notify x00 in st_ret (Exits 1)
  else
    do _ := notify x01 in
    do _ := start_services m tun_name in
    do ok := wait_workers w d in
    do _ := handle_drop d in
    st_ret (Returns (if ok then 0 else 101)).

Definition main (m : Matches) (w : Workers) : St MainEnd :=
  match parse_i32 (opt_uapi_fd m), parse_signed 64 (opt_tun_fd m), parse_uint 64 (opt_threads m) with
  | Some uapi_fd, Some tun_fd, Some threads =>
      let tun_name := tun_name_of m tun_fd in
      do leave := to_background m in
      match leave with
      | Some code => st_ret (Exits code)
      | None =>
          let config := mkDeviceConfig (Z.to_nat threads) (negb (opt_disable_connected_udp m)) (negb (opt_disable_multi_queue m)) uapi_fd in
          do created := st_result (device_handle_new tun_name config) in
          match created with
          | Err _ => do _ := notify x00 in st_ret (Exits 1)
          | Ok d => main_with_device m tun_name w d
          end
      end
  | _, _, _ => st_ret (Exits 2)
  end.

(** From the command line on. *)
Definition program (given : bytes -> option bytes) (flag : bytes -> bool) (w : Workers) : St MainEnd :=
  match get_matches given flag with
  | Some m => main m w
  | None => st_ret (Exits 2)
  end.
End Start.

(** The process that started the daemon: what it prints, and its code. *)
Definition parent_end (received : option byte) : bytes * Z :=
  match received with
  | Some b => if bool_decide (b = x01) then (str "BoringTun started successfully", 0) else (str "BoringTun failed to start", 1)
  | None => (str "BoringTun failed to start", 1)
  end.

(** ** A device that has started *)

(** What the calls do to descriptors: some open one, [close] closes one. *)
Definition tun_effect {K} `{Kn : Kernel K} `{V : KernelView K} (op : Unix.Op) : Unix.answer op -> K -> K -> Prop :=
  match op return Unix.answer op -> K -> K -> Prop with
  | OpOpenTun | OpSocketSystem | OpSocketInet => fun a k k' => opens a k k'
  | OpClose fd => fun _ k k' => undisturbed (fd_close fd k) k'
  | _ => fun _ k k' => undisturbed k k'
  end.

Definition process_effect {K} `{V : KernelView K} (op : Op) : answer op -> K -> K -> Prop :=
  match op return answer op -> K -> K -> Prop with
  | OpBind _ => fun a k k' => opens a k k'
  | _ => fun _ k k' => undisturbed k k'
  end.

Class StartLaws (M : Type) `{Kn : Kernel M} `{V : KernelView M} `{Ux : Unix M} `{Id : Identity M} `{Pr : Process M} : Prop := {
  tun_law : forall op k, let '(a, k') := Unix.perform op k in tun_effect op a k k';
  process_law : forall op k, let '(a, k') := Effects.perform (answer := answer) op k in process_effect op a k k';
  setuid_law : forall u k k', setuid u k = Some k' -> undisturbed k k';
  setgid_law : forall g k k', setgid g k = Some k' -> undisturbed k k';
}.

Section Started.
Context {M : Type} `{KL : KernelLaws M} `{So : Sockets M} `{SL : !SocketLaws M} `{Ux : Unix M} `{Id : Identity M} `{Pr : Process M} `{HX : Hex}.
Context `{TL : !StartLaws M}.
Context (env_var : bytes -> option bytes) (user : option bytes).
Context (getpwnam : bytes -> result PrivError (option (Z * Z))) (O_NONBLOCK : Z).

Implicit Types (b : Boot M) (p q : EventPoll Handler M) (k : M).

(** A step that succeeds does so with [Q]; it may fail or panic, but uses no freed memory. *)
Definition spec {A} (m : St A) b (Q : A -> Boot M -> Prop) : Prop :=
  match m b with
  | Runs (Ok a, b') => Q a b'
  | Runs (Err _, _) | Panics => True
  | Faults => False
  end.

Lemma spec_bind {A B} (m : St A) (f : A -> St B) b Q R : spec m b R -> (forall a b', R a b' -> spec (f a) b' Q) -> spec (st_bind m f) b Q.
Proof. unfold spec, st_bind. destruct (m b) as [[[a|e] b']| |]; cbn; intros H1 H2; try done. by apply H2. Qed.

Lemma spec_mono {A} (m : St A) b (Q R : A -> Boot M -> Prop) : spec m b Q -> (forall a b', Q a b' -> R a b') -> spec m b R.
Proof. unfold spec. destruct (m b) as [[[a|e] b']| |]; naive_solver. Qed.

(** An open descriptor without an event, and a descriptor whose event is armed. *)
Definition reserved p (fd : Z) : Prop := 0 <= fd /\ is_Some (files (kernel p) !! fd) /\ entry p fd = None.

Definition serves_event p (fh : Z * Handler) : Prop := 0 <= fh.1 /\ exists c ev f r,
  entry p fh.1 = Some c /\ boxes p !! c = Some ev /\ ev_handler ev = fh.2
  /\ files (kernel p) !! fh.1 = Some f /\ registered p (f, fh.1) r /\ ee_u64 (reg_event r) = c.

(** The queue serves [hs], and nothing else; [res] are open and without events, and [ns] are
    its notifiers. *)
Record ready (res : list Z) (hs : list (Z * Handler)) (ns : list EventRef) p : Prop := mkReady {
  ready_inv : inv (mkSys p []);
  ready_apart : NoDup res;
  ready_reserved : Forall (reserved p) res;
  ready_nodup : NoDup hs.*1;
  ready_serves : Forall (serves_event p) hs;
  ready_only : forall fd, 0 <= fd -> is_Some (entry p fd) -> fd ∈ hs.*1;
  ready_notifiers : Forall (names_notifier p) ns;
}.

Lemma ready_open res hs ns p fd : ready res hs ns p -> 0 <= fd -> is_Some (entry p fd) -> is_Some (files (kernel p) !! fd).
Proof.
  intros Hr Hfd He. pose proof (ready_only _ _ _ _ Hr fd Hfd He) as ([fd' h] & -> & Hin)%list_elem_of_fmap.
  pose proof (ready_serves _ _ _ _ Hr) as Hs. rewrite Forall_forall in Hs. destruct (Hs _ Hin) as (_ & c & ev & f & r & _ & _ & _ & Hf & _).
  by exists f.
Qed.

(** A change that concerns at most the descriptor [x]. *)
Record keeps_but (x : option Z) p q : Prop := mkKeeps {
  keeps_file : forall fd f, x <> Some fd -> files (kernel p) !! fd = Some f ->
    files (kernel q) !! fd = Some f /\ interest (kernel q) !! (f, fd) = interest (kernel p) !! (f, fd);
  keeps_entry : forall fd, 0 <= fd -> x <> Some fd -> entry q fd = entry p fd;
  keeps_box : forall c ev, boxes p !! c = Some ev -> boxes q !! c = Some ev;
}.

Lemma keeps_reserved x p q fd : keeps_but x p q -> x <> Some fd -> reserved p fd -> reserved q fd.
Proof.
  intros [Hf He _] Hx (Hpos & [f Hfd] & Hn). split_and!; [done|exists f; by apply Hf|]. by rewrite He.
Qed.

Lemma keeps_serves x p q fh : keeps_but x p q -> x <> Some fh.1 -> serves_event p fh -> serves_event q fh.
Proof.
  intros [Hf He Hb] Hx (Hpos & c & ev & f & r & H1 & H2 & H3 & H4 & [H5 H6] & H7). destruct (Hf _ _ Hx H4) as [H8 H9].
  split; [done|]. exists c, ev, f, r. split_and!; [by rewrite He|by apply Hb|done|done| |done]. split; [|done]. by rewrite H9.
Qed.

Lemma keeps_notifier x p q r : keeps_but x p q -> x <> Some (trigger r) -> names_notifier p r -> names_notifier q r.
Proof.
  intros [_ He Hb] Hx (Hpos & c & ev & H1 & H2 & H3). split; [done|]. exists c, ev. split_and!; [by rewrite He|by apply Hb|done].
Qed.

(** The parts of [ready] that a change of the descriptor [x], which has no event, leaves. *)
Lemma keeps_ready x res hs ns p q :
  ready res hs ns p -> keeps_but x p q -> (forall fd, x = Some fd -> entry p fd = None /\ fd ∉ res) ->
  Forall (reserved q) res /\ Forall (serves_event q) hs /\ Forall (names_notifier q) ns.
Proof.
  intros [_ _ H3 _ H4 _ H5] Hk Hx. rewrite !Forall_forall in *. split_and!.
  - intros fd Hfd. eapply keeps_reserved; [done| |by apply H3]. intros Hxf. by apply Hx in Hxf as [_ Hxf].
  - intros fh Hfh. eapply keeps_serves; [done| |by apply H4]. intros [Hxf _]%Hx. destruct (H4 _ Hfh) as (_ & c & ev & f & r & ? & _). congruence.
  - intros r Hr. eapply keeps_notifier; [done| |by apply H5]. intros [Hxf _]%Hx. destruct (H5 _ Hr) as (_ & c & ev & ? & _). congruence.
Qed.

(** *** Changes of the kernel *)

Lemma ready_kernel res hs ns p k :
  ready res hs ns p -> undisturbed (kernel p) k -> ready res hs ns (with_kernel k p).
Proof.
  intros Hr [Hf Hi]. destruct (keeps_ready None res hs ns p (with_kernel k p) Hr) as (H1 & H2 & H3).
  { split; cbn; try done. intros fd f _. by rewrite Hf, Hi. }
  { done. }
  split; [|apply Hr|done|apply Hr|done|apply Hr|done].
  apply (inv_kernel (mkSys p [])); [apply Hr|]. by apply undisturbed_registered.
Qed.

(** A new descriptor, also of an open file. *)
Lemma ready_new_fd res hs ns p k fd f :
  ready res hs ns p -> 0 <= fd -> files (kernel p) !! fd = None -> interest k = interest (kernel p) ->
  files k = <[fd := f]> (files (kernel p)) -> ready (fd :: res) hs ns (with_kernel k p).
Proof.
  intros Hr Hpos Hn Hi Hf. assert (entry p fd = None) as He.
  { destruct (entry p fd) as [c|] eqn:E; [|done]. destruct (ready_open _ _ _ _ fd Hr Hpos); [by rewrite E|congruence]. }
  destruct (keeps_ready None res hs ns p (with_kernel k p) Hr) as (H1 & H2 & H3).
  { split; cbn; try done. intros fd' f' _ Hf'. rewrite Hf, Hi, lookup_insert_ne; [done|congruence]. }
  { done. }
  split; [| | |apply Hr|done|apply Hr|done].
  - apply (inv_kernel (mkSys p [])); [apply Hr|]. intros key r. unfold registered. cbn. by rewrite Hi.
  - constructor; [|apply Hr]. intros Hin. pose proof (ready_reserved _ _ _ _ Hr) as Hres. rewrite Forall_forall in Hres.
    destruct (Hres fd Hin) as (_ & [f' Hf'] & _). congruence.
  - constructor; [|done]. split_and!; [done| |done]. cbn. rewrite Hf, lookup_insert_eq. by eexists.
Qed.

Lemma ready_opens res hs ns p k r : ready res hs ns p -> opens r (kernel p) k -> ready (option_list r ++ res) hs ns (with_kernel k p).
Proof.
  intros Hr Ho. destruct r as [fd|]; [|by apply ready_kernel]. destruct Ho as (Hpos & Hn & Hi & f & Hf & _). by eapply ready_new_fd.
Qed.

(** A descriptor without an event that is closed. *)
Lemma ready_close res hs ns p fd : ready (fd :: res) hs ns p -> ready res hs ns (with_kernel (fd_close fd (kernel p)) p).
Proof.
  intros [H1 H2 H3 H4 H5 H6 H7]. inversion H2 as [|? ? H2a H2b]; subst. inversion H3 as [|? ? (H3c & _ & H3e) H3b]; subst.
  assert (ready res hs ns p) as Hr by by split.
  destruct (close_law fd (kernel p)) as [Hf Hi].
  destruct (keeps_ready (Some fd) res hs ns p (with_kernel (fd_close fd (kernel p)) p) Hr) as (K1 & K2 & K3).
  - split; cbn; try done. intros fd' f Hne Hf'. rewrite Hf, lookup_delete_ne by congruence. split; [done|]. rewrite Hi.
    destruct (files (kernel p) !! fd) as [f'|]; [|done]. destruct (bool_decide _) eqn:E; [done|].
    apply bool_decide_eq_false in E. destruct (interest (kernel p) !! (f, fd')) as [r|] eqn:Er.
    + apply map_lookup_filter_Some. split; [done|]. cbn. intros <-. apply E. exists fd', f. split; [done|]. split; congruence.
    + apply map_lookup_filter_None. by left.
  - intros fd' [= <-]. by split.
  - split; [|done..]. apply (inv_kernel (mkSys p [])); [done|]. apply registered_close.
Qed.

(** *** Events of the queue *)

(** The table where the descriptor has no event. *)
Lemma register_shape flags fd h notifier needs_read p :
  0 <= fd -> entry p fd = None ->
  let c := next_box p in
  let ev := mkEvent (mkEpollEvent flags c) fd h notifier needs_read in
  let '(r, q) := register_event owns flags fd h notifier needs_read p in
  entry q fd = Some c /\ (forall fd', 0 <= fd' -> fd' <> fd -> entry q fd' = entry p fd')
  /\ boxes q = <[c := ev]> (boxes p)
  /\ match r with
     | Ok e => e = mkEventRef fd /\ exists f, files (kernel p) !! fd = Some f /\ files (kernel q) = files (kernel p)
         /\ interest (kernel q) = <[(f, fd) := mkReg (ev_event ev) true]> (interest (kernel p))
     | Err _ => True
     end.
Proof.
  intros Hfd He c ev. unfold register_event. set (g := events p ++ replicate (S (Z.to_nat fd) - length (events p)) None).
  assert (g !! Z.to_nat fd = Some None) as Hg.
  { unfold entry in He. unfold g. destruct (events p !! Z.to_nat fd) as [[c'|]|] eqn:E; [done|by apply lookup_app_l_Some|].
    apply lookup_ge_None in E. rewrite lookup_app_r by done. rewrite lookup_replicate_2; [done|lia]. }
  assert (forall n c', g !! n = Some (Some c') <-> events p !! n = Some (Some c')) as Hgn by (intros; apply lookup_grown).
  unfold insert_at. cbn [events boxes next_box kernel]. fold g. unfold take_event. cbn [events]. rewrite Hg. cbn [events boxes next_box kernel].
  fold c. pose proof (add_law fd (mkEpollEvent flags c) (kernel p)) as Hadd. destruct (epoll_ctl_add _ _ _) as [ok k]. split_and!.
  - unfold entry. cbn. rewrite list_lookup_insert_eq; [done|]. by apply lookup_lt_Some in Hg.
  - intros fd' Hfd' Hne. unfold entry. cbn. rewrite list_lookup_insert_ne by lia.
    destruct (g !! Z.to_nat fd') as [[c'|]|] eqn:E; cbn.
    + apply Hgn in E. by rewrite E.
    + destruct (events p !! Z.to_nat fd') as [[c'|]|] eqn:E'; [|done|done]. apply Hgn in E'. congruence.
    + destruct (events p !! Z.to_nat fd') as [[c'|]|] eqn:E'; [|done|done]. apply Hgn in E'. congruence.
  - done.
  - destruct ok; [|done]. destruct Hadd as (H1 & f & H2 & _ & H3). split; [done|]. exists f. by split_and!.
Qed.

(** An event for a descriptor that has none. *)
Lemma ready_register flags fd h notifier needs_read res hs ns p :
  (notifier = false -> oneshot flags = true) -> ready (fd :: res) hs ns p ->
  match register_event owns flags fd h notifier needs_read p with
  | (Ok e, q) => e = mkEventRef fd /\ ready res ((fd, h) :: hs) ((if notifier then [e] else []) ++ ns) q
  | (Err _, _) => True
  end.
Proof.
  intros Hone [H1 H2 H3 H4 H5 H6 H7]. inversion H2 as [|? ? H2a H2b]; subst. inversion H3 as [|? ? (H3c & _ & H3e) H3b]; subst.
  assert (ready res hs ns p) as Hr by by split.
  pose proof (register_inv owns (mkSys p []) flags fd h notifier needs_read H1 H3c) as Hinv.
  pose proof (register_shape flags fd h notifier needs_read p H3c H3e) as Hs. cbv zeta in Hs. cbn [poll held] in Hinv.
  destruct (register_event owns flags fd h notifier needs_read p) as [[e|] q]; [|done]. cbn [snd] in Hinv.
  destruct Hs as (E1 & E2 & E3 & -> & f & F1 & F2 & F3). split; [done|].
  assert (boxes p !! next_box p = None) as Hfresh by apply (fresh_box (mkSys p []) H1).
  destruct (keeps_ready (Some fd) res hs ns p q Hr) as (K1 & K2 & K3).
  { split.
    - intros fd' f' Hne Hf'. rewrite F2, F3, lookup_insert_ne by congruence. done.
    - intros fd' Hpos Hne. apply E2; [done|congruence].
    - intros c ev Hc. rewrite E3, lookup_insert_ne; [done|congruence]. }
  { intros fd' [= <-]. by split. }
  split.
  - apply Hinv; [|done]. intros c Hc. cbn [poll] in Hc. congruence.
  - done.
  - done.
  - cbn. constructor; [|done]. intros ([fd' h'] & Heq & Hin)%list_elem_of_fmap. cbn in Heq. subst fd'.
    rewrite Forall_forall in H5. destruct (H5 _ Hin) as (_ & c & ev & f' & r & ? & _). cbn in *. congruence.
  - constructor; [|done]. split; [done|]. eexists _, _, f, _. cbn [fst snd].
    split_and!; [exact E1|by rewrite E3, lookup_insert_eq|done|by rewrite F2|split; [by rewrite F3, lookup_insert_eq|done]|done].
  - intros fd' Hpos Hsome. cbn. destruct (decide (fd' = fd)) as [->|Hne]; [by left|]. right. apply H6; [done|]. by rewrite <- E2.
  - apply Forall_app_2; [|done]. destruct notifier; [|done]. constructor; [|done]. split; [done|].
    eexists _, _. split_and!; [exact E1|by rewrite E3, lookup_insert_eq|done].
Qed.

(** A step of the queue that adds an event. *)
Definition adds (h : Handler) (notifier : bool) (m : EventPoll Handler M -> result QueueError EventRef * EventPoll Handler M) : Prop :=
  forall res hs ns p, ready res hs ns p ->
  match m p with
  | (Ok e, q) => ready res ((trigger e, h) :: hs) ((if notifier then [e] else []) ++ ns) q
  | (Err _, _) => True
  end.

Lemma adds_register m h flags notifier needs_read :
  (notifier = false -> oneshot flags = true) ->
  (forall p, match m p with
   | (Err _, _) => True
   | (Ok e, q) => exists fd k1 k2, opens (Some fd) (kernel p) k1 /\ undisturbed k1 k2
       /\ register_event owns flags fd h notifier needs_read (with_kernel k2 (with_kernel k1 p)) = (Ok e, q)
   end) -> adds h notifier m.
Proof.
  intros Hone Hm res hs ns p Hr. specialize (Hm p). destruct (m p) as [[e|] q]; [|done]. destruct Hm as (fd & k1 & k2 & Ho & Hu & Heq).
  apply (ready_opens _ _ _ _ _ _ Hr) in Ho. apply (ready_kernel _ _ _ (with_kernel k1 p) k2) in Ho; [|done].
  pose proof (ready_register flags fd h notifier needs_read _ _ _ _ Hone Ho) as Hreg. rewrite Heq in Hreg. by destruct Hreg as [-> Hreg].
Qed.

Lemma opens_after k0 k r k' : undisturbed k0 k -> opens r k k' -> opens r k0 k'.
Proof. intros [Hf Hi] Ho. unfold opens, undisturbed in *. by rewrite Hf, Hi in Ho. Qed.

Lemma adds_periodic h secs nanos : adds h false (new_periodic_event owns h secs nanos).
Proof.
  apply (adds_register _ h READ_ONCE false true); [done|]. intros p. unfold new_periodic_event.
  set (o := match timerfd_create true (kernel p) with (Some tfd, k) => (Some tfd, k) | (None, k) => timerfd_create false k end).
  assert (opens o.1 (kernel p) o.2) as Ho.
  { unfold o. pose proof (timerfd_law true (kernel p)) as H1. destruct (timerfd_create true (kernel p)) as [[fd|] k]; [done|].
    pose proof (timerfd_law false k) as H2. destruct (timerfd_create false k) as [r k']. by eapply opens_after. }
  destruct o as [[fd|] k]; [|done]. cbn [fst snd] in Ho.
  pose proof (settime_law fd secs nanos k) as Hs. destruct (timerfd_settime fd secs nanos k) as [[|] k']; [|done]. cbn [snd] in Hs.
  destruct (register_event _ _ _ _ _ _ _) as [[e|] q] eqn:E; [|done]. by exists fd, k, k'.
Qed.

Lemma adds_opened h flags notifier needs_read (open : M -> option Z * M) :
  (notifier = false -> oneshot flags = true) -> (forall k, let '(r, k') := open k in opens r k k') ->
  adds h notifier (fun p => match open (kernel p) with
    | (None, k) => (Err ErrorEventQueue, with_kernel k p)
    | (Some fd, k) => register_event owns flags fd h notifier needs_read (with_kernel k p)
    end).
Proof.
  intros Hone Hopen. apply (adds_register _ h flags notifier needs_read); [done|]. intros p. specialize (Hopen (kernel p)).
  destruct (open (kernel p)) as [[fd|] k]; [|done]. destruct (register_event _ _ _ _ _ _ _) as [[e|] q] eqn:E; [|done].
  exists fd, k, k. done.
Qed.

Lemma adds_notifier h : adds h true (new_notifier owns h).
Proof. apply (adds_opened h EPOLLIN true false eventfd); [done|apply eventfd_law]. Qed.

Lemma adds_signal h signal : adds h false (new_signal_event owns signal h).
Proof. apply (adds_opened h READ_ONCE false true (signalfd signal)); [done|apply signalfd_law]. Qed.

(** *** The steps of the device *)

Notation "'do' x := m 'in' k" := (st_bind m (fun x => k)) (at level 200, x name, k at level 200).

Definition granted (op : Op) : answer op -> list Z :=
  match op return answer op -> list Z with OpBind _ => fun a => option_list a | _ => fun _ => [] end.

Lemma spec_os op res hs ns b :
  ready res hs ns (queue b) -> spec (os op) b (fun a b' => ready (granted op a ++ res) hs ns (queue b')).
Proof.
  intros Hr. unfold spec, os. pose proof (process_law op (kernel (queue b))) as Hl.
  destruct (Effects.perform op (kernel (queue b))) as [a k]. cbn [queue].
  destruct op; try (by apply ready_kernel). by apply ready_opens.
Qed.

Lemma spec_queue h notifier m res hs ns b :
  adds h notifier m -> ready res hs ns (queue b) ->
  spec (on_queue m) b (fun e b' => ready res ((trigger e, h) :: hs) ((if notifier then [e] else []) ++ ns) (queue b')).
Proof. intros Ha Hr. unfold spec, on_queue. specialize (Ha _ _ _ _ Hr). by destruct (m (queue b)) as [[e|e] q]. Qed.

Lemma spec_event fd h res hs ns b :
  ready (fd :: res) hs ns (queue b) -> spec (on_queue (new_event owns fd h)) b (fun _ b' => ready res ((fd, h) :: hs) ns (queue b')).
Proof.
  intros Hr. unfold spec, on_queue, new_event.
  assert (false = false -> oneshot READ_ONCE = true) as Hone by done.
  pose proof (ready_register READ_ONCE fd h false false _ _ _ _ Hone Hr) as Hreg.
  destruct (register_event _ _ _ _ _ _ _) as [[e|e] q]; [|done]. by destruct Hreg as [_ Hreg].
Qed.

#[local] Ltac norm := cbn [granted option_list app trigger fst snd].

(** A descriptor that is given as the name of the interface is one already. *)
Lemma spec_open_iface name res hs ns b :
  ready (option_list (parse_i32 name) ++ res) hs ns (queue b) ->
  spec (open_iface O_NONBLOCK name) b (fun t b' => ltun_name t = name /\ ready (ltun_fd t :: res) hs ns (queue b')).
Proof.
  intros Hr. apply spec_bind with (R := fun t b' => ltun_name t = name /\ ready (ltun_fd t :: res) hs ns (queue b')).
  - unfold spec, on_tun, linux_new. destruct (parse_i32 name) as [fd|]; [by destruct b as [[] ?]|].
    pose proof (tun_law OpOpenTun (kernel (queue b))) as Hl. destruct (Unix.perform OpOpenTun (kernel (queue b))) as [[fd|] k]; [|done].
    pose proof (ready_opens _ _ _ _ _ (Some fd) Hr Hl) as H1. destruct (bool_decide _); [done|]. destruct (padded _ _) as [n|]; [|done].
    pose proof (tun_law (OpTunSetIff fd n (Z.lor (Z.lor IFF_TUN IFF_NO_PI) IFF_MULTI_QUEUE)) k) as Hl2.
    destruct (Unix.perform (OpTunSetIff _ _ _) k) as [[|] k2]; [|done]. split; [done|].
    by apply (ready_kernel _ _ _ (with_kernel k (queue b)) k2).
  - intros t b' [Hn Hr']. apply spec_bind with (R := fun _ b' => ready (ltun_fd t :: res) hs ns (queue b')); [|by split].
    unfold spec, on_tun, set_non_blocking. pose proof (tun_law (OpGetFl (ltun_fd t)) (kernel (queue b'))) as Hl.
    destruct (Unix.perform (OpGetFl _) (kernel (queue b'))) as [[fl|] k]; [|done].
    pose proof (tun_law (OpSetFl (ltun_fd t) (Z.lor fl O_NONBLOCK)) k) as Hl2.
    destruct (Unix.perform (OpSetFl _ _) k) as [[|] k2]; [|done]. cbn [queue].
    apply (ready_kernel _ _ _ (with_kernel k (queue b')) k2); [by apply ready_kernel|done].
Qed.

Lemma spec_mtu t res hs ns b : ready res hs ns (queue b) -> spec (on_tun (linux_mtu t)) b (fun _ b' => ready res hs ns (queue b')).
Proof.
  intros Hr. unfold spec, on_tun, linux_mtu. destruct (bool_decide _); [by destruct b as [[] ?]|].
  pose proof (tun_law OpSocketInet (kernel (queue b))) as H1. destruct (Unix.perform OpSocketInet (kernel (queue b))) as [[fd|] k1]; [|done].
  apply (ready_opens _ _ _ _ _ (Some fd) Hr) in H1. unfold query_mtu. destruct (padded _ _) as [n|]; [|done].
  pose proof (tun_law (OpGetMtu fd n) k1) as H2. destruct (Unix.perform (OpGetMtu fd n) k1) as [[mtu|] k2]; [|done].
  apply (ready_kernel _ _ _ (with_kernel k1 (queue b)) k2) in H1; [|done]. apply ready_close in H1.
  pose proof (tun_law (OpClose fd) k2) as H3. unfold ignore. destruct (Unix.perform (OpClose fd) k2) as [? k3]. cbn [queue snd].
  by apply (ready_kernel _ _ _ _ k3) in H1.
Qed.

(** The events of the control socket, and the descriptors that are given. *)
Definition api_events (name : bytes) (config : DeviceConfig) (fd : Z) : list Handler :=
  if 0 <=? cfg_uapi_fd config then [ApiStream (cfg_uapi_fd config)]
  else [ApiListener fd; MonitorSocket (sock_path name); ExitOnSignal SIGINT; ExitOnSignal SIGTERM].

Definition given_uapi (config : DeviceConfig) : list Z := if 0 <=? cfg_uapi_fd config then [cfg_uapi_fd config] else [].
Definition given_fds (name : bytes) (config : DeviceConfig) : list Z := option_list (parse_i32 name) ++ given_uapi config.

Lemma spec_sock_dir res hs ns b :
  ready res hs ns (queue b) -> spec (create_sock_dir user getpwnam) b (fun _ b' => ready res hs ns (queue b')).
Proof.
  intros Hr. eapply spec_bind; [by apply spec_os|]. norm. intros _ b1 H1. destruct (get_saved_ids _ _) as [[uid gid]|]; [|done].
  exact (spec_os (OpChown SOCK_DIR uid gid) _ _ _ _ H1).
Qed.

Lemma spec_signals res hs ns b :
  ready res hs ns (queue b) ->
  spec register_api_signal_handlers b (fun _ b' => exists x y, ready res ((x, ExitOnSignal SIGTERM) :: (y, ExitOnSignal SIGINT) :: hs) ns (queue b')).
Proof.
  intros Hr. eapply spec_bind; [apply spec_queue; [apply adds_signal|exact Hr]|]. intros e b1 H1.
  eapply spec_mono; [apply spec_queue; [apply adds_signal|exact H1]|]. cbn. eauto.
Qed.

Lemma ready_swap fd fd' res hs ns p : ready (fd :: fd' :: res) hs ns p -> ready (fd' :: fd :: res) hs ns p.
Proof.
  intros [H1 H2 H3 H4 H5 H6 H7]. assert (fd' :: fd :: res ≡ₚ fd :: fd' :: res) as Hp by constructor. split; try done; by rewrite Hp.
Qed.

Lemma spec_api name config fd b :
  ready (fd :: given_uapi config) [] [] (queue b) ->
  spec (if 0 <=? cfg_uapi_fd config then do _ := register_api_fd (cfg_uapi_fd config) in st_ret [] else register_api_handler user getpwnam name) b
    (fun paths b' => exists x hs, hs.*2 = rev (api_events name config x)
       /\ paths = (if 0 <=? cfg_uapi_fd config then [] else [sock_path name]) /\ ready [fd] hs [] (queue b')).
Proof.
  unfold given_uapi, api_events. destruct (0 <=? cfg_uapi_fd config); intros Hr.
  - apply ready_swap in Hr. eapply spec_bind; [by apply spec_event|]. norm. intros _ b1 H1. exists 0. eexists. split_and!; [|done|exact H1]. done.
  - eapply spec_bind; [by apply spec_sock_dir|]. norm. intros _ b1 H1. eapply spec_bind; [by apply spec_os|]. norm. intros _ b2 H2.
    eapply spec_bind; [by apply spec_os|]. norm. intros [x|] b3 H3; [|done]. cbn in H3.
    eapply spec_bind; [by apply spec_event|]. norm. intros _ b4 H4.
    eapply spec_bind; [apply spec_queue; [apply adds_periodic|exact H4]|]. norm. intros m b5 H5.
    eapply spec_bind; [by apply spec_signals|]. norm. intros _ b6 (s1 & s2 & H6). exists x. eexists. split_and!; [|done|exact H6]. done.
Qed.

(** The handlers of a device, in the order they are registered. *)
Definition device_events (name : bytes) (config : DeviceConfig) (api iface : Z) : list Handler :=
  api_events name config api ++ [ReadIface iface; YieldLoop; ExitLoop; ResetLimiter; PeerTimers].

(** [hs] are the events of the device, with its two notifiers among them. *)
Definition device_served (name : bytes) (config : DeviceConfig) (d : Dev) (later : list Handler) (hs : list (Z * Handler)) (ns : list EventRef) : Prop :=
  ltun_name (dev_iface d) = name /\ dev_config d = config
  /\ cleanup_paths d = (if 0 <=? cfg_uapi_fd config then [] else [sock_path name])
  /\ exists api y e, hs.*2 = rev (device_events name config api (ltun_fd (dev_iface d)) ++ later)
     /\ yield_notice d = Some y /\ exit_notice d = Some e /\ ns = [e; y]
     /\ (trigger y, YieldLoop) ∈ hs /\ (trigger e, ExitLoop) ∈ hs.

Lemma spec_notifiers res hs ns b :
  ready res hs ns (queue b) ->
  spec register_notifiers b (fun n b' => ready res ((trigger n.2, ExitLoop) :: (trigger n.1, YieldLoop) :: hs) (n.2 :: n.1 :: ns) (queue b')).
Proof.
  intros Hr. eapply spec_bind; [apply spec_queue; [apply adds_notifier|exact Hr]|]. norm. intros y b1 H1.
  eapply spec_bind; [apply spec_queue; [apply adds_notifier|exact H1]|]. norm. by intros e b2 H2.
Qed.

Lemma spec_timers res hs ns b :
  ready res hs ns (queue b) ->
  spec register_timers b (fun _ b' => exists x y, ready res ((x, PeerTimers) :: (y, ResetLimiter) :: hs) ns (queue b')).
Proof.
  intros Hr. eapply spec_bind; [apply spec_queue; [apply adds_periodic|exact Hr]|]. norm. intros e b1 H1.
  eapply spec_mono; [apply spec_queue; [apply adds_periodic|exact H1]|]. norm. eauto.
Qed.

Lemma spec_device_start name config b :
  ready (given_fds name config) [] [] (queue b) ->
  spec (device_start env_var user getpwnam O_NONBLOCK name config) b (fun d b' =>
    dev_listener d = mkListener None None 0 /\ exists hs ns, device_served name config d [] hs ns /\ ready [] hs ns (queue b')).
Proof.
  intros Hr. eapply spec_bind; [by apply spec_os|]. norm. intros created b0 H0. destruct (negb created); [done|].
  eapply spec_bind; [by apply spec_open_iface|]. norm. intros iface b1 [Hn H1].
  eapply spec_bind; [by apply spec_mtu|]. norm. intros mtu b2 H2.
  destruct (config_default env_var) as [payment|]; [|done].
  eapply spec_bind; [rewrite Hn; by apply spec_api|]. norm. intros paths b3 (api & hs & Hhs & Hp & H3).
  eapply spec_bind; [by apply spec_event|]. norm. intros _ b4 H4.
  eapply spec_bind; [by apply spec_notifiers|]. norm. intros [y e] b5 H5. norm.
  eapply spec_bind; [by apply spec_timers|]. norm. intros _ b6 (x1 & x2 & H6). split; [done|]. eexists _, _. split; [|exact H6].
  unfold device_served. cbn [dev_iface dev_config cleanup_paths yield_notice exit_notice fst snd].
  split_and!; [done..|]. exists api, y, e. split_and!; [|done..|set_solver|set_solver].
  unfold device_events. rewrite app_nil_r, rev_app_distr, <- Hhs. done.
Qed.

Lemma spec_clone s res hs ns p :
  ready res hs ns p ->
  match register_clone owns ReadUdp s p with
  | Runs (true, q) => exists c, ready res ((c, ReadUdp) :: hs) ns q
  | Faults => False
  | _ => True
  end.
Proof.
  intros Hr. unfold register_clone. pose proof (clone_law s (kernel p)) as Hl. destruct (try_clone s (kernel p)) as [[c|] k]; [|done].
  destruct Hl as (Hc & Hn & Hi & f & _ & Hf). assert (false = false -> oneshot READ_ONCE = true) as Hone by done.
  pose proof (ready_new_fd _ _ _ _ k c f Hr Hc Hn Hi Hf) as Hk.
  pose proof (ready_register READ_ONCE c ReadUdp false false _ _ _ _ Hone Hk) as Hreg. unfold new_event.
  destruct (register_event _ _ _ _ _ _ _) as [[e|e] q]; [|done]. exists c. by destruct Hreg.
Qed.

Lemma spec_listening name config d hs ns b :
  dev_listener d = mkListener None None 0 -> device_served name config d [] hs ns -> ready [] hs ns (queue b) ->
  spec (start_listening d) b (fun d' b' => exists s4 s6 hs' ns', udp4_fd (dev_listener d') = Some s4 /\ udp6_fd (dev_listener d') = Some s6
    /\ device_served name config d' [ReadUdp; ReadUdp] hs' ns' /\ ready [s6; s4] hs' ns' (queue b')).
Proof.
  intros Hl Hd Hr. unfold spec, start_listening, open_listen_fds. rewrite Hl. cbn [udp4_fd udp6_fd close_listener run_bind foldl port_of].
  pose proof (socket_law false 0 (kernel (queue b))) as H4. destruct (bound_socket false 0 (kernel (queue b))) as [[s4|] k4]; [|done].
  apply (ready_opens _ _ _ _ _ (Some s4) Hr) in H4. change (0 =? 0) with true. cbv iota. destruct (local_port s4 k4) as [port|]; [|done].
  pose proof (socket_law true port (kernel (with_kernel k4 (queue b)))) as H6.
  destruct (bound_socket true port (kernel (with_kernel k4 (queue b)))) as [[s6|] k6]; [|done].
  apply (ready_opens _ _ _ _ _ (Some s6) H4) in H6. cbn [option_list app] in H6.
  pose proof (spec_clone s4 _ _ _ _ H6) as C4. destruct (register_clone owns ReadUdp s4 _) as [[[|] q4]| |]; try done.
  destruct C4 as (c4 & C4). cbn [run_bind fst snd negb].
  pose proof (spec_clone s6 _ _ _ _ C4) as C6. destruct (register_clone owns ReadUdp s6 _) as [[[|] q6]| |]; try done.
  destruct C6 as (c6 & C6). cbn [run_bind fst snd negb]. eexists s4, s6, _, _. split_and!; [done|done| |exact C6].
  destruct Hd as (D1 & D2 & D3 & api & y & e & D4 & D5 & D6 & D7 & D8 & D9).
  split_and!; [done..|]. exists api, y, e. split_and!; [|done..|set_solver|set_solver].
  rewrite app_nil_r in D4. rewrite rev_app_distr. cbn. by rewrite D4.
Qed.

Lemma spec_spawn t res hs ns b : ready res hs ns (queue b) -> spec (spawn t) b (fun _ b' => ready res hs ns (queue b')).
Proof. intros Hr. eapply spec_bind; [by apply spec_os|]. norm. intros ok b1 H1. by destruct ok. Qed.

Lemma spec_spawn_all ts res hs ns b : ready res hs ns (queue b) -> spec (spawn_all ts) b (fun _ b' => ready res hs ns (queue b')).
Proof.
  revert b. induction ts as [|t ts IH]; intros b Hr; [done|]. eapply spec_bind; [by apply spec_spawn|]. norm. intros _ b1 H1. by apply IH.
Qed.

(** The queue before a device is created on it, when nothing is registered with it. *)
Lemma ready_new res k :
  NoDup res -> Forall (fun fd => 0 <= fd /\ is_Some (files k !! fd)) res -> interest k = ∅ ->
  ready res [] [] (event_poll_new k).
Proof.
  intros Hn Hf Hi. assert (forall fd, entry (event_poll_new (H := Handler) k) fd = None) as He by done.
  split; try done.
  - assert (forall key r, ~ registered (event_poll_new (H := Handler) k) key r) as Hno.
    { intros key r [Hr _]. cbn in Hr. by rewrite Hi in Hr. }
    split; cbn; try done; try lia; try (by intros key r Hr%Hno).
    + intros c Hc. by apply not_elem_of_nil in Hc.
  - eapply Forall_impl; [exact Hf|]. by intros fd [? ?].
  - by constructor.
  - intros fd _. rewrite He. by intros [].
Qed.

(** What holds of a device that was created. *)
Definition started (name : bytes) (config : DeviceConfig) (d : Dev) (b : Boot M) : Prop :=
  exists s4 s6 hs ns, udp4_fd (dev_listener d) = Some s4 /\ udp6_fd (dev_listener d) = Some s6
    /\ device_served name config d [ReadUdp; ReadUdp] hs ns /\ ready [s6; s4] hs ns (queue b).

Lemma spec_device name config b :
  ready (given_fds name config) [] [] (queue b) ->
  spec (device_handle_new env_var user getpwnam O_NONBLOCK name config) b (started name config).
Proof.
  intros Hr. eapply spec_bind; [by apply spec_device_start|]. norm. intros d b1 (Hl & hs & ns & Hd & H1).
  eapply spec_bind; [by eapply spec_listening|]. norm. intros d2 b2 (s4 & s6 & hs2 & ns2 & L4 & L6 & D2 & H2).
  eapply spec_bind; [by apply spec_spawn_all|]. norm. intros _ b3 H3. by exists s4, s6, hs2, ns2.
Qed.


(** *** The end *)

Lemma spec_ret {A} (a : A) b (Q : A -> Boot M -> Prop) : Q a b -> spec (st_ret a) b Q.
Proof. done. Qed.

Lemma spec_notify c res hs ns b : ready res hs ns (queue b) -> spec (notify c) b (fun _ b' => ready res hs ns (queue b')).
Proof. intros Hr. eapply spec_bind; [by apply spec_os|]. norm. intros ok b1 H1. by destruct ok. Qed.

Lemma drop_undisturbed saved k : undisturbed k (drop_privileges saved k).2.
Proof.
  unfold drop_privileges. destruct saved as [[u g]|e]; [|done].
  destruct (setgid g k) as [k1|] eqn:E1; [|done]. apply setgid_law in E1 as [F1 I1].
  destruct (setuid u k1) as [k2|] eqn:E2; [|done]. apply setuid_law in E2 as [F2 I2].
  destruct (setgid 0 k2) as [k3|] eqn:E3; [apply setgid_law in E3 as [F3 I3]; split; cbn; congruence|].
  destruct (setuid 0 k2) as [k3|] eqn:E4; [apply setuid_law in E4 as [F3 I3]|]; split; cbn; congruence.
Qed.

Lemma spec_drop res hs ns b : ready res hs ns (queue b) -> spec (drop_now user getpwnam) b (fun _ b' => ready res hs ns (queue b')).
Proof.
  intros Hr. unfold spec, drop_now. pose proof (drop_undisturbed (get_saved_ids user getpwnam) (kernel (queue b))) as Hu.
  destruct (drop_privileges _ _) as [[?|?] k]; by apply ready_kernel.
Qed.

Lemma spec_services m name res hs ns b :
  ready res hs ns (queue b) -> spec (start_services env_var m name) b (fun _ b' => ready res hs ns (queue b')).
Proof.
  intros Hr. eapply spec_bind with (R := fun _ b' => ready res hs ns (queue b')).
  - destruct (is_payment_server _); [|done]. unfold start_server. destruct (config_default env_var) as [pc|]; [|done].
    eapply spec_bind with (R := fun _ b' => ready res hs ns (queue b')).
    { eapply spec_bind; [by apply spec_os|]. norm. by intros names b1 H1. }
    intros found b1 H1. do 2 (eapply spec_bind; [by eapply spec_spawn|]; norm; intros _ ? ?).
    destruct (bool_decide _); [done|]. by apply spec_spawn.
  - intros _ b1 H1. unfold start_bridge. destruct (bool_decide _); [done|]. by apply spec_spawn.
Qed.

Lemma spec_remove paths b : spec (remove_paths paths) b (fun _ _ => True).
Proof.
  revert b. induction paths as [|path paths IH]; intros b; [done|]. apply spec_bind with (R := fun _ _ => True); [|by intros].
  unfold spec, os. by destruct (Effects.perform _ _).
Qed.

(** Workers that keep the queue in order, and its notifiers: rounds of their loops do
    ([loop_round_safe]). *)
Definition orderly (w : Workers (M := M)) : Prop := forall p r,
  inv (mkSys p []) -> names_notifier p r -> inv (mkSys (leave w p) []) /\ names_notifier (leave w p) r.

Lemma spec_with_device m name (w : Workers (M := M)) d ifname config later res hs ns b :
  orderly w -> device_served ifname config d later hs ns -> ready res hs ns (queue b) ->
  spec (main_with_device env_var user getpwnam m name w d) b (fun _ _ => True).
Proof.
  intros Hw Hd Hr. unfold main_with_device.
  eapply spec_bind with (R := fun _ b' => ready res hs ns (queue b')); [destruct (opt_keep_privileges m); [done|by apply spec_drop]|].
  intros dropped b1 H1. destruct (negb dropped); [eapply spec_bind; [by apply spec_notify|done]|].
  eapply spec_bind; [by apply spec_notify|]. norm. intros _ b2 H2. eapply spec_bind; [by apply spec_services|]. norm. intros _ b3 H3.
  destruct Hd as (_ & _ & _ & api & y & e & _ & _ & He & -> & _).
  pose proof (ready_notifiers _ _ _ _ H3) as Hn. inversion Hn as [|? ? Hne _]; subst.
  destruct (Hw (queue b3) e (ready_inv _ _ _ _ H3) Hne) as [W1 W2].
  eapply spec_bind with (R := fun _ b' => queue b' = leave w (queue b3)); [done|]. intros ok b4 H4.
  eapply spec_bind with (R := fun _ _ => True); [|done]. eapply spec_bind with (R := fun _ _ => True); [|intros; apply spec_remove].
  unfold spec, trigger_exit. rewrite He, H4. destruct (trigger_inv owns _ [] e W1 W2) as (q & -> & _). done.
Qed.

(** What is given on the command line: descriptors that are open. *)
Definition given_open (m : Matches) k : Prop := forall uapi_fd tun_fd,
  parse_i32 (opt_uapi_fd m) = Some uapi_fd -> parse_signed 64 (opt_tun_fd m) = Some tun_fd ->
  let gs := given_fds (tun_name_of m tun_fd) (mkDeviceConfig 0 true true uapi_fd) in
  NoDup gs /\ Forall (fun fd => 0 <= fd /\ is_Some (files k !! fd)) gs.

Lemma spec_background m res hs ns b :
  ready res hs ns (queue b) -> spec (to_background m) b (fun _ b' => ready res hs ns (queue b')).
Proof.
  intros Hr. unfold to_background. destruct (opt_foreground m); [done|]. eapply spec_bind; [by apply spec_os|]. norm. intros log b1 H1.
  destruct (negb log); [done|]. eapply spec_bind; [by apply spec_os|]. norm. by intros ok b2 H2.
Qed.

Lemma spec_failure b : spec (do _ := notify x00 in st_ret (Exits 1)) b (fun _ _ => True).
Proof. unfold spec, notify, st_bind, os. by destruct (Effects.perform (OpSend x00) (kernel (queue b))) as [[|] k]. Qed.

(** Creating the device and ending it use no freed memory. With the descriptors of the command
    line open, and workers that keep the queue in order, the run of [main] from the start to
    the drop of the device does not use freed memory, however it ends. *)
Theorem main_safe m (w : Workers (M := M)) k acc :
  given_open m k -> interest k = ∅ -> orderly w ->
  main env_var user getpwnam O_NONBLOCK m w (mkBoot (event_poll_new k) acc) <> Faults.
Proof.
  intros Hg Hi Hw. enough (spec (main env_var user getpwnam O_NONBLOCK m w) (mkBoot (event_poll_new k) acc) (fun _ _ => True)) as H.
  { unfold spec in H. by destruct (main _ _ _ _ _ _ _). }
  unfold main. destruct (parse_i32 (opt_uapi_fd m)) as [uapi_fd|] eqn:E1; [|done].
  destruct (parse_signed 64 (opt_tun_fd m)) as [tun_fd|] eqn:E2; [|done]. destruct (parse_uint 64 (opt_threads m)) as [threads|]; [|done].
  destruct (Hg uapi_fd tun_fd E1 E2) as [Hn Hf]. pose proof (ready_new _ _ Hn Hf Hi) as Hr.
  eapply spec_bind; [by apply spec_background|]. norm. intros [code|] b1 H1; [done|].
  set (config := mkDeviceConfig (Z.to_nat threads) _ _ uapi_fd).
  eapply spec_bind with (R := fun r b' => match r with Ok d => started (tun_name_of m tun_fd) config d b' | Err _ => True end).
  { pose proof (spec_device (tun_name_of m tun_fd) config b1 H1) as Hd. unfold spec, st_result in *.
    by destruct (device_handle_new _ _ _ _ _ _ b1) as [[[d|e] b2]| |]. }
  intros [d|e] b2; [|intros _; apply spec_failure]. intros (s4 & s6 & hs & ns & _ & _ & Hd & H2). by eapply spec_with_device.
Qed.
End Started.

(** ** What the process reports, and what it leaves behind *)

(** The bytes that are sent, the sockets that are bound, and those whose file is still there. *)
Record Track := mkTrack { sent : list byte; bound : list bytes; left : list bytes }.

Definition note (s : Track) (e : Event) : Track :=
  let '(existT op a) := e in
  match op return answer op -> Track with
  | OpSend c => fun _ => mkTrack (sent s ++ [c]) (bound s) (left s)
  | OpBind path => fun a => match a with Some _ => mkTrack (sent s) (path :: bound s) (path :: left s) | None => s end
  | OpRemove path => fun _ => mkTrack (sent s) (bound s) (filter (fun p => p <> path) (left s))
  | _ => fun _ => s
  end a.

Definition tracked (es : list Event) : Track := foldl note (mkTrack [] [] []) es.

Section Report.
Context {M : Type} `{Kn : Kernel M} `{So : Sockets M} `{Ux : Unix M} `{Id : Identity M} `{Pr : Process M} `{HX : Hex}.
Context (env_var : bytes -> option bytes) (user : option bytes).
Context (getpwnam : bytes -> result PrivError (option (Z * Z))) (O_NONBLOCK : Z).

Implicit Types (b : Boot M) (s : Track).

(** What a step that returns adds. *)
Definition reports {A} s (m : St A) (Q : result StartError A -> Track -> Prop) : Prop :=
  forall b, tracked (record b) = s -> match m b with Runs (r, b') => Q r (tracked (record b')) | _ => True end.

Lemma reports_bind {A B} s (m : St A) (f : A -> St B) R Q :
  reports s m R -> (forall a s', R (Ok a) s' -> reports s' (f a) Q) -> (forall e s', R (Err e) s' -> Q (Err e) s') ->
  reports s (st_bind m f) Q.
Proof.
  intros Hm Hf He b Hb. specialize (Hm b Hb). unfold st_bind. destruct (m b) as [[[a|e] b']| |]; cbn; [|by apply He|done|done].
  by apply (Hf a _ Hm).
Qed.

Lemma reports_mono {A} s (m : St A) (R Q : result StartError A -> Track -> Prop) :
  reports s m R -> (forall r s', R r s' -> Q r s') -> reports s m Q.
Proof. intros Hm Hq b Hb. specialize (Hm b Hb). destruct (m b) as [[r b']| |]; auto. Qed.

Lemma reports_ret {A} s (a : A) Q : Q (Ok a) s -> reports s (st_ret a) Q.
Proof. by intros Hq b <-. Qed.

Lemma reports_os s op : reports s (os op) (fun r s' => exists a, r = Ok a /\ s' = note s (existT op a)).
Proof.
  intros b Hb. unfold os. destruct (Effects.perform op (kernel (queue b))) as [a k]. exists a. split; [done|].
  cbn [record]. unfold tracked in *. by rewrite foldl_app, Hb.
Qed.

Lemma reports_os_bind {B} s op (f : answer op -> St B) Q :
  (forall a, reports (note s (existT op a)) (f a) Q) -> reports s (st_bind (os op) f) Q.
Proof.
  intros Hf. eapply reports_bind; [apply reports_os| |].
  - intros a s' (a' & [= <-] & ->). apply Hf.
  - by intros e s' (a & ? & _).
Qed.

(** A step that does nothing of this. *)
Definition unrecorded {A} (m : St A) : Prop := forall b, match m b with Runs (_, b') => record b' = record b | _ => True end.

Lemma unrecorded_reports {A} s (m : St A) : unrecorded m -> reports s m (fun _ s' => s' = s).
Proof. intros Hm b <-. specialize (Hm b). destruct (m b) as [[r b']| |]; [by rewrite Hm|done|done]. Qed.

Lemma unrecorded_bind {A B} (m : St A) (f : A -> St B) : unrecorded m -> (forall a, unrecorded (f a)) -> unrecorded (st_bind m f).
Proof.
  intros Hm Hf b. specialize (Hm b). unfold st_bind. destruct (m b) as [[[a|e] b']| |]; cbn; try done.
  specialize (Hf a b'). destruct (f a b') as [[r b'']| |]; congruence.
Qed.

Lemma unrecorded_ret {A} (a : A) : unrecorded (st_ret a).
Proof. done. Qed.

Lemma unrecorded_tun {A} (m : M -> outcome (result TunError A) * M) : unrecorded (on_tun m).
Proof. intros b. unfold on_tun. by destruct (m (kernel (queue b))) as [[[a|e]|] k]. Qed.

Lemma unrecorded_queue {A} (m : EventPoll Handler M -> result QueueError A * EventPoll Handler M) : unrecorded (on_queue m).
Proof. intros b. unfold on_queue. by destruct (m (queue b)) as [[a|e] p]. Qed.

Lemma unrecorded_listening d : unrecorded (start_listening d).
Proof. intros b. unfold start_listening. by destruct (open_listen_fds _ _ _ _ _ _) as [[[[|] l] p]| |]. Qed.

Lemma unrecorded_drop : unrecorded (drop_now user getpwnam).
Proof. intros b. unfold drop_now. by destruct (drop_privileges _ _) as [[?|?] k]. Qed.

Lemma unrecorded_exit d : unrecorded (trigger_exit d).
Proof. intros b. unfold trigger_exit. destruct (exit_notice d); [|done]. by destruct (trigger_notification _ _). Qed.

Lemma unrecorded_iface name : unrecorded (open_iface O_NONBLOCK name).
Proof. repeat first [apply unrecorded_bind; [|intros ?]|apply unrecorded_tun|apply unrecorded_ret]. Qed.

(** The rest of a step after an unrecorded one. *)
Lemma reports_unrecorded {A B} s (m : St A) (f : A -> St B) Q :
  unrecorded m -> (forall a, reports s (f a) Q) -> (forall e, Q (Err e) s) -> reports s (st_bind m f) Q.
Proof. intros Hm Hf He. eapply reports_bind; [by apply unrecorded_reports|by intros a s' ->|by intros e s' ->]. Qed.

(** *** The parts of [main] *)

Lemma reports_err {A} s (e : StartError) (Q : result StartError A -> Track -> Prop) : Q (Err e) s -> reports s (st_fail e) Q.
Proof. by intros Hq b <-. Qed.

Lemma reports_if {A} s (c : bool) (m1 m2 : St A) Q : reports s m1 Q -> reports s m2 Q -> reports s (if c then m1 else m2) Q.
Proof. by destruct c. Qed.

Lemma reports_panic {A} s (Q : result StartError A -> Track -> Prop) : reports s st_panic Q.
Proof. done. Qed.

Lemma reports_spawn s t : reports s (spawn t) (fun r s' => r = Ok tt /\ s' = s).
Proof. apply reports_os_bind. intros ok. by apply reports_if; [apply reports_ret|apply reports_panic]. Qed.

Lemma reports_then {A B} s (m : St A) (f : A -> St B) (a : A) Q :
  reports s m (fun r s' => r = Ok a /\ s' = s) -> reports s (f a) Q -> reports s (st_bind m f) Q.
Proof. intros Hm Hf. eapply reports_bind; [exact Hm|by intros a' s' [[= ->] ->]|by intros e s' [? _]]. Qed.

Lemma reports_spawn_all s ts : reports s (spawn_all ts) (fun r s' => r = Ok tt /\ s' = s).
Proof.
  induction ts as [|t ts IH]; [by apply reports_ret|]. by eapply reports_then; [apply reports_spawn|].
Qed.

Lemma reports_services s m name : reports s (start_services env_var m name) (fun r s' => r = Ok tt /\ s' = s).
Proof.
  eapply (reports_then _ _ _ tt).
  - apply reports_if; [|by apply reports_ret]. unfold start_server. destruct (config_default env_var) as [pc|]; [|apply reports_panic].
    eapply reports_bind with (R := fun r s' => exists o, r = Ok o /\ s' = s).
    { apply reports_os_bind. intros names. apply reports_ret. by eexists. }
    2: { by intros e s' (? & ? & _). }
    intros found s' (o & _ & ->). do 2 (eapply reports_then; [apply reports_spawn|]).
    apply reports_if; [by apply reports_ret|apply reports_spawn].
  - apply reports_if; [by apply reports_ret|apply reports_spawn].
Qed.

Lemma reports_notify s c : reports s (notify c) (fun r s' => r = Ok tt /\ s' = mkTrack (sent s ++ [c]) (bound s) (left s)).
Proof. apply reports_os_bind. intros ok. by apply reports_if; [apply reports_ret|apply reports_panic]. Qed.

Lemma reports_remove s paths :
  reports s (remove_paths paths) (fun r s' => r = Ok tt /\ sent s' = sent s /\ bound s' = bound s /\ left s' = filter (fun p => p ∉ paths) (left s)).
Proof.
  revert s. induction paths as [|path paths IH]; intros s.
  - apply reports_ret. split_and!; try done. induction (left s) as [|p l IH]; [done|].
    rewrite filter_cons_True by apply not_elem_of_nil. by rewrite <- IH.
  - apply reports_os_bind. intros a. eapply reports_mono; [apply IH|]. cbn. intros r s' (-> & H1 & H2 & ->). split_and!; try done.
    rewrite list_filter_filter. apply list_filter_iff. intros p. rewrite not_elem_of_cons. naive_solver.
Qed.

(** Until the device is there, its socket is the only one that is bound. *)
Definition one_socket (s : Track) (paths : list bytes) : Prop := sent s = [] /\ bound s = paths /\ left s = paths.

Lemma reports_api s name :
  one_socket s [] ->
  reports s (register_api_handler user getpwnam name) (fun r s' => exists paths, one_socket s' paths /\ match r with Ok p => p = paths | Err _ => True end).
Proof.
  intros Hs. unfold register_api_handler. eapply (reports_then _ _ _ tt).
  { apply reports_os_bind. intros []. destruct (get_saved_ids _ _) as [[uid gid]|]; [|by apply reports_ret].
    eapply reports_mono; [apply (reports_os _ (OpChown SOCK_DIR uid gid))|]. by intros r s' ([] & -> & ->). }
  destruct Hs as (H1 & H2 & H3). apply reports_os_bind. intros []. cbn [note]. rewrite H1, H2, H3. cbn [filter list_filter].
  apply reports_os_bind. intros [fd|]; cbn [note sent bound left]; [|apply reports_err; by exists []].
  repeat (apply reports_unrecorded; [apply unrecorded_queue|intros ?|by exists [sock_path name]]).
  apply reports_unrecorded; [apply unrecorded_bind; [apply unrecorded_queue|intros ?; apply unrecorded_queue]|intros ?|by exists [sock_path name]].
  apply reports_ret. by exists [sock_path name].
Qed.

Lemma reports_device name config :
  reports (mkTrack [] [] []) (device_handle_new env_var user getpwnam O_NONBLOCK name config)
    (fun r s' => exists paths, one_socket s' paths /\ match r with Ok d => cleanup_paths d = paths | Err _ => True end).
Proof.
  unfold device_handle_new. eapply reports_bind; [| |].
  - unfold device_start. instantiate (1 := fun r s' => exists paths, one_socket s' paths /\ match r with Ok d => cleanup_paths d = paths | Err _ => True end).
    apply reports_os_bind. intros created. cbn [note]. apply reports_if; [apply reports_err; by exists []|].
    apply reports_unrecorded; [apply unrecorded_iface|intros iface|by exists []]. apply reports_unrecorded; [apply unrecorded_tun|intros mtu|by exists []].
    destruct (config_default env_var) as [payment|]; [|apply reports_panic].
    eapply reports_bind with (R := fun r s' => exists paths, one_socket s' paths /\ match r with Ok p => p = paths | Err _ => True end).
    + apply reports_if; [|by apply reports_api]. apply reports_unrecorded; [apply unrecorded_queue|intros ?|by exists []]. apply reports_ret. by exists [].
    + intros paths s' (paths' & Hs & <-). apply reports_unrecorded; [apply unrecorded_queue|intros ?|by exists paths].
      apply reports_unrecorded; [repeat first [apply unrecorded_bind; [|intros ?]|apply unrecorded_queue|apply unrecorded_ret]|intros ?|by exists paths].
      apply reports_unrecorded; [repeat first [apply unrecorded_bind; [|intros ?]|apply unrecorded_queue|apply unrecorded_ret]|intros ?|by exists paths].
      apply reports_ret. by exists paths.
    + intros e s' (paths & Hs & _). by exists paths.
  - intros d s' (paths & Hs & Hp). eapply reports_bind with (R := fun r s'' => s'' = s' /\ match r with Ok d' => cleanup_paths d' = cleanup_paths d | Err _ => True end).
    + intros b <-. unfold start_listening. by destruct (open_listen_fds _ _ _ _ _ _) as [[[[|] l] p]| |].
    + intros d' s'' [-> Hd]. eapply reports_then; [apply reports_spawn_all|]. apply reports_ret. exists paths. by rewrite Hd.
    + intros e s'' [-> _]. by exists paths.
  - intros e s' (paths & Hs & _). by exists paths.
Qed.

(** How [main] ends, with what it has sent and left behind. *)
Definition main_ends (foreground : bool) (r : result StartError MainEnd) (s : Track) : Prop :=
  match r with
  | Ok (Returns _) => sent s = [x01] /\ left s = []
  | Ok (Exits code) => left s = bound s /\ (sent s = [x00] /\ code = 1 \/ sent s = [] /\ (foreground = false \/ code = 2))
  | Err _ => False
  end.

Lemma reports_failure fg s paths : one_socket s paths -> reports s (st_bind (notify x00) (fun _ => st_ret (Exits 1))) (main_ends fg).
Proof.
  intros (H1 & H2 & H3). eapply reports_bind; [apply reports_notify| |by intros e s' [? _]]. intros _ s' [_ ->]. apply reports_ret.
  cbn. rewrite H1, H2, H3. by split; [|left].
Qed.

Lemma reports_with_device m name (w : Workers (M := M)) d fg s :
  one_socket s (cleanup_paths d) -> reports s (main_with_device env_var user getpwnam m name w d) (main_ends fg).
Proof.
  intros Hs. pose proof Hs as (H1 & H2 & H3). unfold main_with_device.
  eapply reports_bind with (R := fun r s' => s' = s /\ is_ok r).
  { apply reports_if; [by apply reports_ret|]. intros b <-. unfold drop_now. by destruct (drop_privileges _ _) as [[?|?] k]. }
  2: { by intros e s' [_ ?]. }
  intros dropped s' [-> _]. apply reports_if; [by eapply reports_failure|].
  eapply reports_bind; [apply reports_notify| |by intros e s' [? _]]. intros _ s' [_ ->].
  eapply reports_then; [apply reports_services|].
  eapply reports_bind with (R := fun r s' => s' = mkTrack (sent s ++ [x01]) (bound s) (left s) /\ is_ok r); [by intros b <-| |by intros e s' [_ ?]].
  intros ok s' [-> _]. eapply reports_bind with (R := fun r s' => sent s' = [x01] /\ left s' = [] /\ is_ok r).
  { eapply reports_bind with (R := fun r s' => s' = mkTrack (sent s ++ [x01]) (bound s) (left s) /\ is_ok r).
    - intros b <-. unfold trigger_exit. destruct (exit_notice d); [|done]. by destruct (trigger_notification _ _).
    - intros _ s' [-> _]. eapply reports_mono; [apply reports_remove|]. cbn. intros r s' (-> & -> & _ & ->).
      rewrite H1, H3. split_and!; [done| |done]. apply elem_of_nil_inv. by intros x [? ?]%list_elem_of_filter.
    - by intros e s' [_ ?]. }
  2: { by intros e s' (_ & _ & ?). }
  intros _ s' (S1 & S2 & _). by apply reports_ret.
Qed.

Lemma reports_main m (w : Workers (M := M)) :
  reports (mkTrack [] [] []) (main env_var user getpwnam O_NONBLOCK m w) (main_ends (opt_foreground m)).
Proof.
  unfold main. destruct (parse_i32 (opt_uapi_fd m)) as [uapi_fd|], (parse_signed 64 (opt_tun_fd m)) as [tun_fd|], (parse_uint 64 (opt_threads m)) as [threads|];
    try (apply reports_ret; cbn; split; [done|right; split; [done|by right]]).
  eapply reports_bind with (R := fun r s' => s' = mkTrack [] [] [] /\ exists o, r = Ok o /\ (opt_foreground m = true -> o = None)).
  { unfold to_background. destruct (opt_foreground m); [apply reports_ret; naive_solver|]. apply reports_os_bind. intros log.
    apply reports_if; [apply reports_panic|]. apply reports_os_bind. intros ok. apply reports_ret. cbn. naive_solver. }
  2: { by intros e s' (_ & ? & ? & _). }
  intros o s' (-> & o' & [= <-] & Ho). destruct o as [code|].
  { apply reports_ret. cbn. split; [done|]. right. split; [done|]. left. destruct (opt_foreground m); [by discriminate Ho|done]. }
  eapply reports_bind with (R := fun r s' => exists c paths, r = Ok c /\ one_socket s' paths /\ match c with Ok d => cleanup_paths d = paths | Err _ => True end).
  { intros b Hb. pose proof (reports_device (tun_name_of m tun_fd)
      (mkDeviceConfig (Z.to_nat threads) (negb (opt_disable_connected_udp m)) (negb (opt_disable_multi_queue m)) uapi_fd) b Hb) as Hd.
    unfold st_result. destruct (device_handle_new _ _ _ _ _ _ _) as [[r b']| |]; [|done|done]. destruct Hd as (paths & H1 & H2). by exists r, paths. }
  2: { by intros e s' (? & ? & ? & _). }
  intros c s' (c' & paths & [= <-] & Hs & Hc). destruct c as [d|e]; [|by eapply reports_failure].
  apply reports_with_device. by rewrite Hc.
Qed.

End Report.

(** ** The name of the control socket *)

Lemma ends_with_spec t s : ends_with t s = true <-> exists r, s = r ++ t.
Proof.
  unfold ends_with. rewrite andb_true_iff, !bool_decide_eq_true. split.
  - intros [Hd _]. exists (take (length s - length t) s). by rewrite <- Hd at 2; rewrite take_drop.
  - intros [r ->]. rewrite length_app. replace (length r + length t - length t)%nat with (length r) by lia. by rewrite drop_app_length; split; [|lia].
Qed.

Lemma concat_replicate_comm {A} n (t : list A) : concat (replicate n t) ++ t = t ++ concat (replicate n t).
Proof. induction n as [|n IH]; cbn; [by rewrite app_nil_r|]. by rewrite <- app_assoc, IH. Qed.

(** The fuel is enough: all repetitions are gone. *)
Lemma trim_end_text_spec fuel t s : t <> [] -> (length s <= fuel)%nat ->
  let r := trim_end_text fuel t s in ends_with t r = false /\ exists n, s = r ++ concat (replicate n t).
Proof.
  intros Ht. revert s. induction fuel as [|fuel IH]; intros s Hl; cbn.
  - destruct s; [|cbn in Hl; lia]. split; [|by exists 0%nat]. destruct (ends_with t []) eqn:E; [|done].
    apply ends_with_spec in E as [r Hr]. destruct r, t; done.
  - destruct (ends_with t s) eqn:E; [|split; [done|]; exists 0%nat; by rewrite app_nil_r].
    apply ends_with_spec in E as [r ->]. assert (0 < length t)%nat by (destruct t; cbn; [done|lia]).
    rewrite length_app in *. replace (length r + length t - length t)%nat with (length r) by lia. rewrite take_app_length.
    destruct (IH r) as (H1 & n & H2); [lia|]. split; [done|]. exists (S n). cbn. rewrite H2 at 1.
    by rewrite <- app_assoc, concat_replicate_comm.
Qed.

Lemma starts_with_spec t s : starts_with t s = true <-> exists r, s = t ++ r.
Proof.
  unfold starts_with. rewrite bool_decide_eq_true. split.
  - intros Hd. exists (drop (length t) s). by rewrite <- Hd at 1; rewrite take_drop.
  - intros [r ->]. by rewrite take_app_length.
Qed.

(** The interface whose socket the registration server uses. The first socket of the
    directory is taken whose name continues that of the device, so that the socket of another
    device is used when its name has that of this one as a prefix. *)
Theorem uapi_interface_prefix hint ext names :
  is_utf8 (hint ++ ext ++ str ".sock") = true -> ends_with (str ".sock") (hint ++ ext) = false ->
  uapi_interface_of hint ((hint ++ ext ++ str ".sock") :: names) = Some (hint ++ ext).
Proof.
  intros Hu He. unfold uapi_interface_of. cbn [fmap list_fmap]. rewrite lossy_valid by done. cbn [list_find].
  assert (starts_with hint (hint ++ ext ++ str ".sock") = true) as -> by (apply starts_with_spec; by eexists).
  assert (ends_with (str ".sock") (hint ++ ext ++ str ".sock") = true) as -> by (apply ends_with_spec; exists (hint ++ ext); by rewrite app_assoc).
  cbn [andb]. rewrite decide_True by done. f_equal. rewrite app_assoc. set (h := hint ++ ext) in *.
  destruct (trim_end_text_spec (length (h ++ str ".sock")) (str ".sock") (h ++ str ".sock")) as (H1 & n & H2); [done|done|].
  set (r := trim_end_text _ _ _) in *. destruct n as [|n].
  { exfalso. cbn in H2. rewrite app_nil_r in H2. assert (ends_with (str ".sock") r = true) by (apply ends_with_spec; exists h; by rewrite <- H2). congruence. }
  cbn [replicate concat] in H2. rewrite <- concat_replicate_comm, app_assoc in H2. apply app_inj_2 in H2 as [H2 _]; [|done].
  destruct n as [|n]; [cbn in H2; by rewrite app_nil_r in H2|]. exfalso. cbn [replicate concat] in H2.
  rewrite <- concat_replicate_comm, app_assoc in H2. assert (ends_with (str ".sock") h = true) by (apply ends_with_spec; by eexists). congruence.
Qed.

(** ** A descriptor for the interface, and several workers *)

Section Reopened.
Context {M : Type} `{Kn : Kernel M} `{V : KernelView M} `{Ux : Unix M} (O_NONBLOCK : Z).

(** The box of the event that was there is dropped. *)
Lemma register_drops flags fd h notifier needs_read (p : EventPoll Handler M) c :
  0 <= fd -> entry p fd = Some c -> c <> next_box p -> is_Some (boxes p !! c) ->
  boxes (register_event owns flags fd h notifier needs_read p).2 !! c = None.
Proof.
  intros Hfd He Hc [ev Hev]. rewrite <- (Z2Nat.id fd) in He by done. apply entry_Some in He.
  unfold register_event, insert_at, take_event. cbn [events boxes next_box kernel].
  assert ((events p ++ replicate (S (Z.to_nat fd) - length (events p)) None) !! Z.to_nat fd = Some (Some c)) as -> by by apply lookup_grown.
  unfold drop_box. cbn [boxes]. rewrite lookup_insert_ne by done. rewrite Hev. cbn [events boxes next_box kernel].
  destruct (epoll_ctl_add _ _ _) as [ok k]. cbn. by rewrite lookup_delete_eq.
Qed.

Lemma open_given name fd b t b1 :
  parse_i32 name = Some fd -> open_iface O_NONBLOCK name b = Runs (Ok t, b1) ->
  ltun_fd t = fd /\ exists k : M, queue b1 = with_kernel k (queue b).
Proof.
  intros Hn. unfold open_iface, st_bind, on_tun, linux_new. rewrite Hn. cbn [run_bind fst snd ltun_fd queue record].
  destruct (set_non_blocking _ _ _) as [[|] k]; cbn; [|done]. intros [= <- <-]. split; [done|]. by exists k.
Qed.

(** Workers of a device that is given as a descriptor. A worker other than the first opens the
    interface again by its name; when the name is a descriptor, this is the same descriptor,
    and the event that the worker registers replaces the one that is there. Its box is freed,
    also when another worker holds it, which then uses freed memory. *)
Theorem tun_fd_worker_frees i (d : Dev) (b : Boot M) held r b' fd c :
  i <> 0%nat -> use_multi_queue (dev_config d) = true -> parse_i32 (ltun_name (dev_iface d)) = Some fd -> 0 <= fd ->
  inv (mkSys (queue b) held) -> entry (queue b) fd = Some c ->
  worker_iface O_NONBLOCK i d b = Runs (r, b') -> guard_drop c (queue b') = Faults.
Proof.
  intros Hi Hq Hn Hfd Hinv He. unfold worker_iface. rewrite bool_decide_eq_false_2, Hq by done. cbn [orb negb].
  unfold st_bind, st_unwrap. destruct (open_iface O_NONBLOCK _ b) as [[[t|] b1]| |] eqn:Eo; cbn [run_bind fst snd]; [|done..].
  destruct (open_given _ _ _ _ _ Hn Eo) as [<- [k Hk]]. unfold st_ok, register_iface_handler, on_queue.
  assert (boxes (queue b) !! c <> None /\ c <> next_box (queue b)) as [Hb Hc].
  { pose proof He as He'. rewrite <- (Z2Nat.id (ltun_fd t)) in He' by done. apply entry_Some in He'.
    destruct (inv_events _ Hinv _ _ He') as (ev & Hev & _). cbn in Hev. destruct (inv_boxes _ Hinv _ _ Hev) as [Hlt _]. cbn in Hlt.
    split; [congruence|lia]. }
  pose proof (register_drops READ_ONCE (ltun_fd t) (ReadIface (ltun_fd t)) false false (queue b1) c Hfd) as Hd.
  rewrite Hk in Hd. specialize (Hd He Hc). unfold new_event. rewrite Hk. destruct (register_event _ _ _ _ _ _ _) as [res q].
  cbn [run_bind fst snd]. intros [= _ <-]. unfold guard_drop, deref. cbn [queue]. cbn [snd] in Hd.
  rewrite Hd; [done|]. cbn. by apply not_eq_None_Some.
Qed.
End Reopened.

(** ** An example: the kernel of the queue, with the calls of the process *)

#[local] Existing Instances toy_kernel toy_view toy_kernel_laws toy_sockets toy_socket_laws toy_hex.

Definition toy_tun (op : Unix.Op) (k : ToyKernel) : Unix.answer op * ToyKernel :=
  match op return Unix.answer op * ToyKernel with
  | OpOpenTun | OpSocketSystem | OpSocketInet => toy_open k
  | OpClose fd => (tt, fd_close fd k)
  | OpTunSetIff _ _ _ | OpConnectCtl _ _ _ | OpSetFl _ _ => (true, k)
  | OpCtlInfo _ _ | OpGetFl _ | OpGetMtu _ _ => (Some 1420, k)
  | OpIfName _ | OpRead _ _ | OpRecvmsg _ _ _ => (None, k)
  | OpWrite _ _ | OpSendmsg _ _ _ => (None, k)
  end.

Definition toy_process (op : Op) (k : ToyKernel) : answer op * ToyKernel :=
  match op return answer op * ToyKernel with
  | OpCreateDir _ | OpChown _ _ _ | OpRemove _ => (tt, k)
  | OpExists _ | OpEpollCreate | OpCreateLog _ | OpDaemonize | OpSend _ | OpSpawn _ => (true, k)
  | OpBind _ => toy_open k
  | OpReadDir _ => (Some [str "wg0.sock"], k)
  end.

#[local] Instance toy_unix : Unix ToyKernel := {| Effects.perform := toy_tun |}.
#[local] Instance toy_calls : Process ToyKernel := {| Effects.perform := toy_process |}.
#[local] Instance toy_identity : Identity ToyKernel := {|
  ids _ := mkCreds 1000 1000 1000 1000 1000 1000 [];
  setuid u k := if u =? 0 then None else Some k;
  setgid g k := if g =? 0 then None else Some k;
|}.

#[local] Instance toy_start_laws : StartLaws ToyKernel.
Proof.
  split.
  - intros [] k; try done; apply toy_opens.
  - intros [] k; try done; apply toy_opens.
  - intros u k k'. cbn. destruct (u =? 0); [done|]. by intros [= <-].
  - intros g k k'. cbn. destruct (g =? 0); [done|]. by intros [= <-].
Qed.

Definition toy_users (name : bytes) : result PrivError (option (Z * Z)) := Ok (Some (1000, 1000)).
Definition toy_config : DeviceConfig := mkDeviceConfig 2 true true (-1).
Abbreviation toy_boot := (mkBoot (event_poll_new (mkToy ∅ ∅ [])) []).

Abbreviation toy_start := (device_handle_new (M := ToyKernel) (fun _ => None) None toy_users 2048 (str "wg0") toy_config).

Definition succeeds {A} (r : run (result StartError A * Boot ToyKernel)) : bool := match r with Runs (Ok _, _) => true | _ => false end.

Lemma toy_start_succeeds : succeeds (toy_start toy_boot) = true.
Proof. vm_compute. reflexivity. Qed.

Lemma succeeds_ok {A} (r : run (result StartError A * Boot ToyKernel)) : succeeds r = true -> exists a b, r = Runs (Ok a, b).
Proof. destruct r as [[[a|] b]| |]; try done. by exists a, b. Qed.

Lemma toy_given : given_fds (str "wg0") toy_config = [].
Proof. vm_compute. reflexivity. Qed.

Lemma spec_ok {A} (m : St A) b Q a b' : m b = Runs (Ok a, b') -> spec (M := ToyKernel) m b Q -> Q a b'.
Proof. unfold spec. by intros ->. Qed.


Definition toy_matches (keep : bool) : Matches :=
  mkMatches (str "wg0") true (str "2") (str "-1") (str "-1") (str "/tmp/boringtun.out") keep false [] [] (str "51821") false.
Definition toy_workers : Workers (M := ToyKernel) := mkWorkers (fun p => p) (fun _ => true).
Abbreviation toy_main keep := (main (M := ToyKernel) (fun _ => None) None toy_users 2048 (toy_matches keep) toy_workers).

Lemma main_safe_witness : toy_main true toy_boot <> Faults.
Proof.
  apply main_safe; [|reflexivity|].
  - intros uapi_fd tun_fd Hu Ht. assert (Some uapi_fd = Some (-1) /\ Some tun_fd = Some (-1)) as [[= ->] [= ->]]
      by (rewrite <- Hu, <- Ht; vm_compute; by split).
    assert (given_fds (tun_name_of (toy_matches true) (-1)) (mkDeviceConfig 0 true true (-1)) = []) as -> by (vm_compute; reflexivity).
    by split; constructor.
  - intros p r Hi Hn. by split.
Defined.

(** What [main] sends, and the sockets it leaves. *)
Definition ending (r : run (result StartError MainEnd * Boot ToyKernel)) : option (MainEnd * list byte * list bytes) :=
  match r with Runs (Ok e, b) => let s := tracked (record b) in Some (e, sent s, left s) | _ => None end.

(** With its privileges the process goes on and cleans up; without a user to give them up
    to, it leaves its socket. *)
Lemma main_example :
  ending (toy_main true toy_boot) = Some (Returns 0, [x01], [])
  /\ ending (toy_main false toy_boot) = Some (Exits 1, [x00], [sock_path (str "wg0")]).
Proof. split; vm_compute; reflexivity. Qed.

Lemma uapi_interface_prefix_witness :
  uapi_interface_of (str "wg1") [str "wg10.sock"; str "wg1.sock"] = Some (str "wg10").
Proof. apply (uapi_interface_prefix (str "wg1") (str "0") [str "wg1.sock"]); vm_compute; reflexivity. Defined.

(** Descriptor 3 is the interface, with an event. *)
Definition toy_dev : Dev := mkDev (mkLinuxTun 3 (str "3")) 1500 None None (mkListener None None 0) [] toy_config
  (mkConfig 0 [] 0 0 [] [] [] [] [] [] [] false).
Definition toy_queue : EventPoll Handler ToyKernel := (new_event owns 3 (ReadIface 3) (event_poll_new (mkToy {[3 := 0%nat]} ∅ []))).2.

Lemma toy_queue_inv : inv (mkSys toy_queue []).
Proof.
  apply (register_inv owns (mkSys (event_poll_new (mkToy {[3 := 0%nat]} ∅ [])) [])); [|lia|by intros b|done].
  apply (ready_inv [] [] []). by apply ready_new; [constructor| |].
Qed.

Lemma tun_fd_worker_frees_witness : exists r b',
  worker_iface 2048 1 toy_dev (mkBoot toy_queue []) = Runs (r, b') /\ guard_drop 1 (queue b') = Faults.
Proof.
  destruct (succeeds_ok (worker_iface 2048 1 toy_dev (mkBoot toy_queue []))) as (t & b & E); [vm_compute; reflexivity|].
  exists (Ok t), b. split; [exact E|].
  apply (tun_fd_worker_frees 2048 1 toy_dev (mkBoot toy_queue []) [] (Ok t) b 3 1); [lia|reflexivity|vm_compute; reflexivity|lia|exact toy_queue_inv|vm_compute; reflexivity|exact E].
Defined.
