(* ===== verification/RegistrationRuns.v ===== *)
(** * The address pool of the registration server

    Whatever the clients send, whatever the device answers and whenever the reaper
    runs, the pool and the tables of the server agree and no two peers share an
    address. *)

From Stdlib Require Import ZArith Lia.
From Stdlib Require Strings.String.
From stdpp Require Import base numbers list option gmap.
From S2P Require Import Prelude Clock Packet Eip3009 RustText Json NetText Utf8 Serialization Api Registration.

Import Stdlib.Strings.String.StringSyntax.

(** Every octet is either free or held by one peer, and the three tables of
    registered peers have the same keys. *)
Record pool_inv (i : RegistrationInner) : Prop := {
  pool_free : forall o, o ∈ available_ips i -> 2 <= o <= 254 /\ forall k, peer_to_octet i !! k <> Some o;
  pool_held : forall k o, peer_to_octet i !! k = Some o -> 2 <= o <= 254;
  pool_all : forall o, 2 <= o <= 254 -> o ∉ available_ips i -> exists k, peer_to_octet i !! k = Some o;
  pool_inj : forall k k' o, peer_to_octet i !! k = Some o -> peer_to_octet i !! k' = Some o -> k = k';
  pool_peers : dom (peer_to_octet i) = registered_peers i;
  pool_times : dom (peer_registered_at i) = registered_peers i;
}.

(** ** The operations *)

Lemma pool_new : pool_inv (mkInner ∅ all_octets ∅ ∅ None None ∅).
Proof.
  split; cbn [registered_peers available_ips peer_to_octet peer_registered_at].
  - intros o Ho%all_octets_range. split; [exact Ho|]. intros k. by rewrite lookup_empty.
  - intros k o. by rewrite lookup_empty.
  - intros o H1%all_octets_range H2. contradiction.
  - intros k k' o. by rewrite lookup_empty.
  - apply dom_empty_L.
  - apply dom_empty_L.
Qed.

(** The caches and the nullifiers do not matter. *)
Definition same_pool (i j : RegistrationInner) : Prop :=
  registered_peers j = registered_peers i /\ available_ips j = available_ips i
  /\ peer_to_octet j = peer_to_octet i /\ peer_registered_at j = peer_registered_at i.

Lemma pool_same i j : same_pool i j -> pool_inv i -> pool_inv j.
Proof. intros (E1 & E2 & E3 & E4) [H1 H2 H3 H4 H5 H6]. by split; rewrite ?E1, ?E2, ?E3, ?E4. Qed.

Lemma pool_assign i k o now :
  pool_inv i -> peer_to_octet i !! k = None -> o ∈ available_ips i -> pool_inv (assign k o now i).
Proof.
  intros [H1 H2 H3 H4 H5 H6] Hk Ho. destruct (H1 o Ho) as [Hall Hfree]. unfold assign. split; cbn.
  - intros o' [Ho' Hne]%elem_of_difference. destruct (H1 o' Ho') as [? Hf]. split; [done|]. intros k'.
    destruct (decide (k = k')) as [->|]; simplify_map_eq; [|done]. intros [= <-]. set_solver.
  - intros k' o'. destruct (decide (k = k')) as [->|]; simplify_map_eq; [by intros [= <-]|apply H2].
  - intros o' Ha Hn. destruct (decide (o' = o)) as [->|]; [exists k; by simplify_map_eq|].
    destruct (H3 o' Ha) as [k' Hk']; [set_solver|]. exists k'. rewrite lookup_insert_ne; [done|congruence].
  - intros k1 k2 o' Hk1 Hk2. destruct (decide (k = k1)) as [<-|], (decide (k = k2)) as [<-|]; simplify_map_eq;
      try done; try (by exfalso; eapply Hfree). by eapply H4.
  - rewrite dom_insert_L. by rewrite H5.
  - rewrite dom_insert_L. by rewrite H6.
Qed.

Lemma pool_release i k o :
  pool_inv i -> peer_to_octet i !! k = Some o -> pool_inv (release k o i).
Proof.
  intros [H1 H2 H3 H4 H5 H6] Hk. unfold release. split; cbn.
  - intros o' Ho'. destruct (decide (o' = o)) as [->|Hne].
    + split; [by eapply H2|]. intros k' [Hne Hk']%lookup_delete_Some. by apply Hne, (H4 k k' o).
    + destruct (H1 o') as [? Hf]; [set_solver|]. split; [done|]. intros k' [_ Hk']%lookup_delete_Some. by eapply Hf.
  - intros k' o' [_ Hk']%lookup_delete_Some. by eapply H2.
  - intros o' Ha Hn. destruct (H3 o' Ha) as [k' Hk']; [set_solver|]. exists k'.
    rewrite lookup_delete_ne; [done|]. intros <-. simplify_eq. set_solver.
  - intros k1 k2 o' [_ Hk1]%lookup_delete_Some [_ Hk2]%lookup_delete_Some. by eapply H4.
  - rewrite dom_delete_L. by rewrite H5.
  - rewrite dom_delete_L. by rewrite H6.
Qed.

Section Pool.
Context {S : Type} `{U : Uapi S} `{H : Hex} `{B : Base64} `{J : Json} `{P : Pick} `{PL : !PickLaws P}.
Context `{E : Env} `{Eth : Ethereum}.
Context (world_post : bytes -> Value -> result bytes bytes) (env_var : bytes -> option bytes).
Context (key_error sign_error : bytes).

Lemma fill_caches_pool i s j s' : fill_caches i s = (Ok j, s') -> same_pool i j.
Proof.
  unfold fill_caches. destruct (server_pubkey_cache i); [by intros [= <- <-]|].
  destruct (uapi_get_peers s) as [[[[[pk|] port] m]|e] s1]; intros [= <- <-]. by split_and!.
Qed.

(** A registered peer has an octet. *)
Lemma registered_octet i k :
  pool_inv i ->
  (if bool_decide (k ∈ registered_peers i) then peer_to_octet i !! k else None) = peer_to_octet i !! k.
Proof.
  intros Hi. case_bool_decide as Hk; [done|]. symmetry. apply not_elem_of_dom. by rewrite pool_peers.
Qed.

Lemma register_peer_pool st k i s w r j s' w' :
  pool_inv i -> register_peer st k i s w = (r, j, s', w') -> pool_inv j.
Proof.
  intros Hi. unfold register_peer. rewrite registered_octet by done.
  destruct (peer_to_octet i !! k) as [o|] eqn:Ek; [by intros [= <- <- <- <-]|].
  destruct (pick (available_ips i)) as [o|] eqn:Ep; [|by intros [= <- <- <- <-]].
  destruct (uapi_set_peer _ _ s) as [[[]|e] s1]; [|by intros [= <- <- <- <-]].
  destruct (instant_now w) as [now w1]. intros [= <- <- <- <-]. apply pool_assign; try done. by apply pick_some.
Qed.

Lemma handle_registration_pool pk st s w r st' s' w' :
  pool_inv (inner st) -> handle_registration pk st s w = (r, st', s', w') -> pool_inv (inner st').
Proof.
  intros Hi. unfold handle_registration. destruct (base64_decode _) as [b|]; [|by intros [= <- <- <- <-]].
  case_bool_decide; cbn [negb]; [|by intros [= <- <- <- <-]].
  destruct (fill_caches (inner st) s) as [[i|r0] s1] eqn:Ef; [|by intros [= <- <- <- <-]].
  apply fill_caches_pool in Ef. destruct (register_peer st _ i s1 w) as [[[r1 j] s2] w1] eqn:Er.
  intros [= <- <- <- <-]. cbn. eapply register_peer_pool; [|exact Er]. by eapply pool_same.
Qed.

Lemma registration_v2_pool body st s w r st' s' w' :
  pool_inv (inner st) -> handle_registration_v2 world_post env_var body st s w = (r, st', s', w') ->
  pool_inv (inner st').
Proof.
  intros Hi. unfold handle_registration_v2. destruct (json_from_str _) as [v|]; [|by intros [= <- <- <- <-]].
  destruct (_ ≫= as_str) as [pk|]; [|by intros [= <- <- <- <-]].
  destruct (check_human world_post env_var v st) as [st1|r1] eqn:Ec; [|by intros [= <- <- <- <-]].
  apply handle_registration_pool. unfold check_human in Ec. destruct (human_only env_var); [|by simplify_eq].
  destruct (value_get _ v) as [proof|]; [|done]. destruct (verify_world_proof _ st proof); [|done].
  injection Ec as <-. cbn. by eapply pool_same; [|exact Hi].
Qed.

Lemma rate_limit_pool ip st w ok st' w' : rate_limit ip st w = (ok, st', w') -> inner st' = inner st.
Proof.
  unfold rate_limit. destruct ip as [ip|]; [|by intros [= <- <- <-]].
  destruct (match reg_rate_limiter st !! ip with Some b => _ | None => _ end) as [b w1].
  destruct (try_consume b w1) as [[ok1 b1] w2]. by intros [= <- <- <-].
Qed.

Lemma serve_pool req st s w r st' s' w' :
  pool_inv (inner st) ->
  serve world_post env_var key_error sign_error req st s w = Ret (r, st', s', w') -> pool_inv (inner st').
Proof.
  intros Hi. unfold serve. case_bool_decide; [by intros [= <- <- <- <-]|].
  destruct (rate_limit (remote_addr req) st w) as [[ok st1] w1] eqn:Er. apply rate_limit_pool in Er.
  rewrite <- Er in Hi. destruct ok; cbn [negb]; [|by intros [= <- <- <- <-]]. unfold dispatch.
  destruct (method req); try (by intros [= <- <- <- <-]).
  - case_bool_decide; [by intros [= <- <- <- <-]|]. case_bool_decide; [|by intros [= <- <- <- <-]].
    destruct (handle_rp_context _ _ st1 w1) as [[r1 w2]|]; [|done]. by intros [= <- <- <- <-].
  - case_bool_decide; [|by intros [= <- <- <- <-]]. destruct (body req) as [b|]; [|by intros [= <- <- <- <-]].
    case_bool_decide; [by intros [= <- <- <- <-]|]. intros Hr%(inj Ret). by eapply registration_v2_pool.
Qed.

(** The peers that are removed are distinct, so each one still has its octet. *)
Lemma remove_stale_pool l i s j s' :
  pool_inv i -> NoDup l.*1 -> (forall k o, (k, o) ∈ l -> peer_to_octet i !! k = Some o) ->
  remove_stale l i s = (j, s') -> pool_inv j.
Proof.
  revert i s. induction l as [|[k o] l IH]; intros i s Hi Hnd Hl; cbn [remove_stale]; [by intros [= <- <-]|].
  apply NoDup_cons in Hnd as [Hk Hnd]. destruct (uapi_remove_peer k s) as [[[]|e] s1].
  - apply IH; [|done|].
    + apply pool_release; [done|]. apply Hl. by left.
    + intros k' o' Hin. cbn. rewrite lookup_delete_ne; [apply Hl; by right|].
      intros <-. apply Hk, list_elem_of_fmap. by exists (k, o').
  - apply IH; [done|done|]. intros k' o' Hin. apply Hl. by right.
  - apply IH; [done|done|]. intros k' o' Hin. apply Hl. by right.
Qed.

Lemma stale_peers_sub order report now i :
  order ≡ₚ map_to_list (peer_to_octet i) ->
  NoDup (stale_peers order report now i).*1
  /\ forall k o, (k, o) ∈ stale_peers order report now i -> peer_to_octet i !! k = Some o.
Proof.
  intros Ho. unfold stale_peers. set (f := fun _ => _). split.
  - assert (NoDup order.*1) as Hnd by (rewrite Ho; apply NoDup_fst_map_to_list).
    clear Ho. induction order as [|[k o] order IH]; [constructor|]. apply NoDup_cons in Hnd as [Hk Hnd].
    cbn [List.filter]. destruct (f (k, o)); [|by apply IH]. apply NoDup_cons. split; [|by apply IH].
    intros ([k' o'] & Heq & Hin)%list_elem_of_fmap. apply Hk, list_elem_of_fmap. exists (k', o').
    split; [exact Heq|]. apply list_elem_of_In, List.filter_In in Hin as [? _]. by apply list_elem_of_In.
  - intros k o Hin. apply list_elem_of_In, List.filter_In in Hin as [Hin _].
    apply elem_of_map_to_list. rewrite <- Ho. by apply list_elem_of_In.
Qed.

Lemma sweep_pool order bs report st s w st' s' w' :
  pool_inv (inner st) -> order ≡ₚ map_to_list (peer_to_octet (inner st)) ->
  sweep order bs report st s w = Ret (st', s', w') -> pool_inv (inner st').
Proof.
  intros Hi Ho. unfold sweep. destruct (system_time_now w) as [t w1]. destruct (0 <=? t); cbn [require outcome_bind]; [|done].
  destruct (instant_now w1) as [now w2]. destruct (remove_stale _ _ s) as [i s2] eqn:Er.
  destruct (prune bs w2) as [m w3]. intros [= <- <- <-]. cbn.
  destruct (stale_peers_sub order report now (inner st) Ho). by eapply remove_stale_pool.
Qed.

(** ** Runs of the server *)

(** The states of a server that runs with the environment [env_var]: it serves
    requests and sweeps, and the device behind the control socket answers and
    reports anything. *)
Inductive server_reachable : RegistrationState -> Prop :=
| server_new tun prefix pc ip : server_reachable (registration_new env_var tun prefix pc ip)
| server_serve req st s w r st' s' w' :
    server_reachable st ->
    serve world_post env_var key_error sign_error req st s w = Ret (r, st', s', w') ->
    server_reachable st'
| server_sweep order bs report st s w st' s' w' :
    server_reachable st -> order ≡ₚ map_to_list (peer_to_octet (inner st)) ->
    sweep order bs report st s w = Ret (st', s', w') -> server_reachable st'.

Lemma server_pool st : server_reachable st -> pool_inv (inner st).
Proof.
  induction 1 as [tun prefix pc ip|req st s w r st' s' w' _ IH Hs|order bs report st s w st' s' w' _ IH Ho Hr].
  - exact pool_new.
  - by eapply serve_pool.
  - by eapply sweep_pool.
Qed.

(** The loops of the server stay within these states, with one response for each request
    that arrives before the end. *)
Lemma serve_loop_reachable rounds st s w rs st' s' w' :
  server_reachable st -> serve_loop world_post env_var key_error sign_error rounds st s w = Ret (rs, st', s', w') ->
  server_reachable st'.
Proof.
  revert st s w rs. induction rounds as [|[[] a] rounds IH]; intros st s w rs Hr; cbn [serve_loop]; [by intros [= <- <- <- <-]..|].
  destruct a as [req| |]; [|by apply IH..]. destruct (serve _ _ _ _ req st s w) as [[[[r st1] s1] w1]|] eqn:Es; [|done]. cbn [outcome_bind].
  destruct (serve_loop _ _ _ _ rounds st1 s1 w1) as [[[[rs1 st2] s2] w2]|] eqn:El; [|done]. intros [= <- <- <- <-].
  eapply IH; [|exact El]. by eapply server_serve.
Qed.

Lemma run_reaper_reachable rounds st s w st' s' w' :
  Forall (fun r => forall st, (r.2 st).1 ≡ₚ map_to_list (peer_to_octet (inner st))) rounds ->
  server_reachable st -> run_reaper rounds st s w = Ret (st', s', w') -> server_reachable st'.
Proof.
  intros Ho. revert st s w. induction Ho as [|[[] orders] rounds Hord _ IH]; intros st s w Hr; cbn [run_reaper]; [by intros [= <- <- <-]..|].
  unfold reap. destruct (uapi_get_peers s) as [[[[? ?] report]|e] s1]; cbn [outcome_bind]; [|by apply IH].
  destruct (sweep _ _ _ st s1 w) as [[[st1 s2] w2]|] eqn:Es; [|done]. cbn [outcome_bind]. intros Hrun.
  eapply IH; [|exact Hrun]. eapply server_sweep; [exact Hr| |exact Es]. apply Hord.
Qed.

(** Free and held addresses are the 253 octets. *)
Lemma pool_size i : pool_inv i -> (size (available_ips i) + size (registered_peers i) = 253)%nat.
Proof.
  intros [H1 H2 H3 H4 H5 _]. rewrite <- H5, size_dom, <- length_map_to_list, <- (length_fmap snd).
  unfold size, set_size. cbn. rewrite <- length_app.
  transitivity (length (seqZ 2 253)); [|by rewrite length_seqZ]. apply Permutation_length.
  assert (forall o, o ∈ (map_to_list (peer_to_octet i)).*2 <-> exists k, peer_to_octet i !! k = Some o) as Hv.
  { intros o. rewrite list_elem_of_fmap. split.
    - intros ([k o'] & -> & Hin%elem_of_map_to_list). by exists k.
    - intros [k Hk%elem_of_map_to_list]. by exists (k, o). }
  apply NoDup_Permutation; [apply NoDup_app; split_and!|apply NoDup_seqZ|].
  - apply NoDup_elements.
  - intros o Ho%elem_of_elements [k Hk]%Hv. destruct (H1 o Ho) as [_ Hf]. by eapply Hf.
  - apply NoDup_fmap_2_strong; [|apply NoDup_map_to_list].
    intros [k o] [k' o'] Hk%elem_of_map_to_list Hk'%elem_of_map_to_list. cbn. intros ->.
    by rewrite (H4 k k' o').
  - intros o. rewrite elem_of_app, elem_of_elements, elem_of_seqZ, Hv. split.
    + intros [Ho|[k Hk]]; [apply H1 in Ho as [? _]|apply H2 in Hk]; lia.
    + intros Ho. destruct (decide (o ∈ available_ips i)) as [|Hn]; [auto|]. right. apply H3; [lia|done].
Qed.

(** C24. Tunnel addresses are managed exactly: in every state the server can reach,
    whatever the requests and whatever the device answers, each of the 253
    addresses is either free or held by one peer, no two peers hold the same one,
    and the tables of registered peers agree; what [/health] reports adds up. *)
Theorem address_pool_consistent st (Hr : server_reachable st) :
  pool_inv (inner st)
  /\ (size (available_ips (inner st)) + size (registered_peers (inner st)) = 253)%nat.
Proof. apply server_pool in Hr. split; [done|]. by apply pool_size. Qed.
End Pool.

(** ** Example *)

#[local] Existing Instance silent_uapi.
#[local] Existing Instance toy_hex.
#[local] Existing Instance toy_base64.
#[local] Existing Instance toy_json.
#[local] Existing Instance toy_pick.
#[local] Existing Instance toy_pick_laws.
#[local] Existing Instance example_env.
#[local] Existing Instance toy_ethereum.

Lemma address_pool_consistent_witness :
  let st := registration_new (fun _ => None) (str "wg0") (x0a, x00, x00) (mkSnapshot 84532 [] [] 1000000 10485760)
              (str "203.0.113.1") in
  pool_inv (inner st)
  /\ (size (available_ips (inner st)) + size (registered_peers (inner st)) = 253)%nat.
Proof.
  intros st. refine (address_pool_consistent (fun _ _ => Err []) (fun _ => None) [] [] st _).
  apply server_new.
Defined.
