(* ===== verification/DeviceTotal.v ===== *)
(** * The handlers never panic

    Totality of the packet handlers on arbitrary input, for a device in a
    consistent state, and the preservation of that state. *)

From Stdlib Require Import ZArith Lia.
From stdpp Require Import base numbers list option gmap.
From S2P Require Import Prelude Errors Clock Packet Crypto Session Handshake RateLimiter Tunnel IndexLfsr Quota PaymentProtocol RustText NetText Eip3009 Settlement AllowedIps Device DeviceHandlers.

Definition from_network (r : TunnResult) : Prop :=
  match r with WriteToTunnelV4 _ _ | WriteToTunnelV6 _ _ => False | _ => True end.

Section Results.
Context `{C : Crypto} `{E : Env}.

Lemma format_result n force t w r t' w' :
  tunn_format_handshake_initiation n force t w = Ret (r, t', w') -> from_network r.
Proof.
  unfold tunn_format_handshake_initiation. split_if; [by intros; simplify_eq|].
  intros. invert_binds. match goal with H : match ?r with _ => _ end = _ |- _ => destruct r end;
    by simplify_eq.
Qed.

Lemma encapsulate_result src n t w r t' w' :
  encapsulate src n t w = Ret (r, t', w') -> from_network r.
Proof.
  unfold encapsulate. destruct (session_at t (current t)); [|by apply format_result].
  intros. invert_binds. by simplify_eq.
Qed.

Lemma update_timers_result n t w r t' w' :
  update_timers n t w = Ret (r, t', w') -> from_network r.
Proof.
  unfold update_timers. intros Hu.
  destruct (instant_now w) as [time w1], (reset_limiter t w1) as [t1 w2].
  apply bind_Ret_inv in Hu as (t2 & _ & Hu). split_if; [by simplify_eq|].
  apply bind_Ret_inv in Hu as (ce & _ & Hu). apply bind_Ret_inv in Hu as (dead & _ & Hu).
  destruct dead; [invert_binds; by simplify_eq|].
  destruct (timer _) as [sent|].
  - apply bind_Ret_inv in Hu as (gu & _ & Hu). destruct gu; [invert_binds; by simplify_eq|].
    destruct (elapsed sent w2). split_if; [by eapply format_result|by simplify_eq].
  - apply bind_Ret_inv in Hu as ([[i k] t3] & _ & Hu). destruct i; [by eapply format_result|].
    destruct k; [by eapply encapsulate_result|by simplify_eq].
Qed.
End Results.

(** ** The flush loop ends

    With a session every round sends one queued packet; without one the first
    round can start a handshake, and then the next one stops. *)

Section Flush.
Context `{C : Crypto} `{E : Env}.

Definition has_session (t : Tunn) : bool :=
  match session_at t (current t) with Some _ => true | None => false end.

Lemma format_in_progress h n w b h' w' :
  format_handshake_initiation h n w = Ret (Ok b, h', w') -> is_in_progress h' = true.
Proof.
  unfold format_handshake_initiation. split_if; [done|]. intros.
  repeat (invert_binds; simplify_eq).
  match goal with Hm : append_mac1_and_mac2 _ _ _ = _ |- _ =>
    unfold append_mac1_and_mac2 in Hm; simplify_eq end.
  done.
Qed.

Lemma tick_has_session n t : has_session (timer_tick n t) = has_session t.
Proof. by destruct n. Qed.

Lemma tunn_format_no_session n t w b t' w' :
  tunn_format_handshake_initiation n false t w = Ret (WriteToNetwork b, t', w') ->
  is_in_progress (handshake t) = false /\ is_in_progress (handshake t') = true
  /\ has_session t' = has_session t.
Proof.
  unfold tunn_format_handshake_initiation. rewrite andb_true_r.
  destruct (is_in_progress (handshake t)); [done|]. intros Hf. split; [done|].
  destruct (clear_if_expired t w) as [t1 w1] eqn:Hc.
  assert (has_session t1 = has_session t) as Hs.
  { unfold clear_if_expired in Hc. destruct (is_expired _); [|by simplify_eq].
    destruct (timers_clear _ _). by simplify_eq. }
  invert_binds. match goal with H : match ?r with _ => _ end = _ |- _ => destruct r end; [|done].
  simplify_eq. match goal with Hi : format_handshake_initiation _ _ _ = _ |- _ =>
    apply format_in_progress in Hi end.
  destruct (negb _); split; done.
Qed.

Lemma encapsulate_no_session src n t w :
  has_session t = false ->
  encapsulate src n t w = tunn_format_handshake_initiation n false (queue_packet src t) w
  /\ has_session (queue_packet src t) = false
  /\ handshake (queue_packet src t) = handshake t.
Proof.
  unfold has_session, encapsulate. destruct (session_at t (current t)) eqn:Es; [done|]. intros _.
  unfold queue_packet. case_bool_decide; cbn; [|by rewrite Es].
  unfold session_at in *. cbn. by rewrite Es.
Qed.

(** A round that does not ask to send. *)
Definition stops (o : outcome (TunnResult * Tunn * World)) : Prop :=
  match o with Ret (WriteToNetwork _, _, _) => False | _ => True end.

Lemma flush_stops fuel k send t w :
  stops (decapsulate None [] MAX_UDP_SIZE t w) ->
  flush_loop (S fuel + k) send t w = flush_loop (S fuel) send t w.
Proof.
  intros Hs. cbn [Nat.add flush_loop]. destruct (decapsulate None [] _ t w) as [[[r t'] w']|]; [|done].
  cbn [outcome_bind]. by destruct r.
Qed.

Lemma in_progress_stops t w :
  has_session t = false -> is_in_progress (handshake t) = true ->
  stops (decapsulate None [] MAX_UDP_SIZE t w).
Proof.
  intros Hs Hp. unfold decapsulate, send_queued_packet. cbn [length].
  rewrite bool_decide_eq_true_2 by done.
  unfold dequeue_packet. destruct (packet_queue t) as [|p q]; [done|].
  destruct (encapsulate_no_session p MAX_UDP_SIZE (with_queue q t) w) as (-> & _ & Hh); [done|].
  unfold tunn_format_handshake_initiation. rewrite Hh. cbn [handshake with_queue]. by rewrite Hp.
Qed.

Lemma flush_no_session fuel k send t w :
  has_session t = false -> (2 <= fuel)%nat ->
  flush_loop (fuel + k) send t w = flush_loop fuel send t w.
Proof.
  intros Hs Hf. destruct fuel as [|[|fuel]]; [lia|lia|]. cbn [Nat.add].
  change (S (S (fuel + k))) with (S (S fuel + k)). unfold flush_loop at 1 2; fold flush_loop.
  destruct (decapsulate None [] MAX_UDP_SIZE t w) as [[[r t'] w']|] eqn:Ed; [|done].
  cbn [outcome_bind]. destruct r; try done.
  rewrite flush_stops; [done|]. revert Ed. unfold decapsulate, send_queued_packet. cbn [length].
  rewrite bool_decide_eq_true_2 by done. unfold dequeue_packet.
  destruct (packet_queue t) as [|p q]; [done|].
  destruct (encapsulate_no_session p MAX_UDP_SIZE (with_queue q t) w) as (-> & Hs1 & Hh1); [done|].
  intros Ed. apply bind_Ret_inv in Ed as ([[r1 t1] w1] & Ef & Ed). destruct r1; simplify_eq.
  apply tunn_format_no_session in Ef as (_ & Hp & Hs'). apply in_progress_stops; congruence.
Qed.

Lemma encapsulate_session src n t w b t' w' :
  length (sessions t) = Z.to_nat N_SESSIONS -> has_session t = true ->
  encapsulate src n t w = Ret (b, t', w') ->
  has_session t' = true /\ packet_queue t' = packet_queue t
  /\ length (sessions t') = Z.to_nat N_SESSIONS.
Proof.
  unfold has_session, encapsulate. intros Hl. destruct (session_at t (current t)) eqn:Es; [|done].
  intros _ He. invert_binds. simplify_eq.
  assert (forall s', session_at (store_session (current t) (Some s') t) (current t) = Some s') as Hst.
  { intros s'. unfold session_at, store_session. cbn.
    rewrite list_lookup_total_insert_eq; [done|]. rewrite Hl. apply slot_lt. }
  destruct (bool_decide _); cbn; (split; [|split; [done|by rewrite length_insert]]);
    unfold session_at in *; cbn in *; by rewrite Hst.
Qed.

Lemma flush_enough fuel k send t w :
  length (sessions t) = Z.to_nat N_SESSIONS -> (length (packet_queue t) + 2 <= fuel)%nat ->
  flush_loop (fuel + k) send t w = flush_loop fuel send t w.
Proof.
  destruct (has_session t) eqn:Hs; [|intros; apply flush_no_session; [done|lia]].
  revert fuel t w Hs. assert (forall m fuel t w, has_session t = true ->
    length (sessions t) = Z.to_nat N_SESSIONS -> length (packet_queue t) = m -> (m + 1 <= fuel)%nat ->
    flush_loop (fuel + k) send t w = flush_loop fuel send t w) as Hm;
    [|intros; eapply Hm; (done || lia)].
  induction m as [|m IH]; intros fuel t w Hs Hl Hq Hf; (destruct fuel as [|fuel]; [lia|]).
  - apply flush_stops. apply nil_length_inv in Hq.
    unfold decapsulate, send_queued_packet, dequeue_packet. by rewrite Hq.
  - cbn [Nat.add flush_loop]. destruct (decapsulate None [] MAX_UDP_SIZE t w) as [[[r t'] w']|] eqn:Ed; [|done].
    cbn [outcome_bind]. destruct r; try done. rewrite IH; try done; [..|lia];
      revert Ed; unfold decapsulate, send_queued_packet; cbn [length];
      rewrite bool_decide_eq_true_2 by done; unfold dequeue_packet;
      (destruct (packet_queue t) as [|p q] eqn:Eq; [done|]); intros Ed;
      apply bind_Ret_inv in Ed as ([[r1 t1] w1] & Ef & Ed); destruct r1; simplify_eq;
      apply encapsulate_session in Ef as (H1 & H2 & H3); try done.
    rewrite H2. cbn in *. lia.
Qed.
End Flush.

(** ** Peers *)

Section Total.
Context `{C : Crypto} `{CL : !CryptoLaws C} `{E : Env} `{MC : !MonotoneClock E} `{EC : !EpochClock E}.
Context `{Eth : Ethereum} `{EL : !EthereumLaws Eth} `{I : IpCrates} `{IL : !IpLaws I} `{H : Hex}.
Context (from_json : bytes -> result bytes SettleResponse).

Definition peer_inv (p : Peer) (w : World) : Prop := tunn_inv MAX_UDP_SIZE (tunnel p) w.

(** The arrays of the configuration have their lengths, and the wallet is the one
    of its key. *)
Definition payments_ok (d : Device) : Prop :=
  length (usdc_contract (payment_config d)) = 20%nat
  /\ forall wallet, payment_wallet d = Some wallet -> wallet_ok wallet.

(** A handler that returned: its peer is consistent, time has passed, and nothing
    but the tunnel, the endpoint and the quota has changed. *)
Definition same_peer (p p' : Peer) : Prop :=
  limiter_ref p' = limiter_ref p /\ peer_index p' = peer_index p
  /\ peer_allowed_ips p' = peer_allowed_ips p
  /\ (ep_addr (endpoint p) <> None -> ep_addr (endpoint p') <> None).

Lemma same_peer_refl p : same_peer p p.
Proof. done. Qed.
Lemma same_peer_trans p1 p2 p3 : same_peer p1 p2 -> same_peer p2 p3 -> same_peer p1 p3.
Proof. unfold same_peer. intros (? & ? & ? & ?) (? & ? & ? & ?). split_and!; try congruence. auto. Qed.
Lemma same_peer_tunnel t p : same_peer p (with_tunnel t p).
Proof. done. Qed.
Lemma same_peer_quota q p : same_peer p (with_quota q p).
Proof. done. Qed.

Definition peer_returns {A} (o : outcome (A * Peer * World)) (p : Peer) (w : World) : Prop :=
  exists x p' w', o = Ret (x, p', w') /\ peer_inv p' w' /\ (ticks w <= ticks w')%nat /\ same_peer p p'.

Lemma returns_here {A} (x : A) p w : peer_inv p w -> peer_returns (Ret (x, p, w)) p w.
Proof. intros. eexists _, _, _. split; [done|]. split_and!; done || lia. Qed.

Lemma returns_from {A} (o : outcome (A * Peer * World)) p p1 w w1 :
  (ticks w <= ticks w1)%nat -> same_peer p p1 -> peer_returns o p1 w1 -> peer_returns o p w.
Proof.
  intros Hw Hs (x & p' & w' & -> & Hi & Ht & Hs'). eexists _, _, _. split; [done|].
  split_and!; [done|lia|by eapply same_peer_trans].
Qed.

Lemma returns_bind {A B} (o : outcome (A * Peer * World)) (k : A -> Peer -> World -> outcome (B * Peer * World)) p w :
  peer_returns o p w ->
  (forall x p' w', peer_inv p' w' -> peer_returns (k x p' w') p' w') ->
  peer_returns (let! (x, p', w') := o in k x p' w') p w.
Proof.
  intros (x & p' & w' & -> & Hi & Ht & Hs) Hk. cbn [outcome_bind].
  eapply returns_from; [exact Ht|exact Hs|]. by apply Hk.
Qed.

Lemma peer_inv_later p w w' : (ticks w <= ticks w')%nat -> peer_inv p w -> peer_inv p w'.
Proof. apply tunn_inv_later. Qed.

Lemma first_ipv4_length p ip : first_ipv4 p = Some ip -> length ip = 4%nat.
Proof.
  unfold first_ipv4, peer_ips, allowed_ips_iter.
  destruct (table_iter (peer_allowed_ips p)) as [|[n u] l]; [done|]. cbn.
  pose proof (address_octets n) as Hn. destruct (network_address n); [|done]. by intros [= <-].
Qed.

Lemma send_encapsulated_total pk sock a p w :
  peer_inv p w -> (length pk + 32 <= MAX_PAYMENT_PACKET_SIZE)%nat ->
  peer_returns (send_encapsulated pk sock a p w) p w.
Proof.
  intros Hi Hl. unfold send_encapsulated.
  destruct (encapsulate_into_total MAX_UDP_SIZE MAX_PAYMENT_PACKET_SIZE pk (tunnel p) w)
    as (r & t & w1 & -> & Hi1 & Ht); [done|done|unfold MAX_PAYMENT_PACKET_SIZE, MAX_UDP_SIZE; lia|].
  cbn [outcome_bind]. destruct r; eexists _, _, _; (split; [done|]); split_and!; done.
Qed.

Lemma payment_required_packet_total d p w :
  payments_ok d ->
  exists o w', payment_required_packet d p w = Ret (o, w') /\ (ticks w <= ticks w')%nat
               /\ forall pk, o = Some pk -> length pk = 127%nat.
Proof.
  intros [Hc Hw]. unfold payment_required_packet.
  destruct (payment_wallet d) as [wallet|] eqn:Ew; [|by eexists _, _; split_and!].
  destruct (first_ipv4 p) as [ip|] eqn:Eip; [|by eexists _, _; split_and!].
  pose proof (length_fill_bytes 32 w) as Hf.
  destruct (fill_bytes 32 w) as [nonce w1] eqn:Efill. cbn [fst] in Hf.
  assert (ticks w1 = ticks w) as Ht1 by (unfold fill_bytes in Efill; by simplify_eq).
  destruct (unix_secs_ok w1) as (now & w2 & -> & Ht2). cbn [outcome_bind].
  pose proof (wallet_address_length wallet (Hw wallet eq_refl)) as Ha.
  match goal with |- context [build_signal_packet _ _ ?tlv] =>
    assert (length tlv = 99%nat) as Hl by (unfold PaymentRequired_encode; cbn [req_amount_usdc
      req_nonce req_recipient req_deadline req_chain_id req_usdc_contract]; len);
    destruct (build_carries PAYMENT_GATEWAY_IP ip tlv) as (pk & Hb & Hpk & _)
  end; [done|by eapply first_ipv4_length|lia|].
  rewrite Hb. cbn [outcome_bind]. eexists _, _. split; [done|]. split; [lia|].
  intros ? [= <-]. lia.
Qed.

Lemma send_payment_required_total d p sock a w :
  payments_ok d -> peer_inv p w -> peer_returns (send_payment_required d p sock a w) p w.
Proof.
  intros Hd Hi. unfold send_payment_required.
  destruct (payment_required_packet_total d p w Hd) as (o & w1 & -> & Ht & Hl). cbn [outcome_bind].
  apply (returns_from _ p p w w1); [done|done|]. apply (peer_inv_later _ _ w1) in Hi; [|done].
  destruct o as [pk|]; [|by apply returns_here].
  apply send_encapsulated_total; [done|]. rewrite (Hl pk eq_refl). unfold MAX_PAYMENT_PACKET_SIZE. lia.
Qed.

Lemma send_payment_accepted_total d p sock a w :
  peer_inv p w -> peer_returns (send_payment_accepted d p sock a w) p w.
Proof.
  intros Hi. unfold send_payment_accepted. destruct (first_ipv4 p) as [ip|] eqn:Eip; [|by apply returns_here].
  match goal with |- context [build_signal_packet _ _ ?tlv] =>
    assert (length tlv = 11%nat) as Hl by (unfold PaymentAccepted_encode; len);
    destruct (build_carries PAYMENT_GATEWAY_IP ip tlv) as (pk & Hb & Hpk & _)
  end; [done|by eapply first_ipv4_length|lia|].
  rewrite Hb. cbn [outcome_bind]. apply send_encapsulated_total; [done|].
  unfold MAX_PAYMENT_PACKET_SIZE. lia.
Qed.

Lemma verify_authorization_total dom s : exists o, verify_authorization dom s = Ret o.
Proof.
  unfold verify_authorization.
  destruct (recover_address_total (compute_eip712_digest dom (signed_auth s)) (signed_v s)
    (signed_r s) (signed_s s)) as (o & -> & _). by exists o.
Qed.

Lemma credit_returns d n p sock a w :
  peer_inv p w -> peer_returns (send_payment_accepted d (credit_peer n p) sock a w) p w.
Proof.
  intros Hi. apply (returns_from _ p (credit_peer n p) w w); [lia|done|].
  by apply send_payment_accepted_total.
Qed.

Lemma redeem_payment_total post d wallet s p sock a w :
  peer_inv p w -> peer_returns (redeem_payment post from_json d wallet s p sock a w) p w.
Proof.
  intros Hi. unfold redeem_payment.
  destruct (verify_authorization_total (gateway_domain (payment_config d)) (submit_signed s)) as [o ->].
  cbn [outcome_bind]. destruct o as [signer|]; [|by apply returns_here].
  split_if; [by apply returns_here|]. destruct (settlement_client d) as [c|]; [|by apply credit_returns].
  destruct (settle _ _ _ _) as [resp|]; [|by apply returns_here].
  destruct (success resp); [by apply credit_returns|by apply returns_here].
Qed.

Lemma use_nonce_inv n p b p' w :
  use_nonce n p = (b, p') -> peer_inv p w -> peer_inv p' w /\ same_peer p p'.
Proof.
  unfold use_nonce. destruct (quota p); intros; invert_binds; simplify_eq; done.
Qed.

Lemma handle_payment_submit_total post d p payload sock a w :
  peer_inv p w -> peer_returns (handle_payment_submit post from_json d p payload sock a w) p w.
Proof.
  intros Hi. unfold handle_payment_submit.
  destruct (payment_wallet d) as [wallet|]; [|by apply returns_here].
  destruct (PaymentSubmit_decode_total payload) as (o & -> & _). cbn [outcome_bind].
  destruct o as [s|]; [|by apply returns_here].
  split_if; [by apply returns_here|]. split_if; [by apply returns_here|].
  destruct (use_nonce (sub_nonce s) p) as [fresh p1] eqn:Eu.
  destruct (use_nonce_inv _ _ _ _ w Eu Hi) as [Hi1 Hs]. apply (returns_from _ p p1 w w); [lia|done|].
  destruct fresh; cbn [negb]; [by apply redeem_payment_total|by apply returns_here].
Qed.

Lemma payment_submit_packet_total d p payload w :
  payments_ok d ->
  exists o w', payment_submit_packet d p payload w = Ret (o, w') /\ (ticks w <= ticks w')%nat
               /\ forall pk, o = Some pk -> length pk = 192%nat.
Proof.
  intros [_ Hw]. unfold payment_submit_packet.
  destruct (PaymentRequired_decode_total payload) as (o & -> & Hwf). cbn [outcome_bind].
  destruct o as [req|]; [|by eexists _, _; split_and!].
  destruct (payment_wallet d) as [wallet|] eqn:Ew; [|by eexists _, _; split_and!].
  destruct (Hwf req eq_refl) as (_ & _ & _ & Hn & Hr & _).
  destruct (unix_secs_ok w) as (now & w1 & -> & Ht). cbn [outcome_bind].
  specialize (Hw wallet eq_refl). pose proof (wallet_address_length wallet Hw) as Ha.
  match goal with |- context [sign_digest _ ?dg] =>
    destruct (sign_digest_ok wallet dg) as (v & r & s & -> & Hlr & Hls & _); [apply digest_length|done|]
  end. cbn [outcome_bind].
  destruct (first_ipv4 p) as [ip|] eqn:Eip; [|by eexists _, _; split_and!].
  match goal with |- context [build_signal_packet _ _ ?tlv] =>
    assert (length tlv = 164%nat) as Hl by (unfold PaymentSubmit_encode; cbn [sub_from sub_to
      sub_value sub_valid_after sub_valid_before sub_nonce sub_v sub_r sub_s]; len);
    destruct (build_carries ip PAYMENT_GATEWAY_IP tlv) as (pk & Hb & Hpk & _)
  end; [by eapply first_ipv4_length|done|lia|].
  rewrite Hb. cbn [outcome_bind]. eexists _, _. split; [done|]. split; [done|].
  intros ? [= <-]. lia.
Qed.

Lemma payment_client_total d p payload sock a w :
  payments_ok d -> peer_inv p w ->
  peer_returns (handle_payment_signal_client d p payload sock a w) p w.
Proof.
  intros Hd Hi. unfold handle_payment_signal_client.
  destruct payload as [|t payload]; [by apply returns_here|]. split_if; [|split_if].
  - destruct (payment_submit_packet_total d p (t :: payload) w Hd) as (o & w1 & -> & Ht & Hl).
    cbn [outcome_bind]. apply (returns_from _ p p w w1); [done|done|].
    apply (peer_inv_later _ _ w1) in Hi; [|done]. destruct o as [pk|]; [|by apply returns_here].
    apply send_encapsulated_total; [done|]. rewrite (Hl pk eq_refl). unfold MAX_PAYMENT_PACKET_SIZE. lia.
  - destruct (PaymentAccepted_decode_total (t :: payload)) as (o & -> & _). by apply returns_here.
  - by apply returns_here.
Qed.

(** ** Delivery *)

Lemma deliver_signal_total post d packet sock reply_to p w :
  payments_ok d -> peer_inv p w -> (exists a, reply_to p = Ret a) ->
  peer_returns (deliver_signal from_json post d packet sock reply_to p w) p w.
Proof.
  intros Hd Hi [a Ha]. unfold deliver_signal.
  destruct (extract_total packet) as (o & -> & _). cbn [outcome_bind].
  destruct o as [payload|]; [|by apply returns_here].
  assert (forall f : bytes -> outcome (option bytes), f = dst_ipv4 \/ f = src_ipv4 ->
    exists o, f packet = Ret o) as Haddr.
  { intros f [-> | ->]; [unfold dst_ipv4|unfold src_ipv4];
      (case_bool_decide; [by eexists|]; rewrite slice_ok by lia; by eexists). }
  destruct (Haddr dst_ipv4) as [dst ->]; [auto|]. cbn [outcome_bind].
  destruct dst as [dst|]; [|by apply returns_here]. split_if.
  - rewrite Ha. cbn [outcome_bind]. by apply handle_payment_submit_total.
  - destruct (Haddr src_ipv4) as [src ->]; [auto|]. cbn [outcome_bind].
    destruct src as [src|]; [|by apply returns_here]. split_if; [|by apply returns_here].
    rewrite Ha. cbn [outcome_bind]. by apply payment_client_total.
Qed.

Lemma charge_inv d n p adm p' w :
  charge d n p = (adm, p') -> peer_inv p w ->
  peer_inv p' w /\ same_peer p p' /\ endpoint p' = endpoint p.
Proof.
  unfold charge. destruct (is_server _); [|by intros; simplify_eq].
  destruct (quota p) as [q|]; [|by intros; simplify_eq]. destruct (is_blocked q); [by intros; simplify_eq|].
  destruct (consume _ q). intros; by simplify_eq.
Qed.

Lemma deliver_v4_total post d pk src sock reply_to p w :
  payments_ok d -> peer_inv p w ->
  (forall p', endpoint p' = endpoint p -> exists a, reply_to p' = Ret a) ->
  peer_returns (deliver_v4 from_json post d pk src sock reply_to p w) p w.
Proof.
  intros Hd Hi Hr. unfold deliver_v4.
  destruct (is_payment_signal_total pk) as [b ->]. cbn [outcome_bind]. destruct b.
  { apply (returns_bind _ (fun es p w => Ret (true, es, p, w)) p w);
      [by apply deliver_signal_total; [| |apply Hr]|intros; by apply returns_here]. }
  split_if; [|by apply returns_here].
  destruct (charge d (length pk) p) as [adm p1] eqn:Ec.
  destruct (charge_inv _ _ _ _ _ w Ec Hi) as (Hi1 & Hs & He).
  apply (returns_from _ p p1 w w); [lia|done|]. destruct adm; [by apply returns_here| |by apply returns_here].
  destruct (Hr p1 He) as [a ->]. cbn [outcome_bind].
  apply (returns_bind _ (fun es p w => Ret (true, es, p, w)) p1 w);
    [by apply send_payment_required_total|intros; by apply returns_here].
Qed.

Lemma deliver_v6_inv d pk src p skip es p' w :
  deliver_v6 d pk src p = (skip, es, p') -> peer_inv p w -> peer_inv p' w /\ same_peer p p'.
Proof.
  unfold deliver_v6. split_if; [|by intros; simplify_eq].
  destruct (charge d (length pk) p) as [adm p1] eqn:Ec. intros Hd Hi.
  destruct (charge_inv _ _ _ _ _ w Ec Hi) as (Hi1 & Hs & _). destruct adm; by simplify_eq.
Qed.

(** ** The handlers of one peer *)

Lemma udp_room n : (n <= 1000)%nat -> (n <= MAX_UDP_SIZE)%nat.
Proof. unfold MAX_UDP_SIZE. lia. Qed.

Lemma flush_loop_total fuel send t w :
  tunn_inv MAX_UDP_SIZE t w ->
  exists es t' w', flush_loop fuel send t w = Ret (es, t', w')
    /\ tunn_inv MAX_UDP_SIZE t' w' /\ (ticks w <= ticks w')%nat.
Proof.
  revert t w. induction fuel as [|fuel IH]; intros t w Hi; cbn [flush_loop]; [by eexists _, _, _|].
  destruct (decapsulate_total MAX_UDP_SIZE None [] t w) as (r & t1 & w1 & -> & Hi1 & Ht1);
    [done|apply udp_room; unfold COOKIE_REPLY_SZ; lia|cbn; lia|].
  cbn [outcome_bind]. destruct r; try by eexists _, _, _.
  destruct (IH t1 w1 Hi1) as (es & t2 & w2 & -> & Hi2 & Ht2). cbn [outcome_bind].
  eexists _, _, _. split; [done|]. split; [done|lia].
Qed.

Lemma flush_peer_total send p w : peer_inv p w -> peer_returns (flush_peer send p w) p w.
Proof.
  intros Hi. unfold flush_peer.
  destruct (flush_loop_total (length (packet_queue (tunnel p)) + 2) send (tunnel p) w Hi)
    as (es & t & w1 & -> & Hi1 & Ht). cbn [outcome_bind].
  eexists _, _, _. split; [done|]. by split_and!.
Qed.

Lemma set_endpoint_ok a p : same_peer p (set_endpoint a p) /\ tunnel (set_endpoint a p) = tunnel p
  /\ ep_addr (endpoint (set_endpoint a p)) = Some a.
Proof. unfold set_endpoint. case_bool_decide; split_and!; done. Qed.

Lemma connect_endpoint_ok os p :
  ep_addr (endpoint p) <> None ->
  exists b p', connect_endpoint os p = Ret (b, p') /\ same_peer p p' /\ tunnel p' = tunnel p.
Proof.
  unfold connect_endpoint. destruct (ep_conn _); [by eexists _, _|].
  destruct (ep_addr (endpoint p)); [|done]. cbn. destruct os; by eexists _, _.
Qed.

Lemma udp_tail_total os d a (skip : bool) (es : list effect) p w :
  peer_inv p w ->
  peer_returns (if skip then Ret (true, es, p, w)
    else let p := set_endpoint a p in
      if use_connected_socket d then let! (_, p) := connect_endpoint os p in Ret (false, es, p, w)
      else Ret (false, es, p, w)) p w.
Proof.
  intros Hi. destruct skip; [by apply returns_here|]. cbn zeta.
  destruct (set_endpoint_ok a p) as (Hs & Ht & Ha).
  apply (returns_from _ p (set_endpoint a p) w w); [lia|done|].
  assert (peer_inv (set_endpoint a p) w) as Hi1 by (unfold peer_inv; by rewrite Ht).
  destruct (use_connected_socket d); [|by apply returns_here].
  destruct (connect_endpoint_ok os (set_endpoint a p)) as (b & p2 & -> & Hs2 & Ht2); [by rewrite Ha|].
  cbn [outcome_bind]. apply (returns_from _ _ p2 w w); [lia|done|].
  apply returns_here. unfold peer_inv. by rewrite Ht2.
Qed.

Lemma udp_peer_total post os d sock a packet p w :
  payments_ok d -> peer_inv p w -> wf_packet packet -> fits MAX_UDP_SIZE packet ->
  peer_returns (udp_peer from_json post os d sock a packet p w) p w.
Proof.
  intros Hd Hi Hwf Hfit. unfold udp_peer.
  destruct (handle_verified_total MAX_UDP_SIZE packet MAX_UDP_SIZE (tunnel p) w Hi Hwf Hfit)
    as (r & t & w1 & -> & Hi1 & Ht). cbn [outcome_bind].
  apply (returns_from _ p (with_tunnel t p) w w1); [done|done|].
  apply (returns_bind _ (fun (x : bool * list effect) p w => let '(skip, es) := x in
    if skip then Ret (true, es, p, w)
    else let p := set_endpoint a p in
      if use_connected_socket d then let! (_, p) := connect_endpoint os p in Ret (false, es, p, w)
      else Ret (false, es, p, w)));
    [|intros [skip es] p' w' Hi'; by apply udp_tail_total].
  destruct r.
  - by apply returns_here.
  - by apply returns_here.
  - apply (returns_bind _ (fun es p w => Ret (false, _ :: es, p, w)));
      [by apply flush_peer_total|intros; by apply returns_here].
  - apply deliver_v4_total; [done|done|intros; by eexists].
  - destruct (deliver_v6 d packet0 addr (with_tunnel t p)) as [[skip es] p2] eqn:Ed.
    destruct (deliver_v6_inv _ _ _ _ _ _ _ w1 Ed Hi1) as [Hi2 Hs].
    apply (returns_from _ _ p2 w1 w1); [lia|done|]. by apply returns_here.
Qed.

Lemma conn_peer_total post d self pa dg p w :
  payments_ok d -> peer_inv p w -> (length dg <= MAX_UDP_SIZE)%nat -> ep_addr (endpoint p) <> None ->
  peer_returns (conn_peer from_json post d self pa dg p w) p w.
Proof.
  intros Hd Hi Hl Ha. unfold conn_peer.
  destruct (decapsulate_total MAX_UDP_SIZE (Some pa) dg (tunnel p) w) as (r & t & w1 & -> & Hi1 & Ht);
    [done|apply udp_room; unfold COOKIE_REPLY_SZ; lia|done|]. cbn [outcome_bind].
  apply (returns_from _ p (with_tunnel t p) w w1); [done|done|]. destruct r.
  - by apply returns_here.
  - by apply returns_here.
  - apply (returns_bind _ (fun es p w => Ret (false, _ :: es, p, w)));
      [by apply flush_peer_total|intros; by apply returns_here].
  - apply deliver_v4_total; [done|done|]. intros p' ->. cbn.
    destruct (ep_addr (endpoint p)); [by eexists|done].
  - destruct (deliver_v6 d packet addr (with_tunnel t p)) as [[skip es] p2] eqn:Ed.
    destruct (deliver_v6_inv _ _ _ _ _ _ _ w1 Ed Hi1) as [Hi2 Hs].
    apply (returns_from _ _ p2 w1 w1); [lia|done|]. by apply returns_here.
Qed.

Lemma iface_peer_total d self src p w :
  payments_ok d -> peer_inv p w -> (length src + 32 <= MAX_UDP_SIZE)%nat ->
  peer_returns (iface_peer d self src p w) p w.
Proof.
  intros Hd Hi Hl. unfold iface_peer. destruct (charge d (length src) p) as [adm p1] eqn:Ec.
  destruct (charge_inv _ _ _ _ _ w Ec Hi) as (Hi1 & Hs & He).
  apply (returns_from _ p p1 w w); [lia|done|]. destruct adm; [by apply returns_here| |].
  - destruct (ep_addr (endpoint p1)); [by apply send_payment_required_total|by apply returns_here].
  - destruct (encapsulate_total MAX_UDP_SIZE src (tunnel p1) w Hi1 Hl) as (r & t & w1 & Heq & Hi2 & Ht).
    apply encapsulate_result in Heq as Hr. rewrite Heq. cbn [outcome_bind].
    apply (returns_from _ p1 (with_tunnel t p1) w w1); [done|done|].
    destruct r; try done; by apply returns_here.
Qed.

Lemma timer_peer_total p w : peer_inv p w -> peer_returns (timer_peer p w) p w.
Proof.
  intros Hi. unfold timer_peer. destruct (ep_addr (endpoint p)) as [a|] eqn:Ea; [|by apply returns_here].
  destruct (update_timers_total MAX_UDP_SIZE (tunnel p) w Hi) as (r & t & w1 & Heq & Hi1 & Ht);
    [apply udp_room; lia|]. apply update_timers_result in Heq as Hr. rewrite Heq. cbn [outcome_bind].
  apply (returns_from _ p (with_tunnel t p) w w1); [done|done|].
  destruct r as [|e| | |]; try done; try by apply returns_here.
  destruct e; try by apply returns_here.
  apply (returns_from _ _ (shutdown_endpoint (with_tunnel t p)) w1 w1); [lia|done|by apply returns_here].
Qed.
End Total.
