(* ===== verification/DeviceRuns.v ===== *)
(** * Runs of a device

    The invariant of a device (its three maps agree, every reference is valid,
    indices are unique, every tunnel is consistent) and its preservation by every
    event: packets, timers, and the configuration calls. *)

From Stdlib Require Import ZArith Lia.
From Stdlib Require Strings.String.
From stdpp Require Import base numbers list option gmap.
From S2P Require Import Prelude Errors Clock Packet Crypto Session Handshake RateLimiter Tunnel TunnelRuns IndexLfsr Quota PaymentProtocol RustText NetText Eip3009 Settlement AllowedIps Device DeviceHandlers DeviceTotal.

Import Stdlib.Strings.String.StringSyntax.

Section Runs.
Context `{C : Crypto} `{CL : !CryptoLaws C} `{E : Env} `{MC : !MonotoneClock E} `{EC : !EpochClock E}.
Context `{Eth : Ethereum} `{EL : !EthereumLaws Eth} `{I : IpCrates} `{IL : !IpLaws I} `{H : Hex}.
Context (from_json : bytes -> result bytes SettleResponse).

(** ** The invariant *)

(** The register after [n] indices from the seed of [s0], all indices in use among
    those handed out. *)
Definition lfsr_inv (s0 : IndexLfsr) (n : nat) (d : Device) : Prop :=
  u24 (lfsr s0) /\ 0 < lfsr s0 /\ initial s0 = lfsr s0 /\ Z.of_nat n < PERIOD
  /\ next_index d = mkLfsr (initial s0) (steps (Z.of_nat n) (lfsr s0)) (mask s0)
  /\ forall i, is_Some (peers_by_idx d !! i) -> exists k, (k < n)%nat /\ i = index_at s0 k.

Record maps_inv (d : Device) : Prop := {
  mi_peers : forall k r, peers d !! k = Some r ->
    exists p, heap d !! r = Some p /\ peers_by_idx d !! peer_index p = Some r;
  mi_idx : forall i r, peers_by_idx d !! i = Some r ->
    exists k p, peers d !! k = Some r /\ heap d !! r = Some p /\ peer_index p = i;
  mi_ip : forall n r, (n, r) ∈ table_iter (peers_by_ip d) -> exists k, peers d !! k = Some r;
  mi_inj : forall k k' r, peers d !! k = Some r -> peers d !! k' = Some r -> k = k';
}.

Record refs_inv (d : Device) (w : World) : Prop := {
  ri_heap : forall r p, heap d !! r = Some p ->
    peer_inv p w /\ is_Some (limiters d !! limiter_ref p) /\ (r < next_ref d)%nat;
  ri_limiters : forall r, is_Some (limiters d !! r) -> (r < next_ref d)%nat;
  ri_dev : forall r, dev_limiter d = Some r -> is_Some (limiters d !! r);
  ri_key : key_pair d <> None -> dev_limiter d <> None;
}.

Record dev_inv (s0 : IndexLfsr) (n : nat) (d : Device) (w : World) : Prop := {
  di_maps : maps_inv d;
  di_refs : refs_inv d w;
  di_lfsr : lfsr_inv s0 n d;
  di_pay : payments_ok d;
}.

(** ** Locking *)

Lemma lock_ok s0 n d w r p :
  dev_inv s0 n d w -> heap d !! r = Some p ->
  exists p', lock_peer r d = Ret p' /\ peer_inv p' w /\ same_peer p p' /\ endpoint p' = endpoint p.
Proof.
  intros Hi Hp. destruct (ri_heap _ _ (di_refs _ _ _ _ Hi) r p Hp) as (Hinv & [l Hl] & _).
  unfold lock_peer. rewrite Hp. cbn [unwrap outcome_bind]. rewrite Hl. cbn [unwrap outcome_bind].
  eexists. split; [done|]. split_and!; try done. by apply with_limiter_inv.
Qed.

Lemma refs_later d w w' : (ticks w <= ticks w')%nat -> refs_inv d w -> refs_inv d w'.
Proof.
  intros Hw [H1 H2 H3 H4]. split; try done. intros r p Hp. destruct (H1 r p Hp) as (? & ? & ?).
  split_and!; try done. by eapply peer_inv_later.
Qed.

Lemma dev_later s0 n d w w' : (ticks w <= ticks w')%nat -> dev_inv s0 n d w -> dev_inv s0 n d w'.
Proof. intros Hw [? ? ? ?]. split; try done. by eapply refs_later. Qed.

Lemma lookup_insert_is_Some_2 {A} (m : gmap nat A) i j x : is_Some (m !! j) -> is_Some (<[i := x]> m !! j).
Proof. intros. destruct (decide (i = j)) as [->|]; simplify_map_eq; eauto. Qed.

Lemma set_limiters_inv s0 n d w r l :
  dev_inv s0 n d w -> is_Some (limiters d !! r) ->
  dev_inv s0 n (with_limiters (<[r := l]> (limiters d)) d) w.
Proof.
  intros [[M1 M2 M3 M4] [R1 R2 R3 R4] L P] Hr. split; [by split| |done|done].
  split; cbn; [| | |done].
  - intros r' p Hp. destruct (R1 r' p Hp) as (? & ? & ?). split_and!; try done.
    by apply lookup_insert_is_Some_2.
  - intros r' Hr'. destruct (decide (r = r')) as [->|]; [by apply R2|].
    rewrite lookup_insert_ne in Hr' by done. by apply R2.
  - intros r' Hr'. by apply lookup_insert_is_Some_2, R3.
Qed.

Lemma set_heap_inv s0 n d w r p p' :
  dev_inv s0 n d w -> heap d !! r = Some p -> peer_index p' = peer_index p ->
  is_Some (limiters d !! limiter_ref p') -> peer_inv p' w ->
  dev_inv s0 n (with_heap (<[r := p']> (heap d)) d) w.
Proof.
  intros [[M1 M2 M3 M4] [R1 R2 R3 R4] L P] Hp Hx Hlim Hinv.
  split; [|split; cbn; try done|done|done].
  - split; cbn; try done.
    + intros k r' Hk. destruct (M1 k r' Hk) as (p0 & Hp0 & Hi0).
      destruct (decide (r = r')) as [->|Hne]; [|exists p0; by rewrite lookup_insert_ne].
      exists p'. simplify_map_eq. split; [done|]. congruence.
    + intros i r' Hi0. destruct (M2 i r' Hi0) as (k & p0 & Hk & Hp0 & Hidx).
      destruct (decide (r = r')) as [->|Hne]; [|exists k, p0; by rewrite lookup_insert_ne].
      exists k, p'. simplify_map_eq. split_and!; congruence.
  - intros r' p0 Hp0. destruct (decide (r = r')) as [->|Hne]; simplify_map_eq.
    + split_and!; try done. by apply (R1 r' p Hp).
    + by apply R1.
Qed.

(** Releasing a peer with the same index and a valid limiter. *)
Lemma unlock_inv_gen s0 n d w r p p' :
  dev_inv s0 n d w -> heap d !! r = Some p -> peer_index p' = peer_index p ->
  is_Some (limiters d !! limiter_ref p') -> peer_inv p' w ->
  dev_inv s0 n (unlock_peer r p' d) w.
Proof.
  intros Hi Hp Hx Hlim Hinv. unfold unlock_peer.
  apply (set_limiters_inv s0 n (with_heap (<[r := p']> (heap d)) d) w); [|done].
  by apply (set_heap_inv s0 n d w r p).
Qed.

Lemma unlock_inv s0 n d w r p p' :
  dev_inv s0 n d w -> heap d !! r = Some p -> same_peer p p' -> peer_inv p' w ->
  dev_inv s0 n (unlock_peer r p' d) w.
Proof.
  intros Hi Hp (Hl & Hx & _) Hinv. apply (unlock_inv_gen s0 n d w r p p'); try done.
  rewrite Hl. by apply (ri_heap _ _ (di_refs _ _ _ _ Hi) r p Hp).
Qed.

(** What a packet or timer event leaves alone: the key, the three maps, and of each
    peer what [same_peer] says. *)
Record dev_frame (d d' : Device) : Prop := {
  fr_key : key_pair d' = key_pair d;
  fr_port : listen_port d' = listen_port d;
  fr_peers : peers d' = peers d;
  fr_idx : peers_by_idx d' = peers_by_idx d;
  fr_ip : peers_by_ip d' = peers_by_ip d;
  fr_heap : forall r p, heap d !! r = Some p -> exists p', heap d' !! r = Some p' /\ same_peer p p';
}.

#[local] Instance dev_frame_preorder : PreOrder dev_frame.
Proof.
  split.
  - intros d. split; try done. intros r p Hp. by exists p.
  - intros d1 d2 d3 [A1 A2 A3 A4 A5 A6] [B1 B2 B3 B4 B5 B6]. split; try congruence.
    intros r p Hp. destruct (A6 r p Hp) as (p2 & Hp2 & ?). destruct (B6 r p2 Hp2) as (p3 & Hp3 & ?).
    exists p3. split; [done|]. by eapply same_peer_trans.
Qed.

Lemma frame_limiters m d : dev_frame d (with_limiters m d).
Proof. split; try done. intros r p Hp. by exists p. Qed.

Lemma frame_unlock r p p' d : heap d !! r = Some p -> same_peer p p' -> dev_frame d (unlock_peer r p' d).
Proof.
  intros Hp Hs. split; try done. intros r' q Hq. cbn. destruct (decide (r = r')) as [->|Hne].
  - exists p'. simplify_map_eq. done.
  - exists q. by rewrite lookup_insert_ne.
Qed.

(** ** Packet events *)

Lemma dev_returns {A} s0 n d w r p (f : Peer -> outcome (A * Peer * World)) :
  dev_inv s0 n d w -> heap d !! r = Some p ->
  (forall p', peer_inv p' w -> endpoint p' = endpoint p -> peer_returns (f p') p' w) ->
  exists x d' w', (let! p := lock_peer r d in let! (x, p, w') := f p in Ret (x, unlock_peer r p d, w'))
                  = Ret (x, d', w')
    /\ dev_inv s0 n d' w' /\ (ticks w <= ticks w')%nat /\ dev_frame d d'.
Proof.
  intros Hi Hp Hf. destruct (lock_ok s0 n d w r p Hi Hp) as (p1 & -> & Hi1 & Hs1 & He1).
  cbn [outcome_bind]. destruct (Hf p1 Hi1 He1) as (x & p2 & w2 & -> & Hi2 & Ht & Hs2).
  cbn [outcome_bind]. eexists _, _, _. split; [done|]. pose proof (same_peer_trans _ _ _ Hs1 Hs2) as Hs.
  split_and!; [|done|by eapply frame_unlock].
  apply (unlock_inv s0 n d w2 r p); try done. by eapply dev_later.
Qed.

Lemma parsed_fits dg p : parse_incoming_packet dg = Ret (Ok p) -> (length dg <= MAX_UDP_SIZE)%nat ->
  wf_packet p /\ fits MAX_UDP_SIZE p.
Proof.
  intros Hp Hl. split; [by eapply parse_wf|]. destruct p as [m|m|m|m]; cbn [fits];
    try (apply udp_room; lia).
  rewrite parse_is_spec in Hp. apply (inj Ret) in Hp.
  apply parse_spec_inv in Hp as [_ (t & _ & ->)]. rewrite length_app in Hl.
  cbn [wire] in Hl. rewrite !length_app in Hl. lia.
Qed.

Lemma find_peer_ok s0 n d w sk pk p :
  dev_inv s0 n d w -> wf_packet p -> exists o, find_peer sk pk p d = Ret o
    /\ forall r, o = Some r -> exists q, heap d !! r = Some q.
Proof.
  intros Hi Hwf. destruct Hi as [[M1 M2 _ _] _ _ _].
  assert (forall i r, peers_by_idx d !! i = Some r -> exists q, heap d !! r = Some q) as Hidx.
  { intros i r Hr. destruct (M2 i r Hr) as (k & q & _ & Hq & _). eauto. }
  destruct p as [m|m|m|m]; cbn [find_peer]; try (eexists; split; [done|]; intros r Hr; by eapply Hidx).
  destruct Hwf as (_ & _ & Hes & _). unfold parse_handshake_anon. destruct (kdf2 _ _) as [ck key].
  rewrite aead_open_total by (by rewrite Hes).
  destruct (chacha_open _ _ _ _); cbn; (eexists; split; [done|]); intros r Hr; [|done].
  destruct (M1 _ _ Hr) as (q & Hq & _). eauto.
Qed.

Lemma udp_datagram_ok s0 n post os sock a dg d w :
  dev_inv s0 n d w -> key_pair d <> None -> (length dg <= MAX_UDP_SIZE)%nat ->
  exists x d' w', udp_datagram from_json post os sock a dg d w = Ret (x, d', w')
    /\ dev_inv s0 n d' w' /\ (ticks w <= ticks w')%nat /\ dev_frame d d'.
Proof.
  intros Hi Hk Hl. unfold udp_datagram.
  pose proof (ri_key _ _ (di_refs _ _ _ _ Hi) Hk) as Hdl.
  destruct (key_pair d) as [[sk pk]|]; [|done]. destruct (dev_limiter d) as [lr|] eqn:Elr; [|done].
  destruct (ri_dev _ _ (di_refs _ _ _ _ Hi) lr Elr) as [rl Hrl]. cbn [unwrap outcome_bind].
  rewrite Hrl. cbn [unwrap outcome_bind].
  destruct (verify_result rl (Some (sa_ip a)) dg MAX_UDP_SIZE w) as (res & rl' & w1 & -> & Ht & Hres).
  cbn [outcome_bind].
  assert (dev_inv s0 n (with_limiters (<[lr := rl']> (limiters d)) d) w1) as Hi1.
  { apply set_limiters_inv; [by eapply dev_later|by eexists]. }
  destruct res as [p|res]; [|destruct res; try done; eexists _, _, _; (split_and!; [done..|apply frame_limiters])].
  destruct (parsed_fits dg p Hres Hl) as [Hwf Hfit].
  destruct (find_peer_ok s0 n _ w1 sk pk p Hi1 Hwf) as (o & -> & Ho). cbn [outcome_bind].
  destruct o as [r|]; [|eexists _, _, _; split_and!; [done..|apply frame_limiters]].
  destruct (Ho r eq_refl) as [q Hq].
  destruct (dev_returns s0 n _ w1 r q
    (fun p0 => udp_peer from_json post os (with_limiters (<[lr := rl']> (limiters d)) d) sock a p p0 w1)
    Hi1 Hq) as ([skip es] & d' & w' & Heq & Hi' & Ht' & Hf').
  { intros p' Hp' _. apply udp_peer_total; [|done..]. apply (di_pay _ _ _ _ Hi1). }
  exists (skip, es), d', w'. split; [|split_and!; [done|lia|by etransitivity; [apply frame_limiters|]]].
  rewrite <- Heq.
  destruct (lock_peer r _) as [p'|]; [|done]. cbn [outcome_bind].
  destruct (udp_peer _ _ _ _ _ _ _ p' w1) as [[[[? ?] ?] ?]|]; done.
Qed.

Lemma conn_datagram_ok s0 n post self pa dg d w p :
  dev_inv s0 n d w -> heap d !! self = Some p -> ep_addr (endpoint p) <> None ->
  (length dg <= MAX_UDP_SIZE)%nat ->
  exists x d' w', conn_datagram from_json post self pa dg d w = Ret (x, d', w')
    /\ dev_inv s0 n d' w' /\ (ticks w <= ticks w')%nat /\ dev_frame d d'.
Proof.
  intros Hi Hp Ha Hl. unfold conn_datagram.
  destruct (dev_returns s0 n d w self p (fun p0 => conn_peer from_json post d self pa dg p0 w) Hi Hp)
    as ([skip es] & d' & w' & Heq & Hi' & Ht' & Hf').
  { intros p' Hp' He. apply conn_peer_total; [apply (di_pay _ _ _ _ Hi)|done|done|by rewrite He]. }
  exists (skip, es), d', w'. split; [|done]. rewrite <- Heq.
  destruct (lock_peer self d) as [p'|]; [|done]. cbn [outcome_bind].
  destruct (conn_peer _ _ _ _ _ _ p' w) as [[[[? ?] ?] ?]|]; done.
Qed.

Lemma dst_address_ok src : exists o, dst_address src = Ret o.
Proof.
  unfold dst_address. case_bool_decide; [by eexists|].
  destruct (index_ok src 0 ltac:(lia)) as (b & -> & _). cbn [outcome_bind].
  unfold IPV4_MIN_HEADER_SIZE, IPV6_MIN_HEADER_SIZE.
  repeat (split_if; bprop; [rewrite slice_ok by (vm_compute in *; lia); by eexists|]).
  by eexists.
Qed.

Lemma iface_packet_ok s0 n src d w :
  dev_inv s0 n d w -> (length src + 32 <= MAX_UDP_SIZE)%nat ->
  exists x d' w', iface_packet src d w = Ret (x, d', w')
    /\ dev_inv s0 n d' w' /\ (ticks w <= ticks w')%nat /\ dev_frame d d'.
Proof.
  intros Hi Hl. unfold iface_packet. destruct (dst_address_ok src) as [o ->]. cbn [outcome_bind].
  destruct o as [a|]; [|by eexists _, _, _].
  destruct (allowed_ips_find a (peers_by_ip d)) as [r|] eqn:Ef; [|by eexists _, _, _].
  assert (exists p, heap d !! r = Some p) as [p Hp].
  { unfold allowed_ips_find in Ef. apply fmap_Some in Ef as ([nt r'] & Em & ->).
    apply longest_match_some in Em as (Hin & _ & _).
    destruct (mi_ip _ (di_maps _ _ _ _ Hi) _ _ Hin) as [k Hk].
    destruct (mi_peers _ (di_maps _ _ _ _ Hi) _ _ Hk) as (p & Hp & _). eauto. }
  destruct (dev_returns s0 n d w r p (fun p0 => iface_peer d r src p0 w) Hi Hp)
    as (es & d' & w' & Heq & Hi' & Ht' & Hf').
  { intros p' Hp' _. apply iface_peer_total; [apply (di_pay _ _ _ _ Hi)|done|done]. }
  exists es, d', w'. split; [|done]. exact Heq.
Qed.

Lemma reset_limiter_ok s0 n d w :
  dev_inv s0 n d w ->
  exists d' w', reset_limiter_event d w = Ret (d', w') /\ dev_inv s0 n d' w' /\ (ticks w <= ticks w')%nat
    /\ dev_frame d d'.
Proof.
  intros Hi. unfold reset_limiter_event. destruct (dev_limiter d) as [lr|] eqn:El; [|by eexists _, _].
  destruct (ri_dev _ _ (di_refs _ _ _ _ Hi) lr El) as [rl Hrl]. rewrite Hrl. cbn [unwrap outcome_bind].
  destruct (reset_count rl w) as [rl' w'] eqn:Er.
  assert (ticks w <= ticks w')%nat as Ht.
  { unfold reset_count, elapsed, instant_now in Er. cbn in Er. repeat case_match; simplify_eq; cbn; lia. }
  eexists _, _. split; [done|]. split_and!; [|done|apply frame_limiters].
  apply set_limiters_inv; [by eapply dev_later|by eexists].
Qed.

Lemma unlock_heap_dom r p d r' : is_Some (heap d !! r') -> is_Some (heap (unlock_peer r p d) !! r').
Proof. cbn. apply lookup_insert_is_Some_2. Qed.

Lemma timer_event_ok s0 n rs d w :
  dev_inv s0 n d w -> Forall (fun r => is_Some (heap d !! r)) rs ->
  exists es d' w', timer_event rs d w = Ret (es, d', w') /\ dev_inv s0 n d' w' /\ (ticks w <= ticks w')%nat /\ dev_frame d d'.
Proof.
  revert d w. induction rs as [|r rs IH]; intros d w Hi Hrs; cbn [timer_event]; [by eexists _, _, _|].
  apply Forall_cons in Hrs as [[p Hp] Hrs].
  destruct (lock_ok s0 n d w r p Hi Hp) as (p1 & -> & Hi1 & Hs1 & _). cbn [outcome_bind].
  destruct (timer_peer_total p1 w Hi1) as (es & p2 & w2 & -> & Hi2 & Ht & Hs2). cbn [outcome_bind].
  destruct (IH (unlock_peer r p2 d) w2) as (es' & d' & w' & -> & Hi' & Ht' & Hf').
  - apply (unlock_inv s0 n d w2 r p); [by eapply dev_later|done|by eapply same_peer_trans|done].
  - eapply Forall_impl; [exact Hrs|]. intros r'. apply unlock_heap_dom.
  - cbn [outcome_bind]. eexists _, _, _. split; [done|].
    split_and!; [done|lia|]. etransitivity; [|exact Hf'].
    eapply frame_unlock; [done|by eapply same_peer_trans].
Qed.

(** ** Batches *)

Lemma udp_batch_ok s0 n iter sock l d w :
  dev_inv s0 n d w -> key_pair d <> None -> Forall (fun x => (length x.2 <= MAX_UDP_SIZE)%nat) l ->
  exists es d' w', udp_batch from_json iter sock l d w = Ret (es, d', w')
    /\ dev_inv s0 n d' w' /\ (ticks w <= ticks w')%nat /\ dev_frame d d'.
Proof.
  revert iter d w. induction l as [|[[[post os] a] dg] l IH]; intros iter d w Hi Hk Hl;
    cbn [udp_batch]; [by eexists _, _, _|].
  apply Forall_cons in Hl as [Hdg Hl].
  destruct (udp_datagram_ok s0 n post os sock a dg d w Hi Hk Hdg) as ([skip es] & d1 & w1 & -> & Hi1 & Ht1 & Hf1).
  cbn [outcome_bind]. case_bool_decide; [by eexists _, _, _|].
  destruct (IH (if skip then iter else (iter - 1)%nat) d1 w1 Hi1) as (es' & d2 & w2 & -> & Hi2 & Ht2 & Hf2);
    [by rewrite (fr_key _ _ Hf1)|done|].
  cbn [outcome_bind]. eexists _, _, _. split_and!; [done..|lia|by etransitivity].
Qed.

Definition connected (self : nat) (d : Device) : Prop :=
  exists p, heap d !! self = Some p /\ ep_addr (endpoint p) <> None.

Lemma conn_batch_ok s0 n iter self pa l d w :
  dev_inv s0 n d w -> connected self d -> Forall (fun x => (length x.2 <= MAX_UDP_SIZE)%nat) l ->
  exists es d' w', conn_batch from_json iter self pa l d w = Ret (es, d', w')
    /\ dev_inv s0 n d' w' /\ (ticks w <= ticks w')%nat /\ dev_frame d d'.
Proof.
  revert iter d w. induction l as [|[post dg] l IH]; intros iter d w Hi (p & Hp & Ha) Hl;
    cbn [conn_batch]; [by eexists _, _, _|].
  apply Forall_cons in Hl as [Hdg Hl].
  destruct (conn_datagram_ok s0 n post self pa dg d w p Hi Hp Ha Hdg)
    as ([skip es] & d1 & w1 & -> & Hi1 & Ht1 & Hf1).
  cbn [outcome_bind]. case_bool_decide; [by eexists _, _, _|].
  destruct (IH (if skip then iter else (iter - 1)%nat) d1 w1 Hi1) as (es' & d2 & w2 & -> & Hi2 & Ht2 & Hf2);
    [|done|].
  - destruct (fr_heap _ _ Hf1 self p Hp) as (p' & Hp' & _ & _ & _ & Ha'). exists p'. auto.
  - cbn [outcome_bind]. eexists _, _, _. split_and!; [done..|lia|by etransitivity].
Qed.

Lemma iface_batch_ok s0 n iter l d w :
  dev_inv s0 n d w -> Forall (fun src => (length src + 32 <= MAX_UDP_SIZE)%nat) l ->
  exists es d' w', iface_batch iter l d w = Ret (es, d', w')
    /\ dev_inv s0 n d' w' /\ (ticks w <= ticks w')%nat /\ dev_frame d d'.
Proof.
  revert l d w. induction iter as [|iter IH]; intros l d w Hi Hl; [by eexists _, _, _|].
  destruct l as [|src l]; cbn [iface_batch]; [by eexists _, _, _|].
  apply Forall_cons in Hl as [Hsrc Hl].
  destruct (iface_packet_ok s0 n src d w Hi Hsrc) as (es & d1 & w1 & -> & Hi1 & Ht1 & Hf1).
  cbn [outcome_bind].
  destruct (IH l d1 w1 Hi1 Hl) as (es' & d2 & w2 & -> & Hi2 & Ht2 & Hf2).
  cbn [outcome_bind]. eexists _, _, _. split_and!; [done..|lia|by etransitivity].
Qed.

(** ** Configuration events *)

Lemma clear_peers_ok s0 n d w : dev_inv s0 n d w -> dev_inv s0 n (clear_peers d) w.
Proof.
  intros [_ [R1 R2 R3 R4] (L1 & L2 & L3 & L4 & L5 & _) P]. split; [|done| |done].
  - split; cbn; intros *; rewrite ?lookup_empty; try done.
    unfold allowed_ips_clear. rewrite iter_new. by intros ?%elem_of_nil.
  - unfold lfsr_inv. split_and!; try done. cbn. intros i [? Hi]. by rewrite lookup_empty in Hi.
Qed.

Lemma remove_peer_ok s0 n d w pub :
  dev_inv s0 n d w -> exists d', remove_peer pub d = Ret d' /\ dev_inv s0 n d' w.
Proof.
  intros [[M1 M2 M3 M4] [R1 R2 R3 R4] (L1 & L2 & L3 & L4 & L5 & L6) P]. unfold remove_peer.
  destruct (peers d !! pub) as [r|] eqn:Er; [|by eexists].
  destruct (M1 pub r Er) as (p & Hp & Hidx). rewrite Hp. cbn [unwrap outcome_bind].
  eexists. split; [done|]. split; [split; cbn|split; cbn; try done| |done].
  - intros k r' [Hne Hk]%lookup_delete_Some. destruct (M1 k r' Hk) as (p0 & Hp0 & Hi0).
    assert (r' <> r) as Hr by (intros ->; by apply Hne, (M4 pub k r)).
    exists p0. rewrite lookup_insert_ne by done. split; [done|].
    rewrite lookup_delete_ne; [done|]. congruence.
  - intros i r' [Hne Hi]%lookup_delete_Some. destruct (M2 i r' Hi) as (k & p0 & Hk & Hp0 & Hpi).
    assert (r' <> r) as Hr by (intros ->; congruence).
    exists k, p0. rewrite lookup_insert_ne by done. split_and!; try done.
    rewrite lookup_delete_ne; [done|]. congruence.
  - intros nt r' Hin. unfold allowed_ips_remove in Hin. apply iter_retain in Hin as [Hf Hin]. bprop.
    destruct (M3 nt r' Hin) as [k Hk]. exists k. rewrite lookup_delete_ne; [done|]. congruence.
  - intros k k' r' [_ Hk]%lookup_delete_Some [_ Hk']%lookup_delete_Some. by eapply M4.
  - intros r' p0 Hp0. destruct (decide (r = r')) as [->|Hne]; simplify_map_eq; [|by apply R1].
    destruct (R1 r' p Hp) as (? & ? & ?). by split_and!.
  - unfold lfsr_inv. split_and!; try done. cbn. intros i [r' [_ Hi]%lookup_delete_Some].
    apply L6. by eexists.
Qed.

Lemma insert_all_iter (l : list (AllowedIP * nat)) t :
  Forall (fun e => wf_allowed_ip (fst e)) l ->
  exists t', insert_all l t = Ret t'
    /\ forall nt r, (nt, r) ∈ table_iter t' -> r ∈ (snd <$> l) \/ (nt, r) ∈ table_iter t.
Proof.
  intros Hf. revert t. induction Hf as [|[ip x] l Hip _ IH]; intros t; cbn [insert_all].
  { eexists. split; [done|]. auto. }
  destruct (insert_valid ip x t Hip) as (nt & _ & ->). cbn [outcome_bind].
  destruct (IH (table_insert nt x t)) as (t' & -> & Ht'). eexists. split; [done|].
  intros n' r [Hr|Hr]%Ht'; [left; by right|].
  apply iter_insert in Hr as [[-> ->]|[_ Hr]]; [left; by left|auto].
Qed.

Lemma wf_pairs {D} (l : list AllowedIP) (x : D) :
  Forall wf_allowed_ip l -> Forall (fun e => wf_allowed_ip (fst e)) ((fun ip => (ip, x)) <$> l).
Proof. intros Hl. by apply Forall_fmap. Qed.

(** The index of a new peer is one that no peer has. *)
Lemma next_index_fresh s0 n d :
  lfsr_inv s0 n d -> Z.of_nat (S n) < PERIOD ->
  lfsr_next (next_index d) = Ret (index_at s0 n, mkLfsr (initial s0) (steps (Z.of_nat (S n)) (lfsr s0)) (mask s0))
  /\ peers_by_idx d !! index_at s0 n = None.
Proof.
  intros (L1 & L2 & L3 & L4 & L5 & L6) Hn. rewrite L5.
  assert (forall k, 0 <= k -> steps k (steps 1 (lfsr s0)) = steps (k + 1) (lfsr s0)) as Hs
    by (intros; by rewrite steps_add by lia).
  assert (steps 1 (steps (Z.of_nat n) (lfsr s0)) = steps (Z.of_nat (S n)) (lfsr s0)) as H1.
  { rewrite <- steps_add by lia. f_equal. lia. }
  split.
  - rewrite lfsr_next_ok; cbn [lfsr initial mask].
    + rewrite H1. unfold index_at. cbn [lfsr mask]. rewrite <- steps_add by lia. by do 5 f_equal.
    + by apply steps_u24.
    + apply steps_nonzero; (done || lia).
    + rewrite H1, L3. apply no_short_cycle; (done || lia).
  - destruct (peers_by_idx d !! index_at s0 n) eqn:Ei; [|done]. exfalso.
    destruct (L6 (index_at s0 n)) as (k & Hk & He); [by eexists|].
    by apply (index_at_distinct s0 k n L1 L2 Hk ltac:(lia)).
Qed.

(** A device with one more peer. *)
Lemma add_peer_inv s0 n d w pub p t' :
  dev_inv s0 n d w -> Z.of_nat (S n) < PERIOD -> peers d !! pub = None ->
  peer_inv p w -> peer_index p = index_at s0 n ->
  (forall nt r, (nt, r) ∈ table_iter t' -> r = next_ref d \/ (nt, r) ∈ table_iter (peers_by_ip d)) ->
  let d1 := with_lfsr (mkLfsr (initial s0) (steps (Z.of_nat (S n)) (lfsr s0)) (mask s0)) d in
  let d2 := snd (alloc_peer p d1) in
  dev_inv s0 (S n)
    (with_maps (<[pub := next_ref d]> (peers d2)) t' (<[index_at s0 n := next_ref d]> (peers_by_idx d2)) d2) w.
Proof.
  intros Hi Hn Hpub Hp Hx Ht' d1 d2. pose proof (next_index_fresh _ _ _ (di_lfsr _ _ _ _ Hi) Hn) as [_ Hfree].
  destruct Hi as [[M1 M2 M3 M4] [R1 R2 R3 R4] (L1 & L2 & L3 & L4 & L5 & L6) P].
  assert (forall k r, peers d !! k = Some r -> r <> next_ref d) as Hnew.
  { intros k r Hk ->. destruct (M1 k _ Hk) as (q & Hq & _). destruct (R1 _ _ Hq) as (_ & _ & ?). lia. }
  split; [split; cbn|split; cbn; try done| |done].
  - intros k r Hk. destruct (decide (pub = k)) as [->|Hne]; simplify_map_eq.
    + eexists. split; [done|]. cbn. rewrite Hx. by simplify_map_eq.
    + destruct (M1 k r Hk) as (q & Hq & Hi0). exists q. rewrite lookup_insert_ne by (intros <-; by eapply Hnew).
      split; [done|]. rewrite lookup_insert_ne; [done|]. congruence.
  - intros i r Hi0. destruct (decide (index_at s0 n = i)) as [<-|Hne]; simplify_map_eq.
    + do 2 eexists. split_and!; [by simplify_map_eq|by simplify_map_eq|done].
    + destruct (M2 i r Hi0) as (k & q & Hk & Hq & Hqi). exists k, q.
      rewrite lookup_insert_ne by congruence. rewrite lookup_insert_ne by (intros <-; by eapply Hnew).
      done.
  - intros nt r Hin. destruct (Ht' nt r Hin) as [->|Hold]; [exists pub; by simplify_map_eq|].
    destruct (M3 nt r Hold) as [k Hk]. exists k. rewrite lookup_insert_ne; [done|]. congruence.
  - intros k k' r Hk Hk'. destruct (decide (pub = k)) as [<-|], (decide (pub = k')) as [<-|];
      simplify_map_eq; try done; try (exfalso; by eapply Hnew). by eapply M4.
  - intros r q Hq. destruct (decide (next_ref d = r)) as [<-|Hne]; simplify_map_eq.
    + cbn. split_and!; [done|by simplify_map_eq|lia].
    + destruct (R1 r q Hq) as (? & ? & ?). split_and!; [done|by apply lookup_insert_is_Some_2|lia].
  - intros r Hr. destruct (decide (next_ref d = r)) as [<-|Hne]; [lia|].
    rewrite lookup_insert_ne in Hr by done. apply R2 in Hr. lia.
  - intros r Hr. by apply lookup_insert_is_Some_2, R3.
  - unfold lfsr_inv. cbn. split_and!; try done. intros i Hi0.
    destruct (decide (index_at s0 n = i)) as [<-|Hne]; [exists n; split; [lia|done]|].
    rewrite lookup_insert_ne in Hi0 by done. destruct (L6 i Hi0) as (k & Hk & ->). exists k. split; [lia|done].
Qed.

Lemma update_peer_ok s0 n d w pub e allowed ka psk :
  dev_inv s0 n d w -> Z.of_nat (S n) < PERIOD -> key_pair d <> None -> peers d !! pub = None ->
  Forall wf_allowed_ip allowed ->
  exists d' w', update_peer pub false e allowed ka psk d w = Ret (d', w')
    /\ dev_inv s0 (S n) d' w' /\ (ticks w <= ticks w')%nat.
Proof.
  intros Hi Hn Hk Hpub Hal. unfold update_peer. rewrite Hpub.
  destruct (next_index_fresh _ _ _ (di_lfsr _ _ _ _ Hi) Hn) as [-> _]. cbn [outcome_bind].
  destruct (key_pair d) as [[sk pk]|] eqn:Ek; [|done]. cbn [key_pair with_lfsr]. rewrite Ek.
  cbn [unwrap outcome_bind].
  destruct (tunn_new sk pub psk ka (index_at s0 n) None w) as [t w1] eqn:Et.
  pose proof (tunn_new_ticks _ _ _ _ _ _ _ _ _ Et) as Hw.
  pose proof (tunn_new_inv MAX_UDP_SIZE _ _ _ _ _ _ _ _ _ Et) as Hinv.
  unfold peer_new. destruct (insert_all_represents [] _ allowed_ips_new (wf_pairs allowed tt Hal) represents_new)
    as (ips & Hips & _). unfold allowed_ips_from_iter. rewrite Hips. cbn [outcome_bind].
  cbn [alloc_peer]. cbn [peers_by_ip with_lfsr next_ref].
  destruct (insert_all_iter ((fun ip => (ip, next_ref d)) <$> allowed) (peers_by_ip d))
    as (t' & Ht' & Hit); [by apply wf_pairs|]. rewrite Ht'. cbn [outcome_bind].
  eexists _, _. split; [done|]. split; [|done].
  apply (add_peer_inv s0 n d w1 pub (with_quota (Some (quota_new DEFAULT_QUOTA_BYTES))
    (mkPeer t 0 (index_at s0 n) (mkEndpoint e false) ips psk None))); try done.
  - by eapply dev_later.
  - intros nt r Hr. destruct (Hit nt r Hr) as [Hr'|]; [|auto]. left.
    apply list_elem_of_fmap in Hr' as ([ip r'] & -> & Hr').
    apply list_elem_of_fmap in Hr' as (ip' & [= -> ->] & _). done.
Qed.

Lemma tunn_rekey_ok buf sk rl t w :
  tunn_inv buf t w ->
  exists t', tunn_set_static_private sk (x25519_public sk) (Some rl) t w = Ret (t', w) /\ tunn_inv buf t' w.
Proof.
  intros [Hh [Hl Hs] Hq [T1 T2 T3]]. unfold tunn_set_static_private, set_static_private,
    params_set_static_private. rewrite bool_decide_eq_true_2 by done. cbn.
  eexists. split; [done|]. split; cbn.
  - destruct Hh as ([H1 H2 H3] & Hst & _). split; [by split|]. split; [done|apply length_x25519_public].
  - split; [by rewrite length_fmap|]. intros i x. rewrite list_lookup_fmap, fmap_Some.
    by intros (? & _ & ?).
  - done.
  - by split.
Qed.

Lemma rekey_all_ok s0 n sk lr rs d w :
  dev_inv s0 n d w -> is_Some (limiters d !! lr) -> Forall (fun r => is_Some (heap d !! r)) rs ->
  exists d', rekey_all sk (x25519_public sk) lr rs d w = Ret (d', w) /\ dev_inv s0 n d' w
    /\ is_Some (limiters d' !! lr).
Proof.
  revert d. induction rs as [|r rs IH]; intros d Hi Hlr Hrs; cbn [rekey_all]; [by eexists|].
  apply Forall_cons in Hrs as [[p Hp] Hrs].
  destruct (lock_ok s0 n d w r p Hi Hp) as (p1 & -> & Hi1 & (_ & Hx & _) & _). cbn [outcome_bind].
  destruct Hlr as [rl Hrl]. rewrite Hrl. cbn [unwrap outcome_bind].
  destruct (tunn_rekey_ok MAX_UDP_SIZE sk rl (tunnel p1) w Hi1) as (t & -> & Ht). cbn [outcome_bind].
  apply IH.
  - by apply (unlock_inv_gen s0 n d w r p).
  - cbn. by eexists; rewrite lookup_insert_eq.
  - eapply Forall_impl; [exact Hrs|]. intros r'. apply unlock_heap_dom.
Qed.

Lemma set_key_ok s0 n d w sk wallet :
  dev_inv s0 n d w -> from_wireguard_key sk = Ret wallet ->
  exists d' w', set_key sk d w = Ret (d', w') /\ dev_inv s0 n d' w' /\ (ticks w <= ticks w')%nat.
Proof.
  intros Hi Hwal. unfold set_key. case_bool_decide; [by exists d, w|].
  destruct (rate_limiter_new (x25519_public sk) HANDSHAKE_RATE_LIMIT w) as [rl w1] eqn:Er.
  assert (ticks w <= ticks w1)%nat as Hw.
  { unfold rate_limiter_new in Er. cbn [fill_bytes instant_now] in Er.
    apply pair_equal_spec in Er as [_ <-]. cbn. lia. }
  apply (dev_later _ _ _ _ w1) in Hi; [|done].
  match goal with |- context [rekey_all _ _ _ _ ?d1 w1] => set (d0 := d1) end.
  assert (dev_inv s0 n d0 w1) as Hi0.
  { destruct Hi as [[M1 M2 M3 M4] [R1 R2 R3 R4] L P]. split; [by split| |done|done].
    split; cbn; try done.
    - intros r p Hp. destruct (R1 r p Hp) as (? & ? & ?).
      split_and!; [done|by apply lookup_insert_is_Some_2|lia].
    - intros r Hr. destruct (decide (next_ref d = r)) as [<-|Hne]; [lia|].
      rewrite lookup_insert_ne in Hr by done. apply R2 in Hr. lia.
    - intros r Hr. by apply lookup_insert_is_Some_2, R3. }
  destruct (rekey_all_ok s0 n sk (next_ref d) (snd <$> map_to_list (peers d0)) d0 w1 Hi0)
    as (d1 & -> & Hi1 & Hlr).
  - cbn. by eexists; rewrite lookup_insert_eq.
  - apply Forall_fmap, Forall_forall. intros [k r] Hkr%elem_of_map_to_list.
    destruct (mi_peers _ (di_maps _ _ _ _ Hi0) k r Hkr) as (p & Hp & _). by eexists.
  - cbn [outcome_bind]. rewrite Hwal. cbn [outcome_bind]. eexists _, _.
    split; [done|]. split; [|done]. destruct Hi1 as [[M1 M2 M3 M4] [R1 R2 R3 R4] L [P1 P2]].
    split; [by split| |done|].
    + split; cbn; try done. by intros r [= <-].
    + split; [done|]. cbn. intros wl [= <-]. by eapply from_wireguard_key_ok.
Qed.

Lemma shutdown_all_ok s0 n rs d w :
  dev_inv s0 n d w -> Forall (fun r => is_Some (heap d !! r)) rs ->
  exists d', shutdown_all rs d = Ret d' /\ dev_inv s0 n d' w.
Proof.
  revert d. induction rs as [|r rs IH]; intros d Hi Hrs; cbn [shutdown_all]; [by eexists|].
  apply Forall_cons in Hrs as [[p Hp] Hrs]. rewrite Hp. cbn [unwrap outcome_bind].
  destruct (ri_heap _ _ (di_refs _ _ _ _ Hi) r p Hp) as (Hinv & Hl & _). apply IH.
  - by apply (set_heap_inv s0 n d w r p).
  - eapply Forall_impl; [exact Hrs|]. intros r'. apply lookup_insert_is_Some_2.
Qed.

Lemma values_valid s0 n d w :
  dev_inv s0 n d w -> Forall (fun r => is_Some (heap d !! r)) (snd <$> map_to_list (peers d)).
Proof.
  intros Hi. apply Forall_fmap, Forall_forall. intros [k r] Hkr%elem_of_map_to_list.
  destruct (mi_peers _ (di_maps _ _ _ _ Hi) k r Hkr) as (p & Hp & _). by eexists.
Qed.

Lemma sockets_inv s0 n port u4 u6 d w : dev_inv s0 n d w -> dev_inv s0 n (with_sockets port u4 u6 d) w.
Proof. intros [[M1 M2 M3 M4] [R1 R2 R3 R4] L P]. by split. Qed.

(** ** Reachable devices *)

(** The indices an event draws, and when an event can happen: datagrams fit the
    receive buffer and a key is set before they arrive; a connected socket belongs
    to a peer with an endpoint; packets respect the MTU and the listening sockets
    are open when they are read; a key has a wallet; a peer is not added twice, nor the [2^24 - 1]st index drawn. *)
Definition indices (ev : device_event) : nat :=
  match ev with EvUpdatePeer _ false _ _ _ _ => 1 | _ => 0 end.

Definition admissible (n : nat) (ev : device_event) (d : Device) : Prop :=
  match ev with
  | EvUdp _ l => key_pair d <> None /\ Forall (fun x => (length x.2 <= MAX_UDP_SIZE)%nat) l
  | EvConn self _ l => connected self d /\ Forall (fun x => (length x.2 <= MAX_UDP_SIZE)%nat) l
  | EvIface l => udp4 d = true /\ udp6 d = true
                 /\ Forall (fun src => (length src + 32 <= MAX_UDP_SIZE)%nat) l
  | EvTimers order => order ≡ₚ snd <$> map_to_list (peers d)
  | EvSetKey k => exists wallet, from_wireguard_key k = Ret wallet
  | EvUpdatePeer k false _ allowed _ _ =>
      key_pair d <> None /\ peers d !! k = None /\ Forall wf_allowed_ip allowed
      /\ Z.of_nat (S n) < PERIOD
  | _ => True
  end.

Inductive reachable (env_var : bytes -> option bytes) : nat -> Device -> World -> Prop :=
| reach_new fuel b w s w' c :
    lfsr_default fuel w = Some (s, w') -> config_default env_var = Ret c ->
    reachable env_var 0 (device_new s c b) w'
| reach_step n ev es d w d' w' :
    reachable env_var n d w -> admissible n ev d ->
    device_step from_json ev d w = Ret (es, d', w') ->
    reachable env_var (indices ev + n) d' w'
| reach_time n d w w' :
    reachable env_var n d w -> (ticks w <= ticks w')%nat -> reachable env_var n d w'.

Lemma random_index_range fuel w i w' : random_index fuel w = Some (i, w') -> u24 i /\ 0 < i.
Proof.
  revert w. induction fuel as [|fuel IH]; intros w; cbn [random_index]; [done|].
  destruct (fill_bytes 4 w) as [b w1]. destruct (0 <? _) eqn:Ei; [|apply IH].
  apply Z.ltb_lt in Ei. intros [= <- <-]. split; [|done].
  unfold u24, in_width, LFSR_MAX in *. change 16777215 with (Z.ones 24) in *.
  rewrite Z.land_ones in * by lia. pose proof (Z.mod_pos_bound (from_le b) (2 ^ 24) ltac:(lia)). lia.
Qed.

Lemma config_default_ok env_var c : config_default env_var = Ret c -> length (usdc_contract c) = 20%nat.
Proof.
  unfold config_default. intros Hc.
  destruct (hex_to_address _) as [a|] eqn:Ea in Hc; [|done]. cbn [outcome_bind] in Hc.
  destruct (hex_to_address _) as [g|] in Hc; [|done]. cbn [outcome_bind] in Hc.
  apply (inj Ret) in Hc as <-. cbn. unfold hex_to_address in Ea.
  destruct (hex_decode _) as [b|]; [|done]. cbn [unwrap outcome_bind] in Ea.
  case_bool_decide; [|done]. cbn in Ea. by apply (inj Ret) in Ea as <-.
Qed.

Lemma new_inv fuel b w s w' c env_var :
  lfsr_default fuel w = Some (s, w') -> config_default env_var = Ret c ->
  dev_inv s 0 (device_new s c b) w'.
Proof.
  intros Hs Hc. unfold lfsr_default in Hs.
  destruct (random_index fuel w) as [[seed w1]|] eqn:E1; [|done].
  destruct (random_index fuel w1) as [[m w2]|]; [|done]. apply (inj Some), pair_equal_spec in Hs as [<- _].
  apply random_index_range in E1 as [Hu Hp]. split; cbn.
  - split; cbn; intros *; rewrite ?lookup_empty; try done. rewrite iter_new. by intros ?%elem_of_nil.
  - split; cbn; try done. by intros r [? Hr].
  - unfold lfsr_inv; cbn. split_and!; try done. by intros i [? Hi].
  - split; [|done]. by eapply config_default_ok.
Qed.

(** The events of packets and timers. *)
Definition traffic (ev : device_event) : Prop :=
  match ev with EvUdp _ _ | EvConn _ _ _ | EvIface _ | EvTimers _ | EvResetLimiter => True | _ => False end.

Lemma device_step_ok s0 n ev d w :
  dev_inv s0 n d w -> admissible n ev d ->
  exists es d' w', device_step from_json ev d w = Ret (es, d', w')
    /\ dev_inv s0 (indices ev + n) d' w' /\ (ticks w <= ticks w')%nat /\ (traffic ev -> dev_frame d d').
Proof.
  intros Hi Ha. destruct ev as [sock l|self a l|l|order| |port os|mark os|k|k rm e allowed ka psk|];
    cbn [device_step admissible indices traffic] in *.
  - destruct Ha as [Hk Hl]. pose proof (ri_key _ _ (di_refs _ _ _ _ Hi) Hk) as Hdl. unfold udp_handler.
    destruct (key_pair d) eqn:Ek, (dev_limiter d); try done. cbn [unwrap outcome_bind].
    destruct (udp_batch_ok s0 n MAX_ITR sock l d w Hi) as (es & d' & w' & -> & ? & ? & ?); [congruence|done|].
    by eexists _, _, _.
  - destruct Ha as [Hc Hl]. unfold conn_handler.
    destruct (conn_batch_ok s0 n MAX_ITR self a l d w Hi Hc Hl) as (es & d' & w' & -> & ? & ? & ?).
    by eexists _, _, _.
  - destruct Ha as (H4 & H6 & Ha). unfold iface_handler. rewrite H4, H6. cbn [require outcome_bind].
    destruct (iface_batch_ok s0 n MAX_ITR l d w Hi Ha) as (es & d' & w' & -> & ? & ? & ?).
    by eexists _, _, _.
  - unfold timer_handler. destruct (udp4 d && udp6 d); [|by eexists _, _, _].
    destruct (timer_event_ok s0 n order d w Hi) as (es & d' & w' & -> & ? & ? & ?); [|by eexists _, _, _].
    rewrite Ha. by eapply values_valid.
  - destruct (reset_limiter_ok s0 n d w Hi) as (d' & w' & -> & ? & ? & ?). by eexists _, _, _.
  - unfold open_listen_socket. apply (sockets_inv _ _ (listen_port d) false false) in Hi.
    destruct (shutdown_all_ok s0 n _ _ w Hi (values_valid _ _ _ _ Hi)) as (d' & -> & ?).
    cbn [outcome_bind]. destruct os as [bound|]; eexists _, _, _; (split; [done|]); [|done].
    split; [|done]. by apply sockets_inv.
  - eexists _, _, _. split; [done|]. split; [|done].
    destruct Hi as [[M1 M2 M3 M4] [R1 R2 R3 R4] L P]. by split.
  - destruct Ha as [wallet Hw]. destruct (set_key_ok s0 n d w k wallet Hi Hw) as (d' & w' & -> & ? & ?).
    by eexists _, _, _.
  - destruct rm; cbn [indices].
    + unfold update_peer. destruct (remove_peer_ok s0 n d w k Hi) as (d' & -> & ?). by eexists _, _, _.
    + destruct Ha as (? & ? & ? & ?).
      destruct (update_peer_ok s0 n d w k e allowed ka psk) as (d' & w' & -> & ? & ?); try done.
      by eexists _, _, _.
  - eexists _, _, _. split; [done|]. split; [|done]. by apply clear_peers_ok.
Qed.

Lemma reachable_inv env_var n d w : reachable env_var n d w -> exists s0, dev_inv s0 n d w.
Proof.
  induction 1 as [fuel b w s w' c Hs Hc|n ev es d w d' w' _ [s0 IH] Ha Hstep|n d w w' _ [s0 IH] Hw].
  - exists s. by eapply new_inv.
  - destruct (device_step_ok s0 n ev d w IH Ha) as (es1 & d1 & w1 & E1 & Hi & _).
    rewrite E1 in Hstep. apply (inj Ret) in Hstep. simplify_eq. by exists s0.
  - exists s0. by eapply dev_later.
Qed.

(** C17. In every state a device can reach, its three maps agree: every peer is
    filed under its own index, every index refers to a peer that has it, every
    entry of the routing table to a known peer, and two keys never share a peer. *)
Theorem device_maps_consistent (env_var : bytes -> option bytes) n d w
    (Hr : reachable env_var n d w) :
  maps_inv d.
Proof. destruct (reachable_inv _ _ _ _ Hr) as [s0 Hi]. apply (di_maps _ _ _ _ Hi). Qed.

End Runs.

#[local] Existing Instance toy_crypto.
#[local] Existing Instance toy_laws.
#[local] Existing Instance example_env.
#[local] Existing Instance example_env_monotone.
#[local] Existing Instance toy_ethereum.
#[local] Existing Instance toy_ethereum_laws.
#[local] Existing Instance toy_ip.
#[local] Existing Instance toy_ip_laws.
#[local] Existing Instance toy_hex.

(** A node, or a client, that is given a key and a peer; the gateway settles. *)
Definition example_env_var (server : bool) (k : bytes) : option bytes :=
  if server && bool_decide (k = str "BT_PAYMENT_SERVER") then Some (str "1") else None.

Definition example_from_json (_ : bytes) : result bytes SettleResponse :=
  Ok (mkSettleResponse true None None None None None None None).

Definition example_start (server : bool) : outcome (Device * World) :=
  let! (s, w) := unwrap (lfsr_default 1 (mkWorld 0 0)) in
  let! c := config_default (example_env_var server) in
  Ret (device_new s c true, w).

Definition example_key (server : bool) : device_event :=
  EvSetKey (replicate 32 (if server then x05 else x07)).
Definition example_add (server : bool) : device_event :=
  EvUpdatePeer (replicate 32 (if server then x07 else x05)) false None
    [mkAllowedIP (V4 [x0a; x00; x00; if server then x02 else x01]) 32] None None.

Definition example_keyed (server : bool) : outcome (list effect * Device * World) :=
  let! (d, w) := example_start server in device_step example_from_json (example_key server) d w.

Definition example_run (server : bool) : outcome (list effect * Device * World) :=
  let! (_, d, w) := example_keyed server in
  device_step example_from_json (example_add server) d w.

(** [f] holds of the device an example ends in. *)
Definition ends {A} (f : Device -> bool) (o : outcome (A * Device * World)) : bool :=
  match o with Ret (_, d, _) => f d | Panic => false end.

Lemma ends_ret {A} f (o : outcome (A * Device * World)) :
  ends f o = true -> exists x d w, o = Ret (x, d, w) /\ f d = true.
Proof. destruct o as [[[x d] w]|]; [|done]. intros Hf. by exists x, d, w. Qed.

Definition keyed (d : Device) : bool := bool_decide (is_Some (key_pair d)).

Lemma keyed_some d : keyed d = true -> key_pair d <> None.
Proof. intros Hk%bool_decide_eq_true. by apply not_eq_None_Some. Qed.

Lemma example_keyed_reachable server es d w :
  example_keyed server = Ret (es, d, w) -> reachable example_from_json (example_env_var server) 0 d w.
Proof.
  intros E1. unfold example_keyed in E1. destruct (example_start server) as [[d0 w0]|] eqn:E0; [|done].
  cbn [outcome_bind] in E1. apply (reach_step _ _ 0 (example_key server) es d0 w0); [| |done].
  - unfold example_start in E0. destruct (lfsr_default 1 (mkWorld 0 0)) as [[s w']|] eqn:Es; [|done].
    cbn [unwrap outcome_bind] in E0.
    destruct (config_default (example_env_var server)) as [c|] eqn:Ec; [|done].
    cbn [outcome_bind] in E0. apply (inj Ret), pair_equal_spec in E0 as [<- <-].
    by apply (reach_new _ _ 1 true (mkWorld 0 0)).
  - apply toy_wallet.
Qed.

Lemma example_step server es d w :
  example_run server = Ret (es, d, w) -> reachable example_from_json (example_env_var server) 1 d w.
Proof.
  destruct (ends_ret (fun d => keyed d && bool_decide (peers d = ∅)) (example_keyed server))
    as (es1 & d1 & w1 & E1 & H1); [by destruct server; vm_compute|].
  apply andb_true_iff in H1 as [Hk1 He1%bool_decide_eq_true]. intros E2.
  unfold example_run in E2. rewrite E1 in E2. cbn [outcome_bind] in E2.
  apply (reach_step _ _ 0 (example_add server) es d1 w1); [by eapply example_keyed_reachable| |done].
  cbn [example_add admissible]. split_and!; [by apply keyed_some|by rewrite He1| |done].
  repeat apply Forall_cons_2; try apply Forall_nil_2; ground.
Qed.

(** The examples end in a reachable state, of which [f] holds. *)
Lemma example_reachable server f :
  ends f (example_run server) = true ->
  exists es d w, example_run server = Ret (es, d, w)
    /\ reachable example_from_json (example_env_var server) 1 d w /\ f d = true.
Proof.
  intros (es & d & w & E & Hf)%ends_ret. exists es, d, w.
  split; [exact E|]. split; [by eapply example_step|exact Hf].
Qed.

Lemma device_maps_consistent_witness :
  exists es d w, example_run true = Ret (es, d, w) /\ maps_inv d.
Proof.
  destruct (example_reachable true keyed) as (es & d & w & Hrun & Hr & _); [by vm_compute|].
  exists es, d, w. split; [exact Hrun|].
  exact (device_maps_consistent (EC := example_env_epoch) example_from_json (example_env_var true) 1 d w Hr).
Defined.

(** A datagram that is not a WireGuard message. *)
Definition example_noise : device_event :=
  EvUdp Udp4 [(fun _ _ => Err [], true, mkSocketAddr (V4 [x01; x02; x03; x04]) 51820 0 0, [x04; x00; x00; x00; xff])].

