(* ===== verification/ApiRuns.v ===== *)
(** * Configuration requests, as text and as events

    The loops of the control socket end on every input. A request that is printed
    from settings is read back as the events of the device that those settings
    stand for, in order. *)

From Stdlib Require Import ZArith Lia.
From Stdlib Require Strings.String.
From stdpp Require Import base numbers list option gmap.
From S2P Require Import Prelude Clock Packet Crypto Session Handshake RateLimiter Tunnel TunnelRuns IndexLfsr Quota PaymentProtocol RustText NetText Utf8 Serialization Eip3009 Settlement AllowedIps Device DeviceHandlers Api DeviceTotal DeviceRuns.

Import Stdlib.Strings.String.StringSyntax.

(** ** Lines *)

Lemma take_line_shrinks s l r found :
  take_line s = (l, r, found) -> (length l + length r = length s)%nat.
Proof.
  revert l r found. induction s as [|b s IH]; intros l r found; cbn [take_line]; [by intros [= <- <- <-]|].
  case_bool_decide; [by intros [= <- <- <-]|].
  destruct (take_line s) as [[l' r'] f']. intros [= <- <- <-]. cbn. specialize (IH l' r' f' eq_refl). lia.
Qed.

Lemma read_line_shrinks s cmd s' :
  read_line s = (Some cmd, s') -> str_pop cmd <> [] -> (length (pending s') < length (pending s))%nat.
Proof.
  unfold read_line. destruct (take_line (pending s)) as [[l r] found] eqn:E. apply take_line_shrinks in E.
  destruct (broken s && negb found); [done|]. destruct (is_utf8 l); [|done].
  intros [= <- <-] Hp. cbn [pending]. destruct l; [done|]. cbn in E. lia.
Qed.

Lemma take_line_app l t :
  Forall (fun b => b <> newline) l -> take_line (l ++ newline :: t) = (l ++ [newline], t, true).
Proof.
  induction 1 as [|b l Hb _ IH]; cbn [app take_line]; [by rewrite bool_decide_eq_true_2|].
  by rewrite bool_decide_eq_false_2, IH.
Qed.

(** A line without control characters, as the printers make them. *)
Definition plain (b : byte) : Prop := 32 <= u8 b < 128.

Lemma newline_code : u8 newline = 10.
Proof. by vm_compute. Qed.

Lemma read_line_app l t br :
  Forall plain l -> read_line (mkStream (l ++ newline :: t) br) = (Some (l ++ [newline]), mkStream t br).
Proof.
  intros Hl. unfold read_line. cbn [pending broken]. rewrite take_line_app.
  - cbn [negb]. rewrite andb_false_r, utf8_ascii; [done|]. apply Forall_app. split; [|constructor; [by vm_compute|done]].
    eapply Forall_impl; [exact Hl|]. unfold plain, is_ascii. lia.
  - eapply Forall_impl; [exact Hl|]. intros b Hb ->. unfold plain in Hb. rewrite newline_code in Hb. lia.
Qed.

Lemma read_blank t br : read_line (mkStream (newline :: t) br) = (Some [newline], mkStream t br).
Proof. exact (read_line_app [] t br (Forall_nil_2 _)). Qed.

Lemma pop_newline l : str_pop (l ++ [newline]) = l.
Proof. apply pop_ascii. by vm_compute. Qed.

Lemma splitn2_app c k v : Forall (fun b => b <> c) k -> splitn2 c (k ++ c :: v) = [k; v].
Proof.
  induction 1 as [|b k Hb _ IH]; cbn [app splitn2]; [by rewrite bool_decide_eq_true_2|].
  by rewrite bool_decide_eq_false_2, IH.
Qed.

(** ** The loops end *)

Section Loops.
Context `{C : Crypto} `{E : Env} `{Eth : Ethereum} `{I : IpCrates} `{H : Hex} `{B : Base64}.

(** Fuel that is enough gives a result, and more of it the same one. *)
Lemma api_set_peer_fuel f1 f2 sec s d w :
  (length (pending s) < f1)%nat -> (length (pending s) < f2)%nat ->
  api_set_peer f1 sec s d w = api_set_peer f2 sec s d w /\ api_set_peer f1 sec s d w <> Ret None.
Proof.
  revert f2 sec s d w. induction f1 as [|f1 IH]; intros f2 sec s d w H1 H2; [lia|].
  destruct f2 as [|f2]; [lia|]. cbn [api_set_peer].
  destruct (read_line s) as [[cmd|] s'] eqn:Er; [|done].
  case_bool_decide as Hc; [by destruct (commit_section sec d w) as [[? ?]|]|].
  pose proof (read_line_shrinks _ _ _ Er Hc).
  destruct (splitn2 _ _) as [|key [|val [|]]]; try done.
  destruct (peer_command key val sec d w) as [[[[[st|] sec'] d'] w']|]; cbn [outcome_bind]; try done.
  apply IH; lia.
Qed.

Lemma api_set_loop_fuel os f1 f2 i s d w :
  (length (pending s) < f1)%nat -> (length (pending s) < f2)%nat ->
  api_set_loop os f1 i s d w = api_set_loop os f2 i s d w /\ api_set_loop os f1 i s d w <> Ret None.
Proof.
  revert f2 i s d w. induction f1 as [|f1 IH]; intros f2 i s d w H1 H2; [lia|].
  destruct f2 as [|f2]; [lia|]. cbn [api_set_loop].
  destruct (read_line s) as [[cmd|] s'] eqn:Er; [|done].
  case_bool_decide as Hc; [done|].
  pose proof (read_line_shrinks _ _ _ Er Hc).
  destruct (split_on _ _) as [|key [|val [|]]]; try done.
  destruct (set_command os i key val d w) as [[[[|st|k] d'] w']|]; cbn [outcome_bind]; try done.
  - apply IH; lia.
  - apply api_set_peer_fuel; lia.
Qed.

(** C26. The configuration loop ends on every request, however long and whatever its
    bytes: the fuel of the model is never used up, and more of it changes nothing. *)
Theorem api_set_terminates os s d w :
  api_set_loop os (enough_fuel s) 0 s d w <> Ret None
  /\ forall fuel, (enough_fuel s <= fuel)%nat ->
       api_set_loop os fuel 0 s d w = api_set_loop os (enough_fuel s) 0 s d w.
Proof.
  unfold enough_fuel. split; [|intros fuel Hf].
  - apply (api_set_loop_fuel os _ (S (length (pending s)))); lia.
  - apply (api_set_loop_fuel os); lia.
Qed.
End Loops.

(** ** Settings and their text *)

Inductive setting :=
| PrivateKey (k : bytes)
| ListenPort (port : Z)
| Fwmark (mark : Z)
| ReplacePeers (b : bool).

Inductive peer_setting :=
| Remove (b : bool)
| PresharedKey (k : bytes)
| EndpointAt (a : SocketAddr)
| Keepalive (secs : Z)
| ReplaceAllowedIps (b : bool)
| AllowedIpAt (ip : AllowedIP)
| ProtocolVersion
| NextPeer (k : bytes).

(** A configuration: the settings of the device, and then possibly a first peer
    with its settings and those of the peers after it. *)
Record Configuration := mkConfiguration {
  cf_settings : list setting;
  cf_peers : option (bytes * list peer_setting);
}.

Definition setting_ok (x : setting) : Prop :=
  match x with
  | PrivateKey k => length k = 32%nat
  | ListenPort port => in_width 16 port
  | Fwmark mark => in_width 32 mark
  | ReplacePeers _ => True
  end.

Definition peer_setting_ok (x : peer_setting) : Prop :=
  match x with
  | PresharedKey k | NextPeer k => length k = 32%nat
  | EndpointAt a => sockaddr_ok a
  | Keepalive z => in_width 16 z
  | AllowedIpAt ip => ip_ok (addr ip) /\ wf_allowed_ip ip
  | _ => True
  end.

Definition config_ok (cf : Configuration) : Prop :=
  Forall setting_ok (cf_settings cf)
  /\ match cf_peers cf with
     | Some (k, ps) => length k = 32%nat /\ Forall peer_setting_ok ps
     | None => True
     end.

Section Text.
Context `{H : Hex}.

Definition setting_field (x : setting) : bytes * bytes :=
  match x with
  | PrivateKey k => (str "private_key", hex_encode k)
  | ListenPort port => (str "listen_port", show_uint port)
  | Fwmark mark => (str "fwmark", show_uint mark)
  | ReplacePeers b => (str "replace_peers", show_bool b)
  end.

Definition peer_setting_field (x : peer_setting) : bytes * bytes :=
  match x with
  | Remove b => (str "remove", show_bool b)
  | PresharedKey k => (str "preshared_key", hex_encode k)
  | EndpointAt a => (str "endpoint", show_socket_addr a)
  | Keepalive z => (str "persistent_keepalive_interval", show_uint z)
  | ReplaceAllowedIps b => (str "replace_allowed_ips", show_bool b)
  | AllowedIpAt ip => (str "allowed_ip", show_allowed_ip ip)
  | ProtocolVersion => (str "protocol_version", show_uint 1)
  | NextPeer k => (str "public_key", hex_encode k)
  end.

Definition line_of (f : bytes * bytes) : bytes := field_line f.1 f.2.

Definition settings_text (l : list setting) : bytes := concat ((fun x => line_of (setting_field x)) <$> l).
Definition peers_text (l : list peer_setting) : bytes :=
  concat ((fun x => line_of (peer_setting_field x)) <$> l).

(** The lines after [set=1], with the blank line that ends them. *)
Definition config_text (cf : Configuration) : bytes :=
  settings_text (cf_settings cf)
  ++ match cf_peers cf with
     | Some (k, ps) => field_line (str "public_key") (hex_encode k) ++ peers_text ps
     | None => []
     end
  ++ [newline].
End Text.

(** ** Settings as events *)

(** The events of the settings from line [i] on. *)
Fixpoint setting_events (os : OsAnswers) (i : nat) (l : list setting) : list device_event :=
  match l with
  | [] => []
  | x :: l =>
      match x with
      | PrivateKey k => [EvSetKey k]
      | ListenPort port => [EvListen port (os_listen os i)]
      | Fwmark mark => [EvFwmark mark (os_mark os i)]
      | ReplacePeers b => if b then [EvClearPeers] else []
      end ++ setting_events os (S i) l
  end.

Definition section_event (sec : PeerSection) : device_event :=
  EvUpdatePeer (sec_public_key sec) (sec_remove sec) (sec_endpoint sec) (sec_allowed_ips sec)
    (sec_keepalive sec) (sec_preshared_key sec).

(** The events of a peer section and the ones after it. Only the allowed addresses
    are reset from one peer to the next. *)
Fixpoint section_events (sec : PeerSection) (l : list peer_setting) : list device_event :=
  let '(mkSection k rm rep ep ka psk ips) := sec in
  match l with
  | [] => [section_event sec]
  | x :: l =>
      match x with
      | Remove b => section_events (mkSection k b rep ep ka psk ips) l
      | PresharedKey b => section_events (mkSection k rm rep ep ka (Some b) ips) l
      | EndpointAt a => section_events (mkSection k rm rep (Some a) ka psk ips) l
      | Keepalive z => section_events (mkSection k rm rep ep (Some z) psk ips) l
      | ReplaceAllowedIps b => section_events (mkSection k rm b ep ka psk ips) l
      | AllowedIpAt ip => section_events (mkSection k rm rep ep ka psk (ips ++ [ip])) l
      | ProtocolVersion => section_events sec l
      | NextPeer b => section_event sec :: section_events (mkSection b rm rep ep ka psk []) l
      end
  end.

Definition config_events (os : OsAnswers) (cf : Configuration) : list device_event :=
  setting_events os 0 (cf_settings cf)
  ++ match cf_peers cf with
     | Some (k, ps) => section_events (section_new k) ps
     | None => []
     end.

(** The system opens every listening socket and sets every mark. *)
Definition os_willing (os : OsAnswers) : Prop :=
  (forall i, is_Some (os_listen os i)) /\ forall i, os_mark os i = true.

(** ** The text of settings is read back *)

Lemma addr_plain s : Forall addr_char s -> Forall plain s.
Proof. intros Hs. eapply Forall_impl; [exact Hs|]. intros b Hb%addr_char_range. unfold plain. lia. Qed.

Lemma hex_addr `{H : Hex} `{HL : !HexLaws H} b : Forall addr_char (hex_encode b).
Proof.
  induction b as [|x r IH]; [rewrite hex_encode_nil; constructor|]. rewrite hex_encode_cons.
  destruct (octet_halves x). repeat (constructor; [left; rewrite to_digit_digit by lia; eauto|]). exact IH.
Qed.

Lemma show_allowed_ip_plain ip : Forall plain (show_allowed_ip ip).
Proof.
  unfold show_allowed_ip. rewrite !Forall_app.
  split_and!; [apply addr_plain, show_ip_addr_chars|constructor; [by vm_compute|done]|apply addr_plain, show_uint_addr].
Qed.

Lemma show_socket_addr_plain a : Forall plain (show_socket_addr a).
Proof.
  destruct a as [ip p f z]. pose proof (addr_plain _ (show_ip_addr_chars ip)) as Hip.
  pose proof (addr_plain _ (show_uint_addr p)). pose proof (addr_plain _ (show_uint_addr z)).
  assert (plain colon /\ plain (ch 37) /\ plain (ch 91) /\ plain (ch 93)) as (H1 & H2 & H3 & H4) by (by vm_compute).
  unfold show_socket_addr. cbn [sa_ip sa_port sa_scope_id].
  destruct ip as [o|o]; cbn [show_ip_addr] in Hip; cbn [app].
  - apply Forall_app. split; [done|]. by apply Forall_cons_2.
  - apply Forall_cons_2; [done|]. apply Forall_app. split; [done|]. apply Forall_app.
    split; [destruct (z =? 0); [apply Forall_nil_2|by apply Forall_cons_2]|]. by repeat apply Forall_cons_2.
Qed.

(** What adding a peer leaves: the peer under a new reference, in every map. *)
Lemma update_peer_adds `{C : Crypto} `{E : Env} `{Eth : Ethereum} `{I : IpCrates} `{H : Hex}
    pub e allowed ka psk d w d' w' :
  update_peer pub false e allowed ka psk d w = Ret (d', w') ->
  exists p, peers d' = <[pub := next_ref d]> (peers d) /\ heap d' = <[next_ref d := p]> (heap d)
    /\ next_ref d' = S (next_ref d) /\ key_pair d' = key_pair d /\ listen_port d' = listen_port d
    /\ ep_addr (endpoint p) = e /\ peer_preshared_key p = psk
    /\ quota p = Some (quota_new DEFAULT_QUOTA_BYTES)
    /\ allowed_ips_from_iter ((fun ip => (ip, tt)) <$> allowed) = Ret (peer_allowed_ips p)
    /\ insert_all ((fun ip => (ip, next_ref d)) <$> allowed) (peers_by_ip d) = Ret (peers_by_ip d').
Proof.
  unfold update_peer. destruct (peers d !! pub); [done|]. intros Hu.
  apply bind_Ret_inv in Hu as ([index l] & _ & Hu). apply bind_Ret_inv in Hu as ([sk pk] & _ & Hu).
  destruct (tunn_new sk pub psk ka index None w) as [t w1]. unfold peer_new in Hu.
  destruct (allowed_ips_from_iter _) as [ips|] eqn:Eips; [|done]. cbn [outcome_bind alloc_peer] in Hu.
  apply bind_Ret_inv in Hu as (ips' & Eins & Hu). apply (inj Ret), pair_equal_spec in Hu as [<- _].
  eexists. split_and!; try done; cbn in *; done.
Qed.

(** A property of each byte of a literal. *)
Ltac name_ok :=
  match goal with |- Forall _ (str _) => repeat apply Forall_cons_2; try apply Forall_nil_2; by vm_compute end.

(** Decides the comparisons of a key with the names of the protocol. *)
Ltac decide_names :=
  repeat match goal with
  | |- context [bool_decide (str ?a = str ?b)] =>
      let v := eval vm_compute in (bool_decide (str a = str b)) in
      rewrite (_ : bool_decide (str a = str b) = v) by (vm_compute; reflexivity)
  end.

Section Requests.
Context `{C : Crypto} `{E : Env} `{Eth : Ethereum} `{I : IpCrates} `{H : Hex} `{HL : !HexLaws H} `{B : Base64}.
Context (from_json : bytes -> result bytes SettleResponse).

(** The events of a configuration one after the other; they send nothing. *)
Fixpoint config_run (evs : list device_event) (d : Device) (w : World) : outcome (Device * World) :=
  match evs with
  | [] => Ret (d, w)
  | ev :: evs => let! (_, d, w) := device_step from_json ev d w in config_run evs d w
  end.

Lemma config_run_app l1 l2 d w :
  config_run (l1 ++ l2) d w = let! (d, w) := config_run l1 d w in config_run l2 d w.
Proof.
  revert d w. induction l1 as [|ev l1 IH]; intros d w; [done|]. cbn [app config_run].
  destruct (device_step from_json ev d w) as [[[? ?] ?]|]; [apply IH|done].
Qed.

Lemma parse_show_bool b : parse_bool (show_bool b) = Some b.
Proof. by destruct b. Qed.

(** The key and the value of a line, as the loops split them. *)
Definition field_ok (f : bytes * bytes) : Prop :=
  Forall plain f.1 /\ Forall plain f.2 /\ Forall (fun b => b <> equals) f.1 /\ f.1 <> [].

Lemma show_bool_addr b : Forall plain (show_bool b) /\ Forall (fun c => c <> equals) (show_bool b).
Proof. destruct b; split; cbn [show_bool]; name_ok. Qed.

Lemma no_equals s : Forall addr_char s -> Forall (fun c => c <> equals) s.
Proof. intros Hs. apply addr_no; [done|]. right. right. left. by vm_compute. Qed.

Lemma setting_field_ok x :
  field_ok (setting_field x) /\ Forall (fun b => b <> equals) (setting_field x).2.
Proof.
  unfold field_ok.
  destruct x as [k|port|mark|b]; cbn [setting_field fst snd];
    [pose proof (hex_addr k) as Ha|pose proof (show_uint_addr port) as Ha
    |pose proof (show_uint_addr mark) as Ha|pose proof (show_bool_addr b) as [Hp Hn]];
    split_and!; try name_ok; try done; (by apply addr_plain) || by apply no_equals.
Qed.

Lemma peer_setting_field_ok x : field_ok (peer_setting_field x).
Proof.
  unfold field_ok.
  destruct x as [b|k|a|z|b|ip| |k]; cbn [peer_setting_field fst snd];
    (split_and!; [name_ok| |name_ok|done]); try apply show_bool_addr; try apply addr_plain, hex_addr.
  - apply show_socket_addr_plain.
  - apply addr_plain, show_uint_addr.
  - apply show_allowed_ip_plain.
  - apply addr_plain, show_uint_addr.
Qed.

Lemma line_read f t br :
  field_ok f -> read_line (mkStream (line_of f ++ t) br) = (Some ((f.1 ++ equals :: f.2) ++ [newline]), mkStream t br)
  /\ bool_decide (f.1 ++ equals :: f.2 = []) = false /\ splitn2 equals (f.1 ++ equals :: f.2) = [f.1; f.2].
Proof.
  intros (H1 & H2 & H3 & H4). split_and!.
  - unfold line_of, field_line. cbn [app].
    rewrite <- !app_assoc. cbn [app]. rewrite <- app_assoc. cbn [app].
    assert (Forall plain (f.1 ++ equals :: f.2)) as Hp.
    { apply Forall_app. split; [done|]. apply Forall_cons_2; [by vm_compute|done]. }
    pose proof (read_line_app _ t br Hp) as Hr. rewrite <- !app_assoc in Hr. exact Hr.
  - apply bool_decide_eq_false_2. by destruct f.1.
  - by apply splitn2_app.
Qed.

(** What a setting does. *)
Lemma setting_command os i x d w :
  setting_ok x -> os_willing os ->
  set_command os i (setting_field x).1 (setting_field x).2 d w
  = let! (d, w) := config_run (setting_events os i [x]) d w in Ret (SetNext, d, w).
Proof.
  intros Hx [Hl Hm]. unfold set_command.
  destruct x as [k|port|mark|b]; cbn [setting_field fst snd setting_ok setting_events app] in *; decide_names;
    cbn [config_run device_step].
  - rewrite key_from_hex by done. cbn [outcome_bind]. by destruct (set_key k d w) as [[? ?]|].
  - rewrite (parse_show 16) by (done || lia). unfold open_listen_socket. destruct (Hl i) as [bound ->].
    by destruct (shutdown_all _ _).
  - rewrite (parse_show 32) by (done || lia). unfold set_fwmark. by rewrite Hm.
  - rewrite parse_show_bool. by destruct b.
Qed.

Lemma public_key_command os i k d w :
  length k = 32%nat -> set_command os i (str "public_key") (hex_encode k) d w = Ret (SetPeer k, d, w).
Proof. intros Hk. unfold set_command. decide_names. by rewrite key_from_hex. Qed.

(** The settings at the start of a request. *)
Lemma settings_read os l fuel i t br d w :
  Forall setting_ok l -> os_willing os ->
  api_set_loop os (length l + fuel) i (mkStream (settings_text l ++ t) br) d w
  = let! (d, w) := config_run (setting_events os i l) d w in
    api_set_loop os fuel (length l + i) (mkStream t br) d w.
Proof.
  intros Hl Hos. revert i d w. induction Hl as [|x l Hx Hl IH]; intros i d w; [done|].
  destruct (setting_field_ok x) as [Hf Hv]. unfold settings_text. rewrite fmap_cons. cbn [concat].
  rewrite <- app_assoc. fold (settings_text l). cbn [length Nat.add api_set_loop].
  destruct (line_read (setting_field x) (settings_text l ++ t) br Hf) as (-> & Hne & _).
  rewrite pop_newline, Hne. destruct Hf as (_ & _ & Hk & _).
  rewrite split_on_app, split_on_none, setting_command by done.
  change (x :: l) with ([x] ++ l).
  assert (setting_events os i ([x] ++ l) = setting_events os i [x] ++ setting_events os (S i) l) as ->
    by (cbn [app setting_events]; by rewrite app_nil_r).
  rewrite config_run_app. destruct (config_run (setting_events os i [x]) d w) as [[d1 w1]|]; [|done].
  cbn [outcome_bind]. rewrite IH. by rewrite Nat.add_succ_r.
Qed.

(** The section after a setting, and the events that it commits. *)
Definition section_step (x : peer_setting) (sec : PeerSection) : PeerSection :=
  let '(mkSection k rm rep ep ka psk ips) := sec in
  match x with
  | Remove b => mkSection k b rep ep ka psk ips
  | PresharedKey b => mkSection k rm rep ep ka (Some b) ips
  | EndpointAt a => mkSection k rm rep (Some a) ka psk ips
  | Keepalive z => mkSection k rm rep ep (Some z) psk ips
  | ReplaceAllowedIps b => mkSection k rm b ep ka psk ips
  | AllowedIpAt ip => mkSection k rm rep ep ka psk (ips ++ [ip])
  | ProtocolVersion => sec
  | NextPeer b => mkSection b rm rep ep ka psk []
  end.

Definition step_events (x : peer_setting) (sec : PeerSection) : list device_event :=
  match x with NextPeer _ => [section_event sec] | _ => [] end.

Lemma section_events_cons sec x l :
  section_events sec (x :: l) = step_events x sec ++ section_events (section_step x sec) l.
Proof. by destruct sec, x. Qed.

Lemma section_events_nil sec : section_events sec [] = [section_event sec].
Proof. by destruct sec. Qed.

Lemma commit_event sec d w :
  commit_section sec d w = config_run [section_event sec] d w.
Proof.
  unfold commit_section, section_event. cbn [config_run device_step].
  by destruct (update_peer _ _ _ _ _ _ _ _) as [[? ?]|].
Qed.

Lemma peer_setting_command x sec d w :
  peer_setting_ok x ->
  peer_command (peer_setting_field x).1 (peer_setting_field x).2 sec d w
  = let! (d, w) := config_run (step_events x sec) d w in Ret (None, section_step x sec, d, w).
Proof.
  intros Hx. destruct sec as [k rm rep ep ka psk ips]. unfold peer_command.
  destruct x as [b|b|a|z|b|ip| |b]; cbn [peer_setting_field fst snd peer_setting_ok step_events section_step] in *;
    decide_names.
  - by rewrite parse_show_bool.
  - by rewrite key_from_hex.
  - by rewrite parse_show_socket_addr.
  - by rewrite (parse_show 16).
  - by rewrite parse_show_bool.
  - destruct Hx. by rewrite allowed_ip_read_back.
  - by rewrite (parse_show 32).
  - rewrite commit_event. destruct (config_run _ _ _) as [[d1 w1]|]; [|done]. cbn [outcome_bind].
    by rewrite key_from_hex.
Qed.

Lemma sections_read l fuel sec t br d w :
  Forall peer_setting_ok l ->
  api_set_peer (S (length l + fuel)) sec (mkStream (peers_text l ++ newline :: t) br) d w
  = let! (d, w) := config_run (section_events sec l) d w in Ret (Some (0, d, w)).
Proof.
  intros Hl. revert sec d w. induction Hl as [|x l Hx Hl IH]; intros sec d w.
  - rewrite section_events_nil, <- commit_event. cbn [peers_text fmap list_fmap concat app length api_set_peer].
    by rewrite read_blank.
  - unfold peers_text. rewrite fmap_cons. cbn [concat]. rewrite <- app_assoc. fold (peers_text l).
    rewrite section_events_cons, config_run_app.
    cbn [length Nat.add]. cbn [api_set_peer]. pose proof (peer_setting_field_ok x) as Hf.
    destruct (line_read _ (peers_text l ++ newline :: t) br Hf) as (-> & Hne & Hsp).
    rewrite pop_newline, Hne, Hsp, peer_setting_command by done.
    destruct (config_run (step_events x sec) d w) as [[d1 w1]|]; [|done]. cbn [outcome_bind].
    exact (IH (section_step x sec) d1 w1).
Qed.

Lemma settings_text_length l : Forall setting_ok l -> (length l <= length (settings_text l))%nat.
Proof.
  induction 1 as [|x l _ _ IH]; [done|]. unfold settings_text in *. rewrite fmap_cons. cbn [concat length].
  unfold line_of at 1, field_line. rewrite !length_app. cbn [length]. lia.
Qed.

Lemma peers_text_length l : (length l <= length (peers_text l))%nat.
Proof.
  induction l as [|x l IH]; [done|]. unfold peers_text in *. rewrite fmap_cons. cbn [concat length].
  unfold line_of at 1, field_line. rewrite !length_app. cbn [length]. lia.
Qed.

(** A request is the run of its events. *)
Lemma config_read os cf t br d w :
  config_ok cf -> os_willing os ->
  api_set os (mkStream (config_text cf ++ t) br) d w
  = let! (d, w) := config_run (config_events os cf) d w in Ret (0, d, w).
Proof.
  destruct cf as [ss ps]. intros [Hs Hp] Hos. cbn [cf_settings cf_peers] in *.
  unfold api_set, config_text, config_events, enough_fuel. cbn [cf_settings cf_peers pending].
  rewrite config_run_app, <- !app_assoc. pose proof (settings_text_length ss Hs) as Hls.
  set (u := (match ps with Some _ => _ | None => [] end) ++ [newline] ++ t).
  replace (S (length (settings_text ss ++ u)))
    with (length ss + S (length (settings_text ss ++ u) - length ss))%nat by (rewrite length_app; lia).
  rewrite settings_read by done. destruct (config_run (setting_events os 0 ss) d w) as [[d1 w1]|]; [|done].
  cbn [outcome_bind]. assert (length u <= length (settings_text ss ++ u) - length ss)%nat as Hlu
    by (rewrite length_app; lia).
  set (f := (length (settings_text ss ++ u) - length ss)%nat) in *. clearbody f.
  destruct ps as [[k l]|]; cbn [api_set_loop].
  - destruct Hp as [Hk Hl]. pose proof (peers_text_length l).
    pose proof (peer_setting_field_ok (NextPeer k)) as Hf.
    assert (Forall (fun b => b <> equals) (hex_encode k)) as Hv by apply no_equals, hex_addr.
    unfold u in *. rewrite <- !app_assoc in *.
    destruct (line_read (str "public_key", hex_encode k) (peers_text l ++ [newline] ++ t) br Hf)
      as (Hr & Hne & _).
    unfold line_of in Hr. cbn [fst snd] in Hr, Hne. rewrite Hr, pop_newline, Hne.
    destruct Hf as (_ & _ & Hkk & _). cbn [fst peer_setting_field] in Hkk.
    rewrite split_on_app, split_on_none by done. cbv beta iota. rewrite public_key_command by done.
    cbn [outcome_bind app].
    rewrite !length_app in Hlu. cbn [length] in Hlu.
    replace f with (S (length l + (f - S (length l))))%nat by lia. rewrite sections_read by done.
    by destruct (config_run _ _ _) as [[? ?]|].
  - unfold u. cbn [app]. by rewrite read_blank.
Qed.

(** A [set=1] connection is its [api_set]. *)
Lemma set_command_read os order t br d w :
  api_handler os order (mkStream (str "set=1" ++ newline :: t) br) d w
  = let! (status, d, w) := api_set os (mkStream t br) d w in Ret (Continue, errno_lines status, d, w).
Proof.
  unfold api_handler. rewrite read_line_app by name_ok. unfold api_command. rewrite pop_newline. decide_names.
  by destruct (api_set os (mkStream t br) d w) as [[[? ?] ?]|].
Qed.


Definition setting_names : list bytes :=
  [str "private_key"; str "listen_port"; str "fwmark"; str "replace_peers"; str "public_key"].

(** A request is not a transaction: when a line cannot be split into a key and a
    value, or has an unknown key, the request is answered [EPROTO] or [EINVAL] with
    the settings before that line already in force. *)
Theorem api_set_partial os ss line t br d w
    (Hss : Forall setting_ok ss) (Hos : os_willing os) (Hline : Forall plain line) (Hne : line <> [])
    (Hbad : length (split_on equals line) <> 2%nat \/
            exists key val, split_on equals line = [key; val]
              /\ Forall (fun name => key <> name) setting_names) :
  exists status, status <> 0 /\
    api_set os (mkStream (settings_text ss ++ line ++ newline :: t) br) d w
    = let! (d, w) := config_run (setting_events os 0 ss) d w in Ret (status, d, w).
Proof.
  unfold api_set, enough_fuel. cbn [pending]. pose proof (settings_text_length ss Hss) as Hl.
  set (u := line ++ newline :: t).
  replace (S (length (settings_text ss ++ u)))
    with (length ss + S (length (settings_text ss ++ u) - length ss))%nat by (rewrite length_app; lia).
  rewrite settings_read by done. set (f := (_ - _)%nat). clearbody f. unfold u. cbn [api_set_loop].
  rewrite read_line_app, pop_newline, bool_decide_eq_false_2 by done.
  destruct Hbad as [Hbad|(key & val & -> & Hk)].
  - exists EPROTO. split; [done|]. destruct (config_run _ d w) as [[d1 w1]|]; [|done]. cbn [outcome_bind].
    by destruct (split_on equals line) as [|? [|? [|? ?]]].
  - exists EINVAL. split; [done|]. destruct (config_run _ d w) as [[d1 w1]|]; [|done]. cbn [outcome_bind].
    unfold set_command. unfold setting_names in Hk. rewrite !Forall_cons in Hk. destruct Hk as (H1 & H2 & H3 & H4 & H5 & _).
    by rewrite !bool_decide_eq_false_2.
Qed.

(** The options of a peer are carried over to the next one in the same request:
    a second peer for which no preshared key is given gets the key of the first. *)
Theorem peer_options_carry os order k1 k2 psk ip1 ip2 t br d w out d' w'
    (Hk1 : length k1 = 32%nat) (Hk2 : length k2 = 32%nat) (Hpsk : length psk = 32%nat)
    (Hip1 : ip_ok (addr ip1) /\ wf_allowed_ip ip1) (Hip2 : ip_ok (addr ip2) /\ wf_allowed_ip ip2)
    (Hos : os_willing os)
    (Hrun : api_handler os order
       (mkStream (str "set=1" ++ newline ::
          config_text (mkConfiguration [] (Some (k1, [PresharedKey psk; AllowedIpAt ip1;
                                                      NextPeer k2; AllowedIpAt ip2]))) ++ t) br) d w
     = Ret (Continue, out, d', w')) :
  exists r p, peers d' !! k2 = Some r /\ heap d' !! r = Some p /\ peer_preshared_key p = Some psk.
Proof.
  set (cf := mkConfiguration _ _) in Hrun. assert (config_ok cf) as Hcf.
  { split; cbn; [constructor|]. split; [done|]. by repeat (apply Forall_cons_2; [done|]). }
  rewrite set_command_read, config_read in Hrun by done.
  cbn [cf config_events cf_settings cf_peers setting_events section_events section_new section_event app
       config_run device_step sec_public_key sec_remove sec_endpoint sec_allowed_ips sec_keepalive
       sec_preshared_key] in Hrun.
  destruct (update_peer k1 _ _ _ _ _ d w) as [[d1 w1]|]; [|done]. cbn [outcome_bind] in Hrun.
  destruct (update_peer k2 _ _ _ _ _ d1 w1) as [[d2 w2]|] eqn:E2; [|done]. cbn [outcome_bind] in Hrun.
  apply (inj Ret) in Hrun. simplify_eq. apply update_peer_adds in E2 as (p & -> & -> & _ & _ & _ & _ & Hp & _).
  exists (next_ref d1), p. by simplify_map_eq.
Qed.
End Requests.

(** ** Keys *)

(** Keys are read back from both encodings of the protocol. *)
Theorem key_text_round_trip `{H : Hex} `{HL : !HexLaws H} `{B : Base64} `{BL : !Base64Laws B}
    k (Hk : length k = 32%nat) :
  key_from_str (hex_encode k) = Ret (Ok k) /\ key_from_str (base64_encode k) = Ret (Ok k).
Proof.
  split; [by apply key_from_hex|]. unfold key_from_str.
  rewrite base64_encode_length, Hk, base64_decode_encode. by rewrite Hk.
Qed.

(** A key of 43 or 44 characters that is not base64 is not refused: it is read as
    the all-zero key. *)
Theorem undecodable_key_is_zero `{B : Base64} s
    (Hl : length s = 43%nat \/ length s = 44%nat) (Hd : base64_decode s = None) :
  key_from_str s = Ret (Ok (zeros 32)).
Proof. unfold key_from_str. rewrite Hd. by destruct Hl as [-> | ->]. Qed.

(** A key of 64 bytes with a character across two pairs of bytes panics the
    thread that reads it. *)
Theorem misaligned_key_panics `{B : Base64} s b
    (Hl : length s = 64%nat) (Hb : s !! 2%nat = Some b) (Hc : is_continuation b = true) :
  key_from_str s = Panic.
Proof.
  unfold key_from_str. rewrite Hl. cbn [bool_decide]. rewrite bool_decide_eq_true_2 by done. cbn [hex_key].
  unfold str_slice. cbn [Nat.mul Nat.add is_char_boundary]. rewrite Hb, Hc. by rewrite andb_false_r.
Qed.

(** ** Examples *)

#[local] Existing Instance toy_crypto.
#[local] Existing Instance toy_laws.
#[local] Existing Instance example_env.
#[local] Existing Instance toy_ethereum.
#[local] Existing Instance toy_ip.
#[local] Existing Instance toy_hex.
#[local] Existing Instance toy_hex_laws.
#[local] Existing Instance toy_base64.
#[local] Existing Instance toy_base64_laws.

Definition example_os : OsAnswers := mkOs (fun _ => Some 51820) (fun _ => true).

Lemma example_os_willing : os_willing example_os.
Proof. split; [intros i; eauto|done]. Qed.

Definition example_ip (last : byte) : AllowedIP := mkAllowedIP (V4 [x0a; x00; x00; last]) 32.

(** A key, a port, and a peer. *)
Definition example_config : Configuration :=
  mkConfiguration [PrivateKey (replicate 32 x05); ListenPort 51820]
    (Some (replicate 32 x07, [AllowedIpAt (example_ip x02); Keepalive 25])).

Lemma example_config_ok : config_ok example_config.
Proof.
  split; cbn; [repeat (apply Forall_cons_2; [ground|]); apply Forall_nil_2|].
  split; [done|]. repeat (apply Forall_cons_2; [ground|]). apply Forall_nil_2.
Qed.

Definition example_configured : outcome (unit * Device * World) :=
  let! (d, w) := example_start true in
  let! (d, w) := config_run example_from_json (config_events example_os example_config) d w in
  Ret (tt, d, w).


Lemma example_starts : exists d w, example_start true = Ret (d, w).
Proof.
  destruct (ends_ret (fun _ => true) (let! (d, w) := example_start true in Ret (tt, d, w))) as (u & d & w & Hs & _);
    [by vm_compute|].
  exists d, w. destruct (example_start true) as [[d1 w1]|]; [|done]. cbn [outcome_bind] in Hs. by simplify_eq.
Qed.

Lemma api_set_terminates_witness :
  exists d w, example_start true = Ret (d, w) /\ api_set_loop example_os (enough_fuel (mkStream (config_text example_config) false)) 0
                (mkStream (config_text example_config) false) d w <> Ret None.
Proof.
  destruct example_starts as (d & w & Hs). exists d, w. split; [exact Hs|].
  exact (proj1 (api_set_terminates example_os (mkStream (config_text example_config) false) d w)).
Defined.

Lemma key_text_round_trip_witness :
  key_from_str (hex_encode (replicate 32 x07)) = Ret (Ok (replicate 32 x07))
  /\ key_from_str (base64_encode (replicate 32 x07)) = Ret (Ok (replicate 32 x07)).
Proof. exact (key_text_round_trip (replicate 32 x07) eq_refl). Defined.

Lemma undecodable_key_is_zero_witness : key_from_str (replicate 43 (ch 42)) = Ret (Ok (zeros 32)).
Proof. apply (undecodable_key_is_zero (replicate 43 (ch 42))); [by left|by vm_compute]. Defined.

(** Sixty-two letters around a two-byte character that starts at an odd place. *)
Definition example_misaligned : bytes := [x61; xc3; xa9] ++ replicate 61 x61.

Lemma misaligned_key_panics_witness :
  is_utf8 example_misaligned = true /\ key_from_str example_misaligned = Panic.
Proof. split; [by vm_compute|]. apply (misaligned_key_panics example_misaligned xa9); by vm_compute. Defined.

Lemma api_handler_continues os order s d w a out d' w' :
  api_handler os order s d w = Ret (a, out, d', w') -> a = Continue.
Proof.
  unfold api_handler. destruct (read_line s) as [[cmd|] s']; [|by intros [= <- _ _ _]].
  destruct (api_command os order cmd s' d w) as [[[? ?] ?]|]; [|done]. cbn [outcome_bind]. by intros [= <- _ _ _].
Qed.

(** Two peers, the first with a preshared key. *)
Definition example_two_peers : Stream :=
  mkStream (str "set=1" ++ newline ::
    config_text (mkConfiguration [] (Some (replicate 32 x07,
      [PresharedKey (replicate 32 x09); AllowedIpAt (example_ip x02);
       NextPeer (replicate 32 x08); AllowedIpAt (example_ip x03)]))) ++ []) false.

Definition example_carried : outcome (Action * bytes * Device * World) :=
  let! (_, d, w) := example_keyed true in api_handler example_os [] example_two_peers d w.

Lemma peer_options_carry_witness :
  exists x d' w', example_carried = Ret (x, d', w')
    /\ exists r p, peers d' !! replicate 32 x08 = Some r /\ heap d' !! r = Some p
         /\ peer_preshared_key p = Some (replicate 32 x09).
Proof.
  destruct (ends_ret keyed example_carried) as ([a out] & d' & w' & Hrun & _); [by vm_compute|].
  exists (a, out), d', w'. split; [exact Hrun|].
  unfold example_carried in Hrun. destruct (example_keyed true) as [[[es d] w]|]; [|done].
  cbn [outcome_bind] in Hrun. pose proof (api_handler_continues _ _ _ _ _ _ _ _ _ Hrun) as ->.
  refine (peer_options_carry example_from_json example_os [] (replicate 32 x07) (replicate 32 x08) (replicate 32 x09)
            (example_ip x02) (example_ip x03) [] false d w out d' w' eq_refl eq_refl eq_refl _ _ example_os_willing Hrun);
    ground.
Defined.

Lemma api_set_partial_witness :
  exists d w, example_start true = Ret (d, w) /\ exists status, status <> 0 /\
    api_set example_os (mkStream (settings_text [ListenPort 51820] ++ str "mtu=1420" ++ newline :: []) false) d w
    = let! (d, w) := config_run example_from_json (setting_events example_os 0 [ListenPort 51820]) d w in
      Ret (status, d, w).
Proof.
  destruct example_starts as (d & w & Hs). exists d, w. split; [exact Hs|].
  apply (api_set_partial example_from_json example_os [ListenPort 51820] (str "mtu=1420")).
  - repeat (apply Forall_cons_2; [ground|]). apply Forall_nil_2.
  - exact example_os_willing.
  - name_ok.
  - discriminate.
  - right. exists (str "mtu"), (str "1420"). split; [by vm_compute|].
    repeat (apply Forall_cons_2; [discriminate|]). apply Forall_nil_2.
Defined.
