(* ===== verification/RegistrationReport.v ===== *)
(** * The report of the device, read by the registration server

    [get=1] prints the state of the device field by field; the server reads the
    lines back into its table of handshake ages. The two ends agree. *)

From Stdlib Require Import ZArith Lia.
From Stdlib Require Strings.String.
From stdpp Require Import base numbers list option gmap.
From S2P Require Import Prelude Clock Packet Crypto Session Handshake RateLimiter Tunnel TunnelRuns IndexLfsr Quota PaymentProtocol RustText Json NetText Utf8 Serialization Eip3009 Settlement AllowedIps Device DeviceHandlers Api Registration RegistrationRuns DeviceTotal DeviceRuns ApiRuns.

Import Stdlib.Strings.String.StringSyntax.

(** ** Reports as lists of fields *)

Definition fields_text (fs : list (bytes * bytes)) : bytes := concat (line_of <$> fs).

Lemma fields_text_app fs gs : fields_text (fs ++ gs) = fields_text fs ++ fields_text gs.
Proof. unfold fields_text. by rewrite fmap_app, concat_app. Qed.

Definition opt_field {A} (key : bytes) (show : A -> bytes) (v : option A) : list (bytes * bytes) :=
  match v with Some v => [(key, show v)] | None => [] end.

Lemma opt_line_field {A} key (show : A -> bytes) v : opt_line key show v = fields_text (opt_field key show v).
Proof. destruct v; [|done]. cbn. by rewrite app_nil_r. Qed.

Lemma fields_text_cons f fs : fields_text (f :: fs) = field_line f.1 f.2 ++ fields_text fs.
Proof. done. Qed.

Lemma lines_of_line f fuel t :
  field_ok f ->
  lines (S fuel) (mkStream (line_of f ++ t) false)
  = Some (f.1 ++ equals :: f.2) :: lines fuel (mkStream t false).
Proof.
  intros Hf. destruct (line_read f t false Hf) as (Hr & Hne & _). cbn [lines]. rewrite Hr.
  assert (strip_eol ((f.1 ++ equals :: f.2) ++ [newline]) = f.1 ++ equals :: f.2) as Hs.
  { unfold strip_eol. rewrite reverse_app. change (reverse [newline]) with [newline]. cbn [app]. rewrite bool_decide_eq_true_2 by done.
    destruct (reverse (f.1 ++ equals :: f.2)) as [|c r] eqn:E.
    - apply (f_equal reverse) in E. by rewrite reverse_involutive in E.
    - destruct (Z.eqb_spec (u8 c) 13) as [Hc|]; [exfalso|by rewrite <- E, reverse_involutive].
      destruct Hf as (H1 & H2 & _). assert (Forall plain (f.1 ++ equals :: f.2)) as Hp.
      { apply Forall_app. split; [done|]. apply Forall_cons_2; [by vm_compute|done]. }
      assert (plain c) as Hpc; [|unfold plain in Hpc; lia].
      apply Forall_reverse in Hp. rewrite E in Hp. by inversion Hp. }
  destruct ((f.1 ++ equals :: f.2) ++ [newline]) eqn:E; [by destruct f.1|]. by rewrite Hs.
Qed.

(** A line of the report is not taken for the end of it. *)
Lemma not_errno f : field_ok f -> f.1 <> str "errno" -> strip_prefix (str "errno=") (f.1 ++ equals :: f.2) = None.
Proof.
  intros (_ & _ & Hk & _) Hne. unfold strip_prefix. case_bool_decide as Ht; [exfalso|done].
  apply Hne. pose proof (splitn2_app equals f.1 f.2 Hk) as H1.
  rewrite <- (take_drop 6 (f.1 ++ equals :: f.2)) in H1. change (length (str "errno=")) with 6%nat in Ht.
  rewrite Ht in H1. change (str "errno=" ++ drop 6 (f.1 ++ equals :: f.2))
    with (str "errno" ++ equals :: drop 6 (f.1 ++ equals :: f.2)) in H1.
  rewrite splitn2_app in H1 by name_ok. congruence.
Qed.

Section Reports.
Context `{H : Hex} `{HL : !HexLaws H} `{B : Base64}.

Definition report_fields (fs : list (bytes * bytes)) (r : Report) : Report :=
  foldl (fun r f => report_field f.1 f.2 r) r fs.

Definition report_ok (f : bytes * bytes) : Prop := field_ok f /\ f.1 <> str "errno".

Lemma report_lines_fields fs fuel t r :
  Forall report_ok fs ->
  report_lines (lines (length fs + fuel) (mkStream (fields_text fs ++ t) false)) r
  = report_lines (lines fuel (mkStream t false)) (report_fields fs r).
Proof.
  intros Hfs. revert r. induction Hfs as [|f fs [Hf Hne] _ IH]; intros r; [done|].
  unfold fields_text. rewrite fmap_cons. cbn [concat]. rewrite <- app_assoc. fold (fields_text fs).
  cbn [length Nat.add]. rewrite lines_of_line by done. cbn [report_lines].
  destruct (line_read f [] false Hf) as (_ & Hnil & Hsp). rewrite Hnil, not_errno, Hsp by done. apply IH.
Qed.

(** The whole answer: the fields, and then the error number. *)
Lemma report_answer fs r :
  Forall report_ok fs ->
  let answer := mkStream (fields_text fs ++ errno_lines 0) false in
  report_lines (lines (enough_fuel answer) answer) r = Some (flush_report (report_fields fs r)).
Proof.
  intros Hfs answer. unfold answer, enough_fuel. cbn [pending].
  assert (length fs <= length (fields_text fs))%nat as Hl.
  { clear. induction fs as [|f fs IH]; [done|]. unfold fields_text in *. rewrite fmap_cons. cbn [concat length].
    unfold line_of at 1, field_line. rewrite !length_app. cbn [length]. lia. }
  replace (S (length (fields_text fs ++ errno_lines 0)))
    with (length fs + S (S (length (fields_text fs ++ errno_lines 0) - length fs - 1)))%nat
    by (rewrite length_app; change (length (errno_lines 0)) with 9%nat; lia).
  rewrite report_lines_fields by done. by cbn.
Qed.
End Reports.

(** ** What [get=1] prints *)

(** A field with a literal key, and one that the server skips. *)
Ltac plain_field :=
  split; [unfold field_ok; cbn [fst snd]; split_and!; [name_ok| |name_ok|done]|done].
Ltac ignore := let r0 := fresh in intros r0; unfold report_field; cbn [fst snd]; decide_names; done.

Section GetFields.
Context `{C : Crypto} `{CL : !CryptoLaws C} `{E : Env} `{MC : !MonotoneClock E}.
Context `{Eth : Ethereum} `{I : IpCrates} `{H : Hex} `{HL : !HexLaws H} `{B : Base64}.

Definition quota_fields (q : BandwidthQuota) : list (bytes * bytes) :=
  [(str "quota_remaining", show_uint (remaining_bytes q)); (str "quota_blocked", show_bool (is_blocked q));
   (str "quota_total_consumed", show_uint (total_consumed q));
   (str "quota_payment_count", show_uint (payment_count q))].

Definition tail_fields (p : Peer) : list (bytes * bytes) :=
  [(str "rx_bytes", show_uint (rx_bytes (tunnel p))); (str "tx_bytes", show_uint (tx_bytes (tunnel p)))]
  ++ match quota p with Some q => quota_fields q | None => [] end.

Definition head_fields (p : Peer) : list (bytes * bytes) :=
  opt_field (str "preshared_key") hex_encode (peer_preshared_key p)
  ++ opt_field (str "persistent_keepalive_interval") show_uint (persistent_keepalive (tunnel p))
  ++ opt_field (str "endpoint") show_socket_addr (ep_addr (endpoint p))
  ++ ((fun '(ip, c) => (str "allowed_ip", show_allowed_ip (mkAllowedIP ip c))) <$> peer_ips p).

Definition peer_fields (k : bytes) (p : Peer) (time : option Duration) : list (bytes * bytes) :=
  (str "public_key", hex_encode k) :: head_fields p
  ++ opt_field (str "last_handshake_time_sec") (fun t => show_uint (as_secs t)) time
  ++ opt_field (str "last_handshake_time_nsec") (fun t => show_uint (subsec_nanos t)) time
  ++ tail_fields p.

Lemma quota_lines_fields q : quota_lines q = fields_text (quota_fields q).
Proof. unfold quota_lines, fields_text. cbn [quota_fields fmap list_fmap concat]. by rewrite app_nil_r. Qed.

Lemma allowed_lines (l : list (IpAddr * Z)) :
  concat ((fun '(ip, c) => field_line (str "allowed_ip") (show_allowed_ip (mkAllowedIP ip c))) <$> l)
  = fields_text ((fun '(ip, c) => (str "allowed_ip", show_allowed_ip (mkAllowedIP ip c))) <$> l).
Proof.
  unfold fields_text. rewrite <- list_fmap_compose. f_equal. apply list_fmap_ext. by intros _ [ip c] _.
Qed.

Lemma get_peer_fields k p w :
  get_peer k p w
  = let! (time, w) := time_since_last_handshake (tunnel p) w in
    let! (_, w) := time_since_last_handshake (tunnel p) w in
    Ret (fields_text (peer_fields k p time), w).
Proof.
  unfold get_peer, stats. destruct (time_since_last_handshake (tunnel p) w) as [[time w1]|]; [|done].
  cbn [outcome_bind]. destruct (time_since_last_handshake (tunnel p) w1) as [[time2 w2]|]; [|done].
  cbn [outcome_bind]. do 2 f_equal. unfold peer_fields, head_fields, tail_fields.
  rewrite fields_text_cons, !fields_text_app, !fields_text_cons, allowed_lines, !opt_line_field.
  cbn [fst snd fields_text fmap list_fmap concat]. rewrite app_nil_r, <- !app_assoc. do 9 f_equal.
  destruct (quota p); [apply quota_lines_fields|done].
Qed.

Lemma show_uint_plain z : Forall plain (show_uint z).
Proof. apply addr_plain, show_uint_addr. Qed.

Lemma opt_field_ok {A} key (show : A -> bytes) v :
  (forall x, Forall plain (show x)) -> (forall y, Forall plain y -> report_ok (key, y)) ->
  Forall report_ok (opt_field key show v).
Proof. intros Hs Hk. destruct v; constructor; [apply Hk, Hs|constructor]. Qed.

Lemma peer_fields_ok k p time : Forall report_ok (peer_fields k p time).
Proof.
  unfold peer_fields, head_fields, tail_fields. apply Forall_cons_2; [plain_field; apply addr_plain, hex_addr|].
  rewrite !Forall_app. split_and!.
  - apply opt_field_ok; [intros; apply addr_plain, hex_addr|]. intros y Hy. plain_field. exact Hy.
  - apply opt_field_ok; [apply show_uint_plain|]. intros y Hy. plain_field. exact Hy.
  - apply opt_field_ok; [apply show_socket_addr_plain|]. intros y Hy. plain_field. exact Hy.
  - apply Forall_fmap, Forall_true. intros [ip c]. unfold compose. cbv beta iota. plain_field. apply show_allowed_ip_plain.
  - apply opt_field_ok; [intros; apply show_uint_plain|]. intros y Hy. plain_field. exact Hy.
  - apply opt_field_ok; [intros; apply show_uint_plain|]. intros y Hy. plain_field. exact Hy.
  - apply Forall_cons_2; [plain_field; apply show_uint_plain|].
    apply Forall_cons_2; [plain_field; apply show_uint_plain|apply Forall_nil_2].
  - destruct (quota p) as [q|]; [|constructor]. unfold quota_fields.
    repeat (apply Forall_cons_2; [plain_field; apply show_uint_plain || apply show_bool_addr|]). constructor.
Qed.

(** The report of one peer, read after [r]. *)
Definition after_peer (k : bytes) (time : option Duration) (r : Report) : Report :=
  let r := flush_report r in
  mkReport (rep_peers r) (Some (hex_encode k)) (as_secs <$> time) (rep_own_pubkey r) (rep_listen_port r).

Definition ignored (f : bytes * bytes) : Prop := forall r, report_field f.1 f.2 r = r.

Lemma ignored_fields fs r : Forall ignored fs -> report_fields fs r = r.
Proof. induction 1 as [|f fs Hf _ IH]; [done|]. cbn. by rewrite Hf. Qed.

Lemma report_fields_app fs gs r : report_fields (fs ++ gs) r = report_fields gs (report_fields fs r).
Proof. apply foldl_app. Qed.

Lemma opt_ignored {A} key (show : A -> bytes) v : (forall y, ignored (key, y)) -> Forall ignored (opt_field key show v).
Proof. intros Hk. destruct v; constructor; [apply Hk|constructor]. Qed.

Lemma head_ignored p : Forall ignored (head_fields p).
Proof.
  unfold head_fields. rewrite !Forall_app. split_and!; try (apply opt_ignored; intros y; ignore).
  apply Forall_fmap, Forall_true. intros [ip c]. unfold compose. cbv beta iota. ignore.
Qed.

Lemma tail_ignored p : Forall ignored (tail_fields p).
Proof.
  unfold tail_fields. rewrite Forall_app. split; [repeat (apply Forall_cons_2; [ignore|]); constructor|].
  destruct (quota p) as [q|]; [|constructor]. unfold quota_fields.
  repeat (apply Forall_cons_2; [ignore|]). constructor.
Qed.

Lemma report_public_key k r :
  report_field (str "public_key") (hex_encode k) r = after_peer k None r.
Proof. unfold report_field. decide_names. done. Qed.

Lemma report_age a r :
  in_width 64 (as_secs a) ->
  report_field (str "last_handshake_time_sec") (show_uint (as_secs a)) r
  = mkReport (rep_peers r) (rep_current_pubkey r) (Some (as_secs a)) (rep_own_pubkey r) (rep_listen_port r).
Proof. intros Ha. unfold report_field. decide_names. by rewrite (parse_show 64). Qed.

Lemma peer_fields_report k p time r :
  (forall a, time = Some a -> in_width 64 (as_secs a)) ->
  report_fields (peer_fields k p time) r = after_peer k time r.
Proof.
  intros Ht. unfold peer_fields. cbn [report_fields foldl]. fold (report_fields).
  change (foldl _ ?x ?l) with (report_fields l x). rewrite !report_fields_app.
  rewrite (ignored_fields (tail_fields p)) by apply tail_ignored.
  rewrite (ignored_fields (head_fields p)) by apply head_ignored.
  rewrite (ignored_fields (opt_field (str "last_handshake_time_nsec") _ _)) by (apply opt_ignored; intros y; ignore).
  cbn [fst snd]. rewrite report_public_key. destruct time as [a|]; [|done].
  cbn [opt_field report_fields foldl fst snd]. by rewrite report_age by (by apply Ht).
Qed.
End GetFields.

(** ** The server reads the report of its device *)

Section Report.
Context `{C : Crypto} `{CL : !CryptoLaws C} `{E : Env} `{MC : !MonotoneClock E} `{EC : !EpochClock E}.
Context `{Eth : Ethereum} `{EL : !EthereumLaws Eth} `{I : IpCrates} `{IL : !IpLaws I}.
Context `{H : Hex} `{HL : !HexLaws H} `{B : Base64}.

(** [time] is the age of the last handshake of peer [r], read between [w] and [w']. *)
Definition age_of (d : Device) (w w' : World) (r : nat) (time : option Duration) : Prop :=
  exists p w1 w2, heap d !! r = Some p /\ (ticks w <= ticks w1)%nat /\ (ticks w1 <= ticks w2 <= ticks w')%nat
    /\ time_since_last_handshake (tunnel p) w1 = Ret (time, w2).

Lemma age_later d w0 w w' w1 r time :
  (ticks w0 <= ticks w)%nat -> (ticks w' <= ticks w1)%nat -> age_of d w w' r time -> age_of d w0 w1 r time.
Proof. intros H0 H1 (p & x & y & Hp & ? & ? & Ht). exists p, x, y. split_and!; try done; lia. Qed.

Definition after_peers (l : list (bytes * option Duration)) (r : Report) : Report :=
  foldl (fun r '(k, time) => after_peer k time r) r l.

Lemma get_peers_report s0 n order d w :
  dev_inv s0 n d w -> Forall (fun e => is_Some (heap d !! e.2)) order ->
  exists fs times w', get_peers order d w = Ret (fields_text fs, w') /\ (ticks w <= ticks w')%nat
    /\ Forall report_ok fs /\ Forall2 (fun e time => age_of d w w' e.2 time) order times
    /\ forall r, report_fields fs r = after_peers (zip order.*1 times) r.
Proof.
  intros Hi Ho. revert w Hi. induction Ho as [|[k r] order [p Hp] _ IH]; intros w Hi.
  { exists [], [], w. split_and!; try done; constructor. }
  cbn [get_peers snd] in *. destruct (lock_ok s0 n d w r p Hi Hp) as (p' & Hlock & Hinv & _).
  assert (time_since_last_handshake (tunnel p') = time_since_last_handshake (tunnel p)) as Hsame.
  { unfold lock_peer in Hlock. rewrite Hp in Hlock. cbn in Hlock.
    destruct (limiters d !! limiter_ref p); [|done]. by injection Hlock as <-. }
  rewrite Hlock. cbn [outcome_bind]. rewrite get_peer_fields.
  destruct (handshake_age_ok _ _ w Hinv) as (time & w1 & E1 & Hw1 & Ha). rewrite E1. cbn [outcome_bind].
  destruct (handshake_age_ok _ _ w1 (peer_inv_later _ _ _ Hw1 Hinv)) as (time' & w2 & E2 & Hw2 & _).
  rewrite E2. cbn [outcome_bind].
  destruct (IH w2) as (fs & times & w3 & -> & Hw3 & Hfs & Hages & Hrep); [eapply dev_later; [|exact Hi]; lia|].
  cbn [outcome_bind]. exists (peer_fields k p' time ++ fs), (time :: times), w3. split_and!.
  - by rewrite fields_text_app.
  - lia.
  - apply Forall_app. split; [apply peer_fields_ok|done].
  - constructor.
    + exists p, w, w1. rewrite <- Hsame. split_and!; try done; lia.
    + eapply Forall2_impl; [exact Hages|]. intros e t. apply age_later; lia.
  - intros rep. rewrite report_fields_app, peer_fields_report by done. cbn. apply Hrep.
Qed.

(** The table that comes out. *)
Lemma after_peers_table l r :
  rep_peers (flush_report (after_peers l r))
  = foldl (fun m '(k, time) => <[hex_encode k := as_secs <$> time]> m) (rep_peers (flush_report r)) l
  /\ rep_own_pubkey (flush_report (after_peers l r)) = rep_own_pubkey r
  /\ rep_listen_port (flush_report (after_peers l r)) = rep_listen_port r.
Proof.
  revert r. induction l as [|[k time] l IH]; intros r.
  - cbn. unfold flush_report. destruct (rep_current_pubkey r); done.
  - change (after_peers ((k, time) :: l) r) with (after_peers l (after_peer k time r)).
    destruct (IH (after_peer k time r)) as (-> & -> & ->). unfold after_peer.
    cbn [flush_report rep_current_pubkey rep_peers rep_current_handshake rep_own_pubkey rep_listen_port].
    split_and!; [done|unfold flush_report; by destruct (rep_current_pubkey r)..].
Qed.

#[local] Instance hex_encode_inj : Inj (=) (=) hex_encode.
Proof. intros a b Hab. apply (inj Some). by rewrite <- !hex_decode_encode, Hab. Qed.

Lemma table_lookup (l : list (bytes * option Duration)) (m : gmap bytes (option Z)) :
  NoDup l.*1 ->
  let t := foldl (fun m '(k, time) => <[hex_encode k := as_secs <$> time]> m) m l in
  (forall k time, (k, time) ∈ l -> t !! hex_encode k = Some (as_secs <$> time))
  /\ forall s, (forall k, k ∈ l.*1 -> s <> hex_encode k) -> t !! s = m !! s.
Proof.
  revert m. induction l as [|[k0 t0] l IH]; intros m Hnd; [split; [by intros ? ? ?%elem_of_nil|done]|].
  apply NoDup_cons in Hnd as [Hk0 Hnd]. cbn [foldl]. destruct (IH (<[hex_encode k0 := as_secs <$> t0]> m) Hnd) as [H1 H2].
  split.
  - intros k time [Heq|Hin]%elem_of_cons; [|by apply H1]. injection Heq as -> ->.
    rewrite H2; [by simplify_map_eq|]. intros k1 Hk1 Heq%(inj hex_encode). subst k1. by apply Hk0.
  - intros s Hs. rewrite H2; [|intros k Hk; apply Hs; by right].
    rewrite lookup_insert_ne; [done|]. intros Heq. apply (Hs k0); [by left|done].
Qed.
End Report.
