(* ===== verification/RegistrationDevice.v ===== *)
(** * The registration server and its device

    The two ends of the control socket together: the server reads back what the
    device reports, registration adds the peer it is asked for, and the server
    never makes the device panic. *)

From Stdlib Require Import ZArith Lia.
From Stdlib Require Strings.String.
From stdpp Require Import base numbers list option gmap.
From S2P Require Import Prelude Clock Packet Crypto Session Handshake RateLimiter Tunnel TunnelRuns IndexLfsr Quota PaymentProtocol RustText Json NetText Utf8 Serialization Eip3009 Settlement AllowedIps Device DeviceHandlers Api Registration RegistrationRuns DeviceTotal DeviceRuns ApiRuns RegistrationReport.

Import Stdlib.Strings.String.StringSyntax.

(** The device behind the control socket: its state, or that it has panicked. *)
Definition Side `{C : Crypto} `{Eth : Ethereum} `{I : IpCrates} : Type := outcome (Device * World).

Section Link.
Context `{C : Crypto} `{CL : !CryptoLaws C} `{E : Env} `{MC : !MonotoneClock E} `{EC : !EpochClock E}.
Context `{Eth : Ethereum} `{EL : !EthereumLaws Eth} `{I : IpCrates} `{IL : !IpLaws I}.
Context `{H : Hex} `{HL : !HexLaws H} `{B : Base64} `{BL : !Base64Laws B}.
Context (from_json : bytes -> result bytes SettleResponse).
(** The answers of the system, the order of the map of peers, and the texts of the
    two errors of the socket. *)
Context (os : OsAnswers) (Hos : os_willing os).
Context (order_of : Device -> list (bytes * nat)) (Horder : forall d, order_of d ≡ₚ map_to_list (peers d)).
Context (connect_error read_error : bytes).

(** One connection: the handler of the device answers the request and closes. A
    device that panics closes without an answer. *)
#[local] Instance device_uapi : Uapi Side := {|
  uapi_exchange req s :=
    match s with
    | Ret (d, w) =>
        match api_handler os (order_of d) (mkStream req false) d w with
        | Ret (_, out, d, w) => (Ok (mkStream out false), Ret (d, w))
        | Panic => (Ok (mkStream [] false), Panic)
        end
    | Panic => (Err connect_error, Panic)
    end;
  uapi_read_error := read_error;
|}.

(** ** The requests of the server *)

Definition host_ip (o : bytes) : AllowedIP := mkAllowedIP (V4 o) 32.

Lemma set_peer_text k o :
  set_peer_request (hex_encode k) (show_ipv4 o)
  = str "set=1" ++ newline ::
    config_text (mkConfiguration [] (Some (k, [ReplaceAllowedIps true; AllowedIpAt (host_ip o)]))).
Proof.
  unfold set_peer_request, nl, config_text, settings_text, peers_text, line_of, field_line.
  cbn [cf_settings cf_peers fmap list_fmap concat peer_setting_field fst snd show_bool host_ip app].
  unfold show_allowed_ip, host_ip. cbn [addr cidr show_ip_addr].
  assert (show_uint 32 = str "32") as -> by (vm_compute; reflexivity).
  assert (str "/32" = [ch 47] ++ str "32") as -> by (vm_compute; reflexivity).
  assert (str "public_key=" = str "public_key" ++ [equals]) as -> by (vm_compute; reflexivity).
  assert (str "replace_allowed_ips=true" = str "replace_allowed_ips" ++ [equals] ++ str "true") as ->
    by (vm_compute; reflexivity).
  assert (str "allowed_ip=" = str "allowed_ip" ++ [equals]) as -> by (vm_compute; reflexivity).
  rewrite ?app_nil_r. do 3 (rewrite <- ?app_assoc; cbn [app]). done.
Qed.

Lemma remove_peer_text k :
  remove_peer_request (hex_encode k)
  = str "set=1" ++ newline :: config_text (mkConfiguration [] (Some (k, [Remove true]))).
Proof.
  unfold remove_peer_request, nl, config_text, settings_text, peers_text, line_of, field_line.
  cbn [cf_settings cf_peers fmap list_fmap concat peer_setting_field fst snd show_bool app].
  assert (str "public_key=" = str "public_key" ++ [equals]) as -> by (vm_compute; reflexivity).
  assert (str "remove=true" = str "remove" ++ [equals] ++ str "true") as -> by (vm_compute; reflexivity).
  rewrite ?app_nil_r. do 3 (rewrite <- ?app_assoc; cbn [app]). done.
Qed.

Lemma answer_line :
  fst (read_line (mkStream (errno_lines 0) false)) = Some (nl (str "errno=0"))
  /\ trim (nl (str "errno=0")) = str "errno=0".
Proof. by split; vm_compute. Qed.

Lemma set_request cf d w :
  config_ok cf ->
  uapi_exchange (str "set=1" ++ newline :: config_text cf) (Ret (d, w))
  = match config_run from_json (config_events os cf) d w with
    | Ret (d, w) => (Ok (mkStream (errno_lines 0) false), Ret (d, w))
    | Panic => (Ok (mkStream [] false), Panic)
    end.
Proof.
  intros Hcf. unfold uapi_exchange, device_uapi. rewrite <- (app_nil_r (config_text cf)).
  rewrite set_command_read, (config_read from_json) by done.
  by destruct (config_run from_json (config_events os cf) d w) as [[? ?]|].
Qed.

Lemma set_peer_device k o d w :
  length k = 32%nat -> length o = 4%nat ->
  uapi_set_peer (hex_encode k) (show_ipv4 o) (Ret (d, w))
  = match update_peer k false None [host_ip o] None None d w with
    | Ret (d, w) => (Ok tt, Ret (d, w))
    | Panic => (Err (str "UAPI set failed: "), Panic)
    end.
Proof.
  intros Hk Ho. unfold uapi_set_peer. rewrite set_peer_text, set_request.
  - cbn [config_events cf_settings cf_peers setting_events section_events section_new section_event app
         config_run device_step sec_public_key sec_remove sec_endpoint sec_allowed_ips sec_keepalive
         sec_preshared_key].
    destruct (update_peer k false None [host_ip o] None None d w) as [[d' w']|]; cbn [outcome_bind].
    + destruct answer_line as [-> ->]. by rewrite bool_decide_eq_true_2.
    + by vm_compute.
  - split; cbn; [constructor|]. split; [done|]. repeat (apply Forall_cons_2; [|]); try apply Forall_nil_2; [done|].
    split; [done|]. by vm_compute.
Qed.

Lemma remove_peer_device k d w :
  length k = 32%nat ->
  uapi_remove_peer (hex_encode k) (Ret (d, w))
  = match remove_peer k d with
    | Ret d => (Ok true, Ret (d, w))
    | Panic => (Ok false, Panic)
    end.
Proof.
  intros Hk. unfold uapi_remove_peer. rewrite remove_peer_text, set_request.
  - cbn [config_events cf_settings cf_peers setting_events section_events section_new section_event app
         config_run device_step sec_public_key sec_remove sec_endpoint sec_allowed_ips sec_keepalive
         sec_preshared_key update_peer].
    destruct (remove_peer k d) as [d'|]; cbn [outcome_bind].
    + destruct answer_line as [-> ->]. by rewrite bool_decide_eq_true_2.
    + by vm_compute.
  - split; cbn; [constructor|]. split; [done|]. by repeat constructor.
Qed.

(** ** The report *)

Definition own_fields (d : Device) : list (bytes * bytes) :=
  opt_field (str "own_public_key") (fun k => hex_encode (snd k)) (key_pair d)
  ++ (if listen_port d =? 0 then [] else [(str "listen_port", show_uint (listen_port d))])
  ++ opt_field (str "fwmark") show_uint (fwmark d).

Lemma own_fields_ok d : Forall report_ok (own_fields d).
Proof.
  unfold own_fields. rewrite !Forall_app. split_and!.
  - apply opt_field_ok; [intros; apply addr_plain, hex_addr|]. intros y Hy. plain_field. exact Hy.
  - destruct (_ =? _); repeat constructor; cbn [fst snd]; try name_ok; try done. apply show_uint_plain.
  - apply opt_field_ok; [apply show_uint_plain|]. intros y Hy. plain_field. exact Hy.
Qed.

(** What the server learns of the device itself. *)
Definition own_key (d : Device) : option bytes := (fun k => base64_encode (snd k)) <$> key_pair d.
Definition own_port (d : Device) : option Z := if listen_port d =? 0 then None else Some (listen_port d).

Lemma report_own pk r :
  report_field (str "own_public_key") (hex_encode pk) r
  = mkReport (rep_peers r) (rep_current_pubkey r) (rep_current_handshake r) (Some (base64_encode pk)) (rep_listen_port r).
Proof. unfold report_field. decide_names. by rewrite hex_decode_encode. Qed.

Lemma report_port port r :
  in_width 16 port ->
  report_field (str "listen_port") (show_uint port) r
  = mkReport (rep_peers r) (rep_current_pubkey r) (rep_current_handshake r) (rep_own_pubkey r) (Some port).
Proof. intros Hp. unfold report_field. decide_names. by rewrite (parse_show 16). Qed.

Lemma own_fields_report d :
  in_width 16 (listen_port d) ->
  report_fields (own_fields d) report_new = mkReport ∅ None None (own_key d) (own_port d).
Proof.
  intros Hp. unfold own_fields. rewrite !report_fields_app.
  rewrite (ignored_fields (opt_field (str "fwmark") _ _)) by (apply opt_ignored; intros y; ignore).
  unfold own_key, own_port. destruct (key_pair d) as [[sk pk]|], (listen_port d =? 0);
    cbn [opt_field report_fields foldl fst snd]; rewrite ?report_own, ?report_port by done; done.
Qed.

Lemma get_exchange d w fs w' :
  get_peers (order_of d) d w = Ret (fields_text fs, w') ->
  uapi_exchange get_request (Ret (d, w))
  = (Ok (mkStream (fields_text (own_fields d ++ fs) ++ errno_lines 0) false), Ret (d, w')).
Proof.
  intros Hg. unfold uapi_exchange, device_uapi, get_request, nl, api_handler.
  rewrite (read_line_app (str "get=1") []) by name_ok. unfold api_command. rewrite pop_newline.
  decide_names. unfold api_get. rewrite Hg. cbn [outcome_bind]. do 4 f_equal.
  unfold own_fields. rewrite !fields_text_app, !opt_line_field, <- !app_assoc. do 2 f_equal.
  destruct (listen_port d =? 0); [done|]. by rewrite fields_text_cons, app_nil_r.
Qed.

Lemma api_get_report s0 n d w :
  dev_inv s0 n d w -> in_width 16 (listen_port d) ->
  exists report w', uapi_get_peers (Ret (d, w)) = (Ok (own_key d, own_port d, report), Ret (d, w'))
    /\ (ticks w <= ticks w')%nat
    /\ (forall s, is_Some (report !! s) <-> exists k, s = hex_encode k /\ is_Some (peers d !! k))
    /\ forall k r, peers d !! k = Some r ->
         exists time, age_of d w w' r time /\ report !! hex_encode k = Some (as_secs <$> time).
Proof.
  intros Hi Hp. assert (Forall (fun e => is_Some (heap d !! e.2)) (order_of d)) as Hord.
  { apply Forall_forall. intros [k r] Hin. cbn. rewrite Horder in Hin. apply elem_of_map_to_list in Hin.
    destruct (mi_peers _ (di_maps _ _ _ _ Hi) k r Hin) as (p & Hh & _). eauto. }
  destruct (get_peers_report s0 n _ d w Hi Hord) as (fs & times & w' & Hg & Hw & Hfs & Hages & Hrep).
  pose proof (Forall2_length _ _ _ Hages) as Hlen.
  assert ((zip (order_of d).*1 times).*1 = (order_of d).*1) as Hkeys by (apply fst_zip; rewrite length_fmap; lia).
  assert (NoDup (zip (order_of d).*1 times).*1) as Hnd
    by (rewrite Hkeys, Horder; apply NoDup_fst_map_to_list).
  destruct (table_lookup _ ∅ Hnd) as [Hin Hout].
  destruct (after_peers_table (zip (order_of d).*1 times) (mkReport ∅ None None (own_key d) (own_port d)))
    as (Ht & Hown & Hport). cbn [flush_report rep_current_pubkey rep_peers] in Ht.
  set (t := foldl _ ∅ _) in *.
  assert (forall k r, peers d !! k = Some r ->
            exists time, age_of d w w' r time /\ t !! hex_encode k = Some (as_secs <$> time)) as Hlook.
  { intros k r Hk. assert ((k, r) ∈ order_of d) as Ho by (rewrite Horder; by apply elem_of_map_to_list).
    apply list_elem_of_lookup in Ho as [j Hj]. destruct (Forall2_lookup_l _ _ _ _ _ Hages Hj) as (time & Htime & Hage).
    exists time. split; [exact Hage|]. apply Hin. apply list_elem_of_lookup. exists j.
    rewrite lookup_zip_with, list_lookup_fmap, Hj. cbn. by rewrite Htime. }
  exists t, w'. split_and!; [|done| |exact Hlook].
  - unfold uapi_get_peers. rewrite (get_exchange d w fs w' Hg).
    rewrite report_answer by (apply Forall_app; split; [apply own_fields_ok|done]).
    rewrite report_fields_app, own_fields_report, Hrep, Ht, Hown, Hport by done. done.
  - intros s. split.
    + intros Hs. destruct (decide (s ∈ hex_encode <$> (order_of d).*1)) as [Hk|Hn].
      * apply list_elem_of_fmap in Hk as (k & -> & Hk). exists k. split; [done|]. apply list_elem_of_fmap in Hk as ([k' r] & -> & Hk). rewrite Horder in Hk.
        apply elem_of_map_to_list in Hk. eauto.
      * rewrite Hout in Hs; [by rewrite lookup_empty in Hs; destruct Hs|].
        intros k Hk ->. apply Hn, list_elem_of_fmap. exists k. by rewrite <- Hkeys.
    + intros (k & -> & [r Hk]). destruct (Hlook k r Hk) as (time & _ & ->). eauto.
Qed.

(** C25. The registration server reads its device right: for a reachable device the
    report has one entry per peer, under the key in hexadecimal, with the age of its
    last handshake in seconds, or nothing when there is no session; the key of the
    device comes in base64, with the port. *)
Theorem uapi_report_faithful (env_var : bytes -> option bytes) n d w
    (Hr : reachable from_json env_var n d w) (Hp : in_width 16 (listen_port d)) :
  exists report w', uapi_get_peers (Ret (d, w)) = (Ok (own_key d, own_port d, report), Ret (d, w'))
    /\ (forall s, is_Some (report !! s) <-> exists k, s = hex_encode k /\ is_Some (peers d !! k))
    /\ forall k r, peers d !! k = Some r ->
         exists time, age_of d w w' r time /\ report !! hex_encode k = Some (as_secs <$> time).
Proof.
  destruct (reachable_inv _ _ _ _ _ Hr) as [s0 Hi].
  destruct (api_get_report s0 n d w Hi Hp) as (report & w' & ? & _ & ? & ?). by exists report, w'.
Qed.

(** ** The node: server and device *)

Context `{J : Json} `{P : Pick} `{PL : !PickLaws P}.
Context (world_post : bytes -> Value -> result bytes bytes) (env_var : bytes -> option bytes).
Context (key_error sign_error : bytes).

(** Indices drawn by a step of the server: one if a peer was added. *)
Definition drawn_by (st st' : RegistrationState) : nat :=
  if decide (registered_peers (inner st') ⊆ registered_peers (inner st)) then 0 else 1.

(** A server and the device it alone configures, which carries traffic. The reaper
    asks the device and sweeps in separate steps, with any of the reports there may
    have been. *)
Inductive node : nat -> RegistrationState -> Device -> World -> Prop :=
| node_new n d w tun prefix pc ip :
    reachable from_json env_var n d w -> peers d = ∅ -> key_pair d <> None -> in_width 16 (listen_port d) ->
    node n (registration_new env_var tun prefix pc ip) d w
| node_traffic n st d w ev es d' w' :
    node n st d w -> traffic ev -> admissible n ev d -> device_step from_json ev d w = Ret (es, d', w') ->
    node n st d' w'
| node_serve n st d w req wr r st' d' w' wr' :
    node n st d w -> Z.of_nat (S n) < PERIOD ->
    serve world_post env_var key_error sign_error req st (Ret (d, w)) wr = Ret (r, st', Ret (d', w'), wr') ->
    node (drawn_by st st' + n) st' d' w'
| node_query n st d w r d' w' :
    node n st d w -> uapi_get_peers (Ret (d, w)) = (r, Ret (d', w')) -> node n st d' w'
| node_sweep n st d w order bs report wr st' d' w' wr' :
    node n st d w -> order ≡ₚ map_to_list (peer_to_octet (inner st)) ->
    sweep order bs report st (Ret (d, w)) wr = Ret (st', Ret (d', w'), wr') ->
    node n st' d' w'.

(** The tables of the two agree. *)
Record node_ok (n : nat) (st : RegistrationState) (d : Device) (w : World) : Prop := {
  no_dev : reachable from_json env_var n d w;
  no_pool : pool_inv (inner st);
  no_keys : forall s, s ∈ registered_peers (inner st) <-> exists k, s = hex_encode k /\ is_Some (peers d !! k);
  no_len : forall k, is_Some (peers d !! k) -> length k = 32%nat;
  no_key : key_pair d <> None;
  no_port : in_width 16 (listen_port d);
}.

Lemma node_later n st st' d w w' :
  (ticks w <= ticks w')%nat -> same_pool (inner st) (inner st') -> node_ok n st d w -> node_ok n st' d w'.
Proof.
  intros Hw Hs [H1 H2 H3 H4 H5 H6]. split; try done.
  - by eapply reach_time.
  - by eapply pool_same.
  - destruct Hs as (-> & _). exact H3.
Qed.

Lemma fill_caches_ok n st d w :
  node_ok n st d w ->
  exists r w', fill_caches (inner st) (Ret (d, w)) = (r, Ret (d, w')) /\ (ticks w <= ticks w')%nat.
Proof.
  intros [Hr _ _ _ _ Hp]. unfold fill_caches. destruct (server_pubkey_cache (inner st)); [by eexists _, _|].
  destruct (reachable_inv _ _ _ _ _ Hr) as [s0 Hi].
  destruct (api_get_report s0 n d w Hi Hp) as (report & w' & -> & Hw & _).
  destruct (own_key d); by eexists _, _.
Qed.

Lemma drawn_same st st' : registered_peers (inner st') = registered_peers (inner st) -> drawn_by st st' = 0%nat.
Proof. intros He. unfold drawn_by. rewrite He. by rewrite decide_True. Qed.

(** A peer that the device can take: what the server does next. *)
Lemma add_peer_node n st d w k o i now :
  node_ok n (with_inner i st) d w -> Z.of_nat (S n) < PERIOD -> length k = 32%nat ->
  peer_to_octet i !! hex_encode k = None -> o ∈ available_ips i ->
  exists d' w', update_peer k false None [host_ip (tunnel_ip st o)] None None d w = Ret (d', w')
    /\ node_ok (drawn_by (with_inner i st) (with_inner (assign (hex_encode k) o now i) st) + n)
         (with_inner (assign (hex_encode k) o now i) st) d' w'.
Proof.
  intros [Hr Hpool Hkeys Hlen Hkey Hport] Hn Hk Hfree Ho. cbn [with_inner inner] in *.
  assert (hex_encode k ∉ registered_peers i) as Hreg by (rewrite <- (pool_peers _ Hpool); by apply not_elem_of_dom).
  assert (peers d !! k = None) as Hpeer.
  { apply eq_None_not_Some. intros Hs. apply Hreg, Hkeys. by exists k. }
  set (ev := EvUpdatePeer k false None [host_ip (tunnel_ip st o)] None None).
  assert (admissible n ev d) as Ha.
  { split_and!; try done. apply Forall_cons_2; [by vm_compute|apply Forall_nil_2]. }
  destruct (reachable_inv _ _ _ _ _ Hr) as [s0 Hi].
  destruct (device_step_ok from_json s0 n ev d w Hi Ha) as (es & d' & w' & Hstep & _).
  pose proof (reach_step _ _ _ _ _ _ _ _ _ Hr Ha Hstep) as Hr'.
  cbn [ev device_step] in Hstep. apply bind_Ret_inv in Hstep as ([d1 w2] & Hu & Heq). simplify_eq.
  exists d', w'. split; [exact Hu|].
  destruct (update_peer_adds _ _ _ _ _ _ _ _ _ Hu) as (p & Hps & _ & _ & Hk' & Hp' & _).
  assert (drawn_by (with_inner i st) (with_inner (assign (hex_encode k) o now i) st) = 1%nat) as ->.
  { unfold drawn_by. cbn. rewrite decide_False; [done|]. set_solver. }
  split; cbn [with_inner inner].
  - exact Hr'.
  - by apply pool_assign.
  - intros s. cbn [assign registered_peers]. rewrite elem_of_union, elem_of_singleton, Hkeys, Hps. split.
    + intros [->|(k' & -> & Hs)]; [exists k|exists k']; (split; [done|]); [by simplify_map_eq|].
      destruct (decide (k = k')) as [->|]; by simplify_map_eq.
    + intros (k' & -> & Hs). destruct (decide (k = k')) as [->|]; [by left|]. right. exists k'.
      split; [done|]. by rewrite lookup_insert_ne in Hs.
  - intros k'. rewrite Hps. destruct (decide (k = k')) as [->|]; [done|]. rewrite lookup_insert_ne by done. apply Hlen.
  - by rewrite Hk'.
  - by rewrite Hp'.
Qed.

Lemma register_ok n st d w k i wr :
  node_ok n (with_inner i st) d w -> Z.of_nat (S n) < PERIOD -> length k = 32%nat ->
  exists r j d' w' wr', register_peer st (hex_encode k) i (Ret (d, w)) wr = (r, j, Ret (d', w'), wr')
    /\ node_ok (drawn_by (with_inner i st) (with_inner j st) + n) (with_inner j st) d' w'.
Proof.
  intros Hok Hn Hk. pose proof (no_pool _ _ _ _ Hok) as Hpool. cbn [with_inner inner] in Hpool.
  unfold register_peer. rewrite registered_octet by done.
  destruct (peer_to_octet i !! hex_encode k) as [o|] eqn:Eo.
  { eexists _, _, _, _, _. split; [done|]. by rewrite drawn_same. }
  destruct (pick (available_ips i)) as [o|] eqn:Ep.
  2: { eexists _, _, _, _, _. split; [done|]. by rewrite drawn_same. }
  destruct (instant_now wr) as [now wr1] eqn:En.
  destruct (add_peer_node n st d w k o i now) as (d' & w' & Hu & Hok'); try done; [by apply pick_some|].
  rewrite set_peer_device, Hu; [|done|by unfold tunnel_ip; destruct (subnet_prefix st) as [[? ?] ?]].
  eexists _, _, _, _, _. by split.
Qed.

(** What a step of the server gives: a node again. *)
Definition serves {A} (n : nat) (st : RegistrationState) (o : outcome (A * RegistrationState * Side * World)) : Prop :=
  exists r st' d' w' wr', o = Ret (r, st', Ret (d', w'), wr') /\ node_ok (drawn_by st st' + n) st' d' w'.

Lemma serves_here {A} n st st1 d w w1 (r : A) wr :
  node_ok n st d w -> same_pool (inner st) (inner st1) -> (ticks w <= ticks w1)%nat ->
  serves n st (Ret (r, st1, Ret (d, w1), wr)).
Proof.
  intros Hok Hs Hw. eexists _, _, _, _, _. split; [done|]. rewrite drawn_same by apply Hs.
  by eapply node_later.
Qed.

Lemma same_pool_refl i : same_pool i i.
Proof. by split_and!. Qed.

Lemma serves_same {A} n st st1 (o : outcome (A * RegistrationState * Side * World)) :
  same_pool (inner st) (inner st1) -> serves n st1 o -> serves n st o.
Proof.
  intros (Hs & _) (r & st' & d' & w' & wr' & -> & Hok). eexists _, _, _, _, _. split; [done|].
  unfold drawn_by in *. by rewrite <- Hs.
Qed.

Lemma handle_registration_ok n st d w pk wr :
  node_ok n st d w -> Z.of_nat (S n) < PERIOD ->
  serves n st (Ret (handle_registration pk st (Ret (d, w)) wr)).
Proof.
  intros Hok Hn. unfold handle_registration.
  destruct (base64_decode (trim pk)) as [k|]; [|by apply (serves_here n st st d w); [..|apply same_pool_refl|]].
  case_bool_decide as Hk; cbn [negb]; [|by apply (serves_here n st st d w); [..|apply same_pool_refl|]].
  destruct (fill_caches_ok n st d w Hok) as (r0 & w1 & Ef & Hw). rewrite Ef.
  destruct r0 as [i|r0]; [|by apply (serves_here n st st d w); [..|apply same_pool_refl|]].
  apply fill_caches_pool in Ef.
  assert (node_ok n (with_inner i st) d w1) as Hok1 by (by eapply node_later; [| |exact Hok]).
  destruct (register_ok n st d w1 k i wr Hok1 Hn Hk) as (r & j & d' & w' & wr' & -> & Hok').
  apply (serves_same n st (with_inner i st)); [exact Ef|]. by eexists _, _, _, _, _.
Qed.

Lemma registration_v2_ok n st d w body wr :
  node_ok n st d w -> Z.of_nat (S n) < PERIOD ->
  serves n st (Ret (handle_registration_v2 world_post env_var body st (Ret (d, w)) wr)).
Proof.
  intros Hok Hn. assert (forall r : Response, serves n st (Ret (r, st, Ret (d, w), wr))) as Hhere.
  { intros r. by apply (serves_here n st st d w); [..|apply same_pool_refl|]. }
  unfold handle_registration_v2. destruct (json_from_str _) as [v|]; [|apply Hhere].
  destruct (_ ≫= as_str) as [pk|]; [|apply Hhere].
  destruct (check_human world_post env_var v st) as [st1|r1] eqn:Ec; [|apply Hhere].
  assert (same_pool (inner st) (inner st1)) as Hs.
  { unfold check_human in Ec. destruct (human_only env_var); [|simplify_eq; apply same_pool_refl].
    destruct (value_get _ v) as [proof|]; [|done]. destruct (verify_world_proof _ st proof); [|done].
    by injection Ec as <-. }
  apply (serves_same n st st1 _ Hs). apply handle_registration_ok; [|done]. by eapply node_later.
Qed.

Lemma rp_context_returns st w : exists r w', handle_rp_context key_error sign_error st w = Ret (r, w').
Proof.
  unfold handle_rp_context, generate_rp_signature. destruct (world_signing_key st) as [key|]; [|by eexists _, _].
  destruct (signing_key_from_bytes key) as [sk|]; [|by eexists _, _].
  destruct (fill_bytes 32 w) as [nonce w1]. unfold system_time_now.
  rewrite (proj2 (Z.leb_le 0 (wall (ticks w1)))) by (apply wall_range). cbn [require outcome_bind].
  destruct (sign_prehash_recoverable sk _) as [[sg rid]|]; by eexists _, _.
Qed.

Lemma serve_ok n st d w req wr :
  node_ok n st d w -> Z.of_nat (S n) < PERIOD ->
  serves n st (serve world_post env_var key_error sign_error req st (Ret (d, w)) wr).
Proof.
  intros Hok Hn. unfold serve.
  case_bool_decide; [by apply (serves_here n st st d w); [..|apply same_pool_refl|]|].
  destruct (rate_limit (remote_addr req) st wr) as [[ok st1] wr1] eqn:Er. apply rate_limit_pool in Er.
  assert (same_pool (inner st) (inner st1)) as Hs by (rewrite Er; apply same_pool_refl).
  apply (serves_same n st st1 _ Hs). assert (node_ok n st1 d w) as Hok1 by (by eapply node_later).
  assert (forall (r : Response) wr, serves n st1 (Ret (r, st1, Ret (d, w), wr))) as Hhere.
  { intros r wr2. by apply (serves_here n st1 st1 d w); [..|apply same_pool_refl|]. }
  destruct ok; cbn [negb]; [|apply Hhere]. unfold dispatch. destruct (method req); try apply Hhere.
  - case_bool_decide; [apply Hhere|]. case_bool_decide; [|apply Hhere].
    destruct (rp_context_returns st1 wr1) as (r & wr2 & ->). apply Hhere.
  - case_bool_decide; [|apply Hhere]. destruct (body req); [|apply Hhere].
    case_bool_decide; [apply Hhere|]. by apply registration_v2_ok.
Qed.

Lemma remove_peer_removes k d d' :
  remove_peer k d = Ret d' ->
  peers d' = delete k (peers d) /\ key_pair d' = key_pair d /\ listen_port d' = listen_port d.
Proof.
  unfold remove_peer. destruct (peers d !! k) as [r|] eqn:Ek.
  - intros Hr. apply bind_Ret_inv in Hr as (p & _ & Hr). apply (inj Ret) in Hr as <-. done.
  - intros [= <-]. by rewrite delete_id.
Qed.

(** A peer that the device drops. *)
Lemma drop_peer_node n st d w k o i :
  node_ok n (with_inner i st) d w -> peer_to_octet i !! hex_encode k = Some o ->
  exists d', remove_peer k d = Ret d' /\ node_ok n (with_inner (release (hex_encode k) o i) st) d' w.
Proof.
  intros [Hr Hpool Hkeys Hlen Hkey Hport] Ho. cbn [with_inner inner] in *.
  set (ev := EvUpdatePeer k true None [] None None).
  destruct (reachable_inv _ _ _ _ _ Hr) as [s0 Hi].
  destruct (device_step_ok from_json s0 n ev d w Hi Logic.I) as (es & d' & w' & Hstep & _).
  pose proof (reach_step from_json env_var n ev es d w d' w' Hr Logic.I Hstep) as Hr'.
  cbn [ev device_step update_peer] in Hstep. destruct (remove_peer k d) as [d1|] eqn:Eu; [|done].
  cbn [outcome_bind] in Hstep. apply (inj Ret) in Hstep. simplify_eq. exists d'. split; [done|].
  destruct (remove_peer_removes _ _ _ Eu) as (Hps & Hk' & Hp').
  split; cbn [with_inner inner].
  - exact Hr'.
  - by apply pool_release.
  - intros s. cbn [release registered_peers]. rewrite elem_of_difference, elem_of_singleton, Hkeys, Hps. split.
    + intros [(k' & -> & Hs) Hne]. exists k'. split; [done|]. rewrite lookup_delete_ne; [done|]. congruence.
    + intros (k' & -> & Hs). destruct (decide (k = k')) as [->|]; [rewrite lookup_delete_eq in Hs; by destruct Hs|].
      rewrite lookup_delete_ne in Hs by done. split; [by exists k'|]. intros Heq.
      apply (f_equal hex_decode) in Heq. rewrite !hex_decode_encode in Heq. congruence.
  - intros k' Hs. rewrite Hps in Hs. apply Hlen. destruct (decide (k = k')) as [->|]; [rewrite lookup_delete_eq in Hs; by destruct Hs|].
    by rewrite lookup_delete_ne in Hs.
  - by rewrite Hk'.
  - by rewrite Hp'.
Qed.

Lemma remove_stale_ok n st l d w i :
  node_ok n (with_inner i st) d w -> NoDup l.*1 -> (forall k o, (k, o) ∈ l -> peer_to_octet i !! k = Some o) ->
  exists j d', remove_stale l i (Ret (d, w)) = (j, Ret (d', w)) /\ node_ok n (with_inner j st) d' w
    /\ registered_peers j = registered_peers i ∖ list_to_set l.*1.
Proof.
  revert i d. induction l as [|[s o] l IH]; intros i d Hok Hnd Hl; cbn [remove_stale].
  { eexists _, _. split_and!; [done|done|]. cbn. set_solver. }
  apply NoDup_cons in Hnd as [Hs Hnd]. assert (peer_to_octet i !! s = Some o) as Hso by (apply Hl; by left).
  destruct (proj1 (no_keys _ _ _ _ Hok s)) as (k & -> & Hk).
  { rewrite <- (pool_peers _ (no_pool _ _ _ _ Hok)). by eapply elem_of_dom_2. }
  destruct (drop_peer_node n st d w k o i Hok Hso) as (d' & Hr & Hok').
  rewrite (remove_peer_device k d w (no_len _ _ _ _ Hok k Hk)), Hr.
  destruct (IH (release (hex_encode k) o i) d' Hok' Hnd) as (j & d2 & -> & Hok2 & Hreg).
  2: { eexists _, _. split_and!; [done|done|]. rewrite Hreg. cbn. set_solver. }
  intros k' o' Hin. cbn. rewrite lookup_delete_ne; [apply Hl; by right|].
  intros <-. apply Hs, list_elem_of_fmap. by exists (hex_encode k, o').
Qed.

(** A sweep removes at least the peers that its report does not have. *)
Lemma sweep_ok n st d w order bs report wr :
  node_ok n st d w -> order ≡ₚ map_to_list (peer_to_octet (inner st)) ->
  exists st' d' wr', sweep order bs report st (Ret (d, w)) wr = Ret (st', Ret (d', w), wr') /\ node_ok n st' d' w
    /\ forall s, report !! s = None -> s ∉ registered_peers (inner st').
Proof.
  intros Hok Ho. unfold sweep. destruct (system_time_now wr) as [t wr1] eqn:Et.
  assert ((0 <=? t) = true) as -> by (injection Et as <- _; apply Z.leb_le, wall_range). cbn [require outcome_bind].
  destruct (instant_now wr1) as [now wr2].
  destruct (stale_peers_sub order report now (inner st) Ho) as [Hnd Hin].
  destruct (remove_stale_ok n st (stale_peers order report now (inner st)) d w (inner st))
    as (j & d' & -> & Hok' & Hreg); [by destruct st|done|done|].
  destruct (prune bs wr2) as [m wr3]. eexists _, _, _. split_and!; [done| |].
  - by apply (node_later n (with_inner j st) _ d' w w); [|apply same_pool_refl|].
  - intros s Hs. cbn [inner with_inner with_buckets]. rewrite Hreg. intros [Hr Hn]%elem_of_difference. apply Hn.
    rewrite <- (pool_peers _ (no_pool _ _ _ _ Hok)) in Hr. apply elem_of_dom in Hr as [o Hr].
    apply elem_of_list_to_set, list_elem_of_fmap. exists (s, o). split; [done|]. unfold stale_peers.
    apply list_elem_of_In, List.filter_In. rewrite Hs. split; [|done].
    apply list_elem_of_In. rewrite Ho. by apply elem_of_map_to_list.
Qed.

Lemma query_ok n st d w :
  node_ok n st d w -> exists report w',
    uapi_get_peers (Ret (d, w)) = (Ok (own_key d, own_port d, report), Ret (d, w')) /\ node_ok n st d w'
    /\ forall s, is_Some (report !! s) <-> s ∈ registered_peers (inner st).
Proof.
  intros Hok. destruct (reachable_inv _ _ _ _ _ (no_dev _ _ _ _ Hok)) as [s0 Hi].
  destruct (api_get_report s0 n d w Hi (no_port _ _ _ _ Hok)) as (report & w1 & Eq & Hw & Hkeys & _).
  exists report, w1. split_and!; [done|by eapply node_later; [|apply same_pool_refl|]|].
  intros s. by rewrite Hkeys, (no_keys _ _ _ _ Hok).
Qed.

Lemma node_inv n st d w : node n st d w -> node_ok n st d w.
Proof.
  induction 1 as [n d w tun prefix pc ip Hr He Hk Hp|n st d w ev es d' w' _ IH Ht Ha Hstep
                 |n st d w req wr r st' d' w' wr' _ IH Hn Hs|n st d w r d' w' _ IH Hq
                 |n st d w order bs report wr st' d' w' wr' _ IH Ho Hs].
  - split; [exact Hr|exact pool_new| | |exact Hk|exact Hp]; rewrite He.
    + intros s. change (registered_peers _) with (∅ : gset bytes). split; [by intros ?%elem_of_empty|]. intros (k & _ & [? Hk']). by rewrite lookup_empty in Hk'.
    + intros k [? Hk']. by rewrite lookup_empty in Hk'.
  - destruct IH as [Hr Hpool Hkeys Hlen Hkey Hport]. destruct (reachable_inv _ _ _ _ _ Hr) as [s0 Hi].
    destruct (device_step_ok from_json s0 n ev d w Hi Ha) as (es1 & d1 & w1 & E1 & _ & _ & Hf).
    pose proof (reach_step _ _ _ _ _ _ _ _ _ Hr Ha Hstep) as Hr'.
    rewrite E1 in Hstep. apply (inj Ret) in Hstep. simplify_eq. destruct (Hf Ht) as [F1 F2 F3 F4 F5 F6].
    assert (indices ev = 0%nat) as Hx by (by destruct ev). rewrite Hx in Hr'.
    split; try done; rewrite ?F1, ?F2, ?F3; done.
  - destruct (serve_ok n st d w req wr IH Hn) as (r1 & st1 & d1 & w1 & wr1 & E1 & Hok). rewrite E1 in Hs.
    by simplify_eq.
  - destruct (query_ok n st d w IH) as (report & w1 & E1 & Hok & _). rewrite E1 in Hq. by simplify_eq.
  - destruct (sweep_ok n st d w order bs report wr IH Ho) as (st1 & d1 & wr1 & E1 & Hok & _). rewrite E1 in Hs.
    by simplify_eq.
Qed.


Lemma trim_base64 b : trim (base64_encode b) = base64_encode b.
Proof.
  apply trim_visible. pose proof (base64_encode_chars b) as Hc. rewrite forallb_forall in Hc.
  apply Forall_forall. intros x Hx%list_elem_of_In. specialize (Hc x Hx). unfold base64_char in Hc.
  pose proof (byte.unsigned_range x).
  repeat match type of Hc with context [?x <=? ?y] => destruct (Z.leb_spec x y) end; cbn in Hc; try lia;
    repeat match type of Hc with context [?x =? ?y] => destruct (Z.eqb_spec x y) end; cbn in Hc; try lia; done.
Qed.

(** The peer that registration adds. *)
Lemma host_peer_added k o d w d' w' :
  update_peer k false None [host_ip o] None None d w = Ret (d', w') ->
  exists p, peers d' !! k = Some (next_ref d) /\ heap d' !! next_ref d = Some p
    /\ is_allowed_ip (V4 o) p = true /\ allowed_ips_find (V4 o) (peers_by_ip d') = Some (next_ref d).
Proof.
  intros Hu. destruct (update_peer_adds _ _ _ _ _ _ _ _ _ Hu) as (p & -> & -> & _ & _ & _ & _ & _ & _ & Hal & Hin).
  exists p. assert (wf_allowed_ip (host_ip o)) as Hwf by (by vm_compute). cbn [fmap list_fmap] in Hal, Hin.
  split_and!; [by simplify_map_eq|by simplify_map_eq| |].
  - unfold is_allowed_ip. unfold allowed_ips_from_iter in Hal. cbn [insert_all] in Hal.
    destruct (insert_valid _ tt allowed_ips_new Hwf) as (nt & Hnt & Hins). rewrite Hins in Hal. cbn in Hal.
    apply (inj Ret) in Hal as <-. by rewrite (host_route _ _ _ _ _ Hnt).
  - cbn [insert_all] in Hin.
    destruct (insert_valid _ (next_ref d) (peers_by_ip d) Hwf) as (nt & Hnt & Hins). rewrite Hins in Hin. cbn in Hin.
    apply (inj Ret) in Hin as <-. by rewrite (host_route _ _ _ _ _ Hnt).
Qed.

(** A new key on a node with a free address. *)
Lemma grant_ok n st d w (Hnode : node_ok n st d w) (Hn : Z.of_nat (S n) < PERIOD)
    k wr (Hk : length k = 32%nat) (Hnew : hex_encode k ∉ registered_peers (inner st))
    (Hfree : available_ips (inner st) <> ∅) :
  exists o st' d' w' wr' r p,
    handle_registration (base64_encode k) st (Ret (d, w)) wr
    = (success_response st' (inner st') o, st', Ret (d', w'), wr')
    /\ o ∈ available_ips (inner st) /\ peer_to_octet (inner st') !! hex_encode k = Some o
    /\ node_ok (drawn_by st st' + n) st' d' w' /\ peers d' !! k = Some r /\ heap d' !! r = Some p
    /\ is_allowed_ip (V4 (tunnel_ip st o)) p = true
    /\ allowed_ips_find (V4 (tunnel_ip st o)) (peers_by_ip d') = Some r.
Proof.
  unfold handle_registration. rewrite trim_base64, base64_decode_encode.
  rewrite bool_decide_eq_true_2 by done. cbn [negb].
  destruct (fill_caches_ok n st d w Hnode) as (r0 & w1 & Ef & Hw). rewrite Ef.
  assert (exists i, r0 = Ok i) as [i ->].
  { unfold fill_caches in Ef. destruct (server_pubkey_cache (inner st)); [simplify_eq; eauto|].
    destruct (reachable_inv _ _ _ _ _ (no_dev _ _ _ _ Hnode)) as [s0 Hi].
    destruct (api_get_report s0 n d w Hi (no_port _ _ _ _ Hnode)) as (report & w2 & Hg & _). rewrite Hg in Ef.
    pose proof (no_key _ _ _ _ Hnode) as Hkey. unfold own_key in Ef.
    destruct (key_pair d); [|done]. cbn in Ef. simplify_eq. eauto. }
  apply fill_caches_pool in Ef. pose proof Ef as (Er & Ea & Ep & _).
  assert (node_ok n (with_inner i st) d w1) as Hok by (by eapply node_later; [| |exact Hnode]).
  pose proof (no_pool _ _ _ _ Hok) as Hpool. cbn [with_inner inner] in Hpool.
  assert (peer_to_octet i !! hex_encode k = None) as Hnone
    by (apply not_elem_of_dom; by rewrite (pool_peers _ Hpool), Er).
  unfold register_peer. rewrite registered_octet, Hnone by done.
  destruct (pick (available_ips i)) as [o|] eqn:Eo; [|apply pick_none in Eo; congruence]. apply pick_some in Eo.
  destruct (instant_now wr) as [now wr1].
  destruct (add_peer_node n st d w1 k o i now) as (d' & w' & Hu & Hok'); try done.
  rewrite set_peer_device, Hu; [|done|by unfold tunnel_ip; destruct (subnet_prefix st) as [[? ?] ?]].
  destruct (host_peer_added _ _ _ _ _ _ Hu) as (p & Hps & Hh & Hal & Hroute).
  exists o, (with_inner (assign (hex_encode k) o now i) st), d', w', wr1, (next_ref d), p.
  split_and!; try done; [by rewrite <- Ea|cbn; by simplify_map_eq|].
  unfold drawn_by in *. cbn in *. by rewrite <- Er.
Qed.

(** C15. Registration does what it answers: a new key gets a free address, the
    response names it, and from then on the device routes that address to the peer
    with that key and accepts packets of that peer from it. *)
Theorem registration_grants n st d w (Hnode : node n st d w) (Hn : Z.of_nat (S n) < PERIOD)
    k wr (Hk : length k = 32%nat) (Hnew : hex_encode k ∉ registered_peers (inner st))
    (Hfree : available_ips (inner st) <> ∅) :
  exists o st' d' w' wr' r p,
    handle_registration (base64_encode k) st (Ret (d, w)) wr
    = (success_response st' (inner st') o, st', Ret (d', w'), wr')
    /\ o ∈ available_ips (inner st) /\ peer_to_octet (inner st') !! hex_encode k = Some o
    /\ peers d' !! k = Some r /\ heap d' !! r = Some p
    /\ is_allowed_ip (V4 (tunnel_ip st o)) p = true
    /\ allowed_ips_find (V4 (tunnel_ip st o)) (peers_by_ip d') = Some r.
Proof.
  apply node_inv in Hnode.
  destruct (grant_ok n st d w Hnode Hn k wr Hk Hnew Hfree) as (o & st' & d' & w' & wr' & r & p & Er & Ho & Hp & _ & Hrest).
  by exists o, st', d', w', wr', r, p.
Qed.

(** C40. The reaper and a registration race: a peer that registers after the reaper has
    asked the device for its peers, and before it locks the tables, is told that it is
    registered and then removed by the sweep, whatever its order. *)
Theorem reaper_race n st d w (Hnode : node n st d w) (Hn : Z.of_nat (S n) < PERIOD)
    k bs wr wr' (Hk : length k = 32%nat) (Hnew : hex_encode k ∉ registered_peers (inner st))
    (Hfree : available_ips (inner st) <> ∅) :
  exists report w1 o st' d' w' wr1,
    uapi_get_peers (Ret (d, w)) = (Ok (own_key d, own_port d, report), Ret (d, w1))
    /\ handle_registration (base64_encode k) st (Ret (d, w1)) wr
       = (success_response st' (inner st') o, st', Ret (d', w'), wr1)
    /\ is_Some (peers d' !! k)
    /\ forall order, order ≡ₚ map_to_list (peer_to_octet (inner st')) ->
       exists st2 d2 wr2, sweep order bs report st' (Ret (d', w')) wr' = Ret (st2, Ret (d2, w'), wr2)
         /\ hex_encode k ∉ registered_peers (inner st2) /\ peers d2 !! k = None.
Proof.
  apply node_inv in Hnode. destruct (query_ok n st d w Hnode) as (report & w1 & Eq & Hok & Hreport).
  destruct (grant_ok n st d w1 Hok Hn k wr Hk Hnew Hfree)
    as (o & st' & d' & w' & wr1 & r & p & Er & _ & _ & Hok' & Hr & _).
  exists report, w1, o, st', d', w', wr1. split_and!; [done|done|by rewrite Hr|]. intros order Ho.
  destruct (sweep_ok _ st' d' w' order bs report wr' Hok' Ho) as (st2 & d2 & wr2 & E2 & Hok2 & Hgone).
  assert (hex_encode k ∉ registered_peers (inner st2)) as Hk2.
  { apply Hgone, eq_None_not_Some. by rewrite Hreport. }
  exists st2, d2, wr2. split_and!; [done|done|]. apply eq_None_not_Some. intros Hs. apply Hk2.
  apply (no_keys _ _ _ _ Hok2). by exists k.
Qed.

(** A key that the device has and the server does not, as a request whose answer
    was lost leaves it behind, panics the device when it is registered. *)
Theorem unknown_peer_panics st d w k wr
    (Hk : length k = 32%nat) (Hcache : server_pubkey_cache (inner st) <> None)
    (Hpool : pool_inv (inner st)) (Hnew : hex_encode k ∉ registered_peers (inner st))
    (Hfree : available_ips (inner st) <> ∅) (Hd : is_Some (peers d !! k)) :
  exists body, handle_registration (base64_encode k) st (Ret (d, w)) wr
    = ((500, body), with_inner (inner st) st, Panic, wr).
Proof.
  unfold handle_registration. rewrite trim_base64, base64_decode_encode.
  rewrite bool_decide_eq_true_2 by done. cbn [negb]. unfold fill_caches.
  destruct (server_pubkey_cache (inner st)); [|done]. unfold register_peer. rewrite registered_octet by done.
  assert (peer_to_octet (inner st) !! hex_encode k = None) as ->
    by (apply not_elem_of_dom; by rewrite (pool_peers _ Hpool)).
  destruct (pick (available_ips (inner st))) as [o|] eqn:Eo; [|apply pick_none in Eo; congruence].
  rewrite set_peer_device; [|done|by unfold tunnel_ip; destruct (subnet_prefix st) as [[? ?] ?]].
  unfold update_peer. destruct Hd as [r ->]. by eexists.
Qed.
End Link.

(** An active peer is taken for one that never connected: a peer whose last
    handshake is less than a second old, and that registered more than ten minutes
    ago, is removed. *)
Theorem active_peer_reaped (order : list (bytes * Z)) (report : gmap bytes (option Z)) now i k o registered
    (Hin : (k, o) ∈ order) (Hreport : report !! k = Some (Some 0))
    (Hreg : peer_registered_at i !! k = Some registered)
    (Hage : STALE_NEVER_CONNECTED_SECS < as_secs (duration_since now registered)) :
  (k, o) ∈ stale_peers order report now i.
Proof.
  unfold stale_peers. apply list_elem_of_In, List.filter_In. split; [by apply list_elem_of_In|].
  rewrite Hreport, Hreg. cbn. by apply Z.ltb_lt.
Qed.

(** ** Examples *)

#[local] Existing Instance toy_crypto.
#[local] Existing Instance toy_laws.
#[local] Existing Instance example_env.
#[local] Existing Instance example_env_monotone.
#[local] Existing Instance toy_ethereum.
#[local] Existing Instance toy_ethereum_laws.
#[local] Existing Instance toy_ip.
#[local] Existing Instance toy_ip_laws.
#[local] Existing Instance toy_hex.
#[local] Existing Instance toy_hex_laws.
#[local] Existing Instance toy_base64.
#[local] Existing Instance toy_base64_laws.

#[local] Existing Instance toy_pick.
#[local] Existing Instance toy_pick_laws.
#[local] Existing Instance toy_json.

Definition example_order (d : Device) : list (bytes * nat) := map_to_list (peers d).

Lemma example_order_perm d : example_order d ≡ₚ map_to_list (peers d).
Proof. reflexivity. Qed.

Definition example_server : RegistrationState :=
  registration_new (example_env_var true) (str "wg0") (x0a, x00, x00) (mkSnapshot 84532 [] [] 1000000 10485760)
    (str "203.0.113.1").

Lemma example_free : all_octets <> ∅.
Proof.
  intros He. assert (2 ∈ all_octets) as Hin by (apply all_octets_range; lia). rewrite He in Hin.
  by apply elem_of_empty in Hin.
Qed.

(** A node with a key and no peers. *)
Definition fresh (d : Device) : bool :=
  keyed d && bool_decide (peers d = ∅) && (listen_port d =? 0).

Lemma example_node :
  exists es d w, example_keyed true = Ret (es, d, w)
    /\ node example_from_json example_os example_order [] []
         (fun _ _ => Err []) (example_env_var true) [] [] 0 example_server d w.
Proof.
  destruct (ends_ret fresh (example_keyed true)) as (es & d & w & Hrun & Hf); [by vm_compute|].
  exists es, d, w. split; [exact Hrun|].
  apply andb_true_iff in Hf as [[Hk He%bool_decide_eq_true]%andb_true_iff Hp%Z.eqb_eq].
  apply node_new; [by eapply example_keyed_reachable|exact He|by apply keyed_some|by rewrite Hp].
Qed.

(** A request that registers the key of the toy parser. *)
Definition example_request : Request :=
  mkHttpRequest (Some 3%nat) None Post (str "/v1/register") (Some (str "key")).


Lemma registration_grants_witness :
  exists es d w, example_keyed true = Ret (es, d, w)
    /\ exists o st' d' w' wr' r p,
      handle_registration (U := device_uapi example_os example_order [] [])
        (base64_encode (replicate 32 x07)) example_server (Ret (d, w)) (mkWorld 0 0)
      = (success_response st' (inner st') o, st', Ret (d', w'), wr')
      /\ o ∈ available_ips (inner example_server)
      /\ peer_to_octet (inner st') !! hex_encode (replicate 32 x07) = Some o
      /\ peers d' !! replicate 32 x07 = Some r /\ heap d' !! r = Some p
      /\ is_allowed_ip (V4 (tunnel_ip example_server o)) p = true
      /\ allowed_ips_find (V4 (tunnel_ip example_server o)) (peers_by_ip d') = Some r.
Proof.
  destruct example_node as (es & d & w & Hrun & Hnode). exists es, d, w. split; [exact Hrun|].
  refine (registration_grants (EC := example_env_epoch) example_from_json example_os example_os_willing
            example_order _ [] [] (fun _ _ => Err []) (example_env_var true) [] [] 0 example_server d w Hnode _
            (replicate 32 x07) (mkWorld 0 0) _ _ _); [reflexivity|reflexivity|reflexivity| |].
  - intros Hin. by apply elem_of_empty in Hin.
  - exact example_free.
Defined.

Lemma reaper_race_witness :
  exists es d w, example_keyed true = Ret (es, d, w)
    /\ exists report w1 o st' d' w' wr1,
      uapi_get_peers (U := device_uapi example_os example_order [] []) (Ret (d, w))
      = (Ok (own_key d, own_port d, report), Ret (d, w1))
      /\ handle_registration (U := device_uapi example_os example_order [] [])
           (base64_encode (replicate 32 x07)) example_server (Ret (d, w1)) (mkWorld 0 0)
         = (success_response st' (inner st') o, st', Ret (d', w'), wr1)
      /\ is_Some (peers d' !! replicate 32 x07)
      /\ forall order, order ≡ₚ map_to_list (peer_to_octet (inner st')) ->
         exists st2 d2 wr2,
           sweep (U := device_uapi example_os example_order [] []) order [] report st' (Ret (d', w')) (mkWorld 9 0)
           = Ret (st2, Ret (d2, w'), wr2)
           /\ hex_encode (replicate 32 x07) ∉ registered_peers (inner st2) /\ peers d2 !! replicate 32 x07 = None.
Proof.
  destruct example_node as (es & d & w & Hrun & Hnode). exists es, d, w. split; [exact Hrun|].
  refine (reaper_race (EC := example_env_epoch) example_from_json example_os example_os_willing
            example_order _ [] [] (fun _ _ => Err []) (example_env_var true) [] [] 0 example_server d w Hnode _
            (replicate 32 x07) [] (mkWorld 0 0) (mkWorld 9 0) _ _ _); [reflexivity|reflexivity|reflexivity| |].
  - intros Hin. by apply elem_of_empty in Hin.
  - exact example_free.
Defined.

Lemma uapi_report_faithful_witness :
  exists es d w, example_run true = Ret (es, d, w)
    /\ exists report w',
      uapi_get_peers (U := device_uapi example_os example_order [] []) (Ret (d, w))
      = (Ok (own_key d, own_port d, report), Ret (d, w'))
      /\ (forall s, is_Some (report !! s) <-> exists k, s = hex_encode k /\ is_Some (peers d !! k))
      /\ forall k r, peers d !! k = Some r ->
           exists time, age_of d w w' r time /\ report !! hex_encode k = Some (as_secs <$> time).
Proof.
  destruct (example_reachable true (fun d => listen_port d =? 0)) as (es & d & w & Hrun & Hr & Hp%Z.eqb_eq);
    [by vm_compute|].
  exists es, d, w. split; [exact Hrun|].
  assert (in_width 16 (listen_port d)) as Hport by (rewrite Hp; split; [lia|reflexivity]).
  exact (uapi_report_faithful (EC := example_env_epoch) example_from_json example_os
           example_order example_order_perm [] [] (example_env_var true) 1 d w Hr Hport).
Defined.

(** The example device with the cache of its server filled. *)
Definition example_cached : RegistrationState :=
  with_inner (mkInner ∅ all_octets ∅ ∅ (Some (str "key")) (Some 51820) ∅) example_server.

Lemma unknown_peer_panics_witness :
  exists es d w, example_run true = Ret (es, d, w)
    /\ exists body, handle_registration (U := device_uapi example_os example_order [] [])
         (base64_encode (replicate 32 x07)) example_cached (Ret (d, w)) (mkWorld 0 0)
       = ((500, body), with_inner (inner example_cached) example_cached, Panic, mkWorld 0 0).
Proof.
  destruct (example_reachable true (fun d => bool_decide (is_Some (peers d !! replicate 32 x07))))
    as (es & d & w & Hrun & _ & Hp%bool_decide_eq_true); [by vm_compute|].
  exists es, d, w. split; [exact Hrun|].
  refine (unknown_peer_panics example_from_json example_os example_os_willing example_order [] []
            example_cached d w (replicate 32 x07) (mkWorld 0 0) eq_refl _ _ _ _ Hp).
  - discriminate.
  - apply (pool_same (mkInner ∅ all_octets ∅ ∅ None None ∅)); [|exact pool_new]. split_and!; reflexivity.
  - intros Hin. by apply elem_of_empty in Hin.
  - exact example_free.
Defined.

Lemma active_peer_reaped_witness :
  ([x61], 7) ∈ stale_peers [([x61], 7)] {[ [x61] := Some 0 ]} (mkInstant 1000 0)
    (mkInner {[ [x61] ]} ∅ {[ [x61] := 7 ]} {[ [x61] := mkInstant 300 0 ]} None None ∅).
Proof.
  apply (active_peer_reaped [([x61], 7)] {[ [x61] := Some 0 ]} (mkInstant 1000 0) _ [x61] 7 (mkInstant 300 0));
    [by left|by vm_compute|by vm_compute|by vm_compute].
Defined.
