(* ===== verification/DevicePayments.v ===== *)
(** * Payments at the device

    What the payment handlers and the packet handlers do to a peer's quota: a
    payment is credited exactly when every check passes, a signalled payment
    travels from the node to the client and back, and the traffic let through is
    bounded by what was granted. *)

From Stdlib Require Import ZArith Lia.
From stdpp Require Import base numbers list option gmap.
From S2P Require Import Prelude Errors Clock Packet Crypto Session Handshake RateLimiter Tunnel IndexLfsr Quota PaymentProtocol RustText NetText Eip3009 Settlement AllowedIps Device DeviceHandlers DeviceTotal DeviceRuns.

(** ** Frames: what an operation leaves alone *)

Definition to_tun (e : effect) : Z :=
  match e with WriteTun4 p | WriteTun6 p => Z.of_nat (length p) | SendNet _ _ _ => 0 end.
Definition tun_bytes (es : list effect) : Z := foldr Z.add 0 (to_tun <$> es).

(** Everything is sent to the network. *)
Fixpoint to_net (es : list effect) : Prop :=
  match es with
  | [] => True
  | SendNet _ _ _ :: es => to_net es
  | _ => False
  end.

Lemma to_net_bytes es : to_net es -> tun_bytes es = 0.
Proof.
  unfold tun_bytes. by induction es as [|[] es IH].
Qed.

Section Frames.
Context `{C : Crypto} `{E : Env} `{Eth : Ethereum} `{I : IpCrates} `{H : Hex}.
Context (from_json : bytes -> result bytes SettleResponse).

(** Only the tunnel of the peer changes, and nothing goes to the interface. *)
Definition only_tunnel (es : list effect) (p p' : Peer) : Prop :=
  to_net es /\ exists t, p' = with_tunnel t p.

Lemma only_tunnel_refl p : only_tunnel [] p p.
Proof. split; [done|]. exists (tunnel p). by destruct p. Qed.

Lemma only_tunnel_quota es p p' : only_tunnel es p p' -> quota p' = quota p.
Proof. by intros [_ [t ->]]. Qed.

Lemma send_encapsulated_frame pk sock a p w es p' w' :
  send_encapsulated pk sock a p w = Ret (es, p', w') -> only_tunnel es p p'.
Proof.
  unfold send_encapsulated. intros. invert_binds.
  match goal with H : match ?r with _ => _ end = _ |- _ => destruct r end;
    simplify_eq; (split; [done|by eexists]).
Qed.

Lemma send_payment_required_frame d p sock a w es p' w' :
  send_payment_required d p sock a w = Ret (es, p', w') -> only_tunnel es p p'.
Proof.
  unfold send_payment_required. intros. invert_binds.
  match goal with H : match ?o with _ => _ end = _ |- _ => destruct o end.
  - by eapply send_encapsulated_frame.
  - simplify_eq. apply only_tunnel_refl.
Qed.

Lemma send_payment_accepted_frame d p sock a w es p' w' :
  send_payment_accepted d p sock a w = Ret (es, p', w') -> only_tunnel es p p'.
Proof.
  unfold send_payment_accepted. destruct (first_ipv4 p); intros.
  - invert_binds. by eapply send_encapsulated_frame.
  - simplify_eq. apply only_tunnel_refl.
Qed.

Lemma payment_client_frame d p payload sock a w es p' w' :
  handle_payment_signal_client d p payload sock a w = Ret (es, p', w') -> only_tunnel es p p'.
Proof.
  unfold handle_payment_signal_client. destruct payload as [|t payload];
    [intros; simplify_eq; apply only_tunnel_refl|].
  destruct (_ =? _); [|destruct (_ =? _)]; intros; invert_binds.
  - match goal with H : match ?o with _ => _ end = _ |- _ => destruct o end.
    + by eapply send_encapsulated_frame.
    + simplify_eq. apply only_tunnel_refl.
  - simplify_eq. apply only_tunnel_refl.
  - simplify_eq. apply only_tunnel_refl.
Qed.

(** ** When a payment is credited *)

(** The checks of [handle_payment_submit] on a payload, for a peer whose quota is
    [q]. *)
Definition payment_valid (d : Device) (q : BandwidthQuota) (payload : bytes) (s : PaymentSubmit) : Prop :=
  exists wallet,
    payment_wallet d = Some wallet
    /\ PaymentSubmit_decode payload = Ret (Some s)
    /\ sub_to s = ethereum_address wallet
    /\ amount_per_quota (payment_config d) <= sub_value s
    /\ sub_nonce s ∉ used_nonces q
    /\ verify_authorization (gateway_domain (payment_config d)) (submit_signed s)
       = Ret (Some (sub_from s)).

(** The gateway settled the payment, or none is configured. *)
Definition settled (post : bytes -> SettleRequest -> result bytes bytes) (d : Device)
    (s : PaymentSubmit) : Prop :=
  forall client wallet, settlement_client d = Some client -> payment_wallet d = Some wallet ->
  exists resp, settle post from_json client
                 (build_settle_request (payment_config d) s (ethereum_address wallet)) = Ok resp
               /\ success resp = true.

Definition recorded (nonce : bytes) (q : BandwidthQuota) : BandwidthQuota :=
  snd (check_and_record_nonce nonce q).

(** The quota of [q'] differs from [q] at most in its nonces. *)
Definition only_nonces (q q' : BandwidthQuota) : Prop :=
  remaining_bytes q' = remaining_bytes q /\ blocked q' = blocked q
  /\ total_consumed q' = total_consumed q /\ payment_count q' = payment_count q
  /\ used_nonces q ⊆ used_nonces q'.

Lemma only_nonces_refl q : only_nonces q q.
Proof. by split_and!. Qed.

Lemma only_nonces_recorded n q : only_nonces q (recorded n q).
Proof. unfold recorded, only_nonces. cbn. split_and!; try done. set_solver. Qed.

(** The outcome of a submission. *)
Inductive submission (post : bytes -> SettleRequest -> result bytes bytes) (d : Device)
    (q : BandwidthQuota) (payload : bytes) : BandwidthQuota -> Prop :=
| Credited s :
    payment_valid d q payload s -> settled post d s ->
    submission post d q payload (credit (quota_bytes (payment_config d)) (recorded (sub_nonce s) q))
| Refused q' :
    (forall s, payment_valid d q payload s -> ~ settled post d s) -> only_nonces q q' ->
    submission post d q payload q'.

Definition submit_result post d q payload (es : list effect) (p p' : Peer) : Prop :=
  to_net es /\ exists q' t, p' = with_tunnel t (with_quota (Some q') p)
                                   /\ submission post d q payload q'.

Lemma refused_result post d q payload p q' :
  quota p = Some q ->
  (forall s, payment_valid d q payload s -> ~ settled post d s) -> only_nonces q q' ->
  submit_result post d q payload [] p (with_quota (Some q') p).
Proof.
  intros Hq Hno Hn. split; [done|]. exists q', (tunnel p). split; [by destruct p|].
  by apply Refused.
Qed.

Lemma with_quota_same p q : quota p = Some q -> with_quota (Some q) p = p.
Proof. intros Hq. destruct p. cbn in *. by rewrite Hq. Qed.

Lemma accepted_result post d q payload p s sock a w es p' w' :
  payment_valid d q payload s -> settled post d s ->
  send_payment_accepted d (credit_peer (quota_bytes (payment_config d))
    (with_quota (Some (recorded (sub_nonce s) q)) p)) sock a w = Ret (es, p', w') ->
  submit_result post d q payload es p p'.
Proof.
  intros Hv Hs Hsend. apply send_payment_accepted_frame in Hsend as [Ht [t ->]].
  split; [done|]. exists (credit (quota_bytes (payment_config d)) (recorded (sub_nonce s) q)), t.
  split; [done|]. by apply Credited.
Qed.

(** The part after the nonce check, for the peer with the nonce recorded. *)
Lemma redeem_quota post d p q payload s wallet sock a w es p' w' :
  payment_wallet d = Some wallet -> PaymentSubmit_decode payload = Ret (Some s) ->
  sub_to s = ethereum_address wallet -> amount_per_quota (payment_config d) <= sub_value s ->
  sub_nonce s ∉ used_nonces q -> quota p = Some q ->
  redeem_payment post from_json d wallet s (with_quota (Some (recorded (sub_nonce s) q)) p) sock a w
    = Ret (es, p', w') ->
  submit_result post d q payload es p p'.
Proof.
  intros Ew Hdec Hto Hval Hn Hq Hh. unfold redeem_payment in Hh.
  set (p1 := with_quota (Some (recorded (sub_nonce s) q)) p) in *.
  assert (forall es p' w', Ret (@nil effect, p1, w) = Ret (es, p', w') ->
    (payment_valid d q payload s -> ~ settled post d s) ->
    submit_result post d q payload es p p') as Hrefuse.
  { intros ? ? ? [= <- <- <-] Hno. apply refused_result; [done| |apply only_nonces_recorded].
    intros s' Hv. assert (s' = s) as -> by (destruct Hv as (_ & _ & Hd & _); congruence).
    by apply Hno. }
  destruct (verify_authorization (gateway_domain (payment_config d)) (submit_signed s))
    as [[signer|]|] eqn:Ev; cbn [outcome_bind] in Hh; [| |done]; cycle 1.
  { eapply Hrefuse; [exact Hh|]. intros (_ & _ & _ & _ & _ & _ & Hver). congruence. }
  destruct (bool_decide (signer = sub_from s)) eqn:Es; cbn [negb] in Hh; bprop; cycle 1.
  { eapply Hrefuse; [exact Hh|]. intros (_ & _ & _ & _ & _ & _ & Hver). congruence. }
  subst signer. assert (payment_valid d q payload s) as Hvalid by (exists wallet; by split_and!).
  destruct (settlement_client d) as [client|] eqn:Ec; cycle 1.
  { eapply accepted_result; [done| |exact Hh]. intros c wl Hc. congruence. }
  destruct (settle post from_json client _) as [resp|e] eqn:Eset; cycle 1.
  { eapply Hrefuse; [exact Hh|]. intros _ Hset.
    destruct (Hset client wallet Ec Ew) as (r & Hr & _). congruence. }
  destruct (success resp) eqn:Esucc; cycle 1.
  { eapply Hrefuse; [exact Hh|]. intros _ Hset.
    destruct (Hset client wallet Ec Ew) as (r & Hr & Hs). congruence. }
  eapply accepted_result; [done| |exact Hh]. intros c wl Hc Hwl. exists resp.
  split; [congruence|done].
Qed.

Lemma submit_quota post d p q payload sock a w es p' w' :
  quota p = Some q ->
  handle_payment_submit post from_json d p payload sock a w = Ret (es, p', w') ->
  submit_result post d q payload es p p'.
Proof.
  intros Hq Hh. unfold handle_payment_submit in Hh.
  assert (forall es p' w', Ret (@nil effect, p, w) = Ret (es, p', w') ->
    (forall s, payment_valid d q payload s -> ~ settled post d s) ->
    submit_result post d q payload es p p') as Hrefuse.
  { intros ? ? ? [= <- <- <-] Hno. rewrite <- (with_quota_same p q Hq) at 2.
    by apply refused_result; [| |apply only_nonces_refl]. }
  destruct (payment_wallet d) as [wallet|] eqn:Ew; cycle 1.
  { eapply Hrefuse; [exact Hh|]. intros s (wl & Hw & _). congruence. }
  destruct (PaymentSubmit_decode_total payload) as (o & Hdec & _). rewrite Hdec in Hh.
  cbn [outcome_bind] in Hh. destruct o as [s|]; cycle 1.
  { eapply Hrefuse; [exact Hh|]. intros s (wl & _ & Hd & _). congruence. }
  assert (forall s', payment_valid d q payload s' -> s' = s) as Huniq
    by (intros s' (_ & _ & Hd & _); congruence).
  destruct (bool_decide (sub_to s = ethereum_address wallet)) eqn:Eto; cbn [negb] in Hh; bprop; cycle 1.
  { eapply Hrefuse; [exact Hh|]. intros s' Hv. pose proof (Huniq s' Hv) as ->.
    destruct Hv as (wl & Hw & _ & Hto & _). congruence. }
  destruct (sub_value s <? amount_per_quota (payment_config d)) eqn:Eval; bprop.
  { eapply Hrefuse; [exact Hh|]. intros s' Hv. pose proof (Huniq s' Hv) as ->.
    destruct Hv as (_ & _ & _ & _ & Hval & _). lia. }
  unfold use_nonce in Hh. rewrite Hq in Hh. cbn [check_and_record_nonce] in Hh.
  destruct (bool_decide (sub_nonce s ∉ used_nonces q)) eqn:En; cbn [negb] in Hh; bprop;
    [by eapply redeem_quota|].
  revert Hh. intros [= <- <- <-]. apply (refused_result _ _ _ _ _ (recorded (sub_nonce s) q));
    [done| |apply only_nonces_recorded].
  intros s' Hv. pose proof (Huniq s' Hv) as ->. by destruct Hv as (_ & _ & _ & _ & _ & Hn & _).
Qed.

Lemma submit_no_quota post d p payload sock a w es p' w' :
  quota p = None ->
  handle_payment_submit post from_json d p payload sock a w = Ret (es, p', w') -> to_net es.
Proof.
  intros Hq Hh. unfold handle_payment_submit, redeem_payment, use_nonce in Hh. rewrite Hq in Hh.
  repeat (invert_binds; repeat case_match; simplify_eq; try done);
    by match goal with Hs : send_payment_accepted _ _ _ _ _ = _ |- _ =>
         apply send_payment_accepted_frame in Hs as [? _] end.
Qed.

(** ** The effect of one packet on a quota *)

(** [qstep B q q' n]: the quota goes from [q] to [q'] and [n] bytes are let through;
    [B] is what a payment buys. *)
Inductive qstep (B : Z) (q : BandwidthQuota) : BandwidthQuota -> Z -> Prop :=
| QSame q' : only_nonces q q' -> qstep B q q' 0
| QCharge n b q' : 0 <= n -> consume n q = (b, q') -> qstep B q q' (if b then n else 0)
| QCredit nonce : nonce ∉ used_nonces q -> qstep B q (credit B (recorded nonce q)) 0.

Lemma qstep_refl B q : qstep B q q 0.
Proof. apply QSame, only_nonces_refl. Qed.

Lemma submission_qstep post d q payload q' :
  submission post d q payload q' -> qstep (quota_bytes (payment_config d)) q q' 0.
Proof.
  intros [s (wl & _ & _ & _ & _ & Hn & _) _|q2 _ Hn]; [by apply QCredit|by apply QSame].
Qed.

(** A step of a peer: its quota makes a [qstep], with the bytes written to the
    interface. *)
Definition peer_qstep (d : Device) (p p' : Peer) (n : Z) : Prop :=
  forall q, quota p = Some q ->
  exists q', quota p' = Some q' /\ qstep (quota_bytes (payment_config d)) q q' n.

Lemma peer_qstep_same d p p' : quota p' = quota p -> peer_qstep d p p' 0.
Proof. intros Heq q Hq. exists q. rewrite Heq. split; [done|apply qstep_refl]. Qed.

Lemma peer_qstep_frame d p p' p2 n : quota p' = quota p2 -> peer_qstep d p p2 n -> peer_qstep d p p' n.
Proof. intros Heq Hs q Hq. rewrite Heq. by apply Hs. Qed.

Lemma peer_qstep_frame_l d p p' p2 n : quota p = quota p2 -> peer_qstep d p2 p' n -> peer_qstep d p p' n.
Proof. intros Heq Hs q Hq. apply Hs. by rewrite <- Heq. Qed.

Lemma only_tunnel_qstep d es p p' : only_tunnel es p p' -> peer_qstep d p p' (tun_bytes es).
Proof. intros [->%to_net_bytes [t ->]]. by apply peer_qstep_same. Qed.

Lemma deliver_signal_qstep post d packet sock reply_to p w es p' w' :
  deliver_signal from_json post d packet sock reply_to p w = Ret (es, p', w') ->
  to_net es /\ peer_qstep d p p' 0.
Proof.
  unfold deliver_signal. intros Hd.
  assert (forall es p' w', Ret (@nil effect, p, w) = Ret (es, p', w') ->
    to_net es /\ peer_qstep d p p' 0) as Hsame.
  { intros ? ? ? [= <- <- <-]. split; [done|by apply peer_qstep_same]. }
  apply bind_Ret_inv in Hd as ([payload|] & _ & Hd); [|by eapply Hsame].
  apply bind_Ret_inv in Hd as ([dst|] & _ & Hd); [|by eapply Hsame].
  split_if.
  - apply bind_Ret_inv in Hd as (a & _ & Hd). split.
    + destruct (quota p) as [q|] eqn:Hq; [by eapply submit_quota in Hd as [? _]|].
      by eapply submit_no_quota.
    + intros q Hq. eapply submit_quota in Hd as (_ & q' & t & -> & Hs); [|done].
      exists q'. split; [done|]. by eapply submission_qstep.
  - apply bind_Ret_inv in Hd as ([src|] & _ & Hd); [|by eapply Hsame].
    split_if; [|by eapply Hsame]. apply bind_Ret_inv in Hd as (a & _ & Hd).
    apply payment_client_frame in Hd as Hf. destruct Hf as [Ht [t ->]].
    split; [done|by apply peer_qstep_same].
Qed.

(** The bytes of [n] that pass. *)
Definition passed (adm : admission) (n : nat) : Z :=
  match adm with Passed => Z.of_nat n | _ => 0 end.

Lemma charge_qstep d n p adm p' :
  is_server (payment_config d) = true -> charge d n p = (adm, p') ->
  peer_qstep d p p' (passed adm n) /\ (adm = Exhausted -> quota p <> None).
Proof.
  intros Hs. unfold charge. rewrite Hs. destruct (quota p) as [q|] eqn:Hq; cycle 1.
  { intros [= <- <-]. split; [|done]. intros q'. congruence. }
  destruct (is_blocked q).
  { intros [= <- <-]. split; [by apply peer_qstep_same|done]. }
  destruct (consume (Z.of_nat n) q) as [b q'] eqn:Ec. intros [= <- <-]. split.
  - intros q0 Hq0. assert (q0 = q) as -> by congruence. exists q'. split; [done|].
    replace (passed (if b then Passed else Exhausted) n) with (if b then Z.of_nat n else 0)
      by (by destruct b).
    eapply QCharge; [lia|done].
  - by destruct b.
Qed.

(** ** The handlers *)

Section Server.
Context (d : Device) (Hserver : is_server (payment_config d) = true).

Lemma deliver_v4_qstep post pk src sock reply_to p w skip es p' w' :
  deliver_v4 from_json post d pk src sock reply_to p w = Ret (skip, es, p', w') ->
  peer_qstep d p p' (tun_bytes es).
Proof.
  unfold deliver_v4. intros Hd. apply bind_Ret_inv in Hd as (sig & _ & Hd). destruct sig.
  { invert_binds. simplify_eq.
    match goal with H : deliver_signal _ _ _ _ _ _ _ _ = _ |- _ =>
      by apply deliver_signal_qstep in H as [->%to_net_bytes ?] end. }
  split_if; [|simplify_eq; by apply peer_qstep_same].
  destruct (charge d (length pk) p) as [adm p1] eqn:Ec.
  destruct (charge_qstep d _ _ _ _ Hserver Ec) as [Hq _]. destruct adm.
  - by simplify_eq.
  - invert_binds. simplify_eq.
    match goal with H : send_payment_required _ _ _ _ _ = _ |- _ =>
      apply send_payment_required_frame in H as [->%to_net_bytes [t ->]] end.
    by eapply peer_qstep_frame; [|exact Hq].
  - simplify_eq. unfold tun_bytes. csimpl. cbn [to_tun]. by rewrite Z.add_0_r.
Qed.

Lemma deliver_v6_qstep pk src p skip es p' :
  deliver_v6 d pk src p = (skip, es, p') -> peer_qstep d p p' (tun_bytes es).
Proof.
  unfold deliver_v6. split_if; [|intros; simplify_eq; by apply peer_qstep_same].
  destruct (charge d (length pk) p) as [adm p1] eqn:Ec.
  destruct (charge_qstep d _ _ _ _ Hserver Ec) as [Hq _].
  destruct adm; intros; simplify_eq; try done.
  unfold tun_bytes. csimpl. cbn [to_tun]. by rewrite Z.add_0_r.
Qed.

Lemma flush_loop_tun fuel send t w es t' w' :
  (forall b, to_net [send b]) ->
  flush_loop fuel send t w = Ret (es, t', w') -> to_net es.
Proof.
  intros Hsend. revert t w es t' w'. induction fuel as [|fuel IH]; intros t w es t' w' Hf;
    cbn [flush_loop] in Hf; [by simplify_eq|].
  invert_binds. match goal with H : match ?r with _ => _ end = _ |- _ => destruct r end;
    simplify_eq; try done.
  invert_binds. simplify_eq. specialize (Hsend packet). cbn in *.
  destruct (send packet); [|done..]. eauto.
Qed.

Lemma flush_peer_frame send p w es p' w' :
  (forall b, to_net [send b]) ->
  flush_peer send p w = Ret (es, p', w') -> only_tunnel es p p'.
Proof.
  intros Hsend Hf. unfold flush_peer in Hf. invert_binds. simplify_eq.
  split; [by eapply flush_loop_tun|by eexists].
Qed.

Lemma set_endpoint_quota a p : quota (set_endpoint a p) = quota p.
Proof. unfold set_endpoint. by case_bool_decide. Qed.

Lemma connect_endpoint_quota os p b p' : connect_endpoint os p = Ret (b, p') -> quota p' = quota p.
Proof.
  unfold connect_endpoint. destruct (ep_conn _); [by intros; simplify_eq|].
  destruct (ep_addr _); cbn; [|done]. destruct os; by intros; simplify_eq.
Qed.

Lemma udp_peer_qstep post os sock a packet p w skip es p' w' :
  udp_peer from_json post os d sock a packet p w = Ret (skip, es, p', w') ->
  peer_qstep d p p' (tun_bytes es).
Proof.
  unfold udp_peer. intros Hu. apply bind_Ret_inv in Hu as ([[r t] w1] & _ & Hu).
  apply bind_Ret_inv in Hu as ([[[sk es1] p1] w2] & Hr & Hu).
  apply (peer_qstep_frame_l d p p' (with_tunnel t p)); [done|].
  assert (peer_qstep d (with_tunnel t p) p1 (tun_bytes es1)) as Hq.
  { destruct r; [by simplify_eq; apply peer_qstep_same|by simplify_eq; apply peer_qstep_same| | |].
    - invert_binds. simplify_eq.
      match goal with H : flush_peer _ _ _ = _ |- _ => apply flush_peer_frame in H as [Ht%to_net_bytes [t1 ->]] end;
        [|done]. unfold tun_bytes in *. csimpl. cbn [to_tun]. rewrite Ht. by apply peer_qstep_same.
    - by eapply deliver_v4_qstep.
    - invert_binds. simplify_eq. by eapply deliver_v6_qstep. }
  destruct sk; [by simplify_eq|]. destruct (use_connected_socket d).
  - invert_binds. simplify_eq.
    match goal with H : connect_endpoint _ _ = _ |- _ => apply connect_endpoint_quota in H as Heq end.
    eapply peer_qstep_frame; [|exact Hq]. by rewrite Heq, set_endpoint_quota.
  - simplify_eq. eapply peer_qstep_frame; [|exact Hq]. apply set_endpoint_quota.
Qed.

Lemma conn_peer_qstep post self pa dg p w skip es p' w' :
  conn_peer from_json post d self pa dg p w = Ret (skip, es, p', w') ->
  peer_qstep d p p' (tun_bytes es).
Proof.
  unfold conn_peer. intros Hu. apply bind_Ret_inv in Hu as ([[r t] w1] & _ & Hu).
  apply (peer_qstep_frame_l d p p' (with_tunnel t p)); [done|].
  destruct r; [by simplify_eq; apply peer_qstep_same|by simplify_eq; apply peer_qstep_same| | |].
  - invert_binds. simplify_eq.
    match goal with H : flush_peer _ _ _ = _ |- _ => apply flush_peer_frame in H as [Ht%to_net_bytes [t1 ->]] end;
      [|done]. unfold tun_bytes in *. csimpl. cbn [to_tun]. rewrite Ht. by apply peer_qstep_same.
  - by eapply deliver_v4_qstep.
  - invert_binds. simplify_eq. by eapply deliver_v6_qstep.
Qed.

Lemma iface_peer_qstep self src p w es p' w' :
  iface_peer d self src p w = Ret (es, p', w') ->
  peer_qstep d p p' (passed (fst (charge d (length src) p)) (length src)).
Proof.
  unfold iface_peer. destruct (charge d (length src) p) as [adm p1] eqn:Ec.
  destruct (charge_qstep d _ _ _ _ Hserver Ec) as [Hq _]. cbn [fst]. intros Hi. destruct adm.
  - by simplify_eq.
  - destruct (ep_addr (endpoint p1)); [|by simplify_eq].
    apply send_payment_required_frame in Hi as [_ [t ->]]. by eapply peer_qstep_frame; [|exact Hq].
  - invert_binds. match goal with H : match ?r with _ => _ end = _ |- _ => destruct r end;
      simplify_eq; by eapply peer_qstep_frame; [|exact Hq].
Qed.

Lemma timer_peer_qstep p w es p' w' :
  timer_peer p w = Ret (es, p', w') -> peer_qstep d p p' 0.
Proof.
  unfold timer_peer. destruct (ep_addr (endpoint p)); [|by intros; simplify_eq; apply peer_qstep_same].
  intros. invert_binds. repeat case_match; simplify_eq; by apply peer_qstep_same.
Qed.

(** ** Runs of one peer

    Between two steps another thread may have changed the shared limiter and the
    time; the rest of the peer is behind its mutex. *)

Definition relock (l : RateLimiter) (p : Peer) : Peer := with_tunnel (with_limiter l (tunnel p)) p.

Inductive peer_step (self : nat) (p : Peer) : Z -> Peer -> Prop :=
| StepUdp post os sock a packet l w skip es p' w' :
    udp_peer from_json post os d sock a packet (relock l p) w = Ret (skip, es, p', w') ->
    peer_step self p (tun_bytes es) p'
| StepConn post pa dg l w skip es p' w' :
    conn_peer from_json post d self pa dg (relock l p) w = Ret (skip, es, p', w') ->
    peer_step self p (tun_bytes es) p'
| StepIface src l w es p' w' :
    iface_peer d self src (relock l p) w = Ret (es, p', w') ->
    peer_step self p (passed (fst (charge d (length src) p)) (length src)) p'
| StepTimer l w es p' w' :
    timer_peer (relock l p) w = Ret (es, p', w') -> peer_step self p 0 p'.

(** [peer_run self p k n p']: [k] steps that let [n] bytes through. *)
Inductive peer_run (self : nat) (p : Peer) : nat -> Z -> Peer -> Prop :=
| RunNil : peer_run self p 0 0 p
| RunSnoc k n m p1 p2 :
    peer_run self p k n p1 -> peer_step self p1 m p2 -> peer_run self p (S k) (n + m) p2.

Lemma peer_step_qstep self p n p' : peer_step self p n p' -> peer_qstep d p p' n.
Proof.
  intros Hs. apply (peer_qstep_frame_l d p p' (with_tunnel (tunnel p) p)); [done|].
  destruct Hs as [post os sock a packet l w skip es p' w' Hu|post pa dg l w skip es p' w' Hc
    |src l w es p' w' Hi|l w es p' w' Ht].
  - apply udp_peer_qstep in Hu. by eapply peer_qstep_frame_l; [|exact Hu].
  - apply conn_peer_qstep in Hc. by eapply peer_qstep_frame_l; [|exact Hc].
  - apply iface_peer_qstep in Hi.
    replace (fst (charge d (length src) (relock l p))) with (fst (charge d (length src) p)) in Hi.
    + by eapply peer_qstep_frame_l; [|exact Hi].
    + unfold charge. rewrite Hserver. cbn [quota relock with_tunnel].
      destruct (quota p) as [q|]; [|done]. destruct (is_blocked q); [done|].
      by destruct (consume _ q).
  - apply timer_peer_qstep in Ht. by eapply peer_qstep_frame_l; [|exact Ht].
Qed.

(** What is let through, charged, granted and paid for after [k] steps. *)
Definition metered (B init : Z) (k : nat) (n : Z) (q : BandwidthQuota) : Prop :=
  accounted (init + B * payment_count q) q /\ n <= total_consumed q
  /\ 0 <= payment_count q <= Z.of_nat k
  /\ payment_count q <= Z.of_nat (size (used_nonces q)).

Lemma qstep_metered B init k n m q q' :
  0 <= B -> 0 <= init -> init + B * Z.of_nat (S k) < 2 ^ 64 -> Z.of_nat (S k) < 2 ^ 64 ->
  qstep B q q' m -> metered B init k n q -> metered B init (S k) (n + m) q'.
Proof.
  intros HB Hi Hb Hk Hs (Ha & Hn & Hc & Hsz).
  destruct Hs as [q' (H1 & H2 & H3 & H4 & H5)|j b q' Hj Hcons|nonce Hfresh].
  - unfold metered, accounted in *. rewrite H1, H2, H3, H4.
    apply subseteq_size in H5. split_and!; try lia; apply Ha.
  - destruct (consume_accounted j q b q' (init + B * payment_count q)) as [Ha' Hd]; try done; [nia|].
    assert (payment_count q' = payment_count q /\ used_nonces q' = used_nonces q) as [Hpc Hun].
    { revert Hcons. unfold consume. repeat case_match; by intros [= <- <-]. }
    unfold metered. rewrite Hpc, Hun. cbn in Hd. split_and!; try done; lia.
  - destruct Ha as (Hr & Ht & Hsum & _). unfold metered, accounted, credit, recorded. cbn.
    rewrite (add64_small (payment_count q)) by lia. rewrite add64_small by nia.
    rewrite size_union, size_singleton by set_solver. split_and!; nia || done.
Qed.

Lemma run_metered self p k n p' init :
  0 <= quota_bytes (payment_config d) -> 0 <= init ->
  init + quota_bytes (payment_config d) * Z.of_nat k < 2 ^ 64 -> Z.of_nat k < 2 ^ 64 ->
  quota p = Some (quota_new init) -> peer_run self p k n p' ->
  exists q', quota p' = Some q' /\ metered (quota_bytes (payment_config d)) init k n q'.
Proof.
  intros HB Hi Hb Hk Hq Hr. induction Hr as [|k n m p1 p2 Hr IH Hs].
  - exists (quota_new init). split; [done|]. unfold metered, accounted. cbn. split_and!; try lia; done.
  - destruct IH as (q1 & Hq1 & Hm); [nia|lia|].
    destruct (peer_step_qstep _ _ _ _ Hs q1 Hq1) as (q2 & Hq2 & Hstep).
    exists q2. split; [done|]. by eapply qstep_metered.
Qed.
End Server.
End Frames.

(** ** The exchange of payment messages *)

Section Exchange.
Context `{C : Crypto} `{CL : !CryptoLaws C} `{E : Env} `{MC : !MonotoneClock E} `{EC : !EpochClock E}.
Context `{Eth : Ethereum} `{EL : !EthereumLaws Eth} `{I : IpCrates} `{IL : !IpLaws I} `{H : Hex}.
Context (from_json : bytes -> result bytes SettleResponse).

Lemma wrap64_range z : u64_range (wrap 64 z).
Proof. apply (wrap_in_width 64). lia. Qed.

(** The amount and the chain of the configuration are [u64]s. *)
Definition config_ok (c : PaymentConfig) : Prop :=
  u64_range (amount_per_quota c) /\ u64_range (cfg_chain_id c).

Lemma required_packet d p w wallet ip :
  payments_ok d -> config_ok (payment_config d) -> payment_wallet d = Some wallet -> first_ipv4 p = Some ip ->
  exists m pk w', payment_required_packet d p w = Ret (Some pk, w') /\ wf_required m
    /\ req_amount_usdc m = amount_per_quota (payment_config d)
    /\ req_nonce m = fst (fill_bytes 32 w) /\ req_recipient m = ethereum_address wallet
    /\ carries PAYMENT_GATEWAY_IP ip (PaymentRequired_encode m) pk.
Proof.
  intros [Hc Hw] [Ha Hch] Ew Eip. unfold payment_required_packet. rewrite Ew, Eip.
  pose proof (length_fill_bytes 32 w) as Hf. destruct (fill_bytes 32 w) as [nonce w1]. cbn [fst] in *.
  destruct (unix_secs_ok w1) as (now & w2 & -> & _). cbn [outcome_bind].
  pose proof (wallet_address_length wallet (Hw wallet Ew)) as Hl.
  match goal with |- context [PaymentRequired_encode ?m] => set (m0 := m) end.
  assert (wf_required m0) as Hwf by (split_and!; try done; apply wrap64_range).
  assert (length (PaymentRequired_encode m0) = 99%nat) as Hlen.
  { unfold PaymentRequired_encode. cbn [m0 req_amount_usdc req_nonce req_recipient req_deadline
      req_chain_id req_usdc_contract]. len. }
  destruct (build_carries PAYMENT_GATEWAY_IP ip (PaymentRequired_encode m0)) as (pk & Hpk);
    [done|by eapply first_ipv4_length|lia|].
  exists m0, pk, w2. rewrite (proj1 Hpk). by split_and!.
Qed.

Lemma submit_packet d p payload req w wallet ip :
  payments_ok d -> payment_wallet d = Some wallet -> first_ipv4 p = Some ip ->
  PaymentRequired_decode payload = Ret (Some req) -> wf_required req ->
  exists s pk w', payment_submit_packet d p payload w = Ret (Some pk, w') /\ wf_submit s
    /\ sub_to s = req_recipient req /\ sub_value s = req_amount_usdc req /\ sub_nonce s = req_nonce req
    /\ verify_authorization (gateway_domain (payment_config d)) (submit_signed s) = Ret (Some (sub_from s))
    /\ carries ip PAYMENT_GATEWAY_IP (PaymentSubmit_encode s) pk.
Proof.
  intros [_ Hw] Ew Eip Hdec (Ham & _ & _ & Hn & Hr & _). unfold payment_submit_packet.
  rewrite Hdec, Ew, Eip. cbn [outcome_bind].
  destruct (unix_secs_ok w) as (now & w1 & -> & _). cbn [outcome_bind].
  specialize (Hw wallet Ew). pose proof (wallet_address_length wallet Hw) as Ha.
  match goal with |- context [sign_digest _ ?dg] =>
    destruct (sign_digest_ok wallet dg) as (v & r & s & -> & Hlr & Hls & Hrec); [apply digest_length|done|]
  end. cbn [outcome_bind].
  match goal with |- context [PaymentSubmit_encode ?m] => set (m0 := m) end.
  assert (wf_submit m0) as Hwf by (split_and!; try done; apply wrap64_range).
  assert (length (PaymentSubmit_encode m0) = 164%nat) as Hlen.
  { unfold PaymentSubmit_encode. cbn [m0 sub_from sub_to sub_value sub_valid_after sub_valid_before
      sub_nonce sub_v sub_r sub_s]. len. }
  destruct (build_carries ip PAYMENT_GATEWAY_IP (PaymentSubmit_encode m0)) as (pk & Hpk);
    [by eapply first_ipv4_length|done|lia|].
  exists m0, pk, w1. rewrite (proj1 Hpk). by split_and!.
Qed.

Lemma deliver_to_gateway post d src tlv pk sock reply p w :
  carries src PAYMENT_GATEWAY_IP tlv pk ->
  deliver_signal from_json post d pk sock reply p w
  = let! a := reply p in handle_payment_submit post from_json d p tlv sock a w.
Proof.
  intros (_ & _ & _ & He & _ & Hd & _). unfold deliver_signal. rewrite He. cbn [outcome_bind].
  rewrite Hd. cbn [outcome_bind]. by rewrite bool_decide_eq_true_2.
Qed.

Lemma deliver_to_client post d dst tlv pk sock reply p w :
  dst <> PAYMENT_GATEWAY_IP -> carries PAYMENT_GATEWAY_IP dst tlv pk ->
  deliver_signal from_json post d pk sock reply p w
  = let! a := reply p in handle_payment_signal_client d p tlv sock a w.
Proof.
  intros Hne (_ & _ & _ & He & Hs & Hd & _). unfold deliver_signal. rewrite He. cbn [outcome_bind].
  rewrite Hd. cbn [outcome_bind]. rewrite bool_decide_eq_false_2 by done. rewrite Hs. cbn [outcome_bind].
  by rewrite bool_decide_eq_true_2.
Qed.

Lemma submission_credited post d q payload q' s :
  submission from_json post d q payload q' -> payment_valid d q payload s -> settled from_json post d s ->
  q' = credit (quota_bytes (payment_config d)) (recorded (sub_nonce s) q).
Proof.
  intros [s' Hv' _|q2 Hno _] Hv Hs; [|by destruct (Hno s Hv)].
  assert (s' = s) as -> by (destruct Hv as (_ & _ & ? & _), Hv' as (_ & _ & ? & _); congruence). done.
Qed.

Lemma client_answers d p m sock a w pk w' :
  payment_submit_packet d p (PaymentRequired_encode m) w = Ret (Some pk, w') ->
  handle_payment_signal_client d p (PaymentRequired_encode m) sock a w = send_encapsulated pk sock a p w'.
Proof.
  intros Hp. unfold handle_payment_signal_client.
  change (PaymentRequired_encode m) with (of_u8 MSG_PAYMENT_REQUIRED :: tail (PaymentRequired_encode m)) at 1.
  cbn iota. rewrite u8_of_u8 by (unfold MSG_PAYMENT_REQUIRED; lia). rewrite Z.eqb_refl, Hp. done.
Qed.


(** C7. The payment exchange completes. When a node asks a peer for payment, the
    signal reaches the client as a payment request; the client answers with a
    signed submission for the same chain and gateway; and the node that receives
    it credits the quota, provided the nonce it drew is fresh and the gateway
    settles. The three packets are what the two sides encapsulate for each
    other. *)
Theorem payment_exchange post ds dc ps pc q ws wc ips ipc sock a w1 w2 w3
    (Hs : payments_ok ds) (Hc : payments_ok dc) (Hcfg : config_ok (payment_config ds))
    (Hdom : gateway_domain (payment_config dc) = gateway_domain (payment_config ds))
    (Hws : payment_wallet ds = Some ws) (Hwc : payment_wallet dc = Some wc)
    (Hips : first_ipv4 ps = Some ipc) (Hipc : first_ipv4 pc = Some ips)
    (Hne : ipc <> PAYMENT_GATEWAY_IP)
    (Hq : quota ps = Some q) (Hi : peer_inv ps w3)
    (Hfresh : fst (fill_bytes 32 w1) ∉ used_nonces q)
    (Hset : forall s, settled from_json post ds s) :
  exists request w1' answer w2' es ps' w3',
    send_payment_required ds ps sock a w1 = send_encapsulated request sock a ps w1'
    /\ is_payment_signal request = Ret true
    /\ deliver_signal from_json post dc request sock (fun _ => Ret a) pc w2
       = send_encapsulated answer sock a pc w2'
    /\ is_payment_signal answer = Ret true
    /\ deliver_signal from_json post ds answer sock (fun _ => Ret a) ps w3 = Ret (es, ps', w3')
    /\ quota ps' = Some (credit (quota_bytes (payment_config ds))
                           (recorded (fst (fill_bytes 32 w1)) q)).
Proof.
  destruct (required_packet ds ps w1 ws ipc Hs Hcfg Hws Hips)
    as (m & pk1 & w1' & E1 & Hm & Ham & Hn & Hr & Hc1).
  pose proof (PaymentRequired_round_trip m [] Hm) as Hd. rewrite app_nil_r in Hd.
  destruct (submit_packet dc pc _ m w2 wc ips Hc Hwc Hipc Hd Hm)
    as (s & pk2 & w2' & E2 & Hwf & Hto & Hval & Hsn & Hver & Hc2).
  pose proof (PaymentSubmit_round_trip s [] Hwf) as Hds. rewrite app_nil_r in Hds.
  destruct (handle_payment_submit_total from_json post ds ps (PaymentSubmit_encode s) sock a w3 Hi)
    as (es & ps' & w3' & E3 & _).
  exists pk1, w1', pk2, w2', es, ps', w3'. split_and!.
  - unfold send_payment_required. by rewrite E1.
  - destruct Hc1 as (_ & _ & -> & _). by rewrite bool_decide_eq_true_2.
  - rewrite (deliver_to_client _ _ _ _ _ _ _ _ _ Hne Hc1). cbn [outcome_bind]. by apply client_answers.
  - destruct Hc2 as (_ & _ & -> & _). rewrite (bool_decide_eq_true_2 (PAYMENT_GATEWAY_IP = _)) by done.
    by rewrite orb_true_r.
  - rewrite (deliver_to_gateway _ _ _ _ _ _ _ _ _ Hc2). exact E3.
  - destruct (submit_quota from_json post ds ps q _ sock a w3 es ps' w3' Hq E3)
      as (_ & q' & t & -> & Hsub). cbn [quota with_tunnel with_quota]. f_equal. rewrite <- Hn, <- Hsn.
    apply (submission_credited _ _ _ _ _ _ Hsub); [|done].
    exists ws. rewrite Hdom in Hver.
    split_and!; [exact Hws|exact Hds|congruence|lia|by rewrite Hsn, Hn|exact Hver].
Qed.

End Exchange.

#[local] Existing Instance toy_crypto.
#[local] Existing Instance toy_laws.
#[local] Existing Instance example_env.
#[local] Existing Instance example_env_monotone.
#[local] Existing Instance example_env_epoch.
#[local] Existing Instance toy_ethereum.
#[local] Existing Instance toy_ethereum_laws.
#[local] Existing Instance toy_ip.
#[local] Existing Instance toy_ip_laws.
#[local] Existing Instance toy_hex.

#[local] Instance quota_eq_dec : EqDecision BandwidthQuota.
Proof. solve_decision. Defined.

(** The peer of the example devices. *)
Definition new_peer (ip : bytes) (p : Peer) : bool :=
  bool_decide (quota p = Some (quota_new DEFAULT_QUOTA_BYTES)) && bool_decide (first_ipv4 p = Some ip).

#[local] Instance config_eq_dec : EqDecision PaymentConfig.
Proof. solve_decision. Defined.

Definition example_cfg (server : bool) : PaymentConfig :=
  match config_default (example_env_var server) with Ret c => c | Panic => example_config end.

Definition example_ready (server : bool) (d : Device) : bool :=
  bool_decide (payment_config d = example_cfg server)
  && match payment_wallet d, heap d !! 1%nat with
     | Some _, Some p => new_peer [x0a; x00; x00; if server then x02 else x01] p
     | _, _ => false
     end.

Lemma example_device server :
  exists es d w p wallet, example_run server = Ret (es, d, w)
    /\ payments_ok d /\ peer_inv p w /\ payment_config d = example_cfg server
    /\ payment_wallet d = Some wallet /\ heap d !! 1%nat = Some p
    /\ quota p = Some (quota_new DEFAULT_QUOTA_BYTES)
    /\ first_ipv4 p = Some [x0a; x00; x00; if server then x02 else x01].
Proof.
  destruct (example_reachable server (example_ready server)) as (es & d & w & Hrun & Hr & Hf);
    [by destruct server; vm_compute|].
  destruct (reachable_inv _ _ _ _ _ Hr) as [s0 Hi].
  apply andb_true_iff in Hf as [Hc%bool_decide_eq_true Hf].
  destruct (payment_wallet d) as [wallet|] eqn:Ew; [|done].
  destruct (heap d !! 1%nat) as [p|] eqn:Ep; [|done].
  apply andb_true_iff in Hf as [Hq%bool_decide_eq_true Hip%bool_decide_eq_true].
  exists es, d, w, p, wallet. split_and!; try done; [apply (di_pay _ _ _ _ Hi)|].
  by apply (ri_heap _ _ (di_refs _ _ _ _ Hi) 1%nat p).
Qed.

Definition example_addr : SocketAddr := mkSocketAddr (V4 [x01; x02; x03; x04]) 51820 0 0.
Definition example_post (_ : bytes) (_ : SettleRequest) : result bytes bytes := Ok [].


Lemma example_settled d s : settled example_from_json example_post d s.
Proof. intros c wl _ _. eexists. by split. Qed.

Lemma payment_exchange_witness :
  exists ds dc w ps pc, heap ds !! 1%nat = Some ps /\ heap dc !! 1%nat = Some pc
  /\ exists request w1' answer w2' es ps' w3',
    send_payment_required ds ps Udp4 example_addr w = send_encapsulated request Udp4 example_addr ps w1'
    /\ is_payment_signal request = Ret true
    /\ deliver_signal example_from_json example_post dc request Udp4 (fun _ => Ret example_addr) pc w
       = send_encapsulated answer Udp4 example_addr pc w2'
    /\ is_payment_signal answer = Ret true
    /\ deliver_signal example_from_json example_post ds answer Udp4 (fun _ => Ret example_addr) ps w
       = Ret (es, ps', w3')
    /\ quota ps' = Some (credit (quota_bytes (payment_config ds))
                           (recorded (fst (fill_bytes 32 w)) (quota_new DEFAULT_QUOTA_BYTES))).
Proof.
  destruct (example_device true) as (es & ds & w & ps & ws & _ & Hs & Hi & Hcs & Hws & Hps & Hq & Hips).
  destruct (example_device false) as (esc & dc & wc' & pc & wc & _ & Hc & _ & Hcc & Hwc & Hpc & _ & Hipc).
  exists ds, dc, w, ps, pc. split; [exact Hps|]. split; [exact Hpc|].
  refine (payment_exchange example_from_json example_post ds dc ps pc _ ws wc _ _ Udp4 example_addr w w w
    Hs Hc _ _ Hws Hwc Hips Hipc _ Hq Hi _ (example_settled ds)).
  - rewrite Hcs. split; by vm_compute.
  - rewrite Hcs, Hcc. by vm_compute.
  - by vm_compute.
  - cbn [quota_new used_nonces]. apply not_elem_of_empty.
Defined.

