(* ===== verification/DeviceRouting.v ===== *)
(** * Cryptokey routing

    What reaches the tunnel interface came from a peer that may use its source
    address, and a packet from the interface leaves through the peer whose allowed
    addresses match its destination best. *)

From Stdlib Require Import ZArith Lia.
From stdpp Require Import base numbers list option gmap.
From S2P Require Import Prelude Errors Clock Packet Crypto Session Handshake RateLimiter Tunnel TunnelRuns IndexLfsr Quota PaymentProtocol RustText NetText Eip3009 Settlement AllowedIps Device DeviceHandlers DeviceTotal DeviceRuns DevicePayments.

Section Routing.
Context `{C : Crypto} `{E : Env} `{Eth : Ethereum} `{I : IpCrates} `{H : Hex}.
Context (from_json : bytes -> result bytes SettleResponse).

(** ** Source addresses of decapsulated packets *)

(** The address that comes with a packet is the one of its header. An IPv4 header
    may claim a length that cuts its own address off. *)
Definition source_of_header (r : TunnResult) : Prop :=
  match r with
  | WriteToTunnelV4 q a => (16 <= length q)%nat -> a = sub q 12 16
  | WriteToTunnelV6 q a => a = sub q 8 24
  | _ => True
  end.

Lemma sub_prefix {A} (q k : list A) i j : (j <= length q)%nat -> sub (q ++ k) i j = sub q i j.
Proof.
  intros Hj. unfold sub. destruct (decide (i <= length q)%nat) as [Hi|Hi].
  - rewrite drop_app_le by done. rewrite take_app_le; [done|]. rewrite length_drop. lia.
  - replace (j - i)%nat with 0%nat by lia. done.
Qed.

Lemma validate_source p t r t' :
  validate_decapsulated_packet p t = Ret (r, t') -> source_of_header r.
Proof.
  intros Hv. destruct (validate_shape p t) as (r0 & t0 & Heq & Hr). rewrite Hv in Heq.
  apply (inj Ret), pair_equal_spec in Heq as [<- _]. destruct r; try done; cbn.
  - destruct Hr as (k & -> & _ & -> & _). intros Hl. by apply sub_prefix.
  - destruct Hr as (k & -> & Hl & -> & _). apply sub_prefix.
    pose proof (from_be_range (sub (packet ++ k) 4 6)) as [Hr0 _]. clear -Hl Hr0. lia.
Qed.

Lemma network_source r : from_network r -> source_of_header r.
Proof. by destruct r. Qed.

Lemma verified_source packet n t w r t' w' :
  handle_verified_packet packet n t w = Ret (r, t', w') -> source_of_header r.
Proof.
  destruct packet as [m|m|m|m]; cbn [handle_verified_packet]; intros Hh.
  - apply bind_Ret_inv in Hh as ([[r0 t0] w0] & Hi & Hh). simplify_eq.
    unfold handle_handshake_init in Hi. invert_binds. by repeat case_match; simplify_eq.
  - apply bind_Ret_inv in Hh as ([[r0 t0] w0] & Hi & Hh). simplify_eq.
    unfold handle_handshake_response in Hi. invert_binds. repeat case_match; simplify_eq; [|done].
    invert_binds. by simplify_eq.
  - unfold handle_cookie_reply in Hh. destruct (receive_cookie_reply _ _) as [[] ?]; by simplify_eq.
  - apply bind_Ret_inv in Hh as ([r0 t0] & Hi & Hh). simplify_eq.
    unfold handle_data in Hi. destruct (session_at _ _); [|by simplify_eq]. invert_binds.
    case_match; [|by simplify_eq]. invert_binds. simplify_eq. by eapply validate_source.
Qed.

Lemma decapsulate_source src dg n t w r t' w' :
  decapsulate src dg n t w = Ret (r, t', w') -> source_of_header r.
Proof.
  unfold decapsulate. case_bool_decide.
  - unfold send_queued_packet. destruct (dequeue_packet t) as [[pk|] t1]; [|by intros; simplify_eq].
    intros Hs. apply bind_Ret_inv in Hs as ([[r0 t0] w0] & He & Hs).
    apply encapsulate_result in He. destruct r0; simplify_eq; done.
  - intros Hd. apply bind_Ret_inv in Hd as ([[v rl] w0] & _ & Hd).
    destruct v as [packet|e]; [by eapply verified_source|].
    destruct e; simplify_eq; try done. invert_binds. by simplify_eq.
Qed.

(** ** What a peer may write *)

Definition may_write (p : Peer) (e : effect) : Prop :=
  match e with
  | SendNet _ _ _ => True
  | WriteTun4 q => exists a, is_allowed_ip (V4 a) p = true /\ ((16 <= length q)%nat -> a = sub q 12 16)
  | WriteTun6 q => is_allowed_ip (V6 (sub q 8 24)) p = true
  end.

Lemma net_may_write p es : to_net es -> Forall (may_write p) es.
Proof.
  induction es as [|[] es IH]; cbn [to_net]; intros Hes; try done.
  apply Forall_cons_2; [done|by apply IH].
Qed.

Lemma signal_to_net post d packet sock reply p w es p' w' :
  deliver_signal from_json post d packet sock reply p w = Ret (es, p', w') -> to_net es.
Proof. by intros [? _]%deliver_signal_qstep. Qed.

Lemma deliver_v4_writes post d pk src sock reply p w skip es p' w' :
  source_of_header (WriteToTunnelV4 pk src) ->
  deliver_v4 from_json post d pk src sock reply p w = Ret (skip, es, p', w') ->
  Forall (may_write p) es.
Proof.
  intros Hsrc Hd. unfold deliver_v4 in Hd. apply bind_Ret_inv in Hd as (sig & _ & Hd). destruct sig.
  { invert_binds. simplify_eq. by eapply net_may_write, signal_to_net. }
  destruct (is_allowed_ip (V4 src) p) eqn:Ea; [|by simplify_eq].
  destruct (charge d (length pk) p) as [adm p1]. destruct adm; [by simplify_eq| |].
  - invert_binds. simplify_eq.
    match goal with Hp : send_payment_required _ _ _ _ _ = _ |- _ =>
      apply send_payment_required_frame in Hp as [? _] end. by apply net_may_write.
  - simplify_eq. repeat constructor. exists src. by split.
Qed.

Lemma deliver_v6_writes d pk src p skip es p' :
  source_of_header (WriteToTunnelV6 pk src) ->
  deliver_v6 d pk src p = (skip, es, p') -> Forall (may_write p) es.
Proof.
  cbn. intros -> Hd. unfold deliver_v6 in Hd.
  destruct (is_allowed_ip (V6 (sub pk 8 24)) p) eqn:Ea; [|by simplify_eq].
  destruct (charge d (length pk) p) as [[] p1]; simplify_eq; by repeat constructor.
Qed.

Lemma flush_writes sock a pk p1 p w es p' w' :
  flush_peer (SendNet sock a) p w = Ret (es, p', w') -> Forall (may_write p1) (SendNet sock a pk :: es).
Proof. intros [? _]%flush_peer_frame; [|done]. constructor; [done|by apply net_may_write]. Qed.

Lemma udp_peer_writes post os d sock a packet p w skip es p' w' :
  udp_peer from_json post os d sock a packet p w = Ret (skip, es, p', w') -> Forall (may_write p) es.
Proof.
  unfold udp_peer. intros Hu. apply bind_Ret_inv in Hu as ([[r t] w1] & Hr & Hu).
  apply verified_source in Hr. apply bind_Ret_inv in Hu as ([[[sk es1] p1] w2] & Hd & Hu).
  assert (es = es1) as ->.
  { destruct sk; [by simplify_eq|]. destruct (use_connected_socket d); invert_binds; by simplify_eq. }
  change (Forall (may_write (with_tunnel t p)) es1). clear Hu. destruct r; [by simplify_eq..| | |].
  - invert_binds. simplify_eq. by eapply flush_writes.
  - by eapply deliver_v4_writes.
  - invert_binds. simplify_eq. by eapply deliver_v6_writes.
Qed.

Lemma conn_peer_writes post d self pa dg p w skip es p' w' :
  conn_peer from_json post d self pa dg p w = Ret (skip, es, p', w') -> Forall (may_write p) es.
Proof.
  unfold conn_peer. intros Hu. apply bind_Ret_inv in Hu as ([[r t] w1] & Hr & Hu).
  apply decapsulate_source in Hr. change (Forall (may_write (with_tunnel t p)) es).
  destruct r; [by simplify_eq..| | |].
  - invert_binds. simplify_eq. by eapply flush_writes.
  - by eapply deliver_v4_writes.
  - invert_binds. simplify_eq. by eapply deliver_v6_writes.
Qed.

Lemma lock_writes r d p : lock_peer r d = Ret p ->
  exists q, heap d !! r = Some q /\ forall es, Forall (may_write p) es -> Forall (may_write q) es.
Proof.
  unfold lock_peer. destruct (heap d !! r) as [q|]; [|done].
  cbn [unwrap outcome_bind]. intros. invert_binds. simplify_eq. exists q. split; [done|]. intros es Hes. eapply Forall_impl; [exact Hes|]. intros [] Hx; exact Hx.
Qed.

(** The peer a datagram was accepted from, or nothing is written. *)
Lemma udp_datagram_writes post os sock a dg d w skip es d' w' :
  udp_datagram from_json post os sock a dg d w = Ret (skip, es, d', w') ->
  to_net es \/ exists r p, heap d !! r = Some p /\ Forall (may_write p) es.
Proof.
  unfold udp_datagram. intros Hu. apply bind_Ret_inv in Hu as ([sk pk] & _ & Hu).
  apply bind_Ret_inv in Hu as (lr & _ & Hu). apply bind_Ret_inv in Hu as (rl & _ & Hu).
  apply bind_Ret_inv in Hu as ([[v rl'] w1] & _ & Hu).
  destruct v as [packet|e]; [|left; destruct e; by simplify_eq].
  apply bind_Ret_inv in Hu as ([r|] & _ & Hu); [|left; by simplify_eq].
  apply bind_Ret_inv in Hu as (p & Hl & Hu). apply bind_Ret_inv in Hu as ([[[sk' es'] p'] w2] & Hp & Hu).
  simplify_eq. right. apply lock_writes in Hl as (q & Hq & Hw). exists r, q. split; [done|].
  by eapply Hw, udp_peer_writes.
Qed.

Lemma conn_datagram_writes post self pa dg d w skip es d' w' :
  conn_datagram from_json post self pa dg d w = Ret (skip, es, d', w') ->
  exists p, heap d !! self = Some p /\ Forall (may_write p) es.
Proof.
  unfold conn_datagram. intros Hu. apply bind_Ret_inv in Hu as (p & Hl & Hu).
  apply bind_Ret_inv in Hu as ([[[sk' es'] p'] w2] & Hp & Hu). simplify_eq.
  apply lock_writes in Hl as (q & Hq & Hw). exists q. split; [done|]. by eapply Hw, conn_peer_writes.
Qed.

(** ** Outgoing packets *)

Lemma iface_peer_sends d self src p w es p' w' :
  iface_peer d self src p w = Ret (es, p', w') -> to_net es.
Proof.
  unfold iface_peer. destruct (charge d (length src) p) as [[] p1]; [by intros; simplify_eq| |].
  - destruct (ep_addr (endpoint p1)); [|by intros; simplify_eq]. by intros [? _]%send_payment_required_frame.
  - intros. invert_binds. unfold send_to_endpoint in *. repeat case_match; by simplify_eq.
Qed.

Lemma iface_packet_routes src d w es d' w' :
  iface_packet src d w = Ret (es, d', w') ->
  (es = [] /\ d' = d)
  \/ exists dst r p, dst_address src = Ret (Some dst)
       /\ allowed_ips_find dst (peers_by_ip d) = Some r
       /\ to_net es /\ heap d' = <[r := p]> (heap d).
Proof.
  unfold iface_packet. intros Hi. apply bind_Ret_inv in Hi as ([dst|] & Hd & Hi); [|left; by simplify_eq].
  destruct (allowed_ips_find dst _) as [r|] eqn:Ef; [|left; by simplify_eq]. right.
  apply bind_Ret_inv in Hi as (p & _ & Hi). apply bind_Ret_inv in Hi as ([[es' p'] w2] & Hp & Hi).
  simplify_eq. exists dst, r, p'. split_and!; try done. by eapply iface_peer_sends.
Qed.


(** ** A blocked peer is silent *)

Definition stopped (d : Device) (p : Peer) : Prop :=
  (forall post pk src sock reply w, is_payment_signal pk = Ret false ->
     exists skip, deliver_v4 from_json post d pk src sock reply p w = Ret (skip, [], p, w))
  /\ (forall pk src, exists skip, deliver_v6 d pk src p = (skip, [], p))
  /\ (forall self src w, iface_peer d self src p w = Ret ([], p, w)).

Lemma blocked_stopped d p q :
  is_server (payment_config d) = true -> quota p = Some q -> is_blocked q = true -> stopped d p.
Proof.
  intros Hs Hq Hb.
  assert (forall n, charge d n p = (Blocked, p)) as Hc by (intros n; unfold charge; by rewrite Hs, Hq, Hb).
  split_and!.
  - intros post pk src sock reply w Hsig. unfold deliver_v4. rewrite Hsig. cbn [outcome_bind].
    rewrite Hc. destruct (is_allowed_ip _ p); by eexists.
  - intros pk src. unfold deliver_v6. rewrite Hc. destruct (is_allowed_ip _ p); by eexists.
  - intros self src w. unfold iface_peer. by rewrite Hc.
Qed.

(** An IPv6 packet can use up a quota without the peer ever being asked to pay:
    the packet that exceeds what remains is dropped with no signal, and from then
    on every packet of the peer, in either direction and of either version, is
    dropped with no signal as well. *)
Theorem v6_exhaustion_silent d p q pk src
    (Hs : is_server (payment_config d) = true) (Hq : quota p = Some q) (Hb : is_blocked q = false)
    (Hr : 0 < remaining_bytes q < Z.of_nat (length pk)) (Ha : is_allowed_ip (V6 src) p = true) :
  exists p', deliver_v6 d pk src p = (true, [], p') /\ stopped d p'.
Proof.
  unfold deliver_v6, charge. rewrite Ha, Hs, Hq, Hb. unfold consume.
  rewrite (proj2 (Z.eqb_neq (remaining_bytes q) 0)) by lia.
  rewrite (proj2 (Z.ltb_lt (remaining_bytes q) (Z.of_nat (length pk)))) by lia.
  eexists. split; [done|]. eapply blocked_stopped; [done|cbn; done|done].
Qed.
End Routing.

#[local] Existing Instance toy_crypto.
#[local] Existing Instance example_env.
#[local] Existing Instance toy_ethereum.
#[local] Existing Instance toy_ip.
#[local] Existing Instance toy_hex.

Definition example_v6 : bytes := replicate 16 x20.
Definition example_v6_peer : Peer :=
  mkPeer (fst (example_tunn x01 x02 1)) 0 1 (mkEndpoint None false)
    (match allowed_ips_from_iter [(mkAllowedIP (V6 example_v6) 128, tt)] with
     | Ret t => t | Panic => allowed_ips_new end)
    None (Some (quota_new 100)).

Lemma v6_exhaustion_silent_witness :
  exists p', deliver_v6 (device_new (mkLfsr 1 1 1) example_config true) (replicate 101 x60) example_v6
               example_v6_peer = (true, [], p')
    /\ stopped example_from_json (device_new (mkLfsr 1 1 1) example_config true) p'.
Proof.
  refine (v6_exhaustion_silent example_from_json _ example_v6_peer (quota_new 100) (replicate 101 x60)
            example_v6 _ _ _ _ _); by vm_compute.
Defined.
